(** * scudb: buffer pool, extendible hash directory, LRU replacer and B+Tree

    A shallow embedding of the storage-engine core of scudb
    (src/hash/extendible_hash.cpp, src/buffer/lru_replacer.cpp,
    src/buffer/buffer_pool_manager.cpp, src/page/b_plus_tree_*.cpp,
    src/index/b_plus_tree.cpp) and the properties its specification
    states about it.

    Conventions.
    - [int], [page_id_t] and [size_t] values are [Z]; no modelled
      computation leaves the range of its C++ type.
    - A [Page *] is the index of the frame in [pages_]; a B+Tree page is
      addressed by its page id.
    - A C++ [assert] that fails, a null or dangling pointer that is
      dereferenced and an array index out of range all end the run:
      the modelled function returns [Abort].  A loop or recursion whose
      bound is not structural takes fuel and returns [NoFuel] when it
      is used up.
    - Latches are not modelled: every function is the sequential
      behaviour of one thread holding the latches it takes. *)

From stdpp Require Import gmap list sorting.
From Stdlib Require Import ZArith Lia.

Open Scope Z_scope.

(** ** Outcomes of a call *)

Inductive res (A : Type) : Type :=
| Val (a : A)
| Abort
| NoFuel.
Arguments Val {A} a.
Arguments Abort {A}.
Arguments NoFuel {A}.

Global Instance res_ret : MRet res := fun A a => Val a.

Global Instance res_bind : MBind res := fun A B f m =>
  match m with
  | Val a => f a
  | Abort => Abort
  | NoFuel => NoFuel
  end.

Definition assert (b : bool) : res unit := if b then Val tt else Abort.

Definition deref {A : Type} (o : option A) : res A :=
  match o with Some a => Val a | None => Abort end.

(** ** LRU replacer (src/buffer/lru_replacer.cpp)

    The doubly linked list between the [head] and [tail] sentinels is
    the list [nodes] of the values of its nodes, first node first; the
    [hashmap] from a value to its node is kept by its key set, the
    node of a key being the node that carries it. *)

Module LRU.
Section Replacer.
Context {T : Type} `{Countable T}.

Record LRUReplacer : Type := mk {
  nodes : list T;
  hashmap : gset T
}.

(** [LRUReplacer()]: [head->next = tail], empty map. *)
Definition empty : LRUReplacer := {| nodes := []; hashmap := ∅ |}.

(** Unlink the node [hashmap[value]] from the list. *)
Fixpoint unlink (value : T) (l : list T) : list T :=
  match l with
  | [] => []
  | x :: l' => if decide (x = value) then l' else x :: unlink value l'
  end.

Definition Insert (value : T) (r : LRUReplacer) : LRUReplacer :=
  let l := if decide (value ∈ hashmap r)
           then unlink value (nodes r)
           else nodes r in
  {| nodes := value :: l; hashmap := {[value]} ∪ hashmap r |}.

(** [Victim]: [None] when [head->next == tail]; otherwise the value
    of [tail->prev] and the replacer without it. *)
Definition Victim (r : LRUReplacer) : option (T * LRUReplacer) :=
  match last (nodes r) with
  | None => None
  | Some v =>
      Some (v, {| nodes := removelast (nodes r);
                  hashmap := hashmap r ∖ {[v]} |})
  end.

Definition Erase (value : T) (r : LRUReplacer) : bool * LRUReplacer :=
  if decide (value ∈ hashmap r)
  then (true, {| nodes := unlink value (nodes r);
                 hashmap := hashmap r ∖ {[value]} |})
  else (false, r).

Definition Size (r : LRUReplacer) : Z := Z.of_nat (size (hashmap r)).

(** The map and the list describe the same values, each once. *)
Definition consistent (r : LRUReplacer) : Prop :=
  NoDup (nodes r) /\ hashmap r = list_to_set (nodes r).

Global Instance consistent_dec (r : LRUReplacer) : Decision (consistent r).
Proof. unfold consistent. apply _. Defined.

Inductive op : Type :=
| OInsert (v : T)
| OErase (v : T)
| OVictim.

Definition step (r : LRUReplacer) (o : op) : LRUReplacer :=
  match o with
  | OInsert v => Insert v r
  | OErase v => snd (Erase v r)
  | OVictim => match Victim r with Some (_, r') => r' | None => r end
  end.

Definition run (ops : list op) : LRUReplacer := fold_left step ops empty.

(** Logical clock: the number of operations performed when the most
    recent [Insert v] completed (0 if [v] was never inserted). *)
Fixpoint stamp_from (n : nat) (ops : list op) (v : T) (acc : nat) : nat :=
  match ops with
  | [] => acc
  | OInsert w :: ops' =>
      stamp_from (S n) ops' v (if decide (w = v) then S n else acc)
  | _ :: ops' => stamp_from (S n) ops' v acc
  end.

Definition stamp (ops : list op) (v : T) : nat := stamp_from 0 ops v 0.

(** [x] was inserted after [y]. *)
Definition later (ops : list op) (x y : T) : Prop :=
  (stamp ops y < stamp ops x)%nat.

End Replacer.
Arguments LRUReplacer T {_ _}.
End LRU.

(** ** Extendible hash table (src/hash/extendible_hash.cpp)

    A [shared_ptr<Bucket>] is the address of the bucket in [heap];
    [make_shared<Bucket>] allocates the next address.  Directory slots
    that hold the same address alias the same bucket. *)

Module EHT.
Section Table.
Context {K : Type} `{Countable K} {V : Type}.
(** [std::hash<K>] *)
Variable HashKey : K -> Z.

Record Bucket : Type := mkBucket {
  localDepth : Z;
  keyMap : gmap K V
}.

Record ExtendibleHash : Type := mk {
  globalDepth : Z;
  bucketNum : Z;
  bucketSize : Z;
  buckets : list nat;
  heap : list Bucket
}.

(** [ExtendibleHash(size)] *)
Definition new (size : Z) : ExtendibleHash :=
  {| globalDepth := 0; bucketNum := 1; bucketSize := size;
     buckets := [0%nat]; heap := [mkBucket 0 ∅] |}.

Definition GetGlobalDepth (t : ExtendibleHash) : Z := globalDepth t.

Definition GetNumBuckets (t : ExtendibleHash) : Z := bucketNum t.

Definition GetLocalDepth (bucket_id : Z) (t : ExtendibleHash) : res Z :=
  if decide (0 <= bucket_id < Z.of_nat (length (buckets t)))
  then a ← deref (buckets t !! Z.to_nat bucket_id);
       b ← deref (heap t !! a);
       Val (localDepth b)
  else Val (-1).

Definition getIdx (key : K) (t : ExtendibleHash) : Z :=
  let hashValue := HashKey key in
  let mask := Z.shiftl 1 (globalDepth t) - 1 in
  Z.land hashValue mask.

(** [buckets[idx]] followed through the pointer *)
Definition bucket_at (idx : Z) (t : ExtendibleHash) : res (nat * Bucket) :=
  a ← deref (buckets t !! Z.to_nat idx);
  b ← deref (heap t !! a);
  Val (a, b).

Definition Find (key : K) (t : ExtendibleHash) : res (option V) :=
  '(_, b) ← bucket_at (getIdx key t) t;
  Val (keyMap b !! key).

Definition Remove (key : K) (t : ExtendibleHash) : res (bool * ExtendibleHash) :=
  '(a, cur) ← bucket_at (getIdx key t) t;
  match keyMap cur !! key with
  | Some _ =>
      let cur' := mkBucket (localDepth cur) (delete key (keyMap cur)) in
      Val (true, mk (globalDepth t) (bucketNum t) (bucketSize t)
                    (buckets t) (<[a := cur']> (heap t)))
  | None => Val (false, t)
  end.

(** The last loop of a split: every slot that holds [cur] and whose
    index has the [mask] bit set is repointed to [newBuc]. *)
Definition repoint (cur newBuc : nat) (mask : Z) (dir : list nat) : list nat :=
  imap (fun i a =>
          if decide (a = cur /\ Z.land (Z.of_nat i) mask <> 0)
          then newBuc else a) dir.

(** One pass of the [while (true)] body of [Insert] on the bucket at
    address [cur]: either the pair is stored ([inl]) or the bucket is
    split and the loop goes on with the bucket the key now maps to
    ([inr]). *)
Definition Insert_body (key : K) (value : V) (cur : nat) (t : ExtendibleHash)
  : res (ExtendibleHash + (nat * ExtendibleHash)) :=
  b ← deref (heap t !! cur);
  if decide (is_Some (keyMap b !! key)
             \/ Z.of_nat (size (keyMap b)) < bucketSize t)
  then
    let b' := mkBucket (localDepth b) (<[key := value]> (keyMap b)) in
    Val (inl (mk (globalDepth t) (bucketNum t) (bucketSize t)
                 (buckets t) (<[cur := b']> (heap t))))
  else
    let mask := Z.shiftl 1 (localDepth b) in
    let ld := localDepth b + 1 in
    let '(dir, gd) :=
      if decide (ld > globalDepth t)
      then (buckets t ++ buckets t, globalDepth t + 1)
      else (buckets t, globalDepth t) in
    let newBuc := length (heap t) in
    let moved := filter (fun kv => Z.land (HashKey kv.1) mask <> 0) (keyMap b) in
    let kept := filter (fun kv => ~ Z.land (HashKey kv.1) mask <> 0) (keyMap b) in
    let heap' := <[cur := mkBucket ld kept]> (heap t) ++ [mkBucket ld moved] in
    let t' := mk gd (bucketNum t + 1) (bucketSize t)
                 (repoint cur newBuc mask dir) heap' in
    a ← deref (buckets t' !! Z.to_nat (getIdx key t'));
    Val (inr (a, t')).

Fixpoint Insert_loop (fuel : nat) (key : K) (value : V) (cur : nat)
    (t : ExtendibleHash) : res ExtendibleHash :=
  match fuel with
  | O => NoFuel
  | S fuel' =>
      r ← Insert_body key value cur t;
      match r with
      | inl t' => Val t'
      | inr (cur', t') => Insert_loop fuel' key value cur' t'
      end
  end.

Definition Insert (fuel : nat) (key : K) (value : V) (t : ExtendibleHash)
  : res ExtendibleHash :=
  cur ← deref (buckets t !! Z.to_nat (getIdx key t));
  Insert_loop fuel key value cur t.

(** [x] and [y] have the same [n] low bits. *)
Definition agree (n x y : Z) : Prop := x mod 2 ^ n = y mod 2 ^ n.

(** The directory between calls: it has [2 ^ globalDepth] slots; a
    slot holds the address of a bucket whose local depth is at most the
    global depth; the slots that hold the same bucket are those whose
    indices have the same [localDepth] low bits; and the hash of a key
    of the bucket has these low bits too. *)
Definition table_ok (t : ExtendibleHash) : Prop :=
  0 <= globalDepth t
  /\ Z.of_nat (length (buckets t)) = 2 ^ globalDepth t
  /\ forall (i a : nat), buckets t !! i = Some a ->
       exists b, heap t !! a = Some b
         /\ 0 <= localDepth b <= globalDepth t
         /\ (forall j : nat, (j < length (buckets t))%nat ->
               (buckets t !! j = Some a
                <-> agree (localDepth b) (Z.of_nat j) (Z.of_nat i)))
         /\ (forall k, is_Some (keyMap b !! k) ->
               agree (localDepth b) (HashKey k) (Z.of_nat i)).

(** No key stored in the table other than [key] has the [B] low bits
    of the hash of [key]. *)
Definition distinct_from (B : Z) (key : K) (t : ExtendibleHash) : Prop :=
  Forall (fun b => map_Forall (fun k _ => k = key
                                 \/ ~ agree B (HashKey k) (HashKey key))
                              (keyMap b)) (heap t).

Global Instance agree_dec (n x y : Z) : Decision (agree n x y).
Proof. unfold agree. apply _. Defined.

Global Instance distinct_from_dec (B : Z) (key : K) (t : ExtendibleHash)
  : Decision (distinct_from B key t).
Proof. unfold distinct_from. apply _. Defined.

End Table.
Arguments Bucket K {_ _} V.
Arguments ExtendibleHash K {_ _} V.

(** The split scenario: a table of [int] keys under the identity hash
    ([std::hash<int>]) with [bucket_size = 2]; the keys 0, 1, 2 are
    inserted in that order. *)
Definition insert_0_1_2 {V : Type} (fuel : nat) (v0 v1 v2 : V)
  : res (ExtendibleHash Z V) :=
  t1 ← Insert (fun x => x) fuel 0 v0 (new 2);
  t2 ← Insert (fun x => x) fuel 1 v1 t1;
  Insert (fun x => x) fuel 2 v2 t2.
End EHT.

(** ** Buffer pool manager (src/buffer/buffer_pool_manager.cpp)

    [pages_] is the list of frames and a [Page *] the index of a frame
    in it.  [replacer_] is the LRU replacer above, over frame indices. *)

Module BPM.

Definition INVALID_PAGE_ID : Z := -1.

Section Pool.
Context {Data : Type}.
(** The buffer a frame holds after [ResetMemory]. *)
Variable zero_data : Data.

Record Page : Type := mkPage {
  page_id : Z;
  pin_count : Z;
  is_dirty : bool;
  data : Data
}.

(** Modelled from the spec: the Disk Manager is an external
    collaborator whose code is not part of the sources.  It is the
    content of every disk page, the next id [allocate_page] hands out
    (ids increase), and the list of calls it has received, oldest
    first. *)
Inductive DiskCall : Type :=
| WritePage (p : Z) (d : Data)
| ReadPage (p : Z)
| AllocatePage (p : Z)
| DeallocatePage (p : Z).

Record DiskManager : Type := mkDisk {
  contents : gmap Z Data;
  next_page_id : Z;
  calls : list DiskCall
}.

Definition disk_write (p : Z) (d : Data) (dm : DiskManager) : DiskManager :=
  mkDisk (<[p := d]> (contents dm)) (next_page_id dm) (calls dm ++ [WritePage p d]).

Definition disk_read (p : Z) (dm : DiskManager) : Data * DiskManager :=
  (default zero_data (contents dm !! p),
   mkDisk (contents dm) (next_page_id dm) (calls dm ++ [ReadPage p])).

Definition disk_allocate (dm : DiskManager) : Z * DiskManager :=
  (next_page_id dm,
   mkDisk (contents dm) (next_page_id dm + 1)
          (calls dm ++ [AllocatePage (next_page_id dm)])).

Definition disk_deallocate (p : Z) (dm : DiskManager) : DiskManager :=
  mkDisk (contents dm) (next_page_id dm) (calls dm ++ [DeallocatePage p]).

(** Modelled from the spec: [page_table_] is an [ExtendibleHash<page_id_t,
    Page *>] reached only through [Find], [Insert] and [Remove] of the
    [HashTable] interface; it is kept as the finite map those calls
    maintain ([insert] is an upsert, [remove] deletes a present key). *)
Record BufferPoolManager : Type := mk {
  pages : list Page;
  page_table : gmap Z nat;
  replacer : LRU.LRUReplacer nat;
  free_list : list nat;
  disk : DiskManager
}.

(** [BufferPoolManager(pool_size, disk_manager)] *)
Definition new (pool_size : nat) (dm : DiskManager) : BufferPoolManager :=
  {| pages := replicate pool_size (mkPage INVALID_PAGE_ID 0 false zero_data);
     page_table := ∅;
     replacer := LRU.empty;
     free_list := seq 0 pool_size;
     disk := dm |}.

Definition GetVictimPage (s : BufferPoolManager)
  : res (option nat * BufferPoolManager) :=
  match free_list s with
  | page :: rest =>
      p ← deref (pages s !! page);
      _ ← assert (bool_decide (page_id p = INVALID_PAGE_ID));
      _ ← assert (bool_decide (pin_count p = 0));
      Val (Some page, mk (pages s) (page_table s) (replacer s) rest (disk s))
  | [] =>
      if bool_decide (LRU.Size (replacer s) = 0)
      then Val (None, s)
      else
        match LRU.Victim (replacer s) with
        | Some (page, r') =>
            p ← deref (pages s !! page);
            _ ← assert (bool_decide (pin_count p = 0));
            Val (Some page, mk (pages s) (page_table s) r' [] (disk s))
        | None => Abort
        end
  end.

Definition FetchPage (pid : Z) (s : BufferPoolManager)
  : res (option nat * BufferPoolManager) :=
  match page_table s !! pid with
  | Some target =>
      p ← deref (pages s !! target);
      let p' := mkPage (page_id p) (pin_count p + 1) (is_dirty p) (data p) in
      Val (Some target,
           mk (<[target := p']> (pages s)) (page_table s)
              (LRU.Erase target (replacer s)).2 (free_list s) (disk s))
  | None =>
      '(victim, s1) ← GetVictimPage s;
      match victim with
      | None => Val (None, s1)
      | Some target =>
          p ← deref (pages s1 !! target);
          let d1 := if is_dirty p
                    then disk_write (page_id p) (data p) (disk s1)
                    else disk s1 in
          let pt1 := delete (page_id p) (page_table s1) in
          let '(buf, d2) := disk_read pid d1 in
          let p' := mkPage pid 1 false buf in
          Val (Some target,
               mk (<[target := p']> (pages s1)) (<[pid := target]> pt1)
                  (replacer s1) (free_list s1) d2)
      end
  end.

(** [UnpinPage] of project2. *)
Definition UnpinPage (pid : Z) (dirty : bool) (s : BufferPoolManager)
  : res (bool * BufferPoolManager) :=
  match page_table s !! pid with
  | None => Val (false, s)
  | Some target =>
      p ← deref (pages s !! target);
      let d := is_dirty p || dirty in
      _ ← assert (bool_decide (pin_count p > 0));
      let pc := pin_count p - 1 in
      let r := if bool_decide (pc = 0)
               then LRU.Insert target (replacer s) else replacer s in
      Val (true,
           mk (<[target := mkPage (page_id p) pc d (data p)]> (pages s))
              (page_table s) r (free_list s) (disk s))
  end.

(** [UnpinPage] of project1 (the copy of buffer_pool_manager.cpp that
    follows lru_replacer.cpp). *)
Definition UnpinPage_project1 (pid : Z) (dirty : bool) (s : BufferPoolManager)
  : res (bool * BufferPoolManager) :=
  match page_table s !! pid with
  | None => Val (false, s)
  | Some target =>
      p ← deref (pages s !! target);
      let d := dirty in
      if bool_decide (pin_count p <= 0)
      then Val (false,
                mk (<[target := mkPage (page_id p) (pin_count p) d (data p)]> (pages s))
                   (page_table s) (replacer s) (free_list s) (disk s))
      else
        let pc := pin_count p - 1 in
        let r := if bool_decide (pc = 0)
                 then LRU.Insert target (replacer s) else replacer s in
        Val (true,
             mk (<[target := mkPage (page_id p) pc d (data p)]> (pages s))
                (page_table s) r (free_list s) (disk s))
  end.

Definition FlushPage (pid : Z) (s : BufferPoolManager)
  : res (bool * BufferPoolManager) :=
  match page_table s !! pid with
  | None => Val (false, s)
  | Some target =>
      p ← deref (pages s !! target);
      _ ← assert (bool_decide (page_id p <> INVALID_PAGE_ID));
      if is_dirty p
      then Val (true,
                mk (<[target := mkPage (page_id p) (pin_count p) false (data p)]> (pages s))
                   (page_table s) (replacer s) (free_list s)
                   (disk_write pid (data p) (disk s)))
      else Val (true, s)
  end.

Definition DeletePage (pid : Z) (s : BufferPoolManager)
  : res (bool * BufferPoolManager) :=
  match page_table s !! pid with
  | Some target =>
      p ← deref (pages s !! target);
      if bool_decide (pin_count p > 0)
      then Val (false, s)
      else
        Val (true,
             mk (<[target := mkPage INVALID_PAGE_ID (pin_count p) false zero_data]> (pages s))
                (delete pid (page_table s))
                (LRU.Erase target (replacer s)).2
                (free_list s ++ [target])
                (disk_deallocate pid (disk s)))
  | None =>
      Val (true,
           mk (pages s) (page_table s) (replacer s) (free_list s)
              (disk_deallocate pid (disk s)))
  end.

Definition NewPage (s : BufferPoolManager)
  : res (option (nat * Z) * BufferPoolManager) :=
  '(victim, s1) ← GetVictimPage s;
  match victim with
  | None => Val (None, s1)
  | Some target =>
      p ← deref (pages s1 !! target);
      let d1 := if is_dirty p
                then disk_write (page_id p) (data p) (disk s1)
                else disk s1 in
      let pt1 := delete (page_id p) (page_table s1) in
      let '(pid, d2) := disk_allocate d1 in
      Val (Some (target, pid),
           mk (<[target := mkPage pid 1 false zero_data]> (pages s1))
              (<[pid := target]> pt1) (replacer s1) (free_list s1) d2)
  end.

(** Frames named by the page table, the free list and the replacer
    exist, and the replacer's list and map agree. *)
Definition well_formed (s : BufferPoolManager) : Prop :=
  map_Forall (fun _ f => (f < length (pages s))%nat) (page_table s)
  /\ Forall (fun f => (f < length (pages s))%nat) (free_list s)
  /\ Forall (fun f => (f < length (pages s))%nat) (LRU.nodes (replacer s))
  /\ LRU.consistent (replacer s).

Definition frame_is (P : Page -> Prop) (s : BufferPoolManager) (f : nat) : Prop :=
  match pages s !! f with
  | Some p => P p
  | None => True
  end.

(** The invariant of [get_victim]: a frame on the free list or in the
    replacer is unpinned, and a free frame holds no page. *)
Definition victims_unpinned (s : BufferPoolManager) : Prop :=
  Forall (frame_is (fun p => page_id p = INVALID_PAGE_ID /\ pin_count p = 0) s)
         (free_list s)
  /\ Forall (frame_is (fun p => pin_count p = 0) s) (LRU.nodes (replacer s)).

Global Instance well_formed_dec (s : BufferPoolManager) : Decision (well_formed s).
Proof. unfold well_formed. apply _. Defined.

Global Instance frame_is_dec (P : Page -> Prop) `{forall p, Decision (P p)}
    (s : BufferPoolManager) (f : nat) : Decision (frame_is P s f).
Proof. unfold frame_is. destruct (pages s !! f); apply _. Defined.

Global Instance victims_unpinned_dec (s : BufferPoolManager)
  : Decision (victims_unpinned s).
Proof. unfold victims_unpinned. apply _. Defined.

(** The frame [get_victim] hands out: the head of the free list, or
    else the tail of the replacer. *)
Definition victim_of (s : BufferPoolManager) : option nat :=
  match free_list s with
  | f :: _ => Some f
  | [] => last (LRU.nodes (replacer s))
  end.

(** The state a pool is in between two calls: besides [well_formed]
    and [victims_unpinned], the frame the page table gives for a page
    holds that page and is not on the free list, no pin count is
    negative, the free list names a frame once, and no frame of the
    replacer is on the free list. *)
Definition pool_ok (s : BufferPoolManager) : Prop :=
  well_formed s /\ victims_unpinned s
  /\ map_Forall (fun pid f => frame_is (fun p => page_id p = pid) s f
                               /\ f ∉ free_list s) (page_table s)
  /\ Forall (fun p => 0 <= pin_count p) (pages s)
  /\ NoDup (free_list s)
  /\ Forall (fun f => f ∉ free_list s) (LRU.nodes (replacer s)).

(** [pool_ok] for callers that fetch only pages the disk manager has
    allocated: the resident page ids lie below the next id of the disk
    manager, and a frame of the replacer is the frame the page table
    gives for the page it holds. *)
Definition pool_strict (s : BufferPoolManager) : Prop :=
  pool_ok s /\ 0 <= next_page_id (disk s)
  /\ map_Forall (fun pid _ => 0 <= pid < next_page_id (disk s)) (page_table s)
  /\ Forall (fun f => frame_is (fun p => page_table s !! page_id p = Some f) s f)
            (LRU.nodes (replacer s)).

Global Instance pool_ok_dec (s : BufferPoolManager) : Decision (pool_ok s).
Proof. unfold pool_ok. apply _. Defined.

Global Instance pool_strict_dec (s : BufferPoolManager) : Decision (pool_strict s).
Proof. unfold pool_strict. apply _. Defined.

(** The calls of the interface, and a pool driven by a list of them. *)
Inductive op : Type :=
| OFetch (pid : Z)
| OUnpin (pid : Z) (dirty : bool)
| OFlush (pid : Z)
| ODelete (pid : Z)
| ONew.

Definition step (o : op) (s : BufferPoolManager) : res BufferPoolManager :=
  match o with
  | OFetch pid => r ← FetchPage pid s; Val r.2
  | OUnpin pid dirty => r ← UnpinPage pid dirty s; Val r.2
  | OFlush pid => r ← FlushPage pid s; Val r.2
  | ODelete pid => r ← DeletePage pid s; Val r.2
  | ONew => r ← NewPage s; Val r.2
  end.

Fixpoint run (ops : list op) (s : BufferPoolManager) : res BufferPoolManager :=
  match ops with
  | [] => Val s
  | o :: rest => s' ← step o s; run rest s'
  end.

(** The calls whose assertion fails: [UnpinPage] of a resident page
    that is not pinned, and [FlushPage] of a resident page whose id is
    [INVALID_PAGE_ID]. *)
Definition misuse (o : op) (s : BufferPoolManager) : Prop :=
  match o with
  | OUnpin pid _ =>
      exists f p, page_table s !! pid = Some f /\ pages s !! f = Some p
                  /\ pin_count p = 0
  | OFlush pid => pid = INVALID_PAGE_ID /\ is_Some (page_table s !! pid)
  | _ => False
  end.

(** The calls of a caller that fetches only allocated pages and unpins
    only pages that are pinned. *)
Definition legal (o : op) (s : BufferPoolManager) : Prop :=
  match o with
  | OFetch pid => 0 <= pid < next_page_id (disk s)
  | OUnpin pid _ =>
      match page_table s !! pid with
      | Some f => frame_is (fun p => pin_count p > 0) s f
      | None => True
      end
  | _ => True
  end.

Fixpoint legal_run (ops : list op) (s : BufferPoolManager) : Prop :=
  match ops with
  | [] => True
  | o :: rest =>
      legal o s
      /\ match step o s with
         | Val s' => legal_run rest s'
         | _ => True
         end
  end.

Global Instance legal_dec (o : op) (s : BufferPoolManager) : Decision (legal o s).
Proof.
  destruct o; simpl; try apply _.
  destruct (page_table s !! pid); apply _.
Defined.

Global Instance legal_run_dec (ops : list op) (s : BufferPoolManager)
  : Decision (legal_run ops s).
Proof.
  revert s. induction ops as [|o rest IH]; intros s; simpl; [apply _|].
  destruct (step o s); apply _.
Defined.

(** What a call leaves of the pinned pages: a page that was resident
    and pinned is resident in the same frame with the same buffer, its
    pin count lowered by one at most. *)
Definition pins_kept (s s' : BufferPoolManager) : Prop :=
  forall pid f p,
    page_table s !! pid = Some f -> pages s !! f = Some p -> pin_count p > 0 ->
    page_table s' !! pid = Some f
    /\ exists p', pages s' !! f = Some p' /\ page_id p' = pid
         /\ data p' = data p /\ pin_count p - 1 <= pin_count p'.

End Pool.
Arguments Page Data : clear implicits.
Arguments DiskCall Data : clear implicits.
Arguments DiskManager Data : clear implicits.
Arguments BufferPoolManager Data : clear implicits.

(** Two pools over integer buffers.  [full_pool]: two frames, both in
    the replacer, page 5 (dirty) the least recently unpinned; it is the
    pool after [FetchPage 5], [UnpinPage 5 true], [FetchPage 6],
    [UnpinPage 6 false] on a new pool of two frames.  [shared_pool]: one
    frame holding page 1, pinned twice; it is the pool after two
    [FetchPage 1] on a new pool of one frame. *)
Definition full_pool : BufferPoolManager Z :=
  mk [mkPage 5 0 true 0; mkPage 6 0 false 0]
     {[5 := 0%nat; 6 := 1%nat]}
     (LRU.mk [1%nat; 0%nat] {[0%nat; 1%nat]})
     []
     (mkDisk ∅ 0 [ReadPage 5; ReadPage 6]).

Definition shared_pool : BufferPoolManager Z :=
  mk [mkPage 1 2 false 0] {[1 := 0%nat]} LRU.empty []
     (mkDisk ∅ 0 [ReadPage 1]).

(** [pinned_pool]: two frames; page 0 is pinned in frame 0, page 1
    (dirty) waits in the replacer in frame 1.  It is the pool after
    [NewPage], [NewPage], [UnpinPage 1 true] on a new pool of two
    frames. *)
Definition pinned_pool : BufferPoolManager Z :=
  mk [mkPage 0 1 false 0; mkPage 1 0 true 0]
     {[0 := 0%nat; 1 := 1%nat]}
     (LRU.mk [1%nat] {[1%nat]})
     []
     (mkDisk ∅ 2 [AllocatePage 0; AllocatePage 1]).

End BPM.

(** ** B+Tree pages (src/page/b_plus_tree_page.cpp,
       b_plus_tree_leaf_page.cpp, b_plus_tree_internal_page.cpp)

    A page is its header fields and the list of the first [size_] slots
    of its [array]; [GetSize] is the length of that list and
    [SetSize]/[IncreaseSize] shorten or extend it.  Reading a slot at
    or beyond [size_] (an [assert] in [KeyAt], [ValueAt], [GetItem]; a
    stale slot elsewhere) returns [Abort].  Keys are [GenericKey]s
    ordered by their integer value, which is what [GenericComparator]
    compares; the value type of a leaf is [RID], the only one the tree
    is instantiated with. *)

Module BPT.

Definition INVALID_PAGE_ID : Z := -1.

Inductive OperationType : Type := READ | INSERT | DELETE.

Record RID : Type := mkRID { rid_page_id : Z; rid_slot_num : Z }.

Global Instance RID_eq_dec : EqDecision RID.
Proof. solve_decision. Defined.

(** [comparator(a, b)]: negative, zero or positive. *)
Definition comparator (a b : Z) : Z :=
  match a ?= b with
  | Lt => -1
  | Eq => 0
  | Gt => 1
  end.

Record LeafPage : Type := mkLeaf {
  l_max_size : Z;
  l_parent_page_id : Z;
  l_page_id : Z;
  next_page_id : Z;
  l_array : list (Z * RID)
}.

Record InternalPage : Type := mkInternal {
  i_max_size : Z;
  i_parent_page_id : Z;
  i_page_id : Z;
  i_array : list (Z * Z)
}.

(** The content of a frame seen through [BPlusTreePage *]: the
    constructor is [page_type_]. *)
Inductive Page : Type :=
| Leaf (l : LeafPage)
| Internal (n : InternalPage).

(** *** b_plus_tree_page.cpp *)

Definition IsLeafPage (p : Page) : bool :=
  match p with Leaf _ => true | Internal _ => false end.

Definition GetParentPageId (p : Page) : Z :=
  match p with
  | Leaf l => l_parent_page_id l
  | Internal n => i_parent_page_id n
  end.

Definition SetParentPageId (parent_page_id : Z) (p : Page) : Page :=
  match p with
  | Leaf l => Leaf (mkLeaf (l_max_size l) parent_page_id (l_page_id l)
                           (next_page_id l) (l_array l))
  | Internal n => Internal (mkInternal (i_max_size n) parent_page_id
                                       (i_page_id n) (i_array n))
  end.

Definition GetPageId (p : Page) : Z :=
  match p with
  | Leaf l => l_page_id l
  | Internal n => i_page_id n
  end.

Definition IsRootPage (p : Page) : bool :=
  bool_decide (GetParentPageId p = INVALID_PAGE_ID).

Definition GetSize (p : Page) : Z :=
  match p with
  | Leaf l => Z.of_nat (length (l_array l))
  | Internal n => Z.of_nat (length (i_array n))
  end.

Definition GetMaxSize (p : Page) : Z :=
  match p with
  | Leaf l => l_max_size l
  | Internal n => i_max_size n
  end.

Definition GetMinSize (p : Page) : Z :=
  if IsRootPage p
  then (if IsLeafPage p then 1 else 2)
  else GetMaxSize p ÷ 2.

Definition IsSafeOperation (operation : OperationType) (p : Page) : bool :=
  match operation with
  | READ => true
  | INSERT => bool_decide (GetSize p < GetMaxSize p)
  | DELETE =>
      let minSize := GetMinSize p + 1 in
      if IsLeafPage p
      then bool_decide (GetSize p >= minSize)
      else bool_decide (GetSize p > minSize)
  end.

(** [array[index]] for a valid slot. *)
Definition slot {A : Type} (array : list A) (index : Z) : res A :=
  if bool_decide (0 <= index < Z.of_nat (length array))
  then deref (array !! Z.to_nat index)
  else Abort.

(** The loops that open a gap at [index] and store [x] there. *)
Definition insert_at {A : Type} (index : Z) (x : A) (array : list A) : list A :=
  take (Z.to_nat index) array ++ x :: drop (Z.to_nat index) array.

(** The keys of [array] ascend strictly. *)
Definition sorted_keys {A : Type} (array : list (Z * A)) : Prop :=
  StronglySorted Z.lt array.*1.

(** [memmove]/loop that closes the gap at [index]. *)
Definition remove_at {A : Type} (index : Z) (array : list A) : list A :=
  take (Z.to_nat index) array ++ drop (S (Z.to_nat index)) array.

(** *** b_plus_tree_leaf_page.cpp *)

Module Leaf.

(** [max_size] is [(PAGE_SIZE - sizeof(BPlusTreeLeafPage)) /
    sizeof(MappingType) - 1]. *)
Definition Init (max_size page_id parent_id : Z) : LeafPage :=
  mkLeaf max_size parent_id page_id INVALID_PAGE_ID [].

Definition with_array (array : list (Z * RID)) (l : LeafPage) : LeafPage :=
  mkLeaf (l_max_size l) (l_parent_page_id l) (l_page_id l) (next_page_id l) array.

Definition SetNextPageId (next : Z) (l : LeafPage) : LeafPage :=
  mkLeaf (l_max_size l) (l_parent_page_id l) (l_page_id l) next (l_array l).

Definition GetSize (l : LeafPage) : Z := Z.of_nat (length (l_array l)).

(** The binary search of [KeyIndex]; it halves [end - start] at every
    pass, so [fuel] above the size is never used up. *)
Fixpoint KeyIndex_loop (fuel : nat) (key : Z) (array : list (Z * RID))
    (start end_ : Z) : Z :=
  match fuel with
  | O => end_ + 1
  | S fuel' =>
      if bool_decide (start <= end_)
      then
        let mid := (end_ - start) ÷ 2 + start in
        match array !! Z.to_nat mid with
        | Some (k, _) =>
            if bool_decide (comparator k key >= 0)
            then KeyIndex_loop fuel' key array start (mid - 1)
            else KeyIndex_loop fuel' key array (mid + 1) end_
        | None => end_ + 1
        end
      else end_ + 1
  end.

Definition KeyIndex (key : Z) (l : LeafPage) : Z :=
  KeyIndex_loop (S (length (l_array l))) key (l_array l) 0 (GetSize l - 1).

Definition KeyAt (index : Z) (l : LeafPage) : res Z :=
  kv ← slot (l_array l) index; Val kv.1.

Definition GetItem (index : Z) (l : LeafPage) : res (Z * RID) :=
  slot (l_array l) index.

Definition Insert (key : Z) (value : RID) (l : LeafPage) : res LeafPage :=
  let idxToInsert := KeyIndex key l in
  _ ← assert (bool_decide (idxToInsert >= 0));
  Val (with_array (insert_at idxToInsert (key, value) (l_array l)) l).

(** [MoveHalfTo]: the slots [idxToCopy .. max_size] go to [recipient];
    the pair returned is (this page, recipient). *)
Definition MoveHalfTo (recipient : LeafPage) (l : LeafPage)
  : res (LeafPage * LeafPage) :=
  let totalSize := l_max_size l + 1 in
  let idxToCopy := totalSize ÷ 2 in
  _ ← assert (bool_decide (0 <= totalSize <= GetSize l));
  let moved := take (Z.to_nat (totalSize - idxToCopy))
                    (drop (Z.to_nat idxToCopy) (l_array l)) in
  let recipient1 := SetNextPageId (next_page_id l) recipient in
  let l1 := SetNextPageId (l_page_id recipient) l in
  Val (with_array (take (Z.to_nat idxToCopy) (l_array l)) l1,
       with_array moved recipient1).

Definition Lookup (key : Z) (l : LeafPage) : option RID :=
  let idxToFind := KeyIndex key l in
  let pageSize := GetSize l in
  if bool_decide (idxToFind >= 0 /\ idxToFind < pageSize)
  then
    match l_array l !! Z.to_nat idxToFind with
    | Some (k, v) => if bool_decide (comparator k key = 0) then Some v else None
    | None => None
    end
  else None.

Definition RemoveAndDeleteRecord (key : Z) (l : LeafPage) : res LeafPage :=
  let firstIdxLargerEqualThanKey := KeyIndex key l in
  let pageSize := GetSize l in
  if bool_decide (firstIdxLargerEqualThanKey >= pageSize)
  then Val l
  else
    k ← KeyAt firstIdxLargerEqualThanKey l;
    if bool_decide (comparator key k <> 0)
    then Val l
    else Val (with_array (remove_at firstIdxLargerEqualThanKey (l_array l)) l).

(** [MoveAllTo]: the pair returned is (this page, recipient). *)
Definition MoveAllTo (recipient : LeafPage) (l : LeafPage)
  : LeafPage * LeafPage :=
  (with_array [] l,
   with_array (l_array recipient ++ l_array l)
              (SetNextPageId (next_page_id l) recipient)).

Definition CopyLastFrom (item : Z * RID) (l : LeafPage) : res LeafPage :=
  _ ← assert (bool_decide (GetSize l < l_max_size l));
  Val (with_array (l_array l ++ [item]) l).

Definition CopyFirstFrom_array (item : Z * RID) (l : LeafPage) : LeafPage :=
  with_array (item :: l_array l) l.

End Leaf.

(** *** b_plus_tree_internal_page.cpp *)

Module Internal.

(** [max_size] is [(PAGE_SIZE - sizeof(BPlusTreeInternalPage)) /
    sizeof(MappingType) - 1]. *)
Definition Init (max_size page_id parent_id : Z) : InternalPage :=
  mkInternal max_size parent_id page_id [].

Definition with_array (array : list (Z * Z)) (n : InternalPage) : InternalPage :=
  mkInternal (i_max_size n) (i_parent_page_id n) (i_page_id n) array.

Definition GetSize (n : InternalPage) : Z := Z.of_nat (length (i_array n)).

Definition KeyAt (index : Z) (n : InternalPage) : res Z :=
  kv ← slot (i_array n) index; Val kv.1.

Definition SetKeyAt (index : Z) (key : Z) (n : InternalPage) : res InternalPage :=
  kv ← slot (i_array n) index;
  Val (with_array (<[Z.to_nat index := (key, kv.2)]> (i_array n)) n).

Definition ValueAt (index : Z) (n : InternalPage) : res Z :=
  kv ← slot (i_array n) index; Val kv.2.

Fixpoint ValueIndex_from (i : Z) (value : Z) (array : list (Z * Z)) : Z :=
  match array with
  | [] => -1
  | kv :: rest =>
      if bool_decide (value = kv.2) then i
      else ValueIndex_from (i + 1) value rest
  end.

Definition ValueIndex (value : Z) (n : InternalPage) : Z :=
  ValueIndex_from 0 value (i_array n).

(** The binary search of [Lookup] over the keys of slots
    [1 .. size - 1]. *)
Fixpoint Lookup_loop (fuel : nat) (key : Z) (array : list (Z * Z))
    (start end_ : Z) : Z :=
  match fuel with
  | O => start
  | S fuel' =>
      if bool_decide (start <= end_)
      then
        let mid := (end_ - start) ÷ 2 + start in
        match array !! Z.to_nat mid with
        | Some (k, _) =>
            if bool_decide (comparator k key <= 0)
            then Lookup_loop fuel' key array (mid + 1) end_
            else Lookup_loop fuel' key array start (mid - 1)
        | None => start
        end
      else start
  end.

Definition Lookup (key : Z) (n : InternalPage) : res Z :=
  let pageSize := GetSize n in
  _ ← assert (bool_decide (pageSize > 1));
  let start := Lookup_loop (S (length (i_array n))) key (i_array n) 1 (pageSize - 1) in
  ValueAt (start - 1) n.

(** The page is fresh from [NewPage], whose [ResetMemory] left the
    key of slot 0 zero. *)
Definition PopulateNewRoot (old_value new_key new_value : Z) (n : InternalPage)
  : InternalPage :=
  with_array [(match i_array n with kv :: _ => kv.1 | [] => 0 end, old_value);
              (new_key, new_value)] n.

Definition InsertNodeAfter (old_value new_key new_value : Z) (n : InternalPage)
  : res InternalPage :=
  let indexPosToInsert := ValueIndex old_value n + 1 in
  _ ← assert (bool_decide (indexPosToInsert > 0));
  Val (with_array (insert_at indexPosToInsert (new_key, new_value) (i_array n)) n).

Definition Remove (index : Z) (n : InternalPage) : res InternalPage :=
  _ ← assert (bool_decide (0 <= index < GetSize n));
  Val (with_array (remove_at index (i_array n)) n).

Definition RemoveAndReturnOnlyChild (n : InternalPage) : res (Z * InternalPage) :=
  r ← ValueAt 0 n;
  Val (r, with_array (take (Z.to_nat (GetSize n - 1)) (i_array n)) n).

Definition CopyLastFrom (pair : Z * Z) (n : InternalPage) : res InternalPage :=
  _ ← assert (bool_decide (GetSize n < i_max_size n));
  Val (with_array (i_array n ++ [pair]) n).

End Internal.

(** *** The index and its transaction (src/index/b_plus_tree.cpp)

    [pages] is what [buffer_pool_manager_->FetchPage] returns for each
    page id: pins and latches are not modelled, the pool is large
    enough for every fetch, and [DeletePage] of an unpinned page drops
    the page.  [next_id] is the id the disk manager allocates next and
    [header_record] the record of [index_name_] in the header page. *)

Record Transaction : Type := mkTxn {
  page_set : list Z;
  deleted_page_set : gset Z
}.

Record BPlusTree : Type := mkTree {
  root_page_id : Z;
  pages : gmap Z Page;
  next_id : Z;
  header_record : option Z
}.

Definition IsEmpty (t : BPlusTree) : bool :=
  bool_decide (root_page_id t = INVALID_PAGE_ID).

Definition put (page_id : Z) (p : Page) (t : BPlusTree) : BPlusTree :=
  mkTree (root_page_id t) (<[page_id := p]> (pages t)) (next_id t) (header_record t).

Definition set_root (root : Z) (t : BPlusTree) : BPlusTree :=
  mkTree root (pages t) (next_id t) (header_record t).

(** [BPlusTree::FetchPage] *)
Definition FetchPage (page_id : Z) (t : BPlusTree) : res Page :=
  deref (pages t !! page_id).

(** A fetched page used as a leaf, as an internal page. *)
Definition FetchLeaf (page_id : Z) (t : BPlusTree) : res LeafPage :=
  p ← FetchPage page_id t;
  match p with Leaf l => Val l | Internal _ => Abort end.

Definition FetchInternal (page_id : Z) (t : BPlusTree) : res InternalPage :=
  p ← FetchPage page_id t;
  match p with Internal n => Val n | Leaf _ => Abort end.

Definition NewPage (t : BPlusTree) : Z * BPlusTree :=
  (next_id t, mkTree (root_page_id t) (pages t) (next_id t + 1) (header_record t)).

Definition DeletePage (page_id : Z) (t : BPlusTree) : BPlusTree :=
  mkTree (root_page_id t) (delete page_id (pages t)) (next_id t) (header_record t).

Definition UpdateRootPageId (t : BPlusTree) : BPlusTree :=
  mkTree (root_page_id t) (pages t) (next_id t) (Some (root_page_id t)).

Definition AddIntoPageSet (page_id : Z) (txn : option Transaction)
  : option Transaction :=
  x ← txn; Some (mkTxn (page_set x ++ [page_id]) (deleted_page_set x)).

Definition AddIntoDeletedPageSet (page_id : Z) (txn : option Transaction)
  : res (option Transaction) :=
  x ← deref txn;
  Val (Some (mkTxn (page_set x) ({[page_id]} ∪ deleted_page_set x))).

(** Fetch the child, set its parent, unpin it dirty. *)
Definition set_parent (child parent : Z) (t : BPlusTree) : res BPlusTree :=
  p ← FetchPage child t;
  Val (put child (SetParentPageId parent p) t).

Fixpoint reparent (children : list Z) (parent : Z) (t : BPlusTree)
  : res BPlusTree :=
  match children with
  | [] => Val t
  | c :: rest => t1 ← set_parent c parent t; reparent rest parent t1
  end.

Definition put_internal_array (page_id : Z) (array : list (Z * Z)) (t : BPlusTree)
  : res BPlusTree :=
  n ← FetchInternal page_id t;
  Val (put page_id (Internal (Internal.with_array array n)) t).

(** [BPlusTreeInternalPage::MoveHalfTo] *)
Definition Internal_MoveHalfTo (recipient this : Z) (t : BPlusTree)
  : res BPlusTree :=
  n ← FetchInternal this t;
  r ← FetchInternal recipient t;
  let curSize := Internal.GetSize n in
  let mid := curSize ÷ 2 in
  let recipientPageId := i_page_id r in
  let moved := drop (Z.to_nat mid) (i_array n) in
  t1 ← reparent moved.*2 recipientPageId t;
  t2 ← put_internal_array this (take (Z.to_nat mid) (i_array n)) t1;
  put_internal_array recipient moved t2.

(** [BPlusTreeInternalPage::MoveAllTo] *)
Definition Internal_MoveAllTo (recipient : Z) (index_in_parent : Z) (this : Z)
    (t : BPlusTree) : res BPlusTree :=
  n ← FetchInternal this t;
  parent ← FetchInternal (i_parent_page_id n) t;
  k ← Internal.KeyAt index_in_parent parent;
  n1 ← Internal.SetKeyAt 0 k n;
  let t1 := put this (Internal n1) t in
  r ← FetchInternal recipient t1;
  let recipientPageId := i_page_id r in
  t2 ← reparent (i_array n1).*2 recipientPageId t1;
  t3 ← put_internal_array recipient (i_array r ++ i_array n1) t2;
  put_internal_array this [] t3.

(** [BPlusTreeInternalPage::MoveFirstToEndOf] *)
Definition Internal_MoveFirstToEndOf (recipient this : Z) (t : BPlusTree)
  : res BPlusTree :=
  n ← FetchInternal this t;
  k0 ← Internal.KeyAt 0 n;
  v0 ← Internal.ValueAt 0 n;
  let n1 := Internal.with_array (drop 1 (i_array n)) n in
  let t1 := put this (Internal n1) t in
  r ← FetchInternal recipient t1;
  r1 ← Internal.CopyLastFrom (k0, v0) r;
  let t2 := put recipient (Internal r1) t1 in
  t3 ← set_parent v0 (i_page_id r1) t2;
  n2 ← FetchInternal this t3;
  parent ← FetchInternal (i_parent_page_id n2) t3;
  first ← Internal.KeyAt 0 n2;
  parent1 ← Internal.SetKeyAt (Internal.ValueIndex (i_page_id n2) parent) first parent;
  Val (put (i_parent_page_id n2) (Internal parent1) t3).

(** [BPlusTreeInternalPage::MoveLastToFrontOf] with [CopyFirstFrom] *)
Definition Internal_MoveLastToFrontOf (recipient : Z) (parent_index : Z) (this : Z)
    (t : BPlusTree) : res BPlusTree :=
  n ← FetchInternal this t;
  let lastIdx := Internal.GetSize n - 1 in
  k ← Internal.KeyAt lastIdx n;
  v ← Internal.ValueAt lastIdx n;
  let n1 := Internal.with_array (take (Z.to_nat lastIdx) (i_array n)) n in
  let t1 := put this (Internal n1) t in
  r ← FetchInternal recipient t1;
  let r1 := Internal.with_array ((k, v) :: i_array r) r in
  let t2 := put recipient (Internal r1) t1 in
  t3 ← set_parent v (i_page_id r1) t2;
  r2 ← FetchInternal recipient t3;
  parent ← FetchInternal (i_parent_page_id r2) t3;
  first ← Internal.KeyAt 0 r2;
  parent1 ← Internal.SetKeyAt parent_index first parent;
  Val (put (i_parent_page_id r2) (Internal parent1) t3).

(** [BPlusTreeLeafPage::MoveFirstToEndOf] *)
Definition Leaf_MoveFirstToEndOf (recipient this : Z) (t : BPlusTree)
  : res BPlusTree :=
  l ← FetchLeaf this t;
  pair ← Leaf.GetItem 0 l;
  let l1 := Leaf.with_array (drop 1 (l_array l)) l in
  let t1 := put this (Leaf l1) t in
  r ← FetchLeaf recipient t1;
  r1 ← Leaf.CopyLastFrom pair r;
  let t2 := put recipient (Leaf r1) t1 in
  l2 ← FetchLeaf this t2;
  parent ← FetchInternal (l_parent_page_id l2) t2;
  first ← Leaf.KeyAt 0 l2;
  parent1 ← Internal.SetKeyAt (Internal.ValueIndex (l_page_id l2) parent) first parent;
  Val (put (l_parent_page_id l2) (Internal parent1) t2).

(** [BPlusTreeLeafPage::MoveLastToFrontOf] with [CopyFirstFrom] *)
Definition Leaf_MoveLastToFrontOf (recipient : Z) (parentIndex : Z) (this : Z)
    (t : BPlusTree) : res BPlusTree :=
  l ← FetchLeaf this t;
  lastPair ← Leaf.GetItem (Leaf.GetSize l - 1) l;
  let l1 := Leaf.with_array (take (Z.to_nat (Leaf.GetSize l - 1)) (l_array l)) l in
  let t1 := put this (Leaf l1) t in
  r ← FetchLeaf recipient t1;
  let r1 := Leaf.CopyFirstFrom_array lastPair r in
  let t2 := put recipient (Leaf r1) t1 in
  parent ← FetchInternal (l_parent_page_id r1) t2;
  first ← Leaf.KeyAt 0 r1;
  parent1 ← Internal.SetKeyAt parentIndex first parent;
  Val (put (l_parent_page_id r1) (Internal parent1) t2).

Section Index.
(** The capacities [Init] derives from [PAGE_SIZE] and the sizes of
    the header and of a slot, for leaf and for internal pages. *)
Variables leaf_max_size internal_max_size : Z.

(** One step of the loop of [FreePagesInTransaction]. *)
Definition free_page (acc : BPlusTree * gset Z) (currentPageId : Z)
  : BPlusTree * gset Z :=
  let '(t, deleted) := acc in
  if decide (currentPageId ∈ deleted)
  then (DeletePage currentPageId t, deleted ∖ {[currentPageId]})
  else (t, deleted).

Definition FreePagesInTransaction (exclusive : bool)
    (txn : option Transaction) (curPageId : Z) (t : BPlusTree)
  : res (BPlusTree * option Transaction) :=
  match txn with
  | None => Val (t, None)
  | Some x =>
      let '(t1, deleted) :=
        fold_left free_page (page_set x) (t, deleted_page_set x) in
      _ ← assert (bool_decide (deleted = ∅));
      Val (t1, Some (mkTxn [] deleted))
  end.

Definition CrabingProtocalFetchPage (page_id : Z) (op : OperationType)
    (previous : Z) (txn : option Transaction) (t : BPlusTree)
  : res (Page * BPlusTree * option Transaction) :=
  let exclusive := match op with READ => false | _ => true end in
  treePage ← FetchPage page_id t;
  '(t1, txn1) ←
    (if bool_decide (previous > 0) && (negb exclusive || IsSafeOperation op treePage)
     then FreePagesInTransaction exclusive txn previous t
     else Val (t, txn));
  Val (treePage, t1, AddIntoPageSet page_id txn1).

(** The loop of [FindLeafPage]; the result is the page id of the leaf
    reached. *)
Fixpoint FindLeafPage_loop (fuel : nat) (key : Z) (leftMost : bool)
    (op : OperationType) (pagePointer : Page) (curPageId : Z)
    (txn : option Transaction) (t : BPlusTree)
  : res (Z * BPlusTree * option Transaction) :=
  match pagePointer with
  | Leaf _ => Val (curPageId, t, txn)
  | Internal internalPage =>
      match fuel with
      | O => NoFuel
      | S fuel' =>
          nextPageId ← (if leftMost then Internal.ValueAt 0 internalPage
                        else Internal.Lookup key internalPage);
          '(page, t1, txn1) ←
            CrabingProtocalFetchPage nextPageId op curPageId txn t;
          FindLeafPage_loop fuel' key leftMost op page nextPageId txn1 t1
      end
  end.

(** [None] is [nullptr], the result on an empty tree. *)
Definition FindLeafPage (fuel : nat) (key : Z) (leftMost : bool)
    (op : OperationType) (txn : option Transaction) (t : BPlusTree)
  : res (option Z * BPlusTree * option Transaction) :=
  if IsEmpty t then Val (None, t, txn)
  else
    '(page, t1, txn1) ←
      CrabingProtocalFetchPage (root_page_id t) op (-1) txn t;
    '(leaf, t2, txn2) ←
      FindLeafPage_loop fuel key leftMost op page (root_page_id t) txn1 t1;
    Val (Some leaf, t2, txn2).

(** [GetValue]: [result] is the caller's vector, [v0] a
    default-constructed [ValueType] for [resize]. *)
Definition GetValue (fuel : nat) (key : Z) (result : list RID) (v0 : RID)
    (txn : option Transaction) (t : BPlusTree)
  : res (bool * list RID * BPlusTree * option Transaction) :=
  '(leafPage, t1, txn1) ← FindLeafPage fuel key false READ txn t;
  match leafPage with
  | None => Val (false, result, t1, txn1)
  | Some leaf =>
      l ← FetchLeaf leaf t1;
      let result1 := match result with r :: _ => r | [] => v0 end in
      let pageId := l_page_id l in
      '(t2, txn2) ← FreePagesInTransaction false txn1 pageId t1;
      match Leaf.Lookup key l with
      | Some v => Val (true, [v], t2, txn2)
      | None => Val (false, [result1], t2, txn2)
      end
  end.

Definition StartNewTree (key : Z) (value : RID) (t : BPlusTree)
  : res BPlusTree :=
  let '(rootPageId, t1) := NewPage t in
  let rootPagePointer := Leaf.Init leaf_max_size rootPageId INVALID_PAGE_ID in
  let t2 := UpdateRootPageId (set_root rootPageId t1) in
  l ← Leaf.Insert key value rootPagePointer;
  Val (put rootPageId (Leaf l) t2).

(** [Split]: the result is the id of the new page. *)
Definition Split (pagePointer : Z) (txn : option Transaction) (t : BPlusTree)
  : res (Z * BPlusTree * option Transaction) :=
  _ ← assert (bool_decide (is_Some txn));
  p ← FetchPage pagePointer t;
  let '(newPageId, t1) := NewPage t in
  let txn1 := AddIntoPageSet newPageId txn in
  match p with
  | Leaf l =>
      let newPagePointer := Leaf.Init leaf_max_size newPageId (l_parent_page_id l) in
      '(l1, r1) ← Leaf.MoveHalfTo newPagePointer l;
      Val (newPageId, put newPageId (Leaf r1) (put pagePointer (Leaf l1) t1), txn1)
  | Internal n =>
      let newPagePointer :=
        Internal.Init internal_max_size newPageId (i_parent_page_id n) in
      t2 ← Internal_MoveHalfTo newPageId pagePointer
             (put newPageId (Internal newPagePointer) t1);
      Val (newPageId, t2, txn1)
  end.

Fixpoint InsertIntoParent (fuel : nat) (old_node : Z) (key : Z) (new_node : Z)
    (txn : option Transaction) (t : BPlusTree)
  : res (BPlusTree * option Transaction) :=
  _ ← assert (bool_decide (is_Some txn));
  old ← FetchPage old_node t;
  new ← FetchPage new_node t;
  if IsRootPage old
  then
    let '(newRootId, t0) := NewPage t in
    let t1 := set_root newRootId t0 in
    let newRoot :=
      Internal.PopulateNewRoot (GetPageId old) key (GetPageId new)
        (Internal.Init internal_max_size newRootId INVALID_PAGE_ID) in
    let t2 := put newRootId (Internal newRoot) t1 in
    t3 ← set_parent old_node newRootId t2;
    t4 ← set_parent new_node newRootId t3;
    Val (UpdateRootPageId t4, txn)
  else
    let parentId := GetParentPageId old in
    parent ← FetchInternal parentId t;
    t1 ← set_parent new_node parentId t;
    parent0 ← FetchInternal parentId t1;
    parent1 ← Internal.InsertNodeAfter (GetPageId old) key (GetPageId new) parent0;
    let t2 := put parentId (Internal parent1) t1 in
    if bool_decide (Internal.GetSize parent1 > i_max_size parent1)
    then
      match fuel with
      | O => NoFuel
      | S fuel' =>
          '(newLeafPage, t3, txn3) ← Split parentId txn t2;
          n ← FetchInternal newLeafPage t3;
          firstKey ← Internal.KeyAt 0 n;
          InsertIntoParent fuel' parentId firstKey newLeafPage txn3 t3
      end
    else Val (t2, txn).

Definition InsertIntoLeaf (fuel : nat) (key : Z) (value : RID)
    (txn : option Transaction) (t : BPlusTree)
  : res (bool * BPlusTree * option Transaction) :=
  '(leafPage, t1, txn1) ← FindLeafPage fuel key false INSERT txn t;
  leaf ← deref leafPage;
  l ← FetchLeaf leaf t1;
  match Leaf.Lookup key l with
  | Some _ =>
      '(t2, txn2) ← FreePagesInTransaction true txn1 (-1) t1;
      Val (false, t2, txn2)
  | None =>
      l1 ← Leaf.Insert key value l;
      let t2 := put leaf (Leaf l1) t1 in
      '(t3, txn3) ←
        (if bool_decide (Leaf.GetSize l1 > l_max_size l1)
         then
           '(newLeafPage, t', txn') ← Split leaf txn1 t2;
           r ← FetchLeaf newLeafPage t';
           firstKey ← Leaf.KeyAt 0 r;
           InsertIntoParent fuel leaf firstKey newLeafPage txn' t'
         else Val (t2, txn1));
      '(t4, txn4) ← FreePagesInTransaction true txn3 (-1) t3;
      Val (true, t4, txn4)
  end.

Definition Insert (fuel : nat) (key : Z) (value : RID)
    (txn : option Transaction) (t : BPlusTree)
  : res (bool * BPlusTree * option Transaction) :=
  if IsEmpty t
  then t1 ← StartNewTree key value t; Val (true, t1, txn)
  else InsertIntoLeaf fuel key value txn t.

Definition AdjustRoot (old_root_node : Z) (t : BPlusTree)
  : res (bool * BPlusTree) :=
  old ← FetchPage old_root_node t;
  match old with
  | Leaf l =>
      _ ← assert (bool_decide (l_parent_page_id l = INVALID_PAGE_ID));
      _ ← assert (bool_decide (Leaf.GetSize l = 0));
      Val (true, UpdateRootPageId (set_root INVALID_PAGE_ID t))
  | Internal oldRoot =>
      if bool_decide (Internal.GetSize oldRoot = 1)
      then
        '(newRootId, oldRoot1) ← Internal.RemoveAndReturnOnlyChild oldRoot;
        let t1 := put old_root_node (Internal oldRoot1) t in
        let t2 := UpdateRootPageId (set_root newRootId t1) in
        t3 ← set_parent newRootId INVALID_PAGE_ID t2;
        Val (true, t3)
      else Val (false, t)
  end.

(** [FindLeftSibling]: the flag says that the sibling is the right
    one; the sibling is returned by its page id. *)
Definition FindLeftSibling (node : Z) (txn : option Transaction) (t : BPlusTree)
  : res (bool * Z * BPlusTree * option Transaction) :=
  p ← FetchPage node t;
  parentPagePointer ← FetchInternal (GetParentPageId p) t;
  let idx := Internal.ValueIndex (GetPageId p) parentPagePointer in
  let siblingIndex := if bool_decide (idx = 0) then idx + 1 else idx - 1 in
  siblingId ← Internal.ValueAt siblingIndex parentPagePointer;
  '(sibling, t1, txn1) ← CrabingProtocalFetchPage siblingId DELETE (-1) txn t;
  _ ← assert (bool_decide (IsLeafPage sibling = IsLeafPage p));
  Val (bool_decide (idx = 0), siblingId, t1, txn1).

Definition Redistribute (neighbor_node node : Z) (index : Z) (t : BPlusTree)
  : res BPlusTree :=
  p ← FetchPage neighbor_node t;
  match p with
  | Leaf _ =>
      if bool_decide (index = 0)
      then Leaf_MoveFirstToEndOf node neighbor_node t
      else Leaf_MoveLastToFrontOf node index neighbor_node t
  | Internal _ =>
      if bool_decide (index = 0)
      then Internal_MoveFirstToEndOf node neighbor_node t
      else Internal_MoveLastToFrontOf node index neighbor_node t
  end.

(** [node->MoveAllTo(neighbor_node, index, buffer_pool_manager_)] *)
Definition MoveAllTo (neighbor_node : Z) (index : Z) (node : Z) (t : BPlusTree)
  : res BPlusTree :=
  p ← FetchPage node t;
  match p with
  | Leaf l =>
      r ← FetchLeaf neighbor_node t;
      let '(l1, r1) := Leaf.MoveAllTo r l in
      Val (put neighbor_node (Leaf r1) (put node (Leaf l1) t))
  | Internal _ => Internal_MoveAllTo neighbor_node index node t
  end.

(** [CoalesceOrRedistribute] and, in its merge branch, [Coalesce],
    which calls it back on the parent. *)
Fixpoint CoalesceOrRedistribute (fuel : nat) (node : Z)
    (txn : option Transaction) (t : BPlusTree)
  : res (bool * BPlusTree * option Transaction) :=
  p ← FetchPage node t;
  if IsRootPage p
  then
    '(OldRootNeedDelete, t1) ← AdjustRoot node t;
    if OldRootNeedDelete : bool
    then txn1 ← AddIntoDeletedPageSet (GetPageId p) txn; Val (true, t1, txn1)
    else Val (false, t1, txn)
  else
    '(isRightNode, nearNode, t1, txn1) ← FindLeftSibling node txn t;
    parentPage ← FetchInternal (GetParentPageId p) t1;
    p1 ← FetchPage node t1;
    near ← FetchPage nearNode t1;
    if bool_decide (GetSize p1 + GetSize near <= GetMaxSize p1)
    then
      let '(node', nearNode') :=
        if isRightNode : bool then (nearNode, node) else (node, nearNode) in
      pn ← FetchPage node' t1;
      let removeIndex := Internal.ValueIndex (GetPageId pn) parentPage in
      (* Coalesce(nearNode', node', parentPage, removeIndex) *)
      _ ← assert (bool_decide (is_Some txn1));
      t2 ← MoveAllTo nearNode' removeIndex node' t1;
      txn2 ← AddIntoDeletedPageSet (GetPageId pn) txn1;
      parent0 ← FetchInternal (GetParentPageId p) t2;
      parent1 ← Internal.Remove removeIndex parent0;
      let t3 := put (GetParentPageId p) (Internal parent1) t2 in
      if bool_decide (Internal.GetSize parent1 <= GetMinSize (Internal parent1))
      then
        match fuel with
        | O => NoFuel
        | S fuel' =>
            '(_, t4, txn4) ←
              CoalesceOrRedistribute fuel' (GetParentPageId p) txn2 t3;
            Val (true, t4, txn4)
        end
      else Val (true, t3, txn2)
    else
      let nodeInParentIndex := Internal.ValueIndex (GetPageId p1) parentPage in
      t2 ← Redistribute nearNode node nodeInParentIndex t1;
      Val (false, t2, txn1).

Definition Remove (fuel : nat) (key : Z) (txn : option Transaction)
    (t : BPlusTree) : res (BPlusTree * option Transaction) :=
  if IsEmpty t then Val (t, txn)
  else
    '(leafPage, t1, txn1) ← FindLeafPage fuel key false DELETE txn t;
    pageToDeleteItem ← deref leafPage;
    l ← FetchLeaf pageToDeleteItem t1;
    l1 ← Leaf.RemoveAndDeleteRecord key l;
    let t2 := put pageToDeleteItem (Leaf l1) t1 in
    '(t3, txn3) ←
      (if bool_decide (Leaf.GetSize l1 < GetMinSize (Leaf l1))
       then
         '(_, t', txn') ← CoalesceOrRedistribute fuel pageToDeleteItem txn1 t2;
         Val (t', txn')
       else Val (t2, txn1));
    FreePagesInTransaction true txn3 (-1) t3.

End Index.

(** An empty index (the disk manager has handed out the header page
    only) and a transaction that has latched nothing. *)
Definition empty_tree : BPlusTree := mkTree INVALID_PAGE_ID ∅ 1 None.

Definition fresh_txn : option Transaction := Some (mkTxn [] ∅).

Definition rid_of (k : Z) : RID := mkRID k 0.

(** *** Well-formed indexes

    The invariant of the index is stated with a description of the
    tree that the pages do not store: the depth of every page, the
    depth [height] of the leaves, and for every page the bounds
    [lower <= key < upper] of the keys below it ([None]: unbounded). *)

Record Shape : Type := mkShape {
  height : nat;
  depth : Z -> nat;
  lower : Z -> option Z;
  upper : Z -> option Z
}.

Definition above (lo : option Z) (k : Z) : Prop :=
  match lo with Some a => a <= k | None => True end.

Definition strictly_above (lo : option Z) (k : Z) : Prop :=
  match lo with Some a => a < k | None => True end.

Definition below (k : Z) (hi : option Z) : Prop :=
  match hi with Some b => k < b | None => True end.

Definition in_range (g : Shape) (q : Z) (k : Z) : Prop :=
  above (lower g q) k /\ below k (upper g q).

(** While [InsertIntoParent old key new] is pending, the slot of [old]
    in its parent still spans the keys of both pages. *)
Definition upper_seen (g : Shape) (X : option (Z * Z)) (c : Z) : option Z :=
  match X with
  | Some (old, new) => if decide (c = old) then upper g new else upper g c
  | None => upper g c
  end.

(** The key of the slot after slot [i], or else the bound of the page. *)
Definition next_key (array : list (Z * Z)) (i : nat) (hi : option Z) : option Z :=
  match array !! S i with
  | Some kc => Some kc.1
  | None => hi
  end.

Definition parent_of (t : BPlusTree) (c : Z) : option Z :=
  GetParentPageId <$> pages t !! c.

Definition is_child (t : BPlusTree) (P c : Z) : Prop :=
  exists n, pages t !! P = Some (Internal n) /\ c ∈ (i_array n).*2.

Section Wf.
Variables leaf_max_size internal_max_size : Z.
(** Pages scheduled for deletion, the pending [InsertIntoParent], the
    page that may be below its minimum size. *)
Variable D : gset Z.
Variable X : option (Z * Z).
Variable U : option Z.
Variable g : Shape.
Variable t : BPlusTree.

Definition leaf_ok (q : Z) (l : LeafPage) : Prop :=
  l_page_id l = q /\ l_max_size l = leaf_max_size
  /\ depth g q = height g
  /\ sorted_keys (l_array l)
  /\ (forall x, x ∈ l_array l -> in_range g q x.1)
  /\ Z.of_nat (length (l_array l)) <= leaf_max_size.

Definition child_ok (q : Z) (n : InternalPage) (i : nat) (kc : Z * Z) : Prop :=
  (kc.2 ∉ D)
  /\ parent_of t kc.2 = Some q
  /\ depth g kc.2 = S (depth g q)
  /\ lower g kc.2 = (if decide (i = 0%nat) then lower g q else Some kc.1)
  /\ upper_seen g X kc.2 = next_key (i_array n) i (upper g q).

(** An internal page of at most [bound] slots; [InsertNodeAfter]
    leaves [max_size + 1] slots until [Split] has run. *)
Definition internal_ok_upto (bound : Z) (q : Z) (n : InternalPage) : Prop :=
  i_page_id n = q /\ i_max_size n = internal_max_size
  /\ (depth g q < height g)%nat
  /\ sorted_keys (drop 1 (i_array n))
  /\ (forall x, x ∈ drop 1 (i_array n) ->
        strictly_above (lower g q) x.1 /\ below x.1 (upper g q))
  /\ Z.of_nat (length (i_array n)) <= bound
  /\ (forall a, lower g q = Some a -> fst <$> head (i_array n) = Some a)
  /\ (forall i kc, i_array n !! i = Some kc -> child_ok q n i kc).

Definition internal_ok (q : Z) (n : InternalPage) : Prop :=
  internal_ok_upto internal_max_size q n.

Definition attached (q : Z) (p : Page) : Prop :=
  q = root_page_id t
  \/ (exists old, X = Some (old, q))
  \/ ((GetParentPageId p ∉ D) /\ is_child t (GetParentPageId p) q).

Definition page_ok (q : Z) (p : Page) : Prop :=
  0 < q < next_id t
  /\ attached q p
  /\ match p with
     | Leaf l => leaf_ok q l
     | Internal n => internal_ok q n
     end.

Definition root_ok : Prop :=
  (root_page_id t ∉ D)
  /\ parent_of t (root_page_id t) = Some INVALID_PAGE_ID
  /\ depth g (root_page_id t) = 0%nat
  /\ lower g (root_page_id t) = None
  /\ upper_seen g X (root_page_id t) = None.

Definition pending_ok : Prop :=
  match X with
  | None => True
  | Some (old, new) =>
      (old ∉ D) /\ (new ∉ D) /\ old <> new
      /\ is_Some (pages t !! old)
      /\ parent_of t new = parent_of t old
      /\ depth g new = depth g old
      /\ (forall P, ~ is_child t P new)
      /\ exists sep, lower g new = Some sep /\ upper g old = Some sep
           /\ strictly_above (lower g old) sep /\ below sep (upper g new)
  end.

Definition core : Prop :=
  root_ok /\ pending_ok
  /\ forall q p, pages t !! q = Some p -> q ∉ D -> page_ok q p.

(** Lower bounds on sizes; the page [U] may be one entry short. *)
Definition size_ok (q : Z) (p : Page) : Prop :=
  match p with
  | Leaf l =>
      if decide (q = root_page_id t)
      then U = Some q \/ (1 <= length (l_array l))%nat
      else leaf_max_size ÷ 2
           <= Z.of_nat (length (l_array l)) + (if decide (U = Some q) then 1 else 0)
  | Internal n =>
      if decide (U = Some q) then (1 <= length (i_array n))%nat
      else (2 <= length (i_array n))%nat
  end.

Definition sizes : Prop :=
  forall q p, pages t !! q = Some p -> q ∉ D -> size_ok q p.

End Wf.

(** The invariant of an index between two operations: an empty index
    has no page; otherwise every page of the store is a page of one
    balanced search tree of height [h] under the root. *)
Definition wf (leaf_max_size internal_max_size : Z) (h : nat) (t : BPlusTree) : Prop :=
  0 < next_id t
  /\ if IsEmpty t then pages t = ∅
     else exists g, height g = h
          /\ core leaf_max_size internal_max_size ∅ None g t
          /\ sizes leaf_max_size ∅ None t.

(** A transaction, if any, with no page scheduled for deletion. *)
Definition clean (txn : option Transaction) : Prop :=
  match txn with
  | Some x => deleted_page_set x = ∅
  | None => True
  end.

(** The pairs stored in the leaves that are not scheduled for deletion. *)
Definition entry (D : gset Z) (t : BPlusTree) (key : Z) (value : RID) : Prop :=
  exists L l, (L ∉ D) /\ pages t !! L = Some (Leaf l) /\ (key, value) ∈ l_array l.

(** The entries a page of the store holds as a leaf. *)
Definition leaf_entries (o : option Page) : option (list (Z * RID)) :=
  match o with
  | Some (Leaf l) => Some (l_array l)
  | _ => None
  end.

(** The description of the tree after [right] has been merged into its
    left sibling, after the boundary between two siblings has moved to
    [sep], and after the root has been replaced by its only child. *)
Definition merge_shape (left right : Z) (g : Shape) : Shape :=
  mkShape (height g) (depth g) (lower g)
    (fun q => if decide (q = left) then upper g right else upper g q).

Definition shift_shape (left right : Z) (sep : Z) (g : Shape) : Shape :=
  mkShape (height g) (depth g)
    (fun q => if decide (q = right) then Some sep else lower g q)
    (fun q => if decide (q = left) then Some sep else upper g q).

Definition collapse_shape (g : Shape) : Shape :=
  mkShape (pred (height g)) (fun q => pred (depth g q)) (lower g) (upper g).

(** The slots of an internal page of depth [d] that spans the keys
    from [lo] to [hi], without the parent fields of its children. *)
Definition slots_ok (D : gset Z) (g : Shape) (lo hi : option Z) (d : nat)
    (array : list (Z * Z)) : Prop :=
  sorted_keys (drop 1 array)
  /\ (forall x, x ∈ drop 1 array -> strictly_above lo x.1 /\ below x.1 hi)
  /\ (forall a, lo = Some a -> fst <$> head array = Some a)
  /\ (forall (i : nat) kc, array !! i = Some kc ->
        (kc.2 ∉ D) /\ depth g kc.2 = S d
        /\ lower g kc.2 = (if decide (i = 0%nat) then lo else Some kc.1)
        /\ upper g kc.2 = next_key array i hi).

(** A page that is not safe for [DELETE] when it has [extra] entries
    more than now. *)
Definition unsafe (p : Page) (extra : Z) : Prop :=
  if IsLeafPage p then GetSize p + extra < GetMinSize p + 1
  else GetSize p + extra <= GetMinSize p + 1.

(** The latched ancestors: the page, and its parent when the page was
    not safe at the time of the descent, and so on. *)
Inductive chain (t : BPlusTree) (ps : list Z) : Z -> Z -> Prop :=
| chain_intro (q : Z) (extra : Z) :
    q ∈ ps ->
    (forall p, pages t !! q = Some p ->
       GetParentPageId p <> INVALID_PAGE_ID -> unsafe p extra ->
       chain t ps (GetParentPageId p) 0) ->
    chain t ps q extra.

(** The outcome of [CoalesceOrRedistribute]: the entries are those
    before it, and either the tree is empty and all its pages are
    scheduled for deletion, or the pages not scheduled for deletion
    form a tree with no page below its minimum size. *)
Definition rebalanced (leaf_max_size internal_max_size : Z) (g : Shape)
    (t : BPlusTree) (x : Transaction) (t' : BPlusTree) (x' : Transaction) : Prop :=
  (forall q, q ∈ deleted_page_set x' -> q ∈ page_set x')
  /\ next_id t' = next_id t
  /\ (forall k v, entry (deleted_page_set x') t' k v
                  <-> entry (deleted_page_set x) t k v)
  /\ ((root_page_id t' = INVALID_PAGE_ID
       /\ forall q, is_Some (pages t' !! q) -> q ∈ deleted_page_set x')
      \/ exists g',
           core leaf_max_size internal_max_size (deleted_page_set x') None g' t'
           /\ sizes leaf_max_size (deleted_page_set x') None t'
           /\ (height g' <= height g)%nat).

(** The operations of a client. *)
Inductive op : Type :=
| OpInsert (key : Z) (value : RID)
| OpRemove (key : Z).

Definition step (leaf_max_size internal_max_size : Z) (fuel : nat)
    (o : op) (t : BPlusTree) : res BPlusTree :=
  match o with
  | OpInsert key value =>
      r ← Insert leaf_max_size internal_max_size fuel key value fresh_txn t;
      Val r.1.2
  | OpRemove key =>
      r ← Remove fuel key fresh_txn t;
      Val r.1
  end.

Fixpoint run (leaf_max_size internal_max_size : Z) (fuel : nat)
    (ops : list op) (t : BPlusTree) : res BPlusTree :=
  match ops with
  | [] => Val t
  | o :: rest =>
      t1 ← step leaf_max_size internal_max_size fuel o t;
      run leaf_max_size internal_max_size fuel rest t1
  end.


(** [Insert] of the keys of [keys], in order, each in a transaction of
    its own. *)
Fixpoint insert_all (leaf_max_size internal_max_size : Z) (fuel : nat)
    (keys : list Z) (t : BPlusTree) : res BPlusTree :=
  match keys with
  | [] => Val t
  | k :: rest =>
      r ← Insert leaf_max_size internal_max_size fuel k (rid_of k) fresh_txn t;
      insert_all leaf_max_size internal_max_size fuel rest r.1.2
  end.

(** The keys [keys] as leaf entries. *)
Definition entries_of (keys : list Z) : list (Z * RID) :=
  map (fun k => (k, rid_of k)) keys.

(** The index with leaves of capacity 4 between [Insert] storing key 5
    in the root leaf that holds 1..4 and the split of that leaf. *)
Definition overfull_tree : BPlusTree :=
  mkTree 1 {[1 := Leaf (mkLeaf 4 INVALID_PAGE_ID 1 INVALID_PAGE_ID
                          (entries_of [1; 2; 3; 4; 5]))]} 2 (Some 1).

(** A non-root leaf of capacity 4 holding three entries. *)
Definition example_leaf : Page :=
  Leaf (mkLeaf 4 3 7 INVALID_PAGE_ID [(1, rid_of 1); (2, rid_of 2); (3, rid_of 3)]).

(** The same leaf as a leaf page, and an internal page of capacity 4
    with three children. *)
Definition example_leaf_page : LeafPage :=
  mkLeaf 4 3 7 INVALID_PAGE_ID [(1, rid_of 1); (2, rid_of 2); (3, rid_of 3)].

Definition example_internal_page : InternalPage :=
  mkInternal 4 INVALID_PAGE_ID 3 [(0, 7); (4, 8); (9, 10)].

(** The index after [Insert] of 1, 2, 3, 4, 5 with capacity 4: the
    root leaf was split once. *)
Definition small_tree : BPlusTree :=
  mkTree 3
    {[1 := Leaf (mkLeaf 4 3 1 2 (entries_of [1; 2]));
      2 := Leaf (mkLeaf 4 3 2 INVALID_PAGE_ID (entries_of [3; 4; 5]));
      3 := Internal (mkInternal 4 INVALID_PAGE_ID 3 [(0, 1); (3, 2)])]}
    4 (Some 3).

(** What the index holds after a history of operations: [Insert] does
    not overwrite, [Remove] deletes. *)
Definition apply_op (m : gmap Z RID) (o : op) : gmap Z RID :=
  match o with
  | OpInsert key value =>
      match m !! key with
      | Some _ => m
      | None => <[key := value]> m
      end
  | OpRemove key => delete key m
  end.

Definition contents_after (ops : list op) : gmap Z RID :=
  fold_left apply_op ops ∅.

End BPT.

(** Case analysis on the decisions of the statement to prove. *)
Ltac goal_decide :=
  repeat match goal with
         | |- context [decide ?P] => destruct (decide P)
         end.

Ltac decided :=
  simpl; goal_decide; try done; try congruence; try lia.

(** Settle the decisions of the statement that the context decides. *)
Ltac dsimp :=
  repeat match goal with
         | |- context [decide ?P] =>
             first [ rewrite (decide_True (P := P)) by (done || lia)
                   | rewrite (decide_False (P := P)) by (done || lia) ]
         end.


(** * Properties *)

(** ** Outcomes *)

Lemma bind_Val_inv {A B} (m : res A) (f : A -> res B) (b : B) :
  m ≫= f = Val b -> exists a, m = Val a /\ f a = Val b.
Proof. destruct m; simpl; intros; try discriminate; eauto. Qed.

Lemma assert_Val_inv (b : bool) u : assert b = Val u -> b = true.
Proof. destruct b; simpl; congruence. Qed.

Lemma deref_Val_inv {A} (o : option A) a : deref o = Val a -> o = Some a.
Proof. destruct o; simpl; congruence. Qed.

(** ** LRU replacer *)

Section LRUFacts.
Context {T : Type} `{Countable T}.
Implicit Types (l : list T) (r : LRU.LRUReplacer T) (v x y : T).

Lemma filter_ne_notin v l : v ∉ l -> filter (fun x => x <> v) l = l.
Proof.
  induction l as [|x l IH]; [done|].
  rewrite not_elem_of_cons. intros [Hne Hin].
  rewrite filter_cons_True by done. by rewrite IH.
Qed.

Lemma unlink_filter v l :
  NoDup l -> LRU.unlink v l = filter (fun x => x <> v) l.
Proof.
  induction 1 as [|x l Hx Hl IH]; simpl; [done|].
  destruct (decide (x = v)) as [->|Hne].
  - rewrite filter_cons_False by naive_solver.
    by rewrite filter_ne_notin.
  - rewrite filter_cons_True by done. by rewrite IH.
Qed.

Lemma unlink_perm v l : v ∈ l -> v :: LRU.unlink v l ≡ₚ l.
Proof.
  induction l as [|x l IH]; simpl.
  - intros Hin. inversion Hin.
  - intros Hin. destruct (decide (x = v)) as [->|Hne]; [done|].
    apply elem_of_cons in Hin as [->|Hin]; [done|].
    rewrite Permutation_swap. by rewrite IH.
Qed.

Lemma last_removelast l x : last l = Some x -> l = removelast l ++ [x].
Proof.
  induction l as [|a [|b l] IH]; simpl; intros Hl.
  - discriminate.
  - by inversion Hl.
  - f_equal. by apply IH.
Qed.

Lemma Insert_consistent v r : LRU.consistent r -> LRU.consistent (LRU.Insert v r).
Proof.
  intros [Hnd Hm]. unfold LRU.Insert, LRU.consistent. simpl.
  destruct (decide (v ∈ LRU.hashmap r)) as [Hin|Hin].
  - rewrite unlink_filter by done. split.
    + apply NoDup_cons. split.
      * rewrite list_elem_of_filter. naive_solver.
      * by apply NoDup_filter.
    + rewrite Hm. apply set_eq. intros x. set_unfold.
      rewrite list_elem_of_filter.
      destruct (decide (x = v)); naive_solver.
  - rewrite Hm in Hin. rewrite elem_of_list_to_set in Hin. split.
    + by apply NoDup_cons.
    + by rewrite Hm.
Qed.

Lemma Erase_consistent v r : LRU.consistent r -> LRU.consistent (LRU.Erase v r).2.
Proof.
  intros [Hnd Hm]. unfold LRU.Erase.
  destruct (decide (v ∈ LRU.hashmap r)) as [Hin|Hin]; [|done].
  unfold LRU.consistent. simpl. rewrite unlink_filter by done. split.
  - by apply NoDup_filter.
  - rewrite Hm. apply set_eq. intros x. set_unfold.
    rewrite list_elem_of_filter. naive_solver.
Qed.

Lemma Victim_consistent r x r' :
  LRU.consistent r -> LRU.Victim r = Some (x, r') -> LRU.consistent r'.
Proof.
  intros [Hnd Hm]. unfold LRU.Victim.
  destruct (last (LRU.nodes r)) as [v|] eqn:Hl; [|done].
  intros [= <- <-]. unfold LRU.consistent. simpl.
  apply last_removelast in Hl. rewrite Hl in Hnd.
  apply NoDup_app in Hnd as (Hnd1 & Hdisj & _). split; [done|].
  rewrite Hm. rewrite Hl at 1. apply set_eq. intros y. set_unfold.
  naive_solver.
Qed.

Lemma step_consistent r o : LRU.consistent r -> LRU.consistent (LRU.step r o).
Proof.
  intros Hc. destruct o as [v|v|]; simpl.
  - by apply Insert_consistent.
  - by apply Erase_consistent.
  - destruct (LRU.Victim r) as [[x r']|] eqn:Hv; [|done].
    by eapply Victim_consistent.
Qed.

Lemma run_snoc (ops : list (LRU.op (T:=T))) o :
  LRU.run (ops ++ [o]) = LRU.step (LRU.run ops) o.
Proof. unfold LRU.run. by rewrite fold_left_app. Qed.

Lemma run_consistent (ops : list (LRU.op (T:=T))) : LRU.consistent (LRU.run ops).
Proof.
  induction ops as [|o ops IH] using rev_ind.
  - split; [constructor|done].
  - rewrite run_snoc. by apply step_consistent.
Qed.

(** *** The logical clock *)

Lemma stamp_from_snoc n (ops : list (LRU.op (T:=T))) o v acc :
  LRU.stamp_from n (ops ++ [o]) v acc =
  match o with
  | LRU.OInsert w =>
      if decide (w = v) then S (n + length ops)
      else LRU.stamp_from n ops v acc
  | _ => LRU.stamp_from n ops v acc
  end.
Proof.
  revert n acc. induction ops as [|o' ops IH]; intros n acc; simpl.
  - destruct o; try done. by rewrite Nat.add_0_r.
  - destruct o' as [w'| |]; rewrite IH; destruct o; try done;
      by rewrite <- Nat.add_succ_comm.
Qed.

Lemma stamp_from_bound n (ops : list (LRU.op (T:=T))) v acc :
  (acc <= n -> LRU.stamp_from n ops v acc <= n + length ops)%nat.
Proof.
  revert n acc. induction ops as [|o ops IH]; intros n acc Hacc; simpl.
  - lia.
  - destruct o as [w| |].
    + destruct (decide (w = v)).
      * specialize (IH (S n) (S n)). lia.
      * specialize (IH (S n) acc). lia.
    + specialize (IH (S n) acc). lia.
    + specialize (IH (S n) acc). lia.
Qed.

Lemma stamp_bound (ops : list (LRU.op (T:=T))) v :
  (LRU.stamp ops v <= length ops)%nat.
Proof. unfold LRU.stamp. pose proof (stamp_from_bound 0 ops v 0). lia. Qed.

Lemma stamp_snoc_insert_eq (ops : list (LRU.op (T:=T))) v :
  LRU.stamp (ops ++ [LRU.OInsert v]) v = S (length ops).
Proof. unfold LRU.stamp. rewrite stamp_from_snoc. by rewrite decide_True. Qed.

Lemma stamp_snoc_other (ops : list (LRU.op (T:=T))) o v :
  o <> LRU.OInsert v -> LRU.stamp (ops ++ [o]) v = LRU.stamp ops v.
Proof.
  intros Ho. unfold LRU.stamp. rewrite stamp_from_snoc.
  destruct o as [w| |]; try done.
  rewrite decide_False; [done|]. intros ->. by apply Ho.
Qed.

Lemma StronglySorted_weaken (R R' : T -> T -> Prop) l :
  (forall x y, x ∈ l -> y ∈ l -> R x y -> R' x y) ->
  StronglySorted R l -> StronglySorted R' l.
Proof.
  induction l as [|a l IH]; intros HR Hs; [constructor|].
  apply StronglySorted_cons in Hs as [Hfa Hs].
  apply StronglySorted_cons. split.
  - rewrite Forall_forall in *. intros y Hy.
    apply HR; [left|by right|by apply Hfa].
  - apply IH; [|done]. intros x y Hx Hy. apply HR; by right.
Qed.

Lemma StronglySorted_filter (R : T -> T -> Prop) (P : T -> Prop)
    `{forall x, Decision (P x)} l :
  StronglySorted R l -> StronglySorted R (filter P l).
Proof.
  induction 1 as [|a l Hs IH Hfa]; [constructor|].
  rewrite filter_cons. destruct (decide (P a)); [|done].
  apply StronglySorted_cons. split; [|done].
  rewrite Forall_forall in *. intros y Hy.
  apply list_elem_of_filter in Hy as [_ Hy]. by apply Hfa.
Qed.

Lemma later_step (ops : list (LRU.op (T:=T))) o r :
  LRU.consistent r ->
  StronglySorted (LRU.later ops) (LRU.nodes r) ->
  StronglySorted (LRU.later (ops ++ [o])) (LRU.nodes (LRU.step r o)).
Proof.
  intros [Hnd Hm] Hs. destruct o as [v|v|]; cbn [LRU.step].
  - assert (Hl : LRU.nodes (LRU.Insert v r) = v :: filter (fun x => x <> v) (LRU.nodes r)).
    { unfold LRU.Insert. simpl. destruct (decide (v ∈ LRU.hashmap r)) as [Hin|Hin].
      - by rewrite unlink_filter.
      - rewrite filter_ne_notin; [done|].
        by rewrite Hm, elem_of_list_to_set in Hin. }
    rewrite Hl. apply StronglySorted_cons. split.
    + apply Forall_forall. intros y Hy.
      apply list_elem_of_filter in Hy as [Hne _].
      unfold LRU.later. rewrite stamp_snoc_insert_eq.
      rewrite stamp_snoc_other by congruence.
      pose proof (stamp_bound ops y). lia.
    + eapply StronglySorted_weaken with (R := LRU.later ops);
        [|by apply StronglySorted_filter].
      intros x y Hx Hy. unfold LRU.later.
      apply list_elem_of_filter in Hx as [Hx _].
      apply list_elem_of_filter in Hy as [Hy _].
      by rewrite !stamp_snoc_other by congruence.
  - eapply StronglySorted_weaken with (R := LRU.later ops).
    { intros x y _ _. unfold LRU.later. by rewrite !stamp_snoc_other by done. }
    unfold LRU.Erase. destruct (decide (v ∈ LRU.hashmap r)); [|done].
    simpl. rewrite unlink_filter by done. by apply StronglySorted_filter.
  - eapply StronglySorted_weaken with (R := LRU.later ops).
    { intros x y _ _. unfold LRU.later. by rewrite !stamp_snoc_other by done. }
    unfold LRU.Victim.
    destruct (last (LRU.nodes r)) as [x|] eqn:Hl; [|done]. simpl.
    apply last_removelast in Hl. rewrite Hl in Hs.
    by apply StronglySorted_app_1_l in Hs.
Qed.

Lemma run_by_recency (ops : list (LRU.op (T:=T))) :
  StronglySorted (LRU.later ops) (LRU.nodes (LRU.run ops)).
Proof.
  induction ops as [|o ops IH] using rev_ind.
  - constructor.
  - rewrite run_snoc. apply later_step; [apply run_consistent|done].
Qed.


End LRUFacts.

(** ** Extendible hash table *)

Section EHTFacts.
Context {V : Type}.

(** C8, as the code behaves. With [bucket_size = 2], global depth 0 and
    the identity hash, inserting the keys 0, 1, 2 ends with global
    depth 1 and 2 buckets (the single split separates the odd key 1
    from the even keys 0 and 2), and all three keys are found with the
    values they were inserted with. *)
Theorem eht_split_scenario (n : nat) (v0 v1 v2 : V) :
  exists t,
    EHT.insert_0_1_2 (S (S n)) v0 v1 v2 = Val t
    /\ EHT.GetGlobalDepth t = 1
    /\ EHT.GetNumBuckets t = 2
    /\ EHT.Find (fun x => x) 0 t = Val (Some v0)
    /\ EHT.Find (fun x => x) 1 t = Val (Some v1)
    /\ EHT.Find (fun x => x) 2 t = Val (Some v2).
Proof. eexists. split; [vm_compute; reflexivity|]. vm_compute. done. Qed.

End EHTFacts.

(** C8 as stated fails: the run does not reach global depth 2. *)
Lemma eht_split_scenario_counterexample :
  ~ exists t,
      EHT.insert_0_1_2 2 100 101 102 = Val t
      /\ EHT.GetGlobalDepth t = 2
      /\ (EHT.GetNumBuckets t = 3 \/ EHT.GetNumBuckets t = 4)
      /\ (exists a, EHT.Find (fun x => x) 0 t = Val (Some a))
      /\ (exists b, EHT.Find (fun x => x) 1 t = Val (Some b))
      /\ (exists c, EHT.Find (fun x => x) 2 t = Val (Some c)).
Proof.
  intros (t & Ht & Hg & _). vm_compute in Ht. injection Ht as <-.
  vm_compute in Hg. discriminate.
Qed.

(** ** Buffer pool manager *)

Section BPMFacts.
Context {Data : Type} (zero_data : Data).
Implicit Types (s : BPM.BufferPoolManager Data) (p : BPM.Page Data).

Lemma Victim_nonempty (r : LRU.LRUReplacer nat) :
  LRU.consistent r -> LRU.Size r <> 0 ->
  exists F r', LRU.Victim r = Some (F, r')
    /\ last (LRU.nodes r) = Some F
    /\ LRU.nodes r = LRU.nodes r' ++ [F]
    /\ LRU.hashmap r' = (LRU.hashmap r) ∖ {[F]}.
Proof.
  intros [Hnd Hm] Hsz. unfold LRU.Victim.
  destruct (last (LRU.nodes r)) as [F|] eqn:Hl.
  - eexists _, _. split; [done|]. split; [done|]. simpl.
    split; [by apply last_removelast|done].
  - apply last_None in Hl. exfalso. apply Hsz.
    unfold LRU.Size. rewrite Hm, Hl. done.
Qed.

Lemma Size_zero_nodes (r : LRU.LRUReplacer nat) :
  LRU.consistent r -> LRU.Size r = 0 -> LRU.nodes r = [].
Proof.
  intros [Hnd Hm]. unfold LRU.Size. rewrite Hm. intros Hsz.
  assert (Hz : size (list_to_set (C:=gset nat) (LRU.nodes r)) = 0%nat) by lia.
  apply size_empty_inv in Hz. destruct (LRU.nodes r) as [|a l]; [done|].
  exfalso. specialize (Hz a). set_solver.
Qed.

Lemma Erase_nodes (F : nat) (r : LRU.LRUReplacer nat) :
  LRU.consistent r ->
  LRU.nodes (LRU.Erase F r).2 = filter (fun x => x <> F) (LRU.nodes r)
  /\ F ∉ LRU.hashmap (LRU.Erase F r).2.
Proof.
  intros [Hnd Hm]. unfold LRU.Erase.
  destruct (decide (F ∈ LRU.hashmap r)) as [Hin|Hin]; simpl.
  - split; [by apply unlink_filter|set_solver].
  - split; [|done]. rewrite filter_ne_notin; [done|].
    by rewrite Hm, elem_of_list_to_set in Hin.
Qed.

(** What [GetVictimPage] returns when its assertions hold. *)
Lemma GetVictimPage_spec s :
  BPM.well_formed s -> BPM.victims_unpinned s ->
  match BPM.victim_of s with
  | None =>
      BPM.free_list s = [] /\ LRU.Size (BPM.replacer s) = 0
      /\ BPM.GetVictimPage s = Val (None, s)
  | Some F =>
      exists p s1,
        BPM.pages s !! F = Some p
        /\ BPM.GetVictimPage s = Val (Some F, s1)
        /\ BPM.pages s1 = BPM.pages s
        /\ BPM.page_table s1 = BPM.page_table s
        /\ BPM.disk s1 = BPM.disk s
        /\ BPM.free_list s1 = tail (BPM.free_list s)
        /\ (BPM.free_list s <> [] -> BPM.replacer s1 = BPM.replacer s)
        /\ (BPM.free_list s = [] ->
             LRU.nodes (BPM.replacer s) = LRU.nodes (BPM.replacer s1) ++ [F]
             /\ LRU.hashmap (BPM.replacer s1) = (LRU.hashmap (BPM.replacer s)) ∖ {[F]})
  end.
Proof.
  intros (Hpt & Hfl & Hrp & Hc) (Hfree & Hrepl).
  unfold BPM.victim_of, BPM.GetVictimPage.
  destruct (BPM.free_list s) as [|F rest] eqn:Hl.
  - destruct (decide (LRU.Size (BPM.replacer s) = 0)) as [Hz|Hnz].
    + rewrite (Size_zero_nodes _ Hc Hz). simpl.
      rewrite bool_decide_eq_true_2 by done. done.
    + destruct (Victim_nonempty _ Hc Hnz) as (F & r' & Hv & Hlast & Hn & Hh).
      rewrite Hlast, bool_decide_eq_false_2, Hv by done.
      assert (HF : F ∈ LRU.nodes (BPM.replacer s)).
      { rewrite Hn. set_solver. }
      rewrite Forall_forall in Hrp, Hrepl.
      specialize (Hrp F HF). specialize (Hrepl F HF).
      apply lookup_lt_is_Some_2 in Hrp as [p Hp].
      unfold BPM.frame_is in Hrepl. rewrite Hp in Hrepl.
      exists p. eexists. split; [done|]. rewrite Hp. simpl.
      rewrite bool_decide_eq_true_2 by done. simpl.
      split; [done|]. simpl. repeat split; done.
  - apply Forall_cons in Hfl as [HF _]. apply Forall_cons in Hfree as [Hfr _].
    apply lookup_lt_is_Some_2 in HF as [p Hp].
    unfold BPM.frame_is in Hfr. rewrite Hp in Hfr. destruct Hfr as [Hid Hpin].
    exists p. eexists. split; [done|]. rewrite Hp. simpl.
    rewrite !bool_decide_eq_true_2 by done. simpl.
    split; [done|]. simpl. repeat split; done.
Qed.

(** C2. [FetchPage] in a pool whose frame references are valid and
    whose free and replaceable frames are unpinned.  Hit: the frame's
    pin count grows by one, the frame leaves the replacer, the disk
    manager is not called, the frame is returned.  Miss: the victim is
    the head of the free list, or else the LRU tail; the old content
    is written exactly when the victim is dirty, then the page is
    read; the old page-table entry is removed and the new one added;
    the frame holds the page with pin count 1, clean.  The result is
    none exactly when the page is absent and there is neither a free
    frame nor a replaceable one. *)
Theorem FetchPage_spec pid s :
  BPM.well_formed s -> BPM.victims_unpinned s ->
  (forall F, BPM.page_table s !! pid = Some F ->
     exists p s',
       BPM.pages s !! F = Some p
       /\ BPM.FetchPage zero_data pid s = Val (Some F, s')
       /\ BPM.pages s' =
            <[F := BPM.mkPage (BPM.page_id p) (BPM.pin_count p + 1)
                              (BPM.is_dirty p) (BPM.data p)]> (BPM.pages s)
       /\ LRU.nodes (BPM.replacer s') =
            filter (fun x => x <> F) (LRU.nodes (BPM.replacer s))
       /\ (F ∉ LRU.hashmap (BPM.replacer s'))
       /\ BPM.disk s' = BPM.disk s
       /\ BPM.page_table s' = BPM.page_table s
       /\ BPM.free_list s' = BPM.free_list s)
  /\ (BPM.page_table s !! pid = None ->
      match BPM.victim_of s with
      | None => BPM.FetchPage zero_data pid s = Val (None, s)
      | Some F =>
          exists p s',
            BPM.pages s !! F = Some p
            /\ BPM.FetchPage zero_data pid s = Val (Some F, s')
            /\ BPM.calls (BPM.disk s') =
                 BPM.calls (BPM.disk s)
                 ++ (if BPM.is_dirty p
                     then [BPM.WritePage (BPM.page_id p) (BPM.data p)]
                     else [])
                 ++ [BPM.ReadPage pid]
            /\ BPM.page_table s' =
                 <[pid := F]> (delete (BPM.page_id p) (BPM.page_table s))
            /\ BPM.pages s' =
                 <[F := BPM.mkPage pid 1 false
                          (default zero_data
                             (BPM.contents (BPM.disk s') !! pid))]>
                   (BPM.pages s)
            /\ BPM.free_list s' = tail (BPM.free_list s)
            /\ (BPM.free_list s <> [] -> BPM.replacer s' = BPM.replacer s)
            /\ (BPM.free_list s = [] ->
                 LRU.nodes (BPM.replacer s) =
                   LRU.nodes (BPM.replacer s') ++ [F])
      end)
  /\ (exists r s', BPM.FetchPage zero_data pid s = Val (r, s')
        /\ (r = None <->
            BPM.page_table s !! pid = None
            /\ BPM.free_list s = []
            /\ LRU.Size (BPM.replacer s) = 0)).
Proof.
  intros Hwf Hvu.
  assert (Hhit : forall F, BPM.page_table s !! pid = Some F ->
     exists p s',
       BPM.pages s !! F = Some p
       /\ BPM.FetchPage zero_data pid s = Val (Some F, s')
       /\ BPM.pages s' =
            <[F := BPM.mkPage (BPM.page_id p) (BPM.pin_count p + 1)
                              (BPM.is_dirty p) (BPM.data p)]> (BPM.pages s)
       /\ LRU.nodes (BPM.replacer s') =
            filter (fun x => x <> F) (LRU.nodes (BPM.replacer s))
       /\ (F ∉ LRU.hashmap (BPM.replacer s'))
       /\ BPM.disk s' = BPM.disk s
       /\ BPM.page_table s' = BPM.page_table s
       /\ BPM.free_list s' = BPM.free_list s).
  { intros F HF. destruct Hwf as (Hpt & _ & _ & Hc).
    specialize (Hpt pid F HF). simpl in Hpt.
    apply lookup_lt_is_Some_2 in Hpt as [p Hp].
    exists p. eexists. split; [done|].
    unfold BPM.FetchPage. rewrite HF, Hp. simpl.
    split; [done|]. simpl.
    destruct (Erase_nodes F _ Hc) as [He1 He2]. repeat split; done. }
  assert (Hmiss : BPM.page_table s !! pid = None ->
      match BPM.victim_of s with
      | None => BPM.FetchPage zero_data pid s = Val (None, s)
      | Some F =>
          exists p s',
            BPM.pages s !! F = Some p
            /\ BPM.FetchPage zero_data pid s = Val (Some F, s')
            /\ BPM.calls (BPM.disk s') =
                 BPM.calls (BPM.disk s)
                 ++ (if BPM.is_dirty p
                     then [BPM.WritePage (BPM.page_id p) (BPM.data p)]
                     else [])
                 ++ [BPM.ReadPage pid]
            /\ BPM.page_table s' =
                 <[pid := F]> (delete (BPM.page_id p) (BPM.page_table s))
            /\ BPM.pages s' =
                 <[F := BPM.mkPage pid 1 false
                          (default zero_data
                             (BPM.contents (BPM.disk s') !! pid))]>
                   (BPM.pages s)
            /\ BPM.free_list s' = tail (BPM.free_list s)
            /\ (BPM.free_list s <> [] -> BPM.replacer s' = BPM.replacer s)
            /\ (BPM.free_list s = [] ->
                 LRU.nodes (BPM.replacer s) =
                   LRU.nodes (BPM.replacer s') ++ [F])
      end).
  { intros Hnone. pose proof (GetVictimPage_spec s Hwf Hvu) as Hg.
    unfold BPM.FetchPage. rewrite Hnone.
    destruct (BPM.victim_of s) as [F|].
    - destruct Hg as (p & s1 & Hp & Hg & Hpg & Hpt & Hd & Hfl & Hr1 & Hr2).
      rewrite Hg. simpl. rewrite Hpg, Hp. simpl.
      exists p.
      destruct (BPM.is_dirty p); simpl; eexists; (split; [done|]);
        (split; [reflexivity|]); simpl;
        rewrite Hd, Hpt, <- ?app_assoc; repeat split; try done;
        intros Hnil; by destruct (Hr2 Hnil).
    - destruct Hg as (_ & _ & ->). done. }
  split; [done|]. split; [done|].
  destruct (BPM.page_table s !! pid) as [F|] eqn:Hl.
  - destruct (Hhit F eq_refl) as (p & s' & _ & Hf & _).
    exists (Some F), s'. split; [done|]. split; [done|]. by intros [? _].
  - specialize (Hmiss eq_refl).
    pose proof (GetVictimPage_spec s Hwf Hvu) as Hg.
    destruct (BPM.victim_of s) as [F|] eqn:Hv.
    + destruct Hmiss as (p & s' & _ & Hf & _).
      exists (Some F), s'. split; [done|]. split; [done|].
      intros (_ & Hfl & Hsz). exfalso.
      unfold BPM.victim_of in Hv. rewrite Hfl in Hv.
      destruct Hwf as (_ & _ & _ & Hc).
      rewrite (Size_zero_nodes _ Hc Hsz) in Hv. done.
    + destruct Hg as (Hfl & Hsz & _).
      exists None, s. split; [exact Hmiss|]. done.
Qed.

End BPMFacts.

Example full_pool_reachable :
  (s1 ← BPM.FetchPage 0 5 (BPM.new 0 2 (BPM.mkDisk ∅ 0 []));
   s2 ← BPM.UnpinPage 5 true s1.2;
   s3 ← BPM.FetchPage 0 6 s2.2;
   s4 ← BPM.UnpinPage 6 false s3.2;
   Val s4.2) = Val BPM.full_pool.
Proof. vm_compute. reflexivity. Qed.

Example shared_pool_reachable :
  (s1 ← BPM.FetchPage 0 1 (BPM.new 0 1 (BPM.mkDisk ∅ 0 []));
   s2 ← BPM.FetchPage 0 1 s1.2;
   Val s2.2) = Val BPM.shared_pool.
Proof. vm_compute. reflexivity. Qed.

(** [FetchPage 7] on [full_pool] evicts page 5 from frame 0, writing it
    back. *)
Lemma FetchPage_spec_witness :
  BPM.well_formed BPM.full_pool /\ BPM.victims_unpinned BPM.full_pool
  /\ exists r s', BPM.FetchPage 0 7 BPM.full_pool = Val (r, s')
       /\ (r = None <->
           BPM.page_table BPM.full_pool !! 7 = None
           /\ BPM.free_list BPM.full_pool = []
           /\ LRU.Size (BPM.replacer BPM.full_pool) = 0).
Proof.
  assert (Hwf : BPM.well_formed BPM.full_pool)
    by (apply (bool_decide_unpack _); vm_compute; exact I).
  assert (Hvu : BPM.victims_unpinned BPM.full_pool)
    by (apply (bool_decide_unpack _); vm_compute; exact I).
  split; [exact Hwf|]. split; [exact Hvu|].
  exact (proj2 (proj2 (FetchPage_spec 0 7 BPM.full_pool Hwf Hvu))).
Defined.

Example FetchPage_evicts_tail :
  exists s', BPM.FetchPage 0 7 BPM.full_pool = Val (Some 0%nat, s')
    /\ BPM.calls (BPM.disk s') =
         [BPM.ReadPage 5; BPM.ReadPage 6; BPM.WritePage 5 0; BPM.ReadPage 7].
Proof. eexists. split; vm_compute; reflexivity. Qed.

Section BPMFacts2.
Context {Data : Type} (zero_data : Data).
Implicit Types (s : BPM.BufferPoolManager Data) (p : BPM.Page Data).

(** [UnpinPage] of project2: a page that is not resident gives false
    and no change; a resident page with a positive pin count has its
    dirty flag or-ed with the argument and its pin count decremented,
    enters the replacer exactly when the count reaches zero, and the
    call returns true. *)
Lemma UnpinPage_spec pid (d : bool) s :
  (BPM.page_table s !! pid = None -> BPM.UnpinPage pid d s = Val (false, s))
  /\ (forall F p,
        BPM.page_table s !! pid = Some F -> BPM.pages s !! F = Some p ->
        BPM.pin_count p > 0 ->
        exists s',
          BPM.UnpinPage pid d s = Val (true, s')
          /\ BPM.pages s' =
               <[F := BPM.mkPage (BPM.page_id p) (BPM.pin_count p - 1)
                        (BPM.is_dirty p || d) (BPM.data p)]> (BPM.pages s)
          /\ BPM.replacer s' =
               (if bool_decide (BPM.pin_count p - 1 = 0)
                then LRU.Insert F (BPM.replacer s) else BPM.replacer s)
          /\ BPM.page_table s' = BPM.page_table s
          /\ BPM.free_list s' = BPM.free_list s
          /\ BPM.disk s' = BPM.disk s).
Proof.
  unfold BPM.UnpinPage. split.
  - by intros ->.
  - intros F p -> Hp Hpin. rewrite Hp. simpl.
    rewrite (bool_decide_eq_true_2 (BPM.pin_count p > 0)) by done. simpl.
    eexists. split; [reflexivity|]. done.
Qed.

(** C10. [DeletePage] of a page that is not resident calls
    [DeallocatePage] and returns true, every frame, the page table,
    the free list and the replacer being left as they were; it returns
    false only for a resident page with a positive pin count, and then
    changes nothing, the disk manager included. *)
Theorem DeletePage_not_resident pid s :
  (BPM.page_table s !! pid = None ->
     exists s',
       BPM.DeletePage zero_data pid s = Val (true, s')
       /\ BPM.calls (BPM.disk s') =
            BPM.calls (BPM.disk s) ++ [BPM.DeallocatePage pid]
       /\ BPM.pages s' = BPM.pages s
       /\ BPM.page_table s' = BPM.page_table s
       /\ BPM.free_list s' = BPM.free_list s
       /\ BPM.replacer s' = BPM.replacer s)
  /\ (forall s', BPM.DeletePage zero_data pid s = Val (false, s') ->
        s' = s
        /\ exists F p, BPM.page_table s !! pid = Some F
             /\ BPM.pages s !! F = Some p /\ BPM.pin_count p > 0)
  /\ (forall F p, BPM.page_table s !! pid = Some F ->
        BPM.pages s !! F = Some p -> BPM.pin_count p > 0 ->
        BPM.DeletePage zero_data pid s = Val (false, s)).
Proof.
  unfold BPM.DeletePage. split; [|split].
  - intros ->. eexists. split; [reflexivity|]. done.
  - intros s'. destruct (BPM.page_table s !! pid) as [F|] eqn:HF; [|done].
    destruct (BPM.pages s !! F) as [p|] eqn:Hp; [|done]. simpl.
    case_bool_decide as Hpin; [|done].
    intros [= <-]. split; [done|]. by exists F, p.
  - intros F p -> ->. simpl. intros Hpin.
    by rewrite (bool_decide_eq_true_2 (BPM.pin_count p > 0)).
Qed.

End BPMFacts2.

(** C3 on the [UnpinPage] of project1.  Page 1 is pinned twice; the
    first holder unpins it dirty, the second clean.  The second call
    stores its argument in the dirty flag, so the page ends up clean,
    where project2's [UnpinPage] keeps it dirty. *)
Theorem UnpinPage_project1_drops_dirty :
  (exists s1 s2,
      BPM.UnpinPage_project1 1 true BPM.shared_pool = Val (true, s1)
      /\ BPM.is_dirty <$> BPM.pages s1 !! 0%nat = Some true
      /\ BPM.pin_count <$> BPM.pages s1 !! 0%nat = Some 1
      /\ BPM.UnpinPage_project1 1 false s1 = Val (true, s2)
      /\ BPM.is_dirty <$> BPM.pages s2 !! 0%nat = Some false)
  /\ (exists s1 s2,
      BPM.UnpinPage 1 true BPM.shared_pool = Val (true, s1)
      /\ BPM.UnpinPage 1 false s1 = Val (true, s2)
      /\ BPM.is_dirty <$> BPM.pages s2 !! 0%nat = Some true).
Proof.
  split.
  - eexists _, _. split; [vm_compute; reflexivity|].
    repeat split; vm_compute; reflexivity.
  - eexists _, _. split; [vm_compute; reflexivity|].
    repeat split; vm_compute; reflexivity.
Qed.


(** ** B+Tree pages *)

Import BPT.

Lemma comparator_ge0 a b : comparator a b >= 0 <-> b <= a.
Proof. unfold comparator. destruct (Z.compare_spec a b); lia. Qed.

Lemma comparator_le0 a b : comparator a b <= 0 <-> a <= b.
Proof. unfold comparator. destruct (Z.compare_spec a b); lia. Qed.

Lemma comparator_eq0 a b : comparator a b = 0 <-> a = b.
Proof. unfold comparator. destruct (Z.compare_spec a b); lia. Qed.

(** C4. For a page whose capacity is not negative: [READ] is always
    safe; [INSERT] is safe iff [size < max_size]; [DELETE] is safe iff
    [size >= min_size + 1] on a leaf and [size > min_size + 1] on an
    internal page, where [min_size] is [max_size / 2] rounded down for
    a page that is not the root, 1 for a root leaf and 2 for an internal
    root. *)
Theorem IsSafeOperation_spec (p : Page) :
  0 <= GetMaxSize p ->
  let min_size :=
    if IsRootPage p then (if IsLeafPage p then 1 else 2)
    else GetMaxSize p / 2 in
  GetMinSize p = min_size
  /\ IsSafeOperation READ p = true
  /\ (IsSafeOperation INSERT p = true <-> GetSize p < GetMaxSize p)
  /\ (IsSafeOperation DELETE p = true <->
      if IsLeafPage p then GetSize p >= min_size + 1
      else GetSize p > min_size + 1).
Proof.
  intros Hmax min_size.
  assert (Hmin : GetMinSize p = min_size).
  { unfold GetMinSize, min_size. destruct (IsRootPage p); [done|].
    by rewrite Z.quot_div_nonneg by lia. }
  split; [done|]. split; [done|]. split.
  - simpl. by rewrite bool_decide_eq_true.
  - unfold IsSafeOperation. rewrite Hmin.
    destruct (IsLeafPage p); by rewrite bool_decide_eq_true.
Qed.

(** On a non-root leaf of capacity 4 with 3 entries, [min_size] is 2
    and a deletion is safe. *)
Lemma IsSafeOperation_spec_witness :
  0 <= GetMaxSize example_leaf
  /\ GetMinSize example_leaf = 2
  /\ IsSafeOperation DELETE example_leaf = true.
Proof.
  assert (H : 0 <= GetMaxSize example_leaf) by (vm_compute; discriminate).
  split; [exact H|].
  destruct (IsSafeOperation_spec example_leaf H) as (Hmin & _ & _ & Hdel).
  split; [exact Hmin|]. apply Hdel. vm_compute. discriminate.
Defined.

(** *** Arrays *)

Lemma bind_Val {A B} (a : A) (f : A -> res B) : (Val a ≫= f) = f a.
Proof. reflexivity. Qed.

Lemma slot_Val {A} (array : list A) (index : Z) (x : A) :
  slot array index = Val x <->
  0 <= index /\ array !! Z.to_nat index = Some x.
Proof.
  unfold slot. case_bool_decide as Hr.
  - split.
    + intros Hd. apply deref_Val_inv in Hd. split; [lia|done].
    + intros [_ ->]. done.
  - split; [done|]. intros [H0 Hl]. exfalso. apply Hr.
    apply lookup_lt_Some in Hl. lia.
Qed.

Lemma slot_lookup {A} (array : list A) (i : nat) (x : A) :
  array !! i = Some x -> slot array (Z.of_nat i) = Val x.
Proof. intros Hl. apply slot_Val. rewrite Nat2Z.id. split; [lia|done]. Qed.

Lemma sorted_keys_lookup {A} (array : list (Z * A)) (i j : nat) x y :
  sorted_keys array -> (i < j)%nat ->
  array !! i = Some x -> array !! j = Some y -> x.1 < y.1.
Proof.
  unfold sorted_keys. revert i j. induction array as [|a array IH]; intros i j Hs Hij Hi Hj.
  - done.
  - simpl in Hs. apply StronglySorted_cons in Hs as [Hfa Hs].
    destruct j as [|j]; [lia|]. simpl in Hj.
    destruct i as [|i]; simpl in Hi.
    + injection Hi as ->. rewrite Forall_forall in Hfa. apply Hfa.
      apply list_elem_of_fmap. exists y. split; [done|].
      by eapply list_elem_of_lookup_2.
    + eapply (IH i j); [done|lia|done|done].
Qed.

Lemma sorted_keys_inj {A} (array : list (Z * A)) (i j : nat) x y :
  sorted_keys array ->
  array !! i = Some x -> array !! j = Some y -> x.1 = y.1 -> i = j.
Proof.
  intros Hs Hi Hj Heq.
  destruct (Nat.lt_trichotomy i j) as [Hlt|[->|Hlt]]; [|done|].
  - pose proof (sorted_keys_lookup _ _ _ _ _ Hs Hlt Hi Hj). lia.
  - pose proof (sorted_keys_lookup _ _ _ _ _ Hs Hlt Hj Hi). lia.
Qed.

Lemma sorted_keys_intro {A} (array : list (Z * A)) :
  (forall (i j : nat) x y, (i < j)%nat ->
     array !! i = Some x -> array !! j = Some y -> x.1 < y.1) ->
  sorted_keys array.
Proof.
  unfold sorted_keys. induction array as [|a array IH]; intros Hs; simpl.
  - constructor.
  - apply StronglySorted_cons. split.
    + apply Forall_forall. intros k Hk.
      apply list_elem_of_fmap in Hk as (y & -> & Hy).
      apply list_elem_of_lookup in Hy as [j Hj].
      apply (Hs 0%nat (S j)); [lia|done|done].
    + apply IH. intros i j x y Hij Hi Hj.
      apply (Hs (S i) (S j)); [lia|done|done].
Qed.

(** *** The binary search of a leaf *)

Lemma KeyIndex_loop_spec {fuel : nat} {key : Z} {array : list (Z * RID)} {start end_ : Z} :
  sorted_keys array ->
  0 <= start -> end_ < Z.of_nat (length array) -> start <= end_ + 1 ->
  (Z.to_nat (end_ - start + 1) <= fuel)%nat ->
  (forall (i : nat) x, array !! i = Some x -> Z.of_nat i < start -> x.1 < key) ->
  (forall (i : nat) x, array !! i = Some x -> end_ < Z.of_nat i -> key <= x.1) ->
  let r := Leaf.KeyIndex_loop fuel key array start end_ in
  0 <= r <= Z.of_nat (length array)
  /\ forall (i : nat) x, array !! i = Some x -> (Z.of_nat i < r <-> x.1 < key).
Proof.
  intros Hs. revert start end_.
  induction fuel as [|fuel IH]; intros start end_ H0 Hend Hse Hfuel Hlo Hhi.
  - simpl. assert (start = end_ + 1) as -> by lia.
    split; [lia|]. intros i x Hi. split.
    + intros Hlt. by eapply Hlo.
    + intros Hlt. destruct (decide (Z.of_nat i < end_ + 1)); [done|].
      assert (key <= x.1) by (eapply Hhi; [done|lia]). lia.
  - simpl. case_bool_decide as Hle.
    + set (mid := (end_ - start) ÷ 2 + start).
      assert (Hmid : start <= mid <= end_).
      { unfold mid. rewrite Z.quot_div_nonneg by lia.
        pose proof (Z.div_pos (end_ - start) 2).
        pose proof (Z.div_le_upper_bound (end_ - start) 2 (end_ - start)). lia. }
      destruct (array !! Z.to_nat mid) as [[k v]|] eqn:Hm.
      * case_bool_decide as Hc.
        -- rewrite comparator_ge0 in Hc.
           apply IH; [lia|lia|lia|lia|done|].
           intros i x Hi Hgt.
           destruct (decide (end_ < Z.of_nat i)); [by eapply Hhi|].
           destruct (decide (Z.of_nat i = mid)) as [Heq|Hne].
           { rewrite <- Heq, Nat2Z.id in Hm. rewrite Hi in Hm.
             injection Hm as ->. simpl. done. }
           assert (Hlt : (Z.to_nat mid < i)%nat) by lia.
           pose proof (sorted_keys_lookup _ _ _ _ _ Hs Hlt Hm Hi) as Hk.
           simpl in Hk. lia.
        -- assert (Hk : k < key).
           { destruct (decide (k < key)); [done|]. exfalso. apply Hc.
             apply comparator_ge0. lia. }
           apply IH; [lia|lia|lia|lia| |done].
           intros i x Hi Hlt.
           destruct (decide (Z.of_nat i < start)); [by eapply Hlo|].
           destruct (decide (Z.of_nat i = mid)) as [Heq|Hne].
           { rewrite <- Heq, Nat2Z.id in Hm. rewrite Hi in Hm.
             injection Hm as ->. simpl. done. }
           assert (Hlt' : (i < Z.to_nat mid)%nat) by lia.
           pose proof (sorted_keys_lookup _ _ _ _ _ Hs Hlt' Hi Hm) as Hk'.
           simpl in Hk'. lia.
      * apply lookup_ge_None in Hm. lia.
    + assert (start = end_ + 1) as -> by lia.
      split; [lia|]. intros i x Hi. split.
      * intros Hlt. by eapply Hlo.
      * intros Hlt. destruct (decide (Z.of_nat i < end_ + 1)); [done|].
        assert (key <= x.1) by (eapply Hhi; [done|lia]). lia.
Qed.

Lemma KeyIndex_spec (key : Z) (l : LeafPage) :
  sorted_keys (l_array l) ->
  0 <= Leaf.KeyIndex key l <= Z.of_nat (length (l_array l))
  /\ forall (i : nat) x, l_array l !! i = Some x ->
       (Z.of_nat i < Leaf.KeyIndex key l <-> x.1 < key).
Proof.
  intros Hs. unfold Leaf.KeyIndex, Leaf.GetSize.
  apply KeyIndex_loop_spec; try done; try lia.
  intros i x Hi Hlt. apply lookup_lt_Some in Hi. lia.
Qed.

Lemma KeyIndex_found (key : Z) (l : LeafPage) (j : nat) v :
  sorted_keys (l_array l) -> l_array l !! j = Some (key, v) ->
  Leaf.KeyIndex key l = Z.of_nat j.
Proof.
  intros Hs Hj. destruct (KeyIndex_spec key l Hs) as [Hr Hi].
  pose proof (Hi j _ Hj) as [Hjj _]. simpl in Hjj.
  assert (Hge : Z.of_nat j >= Leaf.KeyIndex key l).
  { destruct (decide (Z.of_nat j < Leaf.KeyIndex key l)) as [Hlt|]; [|lia].
    apply Hjj in Hlt. lia. }
  destruct (decide (Leaf.KeyIndex key l = Z.of_nat j)) as [|Hne]; [done|].
  exfalso.
  assert (Hlt : (Z.to_nat (Leaf.KeyIndex key l) < j)%nat) by lia.
  destruct (lookup_lt_is_Some_2 (l_array l) (Z.to_nat (Leaf.KeyIndex key l)))
    as [x Hx]; [apply lookup_lt_Some in Hj; lia|].
  pose proof (sorted_keys_lookup _ _ _ _ _ Hs Hlt Hx Hj) as Hk. simpl in Hk.
  pose proof (Hi _ _ Hx) as [_ Hxx]. specialize (Hxx Hk). lia.
Qed.

Lemma Leaf_Lookup_Some (key : Z) (l : LeafPage) v :
  sorted_keys (l_array l) ->
  Leaf.Lookup key l = Some v <-> (key, v) ∈ l_array l.
Proof.
  intros Hs. unfold Leaf.Lookup. split.
  - case_bool_decide as Hr; [|done].
    destruct (l_array l !! Z.to_nat (Leaf.KeyIndex key l)) as [[k w]|] eqn:Hl; [|done].
    case_bool_decide as Hc; [|done]. intros [= ->].
    apply comparator_eq0 in Hc as ->. by eapply list_elem_of_lookup_2.
  - intros Hin. apply list_elem_of_lookup in Hin as [j Hj].
    rewrite (KeyIndex_found key l j v Hs Hj), Nat2Z.id, Hj.
    apply lookup_lt_Some in Hj as Hlen. unfold Leaf.GetSize.
    rewrite bool_decide_eq_true_2 by lia.
    rewrite bool_decide_eq_true_2; [done|]. by apply comparator_eq0.
Qed.

Lemma Leaf_Lookup_None (key : Z) (l : LeafPage) :
  sorted_keys (l_array l) ->
  Leaf.Lookup key l = None <-> key ∉ (l_array l).*1.
Proof.
  intros Hs. split.
  - intros Hn Hin. apply list_elem_of_fmap in Hin as ([k v] & -> & Hin).
    apply (Leaf_Lookup_Some k l v Hs) in Hin. simpl in Hn. congruence.
  - intros Hn. destruct (Leaf.Lookup key l) as [v|] eqn:Hl; [|done].
    apply Leaf_Lookup_Some in Hl; [|done]. exfalso. apply Hn.
    apply list_elem_of_fmap. by exists (key, v).
Qed.

Lemma sorted_keys_app {A} (l1 l2 : list (Z * A)) :
  sorted_keys (l1 ++ l2) <->
  sorted_keys l1 /\ sorted_keys l2
  /\ forall x y, x ∈ l1 -> y ∈ l2 -> x.1 < y.1.
Proof.
  unfold sorted_keys. rewrite fmap_app, StronglySorted_app. split.
  - intros (Hall & H1 & H2). split; [done|]. split; [done|].
    intros x y Hx Hy. apply Hall; apply list_elem_of_fmap; eauto.
  - intros (H1 & H2 & Hall). split; [|done].
    intros a b Ha Hb.
    apply list_elem_of_fmap in Ha as (x & -> & Hx).
    apply list_elem_of_fmap in Hb as (y & -> & Hy). by apply Hall.
Qed.

Lemma sorted_keys_cons {A} (x : Z * A) (l : list (Z * A)) :
  sorted_keys (x :: l) <-> sorted_keys l /\ forall y, y ∈ l -> x.1 < y.1.
Proof.
  unfold sorted_keys. simpl. rewrite StronglySorted_cons, Forall_forall. split.
  - intros [Hall Hs]. split; [done|]. intros y Hy. apply Hall.
    apply list_elem_of_fmap; eauto.
  - intros [Hs Hall]. split; [|done]. intros b Hb.
    apply list_elem_of_fmap in Hb as (y & -> & Hy). by apply Hall.
Qed.

Lemma sorted_keys_nil {A} : sorted_keys (@nil (Z * A)).
Proof. constructor. Qed.

Lemma sorted_keys_take {A} (n : nat) (l : list (Z * A)) :
  sorted_keys l -> sorted_keys (take n l).
Proof.
  intros Hs. rewrite <- (take_drop n l) in Hs.
  by apply sorted_keys_app in Hs as (? & _).
Qed.

Lemma sorted_keys_drop {A} (n : nat) (l : list (Z * A)) :
  sorted_keys l -> sorted_keys (drop n l).
Proof.
  intros Hs. rewrite <- (take_drop n l) in Hs.
  by apply sorted_keys_app in Hs as (_ & ? & _).
Qed.

Lemma sorted_keys_take_drop {A} (n : nat) (l : list (Z * A)) x y :
  sorted_keys l -> x ∈ take n l -> y ∈ drop n l -> x.1 < y.1.
Proof.
  intros Hs. rewrite <- (take_drop n l) in Hs.
  apply sorted_keys_app in Hs as (_ & _ & Hall). apply Hall.
Qed.

Lemma elem_of_take_lookup {A} (n : nat) (l : list A) x :
  x ∈ take n l <-> exists i : nat, (i < n)%nat /\ l !! i = Some x.
Proof.
  rewrite list_elem_of_lookup. split.
  - intros [i Hi]. apply lookup_take_Some in Hi as [Hl Hi]. eauto.
  - intros (i & Hi & Hl). exists i. by apply lookup_take_Some.
Qed.

Lemma elem_of_drop_lookup {A} (n : nat) (l : list A) x :
  x ∈ drop n l <-> exists i : nat, (n <= i)%nat /\ l !! i = Some x.
Proof.
  rewrite list_elem_of_lookup. split.
  - intros [i Hi]. rewrite lookup_drop in Hi. exists (n + i)%nat. split; [lia|done].
  - intros (i & Hi & Hl). exists (i - n)%nat. rewrite lookup_drop.
    by replace (n + (i - n))%nat with i by lia.
Qed.

Lemma elem_of_insert_at {A} (index : Z) (x y : A) (l : list A) :
  y ∈ insert_at index x l <-> y = x \/ y ∈ l.
Proof.
  unfold insert_at. rewrite elem_of_app, elem_of_cons.
  rewrite <- (take_drop (Z.to_nat index) l) at 3. rewrite elem_of_app. tauto.
Qed.

Lemma length_insert_at {A} (index : Z) (x : A) (l : list A) :
  length (insert_at index x l) = S (length l).
Proof.
  unfold insert_at. rewrite length_app. simpl.
  rewrite length_take, length_drop. lia.
Qed.

Lemma lookup_insert_at {A} (index : nat) (x : A) (l : list A) (j : nat) :
  (index <= length l)%nat ->
  insert_at (Z.of_nat index) x l !! j =
  if decide (j < index)%nat then l !! j
  else if decide (j = index) then Some x else l !! (j - 1)%nat.
Proof.
  intros Hle. unfold insert_at. rewrite Nat2Z.id.
  destruct (decide (j < index)%nat) as [Hlt|Hge].
  - rewrite lookup_app_l by (rewrite length_take; lia).
    by rewrite lookup_take_lt.
  - rewrite lookup_app_r by (rewrite length_take; lia).
    rewrite length_take_le by lia.
    destruct (decide (j = index)) as [->|Hne].
    + by rewrite Nat.sub_diag.
    + destruct (j - index)%nat as [|m] eqn:Hm; [lia|]. simpl.
      rewrite lookup_drop. f_equal. lia.
Qed.

Lemma elem_of_remove_at {A} (index : Z) (y : A) (l : list A) :
  y ∈ remove_at index l -> y ∈ l.
Proof.
  unfold remove_at. rewrite elem_of_app. intros [Hy|Hy].
  - by eapply subseteq_take.
  - by eapply subseteq_drop.
Qed.

Lemma length_remove_at {A} (index : nat) (l : list A) :
  (index < length l)%nat ->
  length (remove_at (Z.of_nat index) l) = (length l - 1)%nat.
Proof.
  intros Hlt. unfold remove_at. rewrite Nat2Z.id, length_app, length_take, length_drop. lia.
Qed.

Lemma lookup_remove_at {A} (index : nat) (l : list A) (j : nat) :
  (index < length l)%nat ->
  remove_at (Z.of_nat index) l !! j =
  if decide (j < index)%nat then l !! j else l !! (S j).
Proof.
  intros Hlt. unfold remove_at. rewrite Nat2Z.id.
  destruct (decide (j < index)%nat) as [Hj|Hj].
  - rewrite lookup_app_l by (rewrite length_take; lia).
    by rewrite lookup_take_lt.
  - rewrite lookup_app_r by (rewrite length_take; lia).
    rewrite length_take_le by lia. rewrite lookup_drop. f_equal. lia.
Qed.

(** *** Leaf pages *)

Lemma Leaf_Insert_spec (key : Z) (value : RID) (l : LeafPage) :
  sorted_keys (l_array l) -> key ∉ (l_array l).*1 ->
  exists l',
    Leaf.Insert key value l = Val l'
    /\ l' = Leaf.with_array (insert_at (Leaf.KeyIndex key l) (key, value) (l_array l)) l
    /\ sorted_keys (l_array l')
    /\ (forall x, x ∈ l_array l' <-> x = (key, value) \/ x ∈ l_array l)
    /\ length (l_array l') = S (length (l_array l)).
Proof.
  intros Hs Hnot. destruct (KeyIndex_spec key l Hs) as [Hr Hi].
  eexists. unfold Leaf.Insert. rewrite bool_decide_eq_true_2 by lia.
  split; [reflexivity|]. split; [reflexivity|]. simpl.
  split; [|split; [intros x; apply elem_of_insert_at|apply length_insert_at]].
  unfold insert_at. apply sorted_keys_app.
  split; [by apply sorted_keys_take|]. split.
  - apply sorted_keys_cons. split; [by apply sorted_keys_drop|].
    intros y Hy. apply elem_of_drop_lookup in Hy as (i & Hge & Hy). simpl.
    destruct (decide (key < y.1)); [done|]. exfalso.
    assert (y.1 <> key).
    { intros Heq. apply Hnot. apply list_elem_of_fmap. exists y.
      split; [done|]. by eapply list_elem_of_lookup_2. }
    assert (Hlt : y.1 < key) by lia. apply (Hi i y Hy) in Hlt. lia.
  - intros x y Hx Hy. apply elem_of_take_lookup in Hx as (i & Hlt & Hx).
    assert (Hxk : x.1 < key) by (apply (Hi i x Hx); lia).
    apply elem_of_cons in Hy as [->|Hy]; [done|].
    apply elem_of_drop_lookup in Hy as (j & Hge & Hy).
    apply (sorted_keys_lookup _ i j _ _ Hs); [lia|done|done].
Qed.

Lemma Leaf_Remove_spec (key : Z) (l : LeafPage) :
  sorted_keys (l_array l) ->
  exists l',
    Leaf.RemoveAndDeleteRecord key l = Val l'
    /\ l_max_size l' = l_max_size l
    /\ l_parent_page_id l' = l_parent_page_id l
    /\ l_page_id l' = l_page_id l
    /\ next_page_id l' = next_page_id l
    /\ sorted_keys (l_array l')
    /\ (forall x, x ∈ l_array l' <-> x ∈ l_array l /\ x.1 <> key)
    /\ (key ∉ (l_array l).*1 -> l' = l)
    /\ (key ∈ (l_array l).*1 -> length (l_array l) = S (length (l_array l'))).
Proof.
  intros Hs. destruct (KeyIndex_spec key l Hs) as [Hr Hi].
  unfold Leaf.RemoveAndDeleteRecord, Leaf.KeyAt, Leaf.GetSize.
  set (r := Leaf.KeyIndex key l) in *.
  assert (Hnotin : forall x, x ∈ l_array l -> x.1 = key ->
            l_array l !! Z.to_nat r = Some x /\ r < Z.of_nat (length (l_array l))).
  { intros [k v] Hx Hk. simpl in Hk. subst k.
    apply list_elem_of_lookup in Hx as [j Hj].
    pose proof (KeyIndex_found key l j v Hs Hj) as Hrj. fold r in Hrj.
    rewrite Hrj, Nat2Z.id. split; [done|]. apply lookup_lt_Some in Hj. lia. }
  case_bool_decide as Hge.
  - exists l. split_and!; try done.
    + intros x. split; [|by intros [? ?]].
      intros Hx. split; [done|]. intros Hk.
      destruct (Hnotin x Hx Hk) as [_ Hlt]. lia.
    + intros Hin. apply list_elem_of_fmap in Hin as (x & Hk & Hx).
      destruct (Hnotin x Hx (eq_sym Hk)) as [_ Hlt]. lia.
  - destruct (lookup_lt_is_Some_2 (l_array l) (Z.to_nat r)) as [[k v] Hkv]; [lia|].
    assert (Hslot : slot (l_array l) r = Val (k, v)) by (apply slot_Val; split; [lia|done]).
    rewrite Hslot. simpl. case_bool_decide as Hc.
    + assert (Hne : key <> k) by (intros ->; apply Hc; by apply comparator_eq0).
      exists l. split_and!; try done.
      * intros x. split; [|by intros [? ?]].
        intros Hx. split; [done|]. intros Hk.
        destruct (Hnotin x Hx Hk) as [Hl _]. rewrite Hkv in Hl.
        injection Hl as <-. simpl in Hk. congruence.
      * intros Hin. apply list_elem_of_fmap in Hin as (x & Hk & Hx).
        destruct (Hnotin x Hx (eq_sym Hk)) as [Hl _]. rewrite Hkv in Hl.
        injection Hl as <-. simpl in Hk. congruence.
    + apply comparator_eq0 in Hc as <-.
      eexists. split; [reflexivity|]. simpl. split_and!; try done.
      * unfold remove_at. apply sorted_keys_app.
        split; [by apply sorted_keys_take|]. split; [by apply sorted_keys_drop|].
        intros x y Hx Hy. apply elem_of_take_lookup in Hx as (i & Hlt & Hx).
        apply elem_of_drop_lookup in Hy as (j & Hgej & Hy).
        apply (sorted_keys_lookup _ i j _ _ Hs); [lia|done|done].
      * intros x. split.
        -- intros Hx. split; [by eapply elem_of_remove_at|].
           unfold remove_at in Hx. apply elem_of_app in Hx as [Hx|Hx].
           ++ apply elem_of_take_lookup in Hx as (i & Hlt & Hx).
              pose proof (sorted_keys_lookup _ i _ _ _ Hs Hlt Hx Hkv) as Hk.
              simpl in Hk. lia.
           ++ apply elem_of_drop_lookup in Hx as (i & Hlt & Hx).
              assert (Hlt' : (Z.to_nat r < i)%nat) by lia.
              pose proof (sorted_keys_lookup _ _ i _ _ Hs Hlt' Hkv Hx) as Hk.
              simpl in Hk. lia.
        -- intros [Hx Hk]. apply list_elem_of_lookup in Hx as [i Hx].
           assert (i <> Z.to_nat r).
           { intros ->. rewrite Hkv in Hx. injection Hx as <-. by simpl in Hk. }
           unfold remove_at. apply elem_of_app.
           destruct (decide (i < Z.to_nat r)%nat).
           ++ left. apply elem_of_take_lookup. eauto.
           ++ right. apply elem_of_drop_lookup. exists i. split; [lia|done].
      * intros Hnot. exfalso. apply Hnot. apply list_elem_of_fmap.
        exists (key, v). split; [done|]. by eapply list_elem_of_lookup_2.
      * intros _. replace r with (Z.of_nat (Z.to_nat r)) by lia.
        rewrite length_remove_at by lia. lia.
Qed.

(** *** Internal pages *)

Lemma ValueIndex_from_spec (i : Z) (value : Z) (array : list (Z * Z)) :
  let r := Internal.ValueIndex_from i value array in
  (r = -1 /\ value ∉ array.*2 \/
   exists (j : nat) k, r = i + Z.of_nat j /\ array !! j = Some (k, value)
     /\ forall (j' : nat) x, (j' < j)%nat -> array !! j' = Some x -> x.2 <> value).
Proof.
  revert i. induction array as [|[k c] array IH]; intros i; simpl.
  - left. split; [done|]. apply not_elem_of_nil.
  - case_bool_decide as Hc; simpl in Hc.
    + right. exists 0%nat, k. subst c. split; [lia|]. split; [done|].
      intros j' x Hlt. lia.
    + destruct (IH (i + 1)) as [[Hr Hnot]|(j & k' & Hr & Hj & Hbefore)].
      * left. split; [done|]. rewrite not_elem_of_cons. split; [done|done].
      * right. exists (S j), k'. split; [lia|]. split; [done|].
        intros [|j'] x Hlt Hx; simpl in Hx.
        -- injection Hx as <-. simpl. congruence.
        -- eapply Hbefore; [|done]. lia.
Qed.

Lemma ValueIndex_lookup (value : Z) (n : InternalPage) (j : nat) k :
  NoDup (i_array n).*2 -> i_array n !! j = Some (k, value) ->
  Internal.ValueIndex value n = Z.of_nat j.
Proof.
  intros Hnd Hj. unfold Internal.ValueIndex.
  destruct (ValueIndex_from_spec 0 value (i_array n))
    as [[_ Hnot]|(j' & k' & -> & Hj' & _)].
  - exfalso. apply Hnot. apply list_elem_of_fmap. exists (k, value).
    split; [done|]. by eapply list_elem_of_lookup_2.
  - assert (j' = j) as ->; [|lia].
    apply (NoDup_lookup _ j' j value Hnd).
    + by rewrite list_lookup_fmap, Hj'.
    + by rewrite list_lookup_fmap, Hj.
Qed.

Lemma ValueIndex_nonneg (value : Z) (n : InternalPage) :
  0 <= Internal.ValueIndex value n ->
  exists (j : nat) k, Internal.ValueIndex value n = Z.of_nat j
    /\ i_array n !! j = Some (k, value).
Proof.
  unfold Internal.ValueIndex.
  destruct (ValueIndex_from_spec 0 value (i_array n))
    as [[-> _]|(j & k & -> & Hj & _)]; [lia|].
  intros _. by exists j, k.
Qed.

Lemma ValueIndex_range (value : Z) (n : InternalPage) :
  -1 <= Internal.ValueIndex value n < Z.of_nat (length (i_array n)).
Proof.
  unfold Internal.ValueIndex.
  destruct (ValueIndex_from_spec 0 value (i_array n))
    as [[-> _]|(j & k & -> & Hj & _)]; [lia|].
  apply lookup_lt_Some in Hj. lia.
Qed.

Lemma sorted_from1_lookup (array : list (Z * Z)) (i j : nat) x y :
  sorted_keys (drop 1 array) -> (1 <= i)%nat -> (i < j)%nat ->
  array !! i = Some x -> array !! j = Some y -> x.1 < y.1.
Proof.
  intros Hs H1 Hij Hi Hj.
  apply (sorted_keys_lookup (drop 1 array) (i - 1) (j - 1) x y Hs); [lia| |].
  - rewrite lookup_drop. by replace (1 + (i - 1))%nat with i by lia.
  - rewrite lookup_drop. by replace (1 + (j - 1))%nat with j by lia.
Qed.

Lemma Lookup_loop_spec {fuel : nat} {key : Z} {array : list (Z * Z)} {start end_ : Z} :
  sorted_keys (drop 1 array) ->
  1 <= start -> end_ < Z.of_nat (length array) -> start <= end_ + 1 ->
  (Z.to_nat (end_ - start + 1) <= fuel)%nat ->
  (forall (i : nat) x, array !! i = Some x -> 1 <= Z.of_nat i < start -> x.1 <= key) ->
  (forall (i : nat) x, array !! i = Some x -> end_ < Z.of_nat i -> key < x.1) ->
  let r := Internal.Lookup_loop fuel key array start end_ in
  1 <= r <= Z.of_nat (length array)
  /\ forall (i : nat) x, array !! i = Some x -> (1 <= i)%nat ->
       (Z.of_nat i < r <-> x.1 <= key).
Proof.
  intros Hs. revert start end_.
  induction fuel as [|fuel IH]; intros start end_ H0 Hend Hse Hfuel Hlo Hhi.
  - simpl. assert (end_ = start - 1) as -> by lia.
    split; [lia|]. intros i x Hi H1. split.
    + intros Hlt. eapply Hlo; [done|lia].
    + intros Hlt. destruct (decide (Z.of_nat i < start)); [done|].
      assert (key < x.1) by (eapply Hhi; [done|lia]). lia.
  - simpl. case_bool_decide as Hle.
    + set (mid := (end_ - start) ÷ 2 + start).
      assert (Hmid : start <= mid <= end_).
      { unfold mid. rewrite Z.quot_div_nonneg by lia.
        pose proof (Z.div_pos (end_ - start) 2).
        pose proof (Z.div_le_upper_bound (end_ - start) 2 (end_ - start)). lia. }
      destruct (array !! Z.to_nat mid) as [[k v]|] eqn:Hm.
      * case_bool_decide as Hc.
        -- rewrite comparator_le0 in Hc.
           apply IH; [lia|lia|lia|lia| |done].
           intros i x Hi Hlt.
           destruct (decide (Z.of_nat i < start)); [eapply Hlo; [done|lia]|].
           destruct (decide (Z.of_nat i = mid)) as [Heq|Hne].
           { rewrite <- Heq, Nat2Z.id in Hm. rewrite Hi in Hm.
             injection Hm as ->. simpl. done. }
           assert (Hlt' : (i < Z.to_nat mid)%nat) by lia.
           assert (H1 : (1 <= i)%nat) by lia.
           pose proof (sorted_from1_lookup _ _ _ _ _ Hs H1 Hlt' Hi Hm) as Hk'.
           simpl in Hk'. lia.
        -- assert (Hk : key < k).
           { destruct (decide (key < k)); [done|]. exfalso. apply Hc.
             apply comparator_le0. lia. }
           apply IH; [lia|lia|lia|lia|done|].
           intros i x Hi Hgt.
           destruct (decide (end_ < Z.of_nat i)); [by eapply Hhi|].
           destruct (decide (Z.of_nat i = mid)) as [Heq|Hne].
           { rewrite <- Heq, Nat2Z.id in Hm. rewrite Hi in Hm.
             injection Hm as ->. simpl. done. }
           assert (Hlt : (Z.to_nat mid < i)%nat) by lia.
           assert (H1 : (1 <= Z.to_nat mid)%nat) by lia.
           pose proof (sorted_from1_lookup _ _ _ _ _ Hs H1 Hlt Hm Hi) as Hk'.
           simpl in Hk'. lia.
      * apply lookup_ge_None in Hm. lia.
    + assert (end_ = start - 1) as -> by lia.
      split; [lia|]. intros i x Hi H1. split.
      * intros Hlt. eapply Hlo; [done|lia].
      * intros Hlt. destruct (decide (Z.of_nat i < start)); [done|].
        assert (key < x.1) by (eapply Hhi; [done|lia]). lia.
Qed.

(** [Lookup] returns the child of the last slot whose key is at most
    [key], slot 0 counting as such for every key. *)
Lemma Internal_Lookup_spec (key : Z) (n : InternalPage) :
  sorted_keys (drop 1 (i_array n)) -> (2 <= length (i_array n))%nat ->
  exists (j : nat) kj c,
    i_array n !! j = Some (kj, c)
    /\ Internal.Lookup key n = Val c
    /\ (j <> 0%nat -> kj <= key)
    /\ (forall x, i_array n !! S j = Some x -> key < x.1).
Proof.
  intros Hs Hlen. unfold Internal.Lookup, Internal.GetSize.
  rewrite bool_decide_eq_true_2 by lia. cbn -[Internal.Lookup_loop].
  set (r := Internal.Lookup_loop _ _ _ _ _).
  assert (Hr : 1 <= r <= Z.of_nat (length (i_array n))
               /\ forall (i : nat) x, i_array n !! i = Some x -> (1 <= i)%nat ->
                    (Z.of_nat i < r <-> x.1 <= key)).
  { apply Lookup_loop_spec; try done; try lia.
    intros i x Hi Hlt. apply lookup_lt_Some in Hi. lia. }
  destruct Hr as [Hr Hi].
  destruct (lookup_lt_is_Some_2 (i_array n) (Z.to_nat (r - 1))) as [[kj c] Hj]; [lia|].
  exists (Z.to_nat (r - 1)), kj, c. split; [done|]. split.
  - unfold Internal.ValueAt.
    assert (Hsl : slot (i_array n) (r - 1) = Val (kj, c))
      by (apply slot_Val; split; [lia|done]).
    by rewrite Hsl.
  - split.
    + intros Hne. apply (Hi _ _ Hj); lia.
    + intros x Hx. destruct (decide (key < x.1)); [done|]. exfalso.
      assert (Hle : x.1 <= key) by lia.
      apply (Hi _ _ Hx) in Hle; lia.
Qed.


(** ** The page store *)

Import BPT.

Lemma FetchPage_Val (q : Z) (t : BPlusTree) (p : Page) :
  FetchPage q t = Val p <-> pages t !! q = Some p.
Proof.
  unfold FetchPage. destruct (pages t !! q); simpl; split; congruence.
Qed.

Lemma FetchLeaf_Val (q : Z) (t : BPlusTree) (l : LeafPage) :
  FetchLeaf q t = Val l <-> pages t !! q = Some (Leaf l).
Proof.
  unfold FetchLeaf, FetchPage.
  destruct (pages t !! q) as [[|]|]; simpl; split; congruence.
Qed.

Lemma FetchInternal_Val (q : Z) (t : BPlusTree) (n : InternalPage) :
  FetchInternal q t = Val n <-> pages t !! q = Some (Internal n).
Proof.
  unfold FetchInternal, FetchPage.
  destruct (pages t !! q) as [[|]|]; simpl; split; congruence.
Qed.

Lemma pages_put (q : Z) (p : Page) (t : BPlusTree) (q' : Z) :
  pages (put q p t) !! q' = if decide (q = q') then Some p else pages t !! q'.
Proof. unfold put. simpl. apply lookup_insert. Qed.

Lemma set_parent_Val (c parent : Z) (t : BPlusTree) (pc : Page) :
  pages t !! c = Some pc ->
  set_parent c parent t = Val (put c (SetParentPageId parent pc) t).
Proof. intros Hc. unfold set_parent, FetchPage. by rewrite Hc. Qed.

Lemma reparent_spec (children : list Z) (parent : Z) (t : BPlusTree) :
  (forall c, c ∈ children -> is_Some (pages t !! c)) ->
  exists t',
    reparent children parent t = Val t'
    /\ root_page_id t' = root_page_id t
    /\ next_id t' = next_id t
    /\ header_record t' = header_record t
    /\ forall q, pages t' !! q =
         if decide (q ∈ children)
         then SetParentPageId parent <$> pages t !! q
         else pages t !! q.
Proof.
  revert t. induction children as [|c children IH]; intros t Hall; simpl.
  - exists t. split_and!; try done.
    all: intros q; rewrite decide_False; [done|apply not_elem_of_nil].
  - destruct (Hall c) as [pc Hpc]; [left|].
    rewrite (set_parent_Val _ _ _ _ Hpc). cbn [mbind res_bind].
    destruct (IH (put c (SetParentPageId parent pc) t)) as (t' & Hr & H1 & H2 & H3 & Hq).
    { intros c' Hc'. rewrite pages_put. case_decide; [done|].
      apply Hall. by right. }
    exists t'. split; [done|]. split_and!; try done.
    intros q. rewrite Hq, pages_put.
    destruct (decide (c = q)) as [->|Hne].
    + rewrite (decide_True (P := q ∈ q :: children)) by left. rewrite Hpc. simpl.
      case_decide; [|done]. f_equal.
      destruct pc; reflexivity.
    + destruct (decide (q ∈ children)) as [Hin|Hnin].
      * rewrite decide_True; [done|by right].
      * rewrite decide_False; [done|].
        rewrite not_elem_of_cons. split; congruence.
Qed.

Lemma put_internal_array_Val (q : Z) (array : list (Z * Z)) (t : BPlusTree)
    (n : InternalPage) :
  pages t !! q = Some (Internal n) ->
  put_internal_array q array t = Val (put q (Internal (Internal.with_array array n)) t).
Proof.
  intros Hq. unfold put_internal_array.
  by rewrite (proj2 (FetchInternal_Val _ _ _) Hq).
Qed.

(** [MoveHalfTo] on an internal page whose moved children are pages
    other than the two it splits between. *)
Lemma Internal_MoveHalfTo_spec (recipient this : Z) (t : BPlusTree)
    (n r : InternalPage) :
  pages t !! this = Some (Internal n) ->
  pages t !! recipient = Some (Internal r) ->
  this <> recipient ->
  let mid := Z.to_nat (Internal.GetSize n ÷ 2) in
  (forall c, c ∈ (drop mid (i_array n)).*2 ->
     is_Some (pages t !! c) /\ c <> this /\ c <> recipient) ->
  exists t',
    Internal_MoveHalfTo recipient this t = Val t'
    /\ root_page_id t' = root_page_id t
    /\ next_id t' = next_id t
    /\ header_record t' = header_record t
    /\ forall q, pages t' !! q =
         if decide (q = recipient)
         then Some (Internal (Internal.with_array (drop mid (i_array n)) r))
         else if decide (q = this)
         then Some (Internal (Internal.with_array (take mid (i_array n)) n))
         else if decide (q ∈ (drop mid (i_array n)).*2)
         then SetParentPageId (i_page_id r) <$> pages t !! q
         else pages t !! q.
Proof.
  intros Hthis Hrec Hne mid Hch. unfold Internal_MoveHalfTo.
  rewrite (proj2 (FetchInternal_Val _ _ _) Hthis),
          (proj2 (FetchInternal_Val _ _ _) Hrec). cbn [mbind res_bind].
  fold mid.
  destruct (reparent_spec (drop mid (i_array n)).*2 (i_page_id r) t)
    as (t1 & Hr & H1 & H2 & H3 & Hq).
  { intros c Hc. by apply Hch. }
  rewrite Hr. cbn [mbind res_bind].
  assert (Ht1this : pages t1 !! this = Some (Internal n)).
  { rewrite Hq, decide_False; [done|]. intros Hin. by destruct (Hch _ Hin) as (_ & ? & _). }
  rewrite (put_internal_array_Val _ _ _ _ Ht1this). cbn [mbind res_bind].
  assert (Ht1rec : pages (put this (Internal (Internal.with_array (take mid (i_array n)) n)) t1)
                     !! recipient = Some (Internal r)).
  { rewrite pages_put, decide_False by done.
    rewrite Hq, decide_False; [done|]. intros Hin. by destruct (Hch _ Hin) as (_ & _ & ?). }
  rewrite (put_internal_array_Val _ _ _ _ Ht1rec).
  eexists. split; [reflexivity|]. split_and!; try done.
  intros q. rewrite !pages_put.
  destruct (decide (recipient = q)) as [<-|Hq1].
  { by rewrite decide_True. }
  rewrite (decide_False (P := q = recipient)) by congruence.
  destruct (decide (this = q)) as [<-|Hq2].
  { by rewrite decide_True. }
  rewrite (decide_False (P := q = this)) by congruence.
  apply Hq.
Qed.

(** ** Split *)

Section SplitFacts.
Variables leaf_max_size internal_max_size : Z.

Lemma Leaf_MoveHalfTo_spec (recipient l : LeafPage) :
  0 <= l_max_size l -> Leaf.GetSize l = l_max_size l + 1 ->
  let idx := Z.to_nat ((l_max_size l + 1) / 2) in
  Leaf.MoveHalfTo recipient l =
  Val (mkLeaf (l_max_size l) (l_parent_page_id l) (l_page_id l)
              (l_page_id recipient) (take idx (l_array l)),
       mkLeaf (l_max_size recipient) (l_parent_page_id recipient)
              (l_page_id recipient) (next_page_id l) (drop idx (l_array l))).
Proof.
  intros Hmax Hsize idx. unfold Leaf.MoveHalfTo.
  rewrite bool_decide_eq_true_2 by lia. cbn [mbind res_bind assert].
  rewrite Z.quot_div_nonneg by lia. fold idx.
  unfold Leaf.with_array, Leaf.SetNextPageId. simpl. do 3 f_equal.
  apply take_ge. rewrite length_drop. unfold Leaf.GetSize in Hsize.
  assert ((l_max_size l + 1) / 2 <= l_max_size l + 1)
    by (apply Z.div_le_upper_bound; lia).
  assert (0 <= (l_max_size l + 1) / 2) by (apply Z.div_pos; lia).
  lia.
Qed.

Lemma Split_leaf_spec (leaf : Z) (txn : option Transaction) (t : BPlusTree)
    (l : LeafPage) :
  pages t !! leaf = Some (Leaf l) -> is_Some txn ->
  0 <= l_max_size l -> Leaf.GetSize l = l_max_size l + 1 ->
  let idx := Z.to_nat ((l_max_size l + 1) / 2) in
  let R := next_id t in
  Split leaf_max_size internal_max_size leaf txn t =
  Val (R,
       put R (Leaf (mkLeaf leaf_max_size (l_parent_page_id l) R
                      (next_page_id l) (drop idx (l_array l))))
         (put leaf (Leaf (mkLeaf (l_max_size l) (l_parent_page_id l) (l_page_id l)
                            R (take idx (l_array l))))
            (NewPage t).2),
       AddIntoPageSet R txn).
Proof.
  intros Hl Htxn Hmax Hsize idx R. unfold Split.
  rewrite bool_decide_eq_true_2 by done. cbn [mbind res_bind assert].
  rewrite (proj2 (FetchPage_Val _ _ _) Hl). cbn [mbind res_bind NewPage].
  rewrite Leaf_MoveHalfTo_spec by done. reflexivity.
Qed.

Lemma Split_internal_spec (P : Z) (txn : option Transaction) (t : BPlusTree)
    (n : InternalPage) :
  pages t !! P = Some (Internal n) -> is_Some txn ->
  P <> next_id t ->
  let mid := Z.to_nat (Internal.GetSize n ÷ 2) in
  let R := next_id t in
  (forall c, c ∈ (drop mid (i_array n)).*2 ->
     is_Some (pages t !! c) /\ c <> P /\ c <> R) ->
  exists t',
    Split leaf_max_size internal_max_size P txn t = Val (R, t', AddIntoPageSet R txn)
    /\ root_page_id t' = root_page_id t
    /\ next_id t' = next_id t + 1
    /\ header_record t' = header_record t
    /\ forall q, pages t' !! q =
         if decide (q = R)
         then Some (Internal (mkInternal internal_max_size (i_parent_page_id n) R
                                (drop mid (i_array n))))
         else if decide (q = P)
         then Some (Internal (Internal.with_array (take mid (i_array n)) n))
         else if decide (q ∈ (drop mid (i_array n)).*2)
         then SetParentPageId R <$> pages t !! q
         else pages t !! q.
Proof.
  intros HP Htxn Hne mid R Hch. unfold Split.
  rewrite bool_decide_eq_true_2 by done. cbn [mbind res_bind assert].
  rewrite (proj2 (FetchPage_Val _ _ _) HP). cbn [mbind res_bind NewPage].
  set (r := Internal.Init internal_max_size (next_id t) (i_parent_page_id n)).
  set (t1 := put (next_id t) (Internal r) _).
  destruct (Internal_MoveHalfTo_spec R P t1 n r) as (t' & Hm & H1 & H2 & H3 & Hq).
  - unfold t1. rewrite pages_put, decide_False by done. done.
  - unfold t1. by rewrite pages_put, decide_True.
  - done.
  - intros c Hc. destruct (Hch c Hc) as (Hs & Hc1 & Hc2).
    split; [|done]. unfold t1. rewrite pages_put, decide_False by done. done.
  - fold R. rewrite Hm. cbn [mbind res_bind].
    exists t'. split; [done|]. split_and!; try done.
    intros q. rewrite Hq. fold mid. fold R.
    destruct (decide (q = R)) as [->|Hq1]; [done|].
    destruct (decide (q = P)) as [->|Hq2]; [done|].
    assert (Hqq : pages t1 !! q = pages t !! q).
    { unfold t1. rewrite pages_put, decide_False by done. done. }
    rewrite Hqq. done.
Qed.

(** ** InsertIntoParent *)

Lemma InsertIntoParent_root (fuel : nat) (old key new : Z)
    (txn : option Transaction) (t : BPlusTree) (po pn : Page) :
  is_Some txn ->
  pages t !! old = Some po -> pages t !! new = Some pn ->
  GetParentPageId po = INVALID_PAGE_ID ->
  old <> new -> old <> next_id t -> new <> next_id t ->
  let R := next_id t in
  InsertIntoParent leaf_max_size internal_max_size fuel old key new txn t =
  Val (mkTree R
         (<[new := SetParentPageId R pn]>
            (<[old := SetParentPageId R po]>
               (<[R := Internal (mkInternal internal_max_size INVALID_PAGE_ID R
                                   [(0, GetPageId po); (key, GetPageId pn)])]>
                  (pages t))))
         (next_id t + 1) (Some R),
       txn).
Proof.
  intros Htxn Hold Hnew Hroot Hne1 Hne2 Hne3 R.
  destruct fuel; simpl;
    rewrite bool_decide_eq_true_2 by done; cbn [mbind res_bind assert];
    rewrite (proj2 (FetchPage_Val _ _ _) Hold), (proj2 (FetchPage_Val _ _ _) Hnew);
    cbn [mbind res_bind]; unfold IsRootPage;
    rewrite bool_decide_eq_true_2 by done; cbn [NewPage];
    unfold set_parent, FetchPage; simpl;
    rewrite lookup_insert_ne by done; rewrite Hold; simpl;
    rewrite lookup_insert_ne by done; rewrite lookup_insert_ne by done;
    rewrite Hnew; simpl; reflexivity.
Qed.

Lemma InsertIntoParent_nonroot (fuel : nat) (old key new : Z)
    (txn : option Transaction) (t : BPlusTree) (po pn : Page)
    (parent : InternalPage) :
  is_Some txn ->
  pages t !! old = Some po -> pages t !! new = Some pn ->
  GetParentPageId po <> INVALID_PAGE_ID ->
  pages t !! GetParentPageId po = Some (Internal parent) ->
  new <> GetParentPageId po ->
  0 <= Internal.ValueIndex (GetPageId po) parent ->
  let P := GetParentPageId po in
  let parent1 :=
    Internal.with_array
      (insert_at (Internal.ValueIndex (GetPageId po) parent + 1)
                 (key, GetPageId pn) (i_array parent)) parent in
  let t2 := put P (Internal parent1) (put new (SetParentPageId P pn) t) in
  InsertIntoParent leaf_max_size internal_max_size fuel old key new txn t =
  if bool_decide (Internal.GetSize parent1 > i_max_size parent1)
  then
    match fuel with
    | O => NoFuel
    | S fuel' =>
        '(newLeafPage, t3, txn3) ← Split leaf_max_size internal_max_size P txn t2;
        n ← FetchInternal newLeafPage t3;
        firstKey ← Internal.KeyAt 0 n;
        InsertIntoParent leaf_max_size internal_max_size fuel' P firstKey newLeafPage txn3 t3
    end
  else Val (t2, txn).
Proof.
  intros Htxn Hold Hnew Hroot HP Hne Hidx P parent1 t2.
  assert (Hp' : pages (put new (SetParentPageId (GetParentPageId po) pn) t)
                  !! GetParentPageId po = Some (Internal parent)).
  { rewrite pages_put, decide_False by done. done. }
  assert (Hins : Internal.InsertNodeAfter (GetPageId po) key (GetPageId pn) parent
                 = Val parent1).
  { unfold Internal.InsertNodeAfter.
    rewrite bool_decide_eq_true_2 by lia. reflexivity. }
  destruct fuel; simpl;
    rewrite bool_decide_eq_true_2 by done; cbn [mbind res_bind assert];
    rewrite (proj2 (FetchPage_Val _ _ _) Hold), (proj2 (FetchPage_Val _ _ _) Hnew);
    cbn [mbind res_bind]; unfold IsRootPage;
    rewrite bool_decide_eq_false_2 by done;
    rewrite (proj2 (FetchInternal_Val _ _ _) HP); cbn [mbind res_bind];
    rewrite (set_parent_Val _ _ _ _ Hnew); cbn [mbind res_bind];
    rewrite (proj2 (FetchInternal_Val _ _ _) Hp'); cbn [mbind res_bind];
    rewrite Hins; cbn [mbind res_bind]; reflexivity.
Qed.

End SplitFacts.





(** ** Searching a well-formed index *)

Import BPT.

Section SearchFacts.
Variables leaf_max_size internal_max_size : Z.
Notation core := (core leaf_max_size internal_max_size).
Notation page_ok := (page_ok leaf_max_size internal_max_size).
Notation internal_ok := (internal_ok internal_max_size).
Notation internal_ok_upto := (internal_ok_upto internal_max_size).
Notation leaf_ok := (leaf_ok leaf_max_size).
Notation sizes := (sizes leaf_max_size).

Lemma parent_of_Some (t : BPlusTree) (c P : Z) :
  parent_of t c = Some P <->
  exists pc, pages t !! c = Some pc /\ GetParentPageId pc = P.
Proof.
  unfold parent_of. destruct (pages t !! c) as [pc|]; simpl; split.
  - intros [= <-]. eauto.
  - intros (pc' & [= <-] & <-). done.
  - done.
  - intros (? & ? & _). done.
Qed.

Lemma strictly_above_above lo k k' :
  strictly_above lo k -> k <= k' -> above lo k'.
Proof. destruct lo; simpl; lia. Qed.

Lemma strictly_above_trans lo k k' :
  strictly_above lo k -> k <= k' -> strictly_above lo k'.
Proof. destruct lo; simpl; lia. Qed.

Lemma above_strictly lo k k' :
  above lo k -> k < k' -> strictly_above lo k'.
Proof. destruct lo; simpl; lia. Qed.

Lemma below_trans k k' hi : below k' hi -> k <= k' -> below k hi.
Proof. destruct hi; simpl; lia. Qed.

(** The keys of the slots 1, 2, ... of a well-formed internal page
    ascend; two slots never hold the same child. *)
Lemma internal_keys_lt D X g t b q n (i j : nat) x y :
  internal_ok_upto D X g t b q n -> (1 <= i)%nat -> (i < j)%nat ->
  i_array n !! i = Some x -> i_array n !! j = Some y -> x.1 < y.1.
Proof.
  intros (_ & _ & _ & Hs & _) H1 Hij Hi Hj.
  by eapply sorted_from1_lookup.
Qed.

Lemma internal_key_bounds D X g t b q n (i : nat) x :
  internal_ok_upto D X g t b q n -> (1 <= i)%nat -> i_array n !! i = Some x ->
  strictly_above (lower g q) x.1 /\ below x.1 (upper g q).
Proof.
  intros (_ & _ & _ & _ & Hb & _) H1 Hi. apply Hb.
  apply elem_of_drop_lookup. eauto.
Qed.

Lemma children_NoDup D X g t b q n :
  internal_ok_upto D X g t b q n -> NoDup (i_array n).*2.
Proof.
  intros Hok. apply NoDup_alt. intros i j c Hi Hj.
  rewrite list_lookup_fmap in Hi, Hj.
  destruct (i_array n !! i) as [[ki ci]|] eqn:Hai; [|done].
  destruct (i_array n !! j) as [[kj cj]|] eqn:Haj; [|done].
  simpl in Hi, Hj. injection Hi as ->. injection Hj as ->.
  assert (Hgen : forall (a b : nat) ka kb, (a < b)%nat ->
            i_array n !! a = Some (ka, c) -> i_array n !! b = Some (kb, c) -> False).
  { clear i j ki kj Hai Haj. intros i j ki kj Hij Hai Haj.
    pose proof Hok as (_ & _ & _ & _ & _ & _ & _ & Hch).
    destruct (Hch i _ Hai) as (_ & _ & _ & Hli & _).
    destruct (Hch j _ Haj) as (_ & _ & _ & Hlj & _).
    simpl in Hli, Hlj. rewrite Hli in Hlj.
    rewrite (decide_False (P := j = 0%nat)) in Hlj by lia.
    destruct (decide (i = 0%nat)) as [->|Hi0].
    - destruct (internal_key_bounds _ _ _ _ _ _ _ j _ Hok ltac:(lia) Haj) as [Hsa _].
      rewrite Hlj in Hsa. simpl in Hsa. lia.
    - injection Hlj as ->.
      pose proof (internal_keys_lt _ _ _ _ _ _ _ i j _ _ Hok ltac:(lia) Hij Hai Haj).
      simpl in *. lia. }
  destruct (Nat.lt_trichotomy i j) as [Hlt|[->|Hlt]]; [|done|].
  - exfalso. by eapply (Hgen i j).
  - exfalso. by eapply (Hgen j i).
Qed.

Lemma ValueIndex_child D X g t b q n (i : nat) k c :
  internal_ok_upto D X g t b q n -> i_array n !! i = Some (k, c) ->
  Internal.ValueIndex c n = Z.of_nat i.
Proof.
  intros Hok Hi. eapply ValueIndex_lookup; [|done].
  by eapply children_NoDup.
Qed.

(** [Lookup] leads to the child whose range holds the key. *)
Lemma Lookup_in_range D g t q n key :
  internal_ok D None g t q n -> (2 <= length (i_array n))%nat ->
  in_range g q key ->
  exists (j : nat) k c,
    i_array n !! j = Some (k, c)
    /\ Internal.Lookup key n = Val c
    /\ in_range g c key.
Proof.
  intros Hok Hlen [Hlo Hhi].
  pose proof Hok as (_ & _ & _ & Hs & Hb & _ & _ & Hch).
  destruct (Internal_Lookup_spec key n Hs Hlen) as (j & kj & c & Hj & Hl & Hge & Hlt).
  exists j, kj, c. split; [done|]. split; [done|].
  destruct (Hch j _ Hj) as (_ & _ & _ & Hlow & Hup). simpl in Hlow, Hup.
  unfold in_range. rewrite Hlow, Hup. split.
  - destruct (decide (j = 0%nat)); [done|]. simpl. by apply Hge.
  - unfold next_key. destruct (i_array n !! S j) as [x|] eqn:Hx; [|done].
    simpl. by apply Hlt.
Qed.

(** A child's range lies within its parent's. *)
Lemma child_range_sub D g t q n (i : nat) kc key :
  internal_ok D None g t q n -> i_array n !! i = Some kc ->
  in_range g kc.2 key -> in_range g q key.
Proof.
  intros Hok Hi [Hlo Hhi].
  pose proof Hok as (_ & _ & _ & _ & _ & _ & _ & Hch).
  destruct (Hch i _ Hi) as (_ & _ & _ & Hlow & Hup). simpl in Hup.
  rewrite Hlow in Hlo. rewrite Hup in Hhi. split.
  - destruct (decide (i = 0%nat)); [done|].
    destruct (internal_key_bounds _ _ _ _ _ _ _ i _ Hok ltac:(lia) Hi) as [Hsa _].
    simpl in Hlo. by eapply strictly_above_above.
  - unfold next_key in Hhi. destruct (i_array n !! S i) as [x|] eqn:Hx; [|done].
    destruct (internal_key_bounds _ _ _ _ _ _ _ (S i) _ Hok ltac:(lia) Hx) as [_ Hbl].
    simpl in Hhi. eapply below_trans; [done|lia].
Qed.

(** The slot whose range holds the key is the one [Lookup] picks. *)
Lemma Lookup_child D g t q n (i : nat) kc key :
  internal_ok D None g t q n -> (2 <= length (i_array n))%nat ->
  i_array n !! i = Some kc -> in_range g kc.2 key ->
  Internal.Lookup key n = Val kc.2.
Proof.
  intros Hok Hlen Hi [Hlo Hhi].
  pose proof Hok as (_ & _ & _ & Hs & Hb & _ & _ & Hch).
  destruct (Internal_Lookup_spec key n Hs Hlen) as (j & kj & c & Hj & Hl & Hge & Hlt).
  rewrite Hl. f_equal.
  destruct (Hch i _ Hi) as (_ & _ & _ & Hlow & Hup). simpl in Hup.
  rewrite Hlow in Hlo. rewrite Hup in Hhi. unfold next_key in Hhi.
  destruct (Nat.lt_trichotomy i j) as [Hij|[->|Hji]].
  - exfalso. destruct (lookup_lt_is_Some_2 (i_array n) (S i)) as [x Hx].
    { apply lookup_lt_Some in Hj. lia. }
    rewrite Hx in Hhi. simpl in Hhi.
    assert (x.1 <= kj).
    { destruct (decide (S i = j)) as [<-|Hne].
      - rewrite Hx in Hj. injection Hj as ->. simpl. lia.
      - pose proof (internal_keys_lt _ _ _ _ _ _ _ (S i) j _ _ Hok ltac:(lia) ltac:(lia) Hx Hj).
        simpl in *. lia. }
    assert (kj <= key) by (apply Hge; lia). lia.
  - rewrite Hi in Hj. by injection Hj as ->.
  - exfalso. rewrite decide_False in Hlo by lia. simpl in Hlo.
    destruct (lookup_lt_is_Some_2 (i_array n) (S j)) as [x Hx].
    { apply lookup_lt_Some in Hi. lia. }
    specialize (Hlt x Hx).
    assert (x.1 <= kc.1).
    { destruct (decide (S j = i)) as [<-|Hne].
      - rewrite Hx in Hi. injection Hi as ->. lia.
      - pose proof (internal_keys_lt _ _ _ _ _ _ _ (S j) i _ _ Hok ltac:(lia) ltac:(lia) Hx Hi).
        lia. }
    lia.
Qed.

Lemma core_page D X g t q p :
  core D X g t -> pages t !! q = Some p -> q ∉ D -> page_ok D X g t q p.
Proof. intros (_ & _ & H) ??. by apply H. Qed.

Lemma core_root_page D X g t :
  core D X g t ->
  exists p, pages t !! root_page_id t = Some p
    /\ GetParentPageId p = INVALID_PAGE_ID
    /\ page_ok D X g t (root_page_id t) p.
Proof.
  intros Hc. pose proof Hc as ((Hd & Hp & _) & _ & H).
  apply parent_of_Some in Hp as (p & Hp & Hpar).
  exists p. split_and!; [done..|]. by apply H.
Qed.

Lemma child_page D X g t b q n (i : nat) kc :
  internal_ok_upto D X g t b q n -> i_array n !! i = Some kc ->
  (kc.2 ∉ D)
  /\ depth g kc.2 = S (depth g q)
  /\ exists pc, pages t !! kc.2 = Some pc /\ GetParentPageId pc = q.
Proof.
  intros (_ & _ & _ & _ & _ & _ & _ & Hch) Hi.
  destruct (Hch i kc Hi) as (Hd & Hp & Hdep & _).
  split_and!; [done..|]. by apply parent_of_Some.
Qed.

Lemma page_depth_leaf D X g t q p :
  page_ok D X g t q p -> IsLeafPage p = true <-> depth g q = height g.
Proof.
  intros (_ & _ & Hp). destruct p as [l|n]; simpl.
  - destruct Hp as (_ & _ & Hd & _). done.
  - destruct Hp as (_ & _ & Hd & _). split; [done|lia].
Qed.

Lemma fold_free_page_empty ps t :
  fold_left free_page ps (t, ∅) = (t, ∅).
Proof.
  induction ps as [|q ps IH]; [done|]. simpl.
  rewrite decide_False by set_solver. done.
Qed.

Lemma FreePages_clean ex txn prev t :
  clean txn ->
  exists txn',
    FreePagesInTransaction ex txn prev t = Val (t, txn')
    /\ clean txn' /\ (is_Some txn <-> is_Some txn')
    /\ forall x, txn' = Some x -> page_set x = [].
Proof.
  destruct txn as [x|]; simpl.
  - intros ->. rewrite fold_free_page_empty. simpl.
    eexists. split; [reflexivity|]. split; [done|]. split.
    + split; eauto.
    + by intros ? [= <-].
  - intros _. exists None. split; [done|]. split; [done|]. split; [done|].
    intros ? [=].
Qed.

Lemma clean_AddIntoPageSet q txn : clean txn -> clean (AddIntoPageSet q txn).
Proof. by destruct txn. Qed.

Lemma is_Some_AddIntoPageSet q txn :
  is_Some (AddIntoPageSet q txn) <-> is_Some txn.
Proof.
  destruct txn; simpl; split; intros [? Hx]; try done; eauto.
Qed.

Lemma Crabing_spec q op prev txn t p :
  pages t !! q = Some p -> clean txn ->
  exists txn1,
    CrabingProtocalFetchPage q op prev txn t = Val (p, t, AddIntoPageSet q txn1)
    /\ clean txn1 /\ (is_Some txn <-> is_Some txn1)
    /\ (IsSafeOperation op p = false \/ prev <= 0 -> txn1 = txn)
    /\ (txn1 = txn \/ forall x, txn1 = Some x -> page_set x = []).
Proof.
  intros Hp Hcl. unfold CrabingProtocalFetchPage, FetchPage. rewrite Hp.
  cbn [deref mbind res_bind].
  destruct (bool_decide (prev > 0) &&
      (negb match op with READ => false | _ => true end || IsSafeOperation op p))
    eqn:Hcond.
  - destruct (FreePages_clean match op with READ => false | _ => true end
                txn prev t Hcl) as (txn' & -> & Hcl' & His & Hps).
    cbn [mbind res_bind]. exists txn'. split_and!; [done..| |by right].
    apply andb_true_iff in Hcond as [Hprev Hsafe].
    apply bool_decide_eq_true in Hprev.
    intros [Hunsafe|?]; [|lia].
    destruct op; simpl in *; congruence.
  - cbn [mbind res_bind]. exists txn. split_and!; [done..| |by left]. done.
Qed.

Lemma unsafe_IsSafeOperation p :
  unsafe p 0 <-> IsSafeOperation DELETE p = false.
Proof.
  unfold unsafe, IsSafeOperation. destruct (IsLeafPage p).
  - rewrite bool_decide_eq_false. lia.
  - rewrite bool_decide_eq_false. lia.
Qed.

Lemma chain_mono t ps ps' q extra :
  chain t ps q extra -> (forall x, x ∈ ps -> x ∈ ps') -> chain t ps' q extra.
Proof.
  induction 1 as [q extra Hq _ IH]. intros Hsub.
  constructor; [by apply Hsub|]. intros p Hp Hpar Hun. by eapply IH.
Qed.

Lemma chain_elem t ps q extra : chain t ps q extra -> q ∈ ps.
Proof. by destruct 1. Qed.

(** The descent ends at the leaf whose range holds the key; with the
    pages it has latched a DELETE can repair every page that may
    underflow. *)
Lemma FindLeafPage_loop_spec g t key op (fuel : nat) :
  core ∅ None g t -> sizes ∅ None t ->
  forall q p txn,
    pages t !! q = Some p -> in_range g q key -> clean txn ->
    (op = DELETE -> forall x, txn = Some x -> chain t (page_set x) q 0) ->
    (height g - depth g q <= fuel)%nat ->
    exists L l txn',
      FindLeafPage_loop fuel key false op p q txn t = Val (L, t, txn')
      /\ pages t !! L = Some (Leaf l) /\ in_range g L key
      /\ clean txn' /\ (is_Some txn <-> is_Some txn')
      /\ (op = DELETE -> forall x, txn' = Some x -> chain t (page_set x) L 0).
Proof.
  intros Hcore Hsizes. induction fuel as [|fuel IH];
    intros q p txn Hq Hr Hcl Hch Hfuel.
  - pose proof (core_page _ _ _ _ _ _ Hcore Hq (not_elem_of_empty _)) as Hok.
    destruct p as [l|n].
    + exists q, l, txn. simpl. done.
    + destruct Hok as (_ & _ & _ & _ & Hd & _). lia.
  - pose proof (core_page _ _ _ _ _ _ Hcore Hq (not_elem_of_empty _)) as Hok.
    destruct p as [l|n].
    + exists q, l, txn. simpl. done.
    + destruct Hok as (_ & _ & Hin).
      pose proof (Hsizes q _ Hq (not_elem_of_empty _)) as Hsz. simpl in Hsz.
      destruct (Lookup_in_range _ _ _ _ _ key Hin ltac:(lia) Hr)
        as (j & k & c & Hj & Hl & Hrc).
      destruct (child_page _ _ _ _ _ _ _ _ _ Hin Hj) as (_ & Hdep & pc & Hpc & Hpar).
      simpl in Hdep, Hpc, Hpar.
      destruct (Crabing_spec c op q txn t pc Hpc Hcl)
        as (txn1 & HC & Hcl1 & His1 & Hkeep & Hps).
      cbn [FindLeafPage_loop]. rewrite Hl. cbn [mbind res_bind].
      rewrite HC. cbn [mbind res_bind].
      destruct (IH c pc (AddIntoPageSet c txn1)) as (L & l & txn' & HF & HL & HrL & Hcl' & His' & Hch').
      * done.
      * done.
      * by apply clean_AddIntoPageSet.
      * intros -> x Hx. destruct txn1 as [x1|]; [|done]. simpl in Hx.
        injection Hx as <-. simpl. constructor; [set_solver|].
        intros p' Hp' Hroot Hun. rewrite Hpc in Hp'. injection Hp' as <-.
        rewrite Hpar. apply unsafe_IsSafeOperation in Hun.
        (* the parent stays latched *)
        assert (Some x1 = txn) as Htx by (apply Hkeep; by left).
        eapply chain_mono; [by apply Hch|]. set_solver.
      * lia.
      * exists L, l, txn'. split_and!; try done.
        rewrite His1, <- His'. by rewrite is_Some_AddIntoPageSet.
Qed.

Lemma root_in_range g t key :
  core ∅ None g t -> in_range g (root_page_id t) key.
Proof.
  intros ((_ & _ & _ & Hlo & Hhi) & _). simpl in Hhi.
  unfold in_range. by rewrite Hlo, Hhi.
Qed.

Lemma FindLeafPage_spec g t key op (fuel : nat) txn :
  core ∅ None g t -> sizes ∅ None t -> IsEmpty t = false ->
  clean txn -> (height g <= fuel)%nat ->
  exists L l txn',
    FindLeafPage fuel key false op txn t = Val (Some L, t, txn')
    /\ pages t !! L = Some (Leaf l) /\ in_range g L key
    /\ clean txn' /\ (is_Some txn <-> is_Some txn')
    /\ (op = DELETE -> forall x, txn' = Some x -> chain t (page_set x) L 0).
Proof.
  intros Hcore Hsizes Hne Hcl Hfuel. unfold FindLeafPage. rewrite Hne.
  destruct (core_root_page _ _ _ _ Hcore) as (p & Hp & Hpar & Hok).
  destruct (Crabing_spec (root_page_id t) op (-1) txn t p Hp Hcl)
    as (txn1 & -> & Hcl1 & His1 & Hkeep & _).
  cbn [mbind res_bind].
  destruct (FindLeafPage_loop_spec g t key op fuel Hcore Hsizes
              (root_page_id t) p (AddIntoPageSet (root_page_id t) txn1))
    as (L & l & txn' & -> & HL & Hr & Hcl' & His' & Hch).
  - done.
  - by apply root_in_range.
  - by apply clean_AddIntoPageSet.
  - intros _ x Hx. destruct txn1 as [x1|]; [|done]. injection Hx as <-.
    constructor; [set_solver|]. intros p' Hp'. rewrite Hp in Hp'.
    injection Hp' as <-. done.
  - lia.
  - cbn [mbind res_bind]. exists L, l, txn'. split_and!; try done.
    rewrite His1, <- His'. by rewrite is_Some_AddIntoPageSet.
Qed.

(** At every depth one page only has the key in its range. *)
Lemma in_range_unique g t key (d : nat) :
  core ∅ None g t -> sizes ∅ None t ->
  forall q q' p p',
    pages t !! q = Some p -> pages t !! q' = Some p' ->
    depth g q = d -> depth g q' = d ->
    in_range g q key -> in_range g q' key -> q = q'.
Proof.
  intros Hcore Hsizes. pose proof Hcore as ((_ & _ & Hd0 & _) & _).
  assert (Hpar : forall q p, pages t !! q = Some p -> q <> root_page_id t ->
     exists n (i : nat) kc, pages t !! GetParentPageId p = Some (Internal n)
       /\ i_array n !! i = Some kc /\ kc.2 = q
       /\ internal_ok ∅ None g t (GetParentPageId p) n
       /\ (2 <= length (i_array n))%nat).
  { intros q p Hq Hne.
    destruct (core_page _ _ _ _ _ _ Hcore Hq (not_elem_of_empty _)) as (_ & Hatt & _).
    destruct Hatt as [?|[[? [=]]|[_ (n & Hn & Hin)]]]; [done|].
    apply list_elem_of_fmap in Hin as (kc & -> & Hin).
    apply list_elem_of_lookup in Hin as (i & Hi).
    exists n, i, kc. split_and!; try done.
    - by destruct (core_page _ _ _ _ _ _ Hcore Hn (not_elem_of_empty _)) as (_ & _ & ?).
    - pose proof (Hsizes _ _ Hn (not_elem_of_empty _)) as Hsz. simpl in Hsz. lia. }
  induction d as [|d IH]; intros q q' p p' Hq Hq' Hd Hd' Hr Hr'.
  - assert (Hz : forall q p, pages t !! q = Some p -> depth g q = 0%nat ->
              q = root_page_id t).
    { clear -Hpar Hcore. intros q p Hq Hd.
      destruct (decide (q = root_page_id t)) as [|Hne]; [done|].
      destruct (Hpar q p Hq Hne) as (n & i & kc & Hn & Hi & <- & Hin & _).
      destruct (child_page _ _ _ _ _ _ _ _ _ Hin Hi) as (_ & Hdep & _). lia. }
    rewrite (Hz q p Hq Hd). by rewrite (Hz q' p' Hq' Hd').
  - assert (q <> root_page_id t) as Hne by (intros ->; lia).
    assert (q' <> root_page_id t) as Hne' by (intros ->; lia).
    destruct (Hpar q p Hq Hne) as (n & i & kc & Hn & Hi & <- & Hin & Hlen).
    destruct (Hpar q' p' Hq' Hne') as (n' & i' & kc' & Hn' & Hi' & <- & Hin' & Hlen').
    destruct (child_page _ _ _ _ _ _ _ _ _ Hin Hi) as (_ & Hdep & _).
    destruct (child_page _ _ _ _ _ _ _ _ _ Hin' Hi') as (_ & Hdep' & _).
    assert (GetParentPageId p = GetParentPageId p') as HP.
    { eapply IH; try done; try lia.
      - by eapply child_range_sub.
      - by eapply child_range_sub. }
    rewrite <- HP in Hn', Hin'. rewrite Hn in Hn'. injection Hn' as <-.
    pose proof (Lookup_child _ _ _ _ _ _ _ key Hin Hlen Hi Hr) as H1.
    pose proof (Lookup_child _ _ _ _ _ _ _ key Hin Hlen Hi' Hr') as H2.
    congruence.
Qed.

Lemma leaf_entry_in_range D X g t L l x :
  page_ok D X g t L (Leaf l) -> x ∈ l_array l -> in_range g L x.1.
Proof. intros (_ & _ & _ & _ & _ & _ & H & _). apply H. Qed.

(** A key is in the index exactly when the leaf the descent reaches
    holds it. *)
Lemma entry_lookup g t key L l v :
  core ∅ None g t -> sizes ∅ None t ->
  pages t !! L = Some (Leaf l) -> in_range g L key ->
  entry ∅ t key v <-> Leaf.Lookup key l = Some v.
Proof.
  intros Hcore Hsizes HL Hr.
  pose proof (core_page _ _ _ _ _ _ Hcore HL (not_elem_of_empty _)) as Hok.
  pose proof Hok as (_ & _ & _ & _ & Hdep & Hs & _).
  rewrite (Leaf_Lookup_Some key l v Hs). split.
  - intros (L' & l' & _ & HL' & Hin).
    pose proof (core_page _ _ _ _ _ _ Hcore HL' (not_elem_of_empty _)) as Hok'.
    pose proof Hok' as (_ & _ & _ & _ & Hdep' & _).
    pose proof (leaf_entry_in_range _ _ _ _ _ _ _ Hok' Hin) as Hr'. simpl in Hr'.
    assert (L' = L) as ->.
    { eapply (in_range_unique g t key (height g)); done. }
    rewrite HL in HL'. by injection HL' as <-.
  - intros Hin. exists L, l. split_and!; [set_solver|done..].
Qed.

Lemma entry_functional g t key v v' :
  core ∅ None g t -> sizes ∅ None t ->
  entry ∅ t key v -> entry ∅ t key v' -> v = v'.
Proof.
  intros Hcore Hsizes He He'.
  pose proof He as (L & l & _ & HL & Hin).
  pose proof (core_page _ _ _ _ _ _ Hcore HL (not_elem_of_empty _)) as Hok.
  pose proof (leaf_entry_in_range _ _ _ _ _ _ _ Hok Hin) as Hr. simpl in Hr.
  apply (entry_lookup g t key L l v Hcore Hsizes HL Hr) in He.
  apply (entry_lookup g t key L l v' Hcore Hsizes HL Hr) in He'.
  congruence.
Qed.

(** [GetValue] changes nothing and answers with the one value stored
    under the key, if there is one. *)
Lemma GetValue_spec g t key (fuel : nat) result v0 txn :
  core ∅ None g t -> sizes ∅ None t -> IsEmpty t = false ->
  clean txn -> (height g <= fuel)%nat ->
  exists b r txn',
    GetValue fuel key result v0 txn t = Val (b, r, t, txn')
    /\ clean txn' /\ (is_Some txn <-> is_Some txn')
    /\ (forall v, entry ∅ t key v <-> b = true /\ r = [v])
    /\ (b = true -> exists v, r = [v]).
Proof.
  intros Hcore Hsizes Hne Hcl Hfuel. unfold GetValue.
  destruct (FindLeafPage_spec g t key READ fuel txn Hcore Hsizes Hne Hcl Hfuel)
    as (L & l & txn1 & -> & HL & Hr & Hcl1 & His1 & _).
  cbn [mbind res_bind]. unfold FetchLeaf, FetchPage. rewrite HL.
  cbn [deref mbind res_bind].
  destruct (FreePages_clean false txn1 (l_page_id l) t Hcl1)
    as (txn2 & -> & Hcl2 & His2 & _).
  cbn [mbind res_bind].
  pose proof (entry_lookup g t key L l) as Hel.
  destruct (Leaf.Lookup key l) as [v|] eqn:Hlk.
  - exists true, [v], txn2. split_and!; try done.
    + by rewrite His1.
    + intros v'. rewrite (Hel v' Hcore Hsizes HL Hr). split.
      * by intros [= ->].
      * by intros [_ [= ->]].
    + eauto.
  - eexists false, _, txn2. split_and!; try done.
    + by rewrite His1.
    + intros v'. rewrite (Hel v' Hcore Hsizes HL Hr). split; [done|].
      by intros [[=] _].
Qed.

End SearchFacts.


(** ** Insertion keeps the index well formed *)

Import BPT.

Section FrameFacts.
Variables leaf_max_size internal_max_size : Z.
Notation core := (core leaf_max_size internal_max_size).
Notation page_ok := (page_ok leaf_max_size internal_max_size).
Notation internal_ok := (internal_ok internal_max_size).
Notation leaf_ok := (leaf_ok leaf_max_size).
Notation sizes := (sizes leaf_max_size).

Lemma parent_of_ext t t' c :
  pages t' !! c = pages t !! c -> parent_of t' c = parent_of t c.
Proof. unfold parent_of. by intros ->. Qed.

Lemma is_child_ext t t' P c :
  pages t' !! P = pages t !! P -> is_child t P c -> is_child t' P c.
Proof. intros HP (n & Hn & Hc). exists n. by rewrite HP. Qed.

Lemma is_child_lookup t P c :
  is_child t P c <->
  exists n (i : nat) k, pages t !! P = Some (Internal n)
    /\ i_array n !! i = Some (k, c).
Proof.
  split.
  - intros (n & Hn & Hc). apply list_elem_of_fmap in Hc as ([k c'] & -> & Hin).
    apply list_elem_of_lookup in Hin as (i & Hi). by exists n, i, k.
  - intros (n & i & k & Hn & Hi). exists n. split; [done|].
    apply list_elem_of_fmap. exists (k, c). split; [done|].
    by eapply list_elem_of_lookup_2.
Qed.

(** What [page_ok] reads of the index. *)
Lemma page_ok_ext D X g t t' q p :
  next_id t <= next_id t' ->
  (q = root_page_id t -> q = root_page_id t') ->
  (is_child t (GetParentPageId p) q -> is_child t' (GetParentPageId p) q) ->
  (forall n i kc, p = Internal n -> i_array n !! i = Some kc ->
     parent_of t' kc.2 = parent_of t kc.2) ->
  page_ok D X g t q p -> page_ok D X g t' q p.
Proof.
  intros Hnext Hroot Hchild Hpar (Hq & Hatt & Hp). split; [|split].
  - lia.
  - destruct Hatt as [?|[?|[? ?]]]; [left; auto|right; by left|].
    right; right. auto.
  - destruct p as [l|n]; [done|].
    destruct Hp as (? & ? & ? & ? & ? & ? & ? & Hch). split_and!; try done.
    intros i kc Hi. destruct (Hch i kc Hi) as (? & ? & ? & ? & ?).
    split_and!; try done. by rewrite (Hpar n i kc).
Qed.

(** Rewriting the slots of a leaf leaves the rest of the index as it
    was. *)
Lemma put_leaf_core D X g t t' L l l' :
  core D X g t -> pages t !! L = Some (Leaf l) ->
  root_page_id t' = root_page_id t -> next_id t' = next_id t ->
  (forall q, pages t' !! q =
     if decide (q = L) then Some (Leaf l') else pages t !! q) ->
  l_parent_page_id l' = l_parent_page_id l ->
  (L ∉ D -> leaf_ok g L l') ->
  core D X g t'.
Proof.
  intros (Hroot & Hpend & Hpages) HL Hr Hn Hp' Hparl Hl'.
  assert (Hpar : forall c, parent_of t' c = parent_of t c).
  { intros c. unfold parent_of. rewrite Hp'. destruct (decide (c = L)) as [->|]; [|done].
    rewrite HL. simpl. by rewrite Hparl. }
  assert (Hch : forall P c, is_child t P c <-> is_child t' P c).
  { intros P c. unfold is_child. rewrite Hp'.
    destruct (decide (P = L)) as [->|]; [|done]. rewrite HL.
    split; intros (? & [=] & _). }
  assert (Hsome : forall q, is_Some (pages t' !! q) <-> is_Some (pages t !! q)).
  { intros q. rewrite Hp'. destruct (decide (q = L)) as [->|]; [|done].
    rewrite HL. split; eauto. }
  split_and!.
  - unfold root_ok in *. rewrite Hr, Hpar. done.
  - unfold pending_ok in *. destruct X as [[old new]|]; [|done].
    destruct Hpend as (? & ? & ? & ? & ? & ? & Hnc & ?).
    split_and!; try done.
    + by apply Hsome.
    + by rewrite !Hpar.
    + intros P. rewrite <- Hch. apply Hnc.
  - intros q p Hq HqD. rewrite Hp' in Hq.
    destruct (decide (q = L)) as [->|Hne].
    + injection Hq as <-.
      destruct (Hpages L _ HL HqD) as (? & Hatt & _). split; [|split].
      * lia.
      * unfold attached in *. simpl in *. rewrite Hparl.
        destruct Hatt as [?|[?|[? ?]]]; [left; congruence|right; by left|].
        right; right. split; [done|]. by apply Hch.
      * by apply Hl'.
    + eapply page_ok_ext; [| | | |by apply Hpages].
      * lia.
      * congruence.
      * apply Hch.
      * intros. apply Hpar.
Qed.

Lemma put_same q p t : pages t !! q = Some p -> put q p t = t.
Proof.
  intros Hq. destruct t as [r m n h]. unfold put. simpl in *.
  by rewrite insert_id.
Qed.

Lemma SetParentPageId_id p : SetParentPageId (GetParentPageId p) p = p.
Proof. by destruct p as [[]|[]]. Qed.

Lemma GetParentPageId_Set P p : GetParentPageId (SetParentPageId P p) = P.
Proof. by destruct p. Qed.

Lemma GetPageId_Set P p : GetPageId (SetParentPageId P p) = GetPageId p.
Proof. by destruct p. Qed.

Lemma GetSize_Set P p : GetSize (SetParentPageId P p) = GetSize p.
Proof. by destruct p. Qed.

Lemma GetMaxSize_Set P p : GetMaxSize (SetParentPageId P p) = GetMaxSize p.
Proof. by destruct p. Qed.

Lemma IsLeafPage_Set P p : IsLeafPage (SetParentPageId P p) = IsLeafPage p.
Proof. by destruct p. Qed.

(** A page keeps its place, possibly under another parent, when its
    own description and what it reads of its children are kept. *)
Lemma page_ok_reparent D X g t D' X' g' t' q p P' :
  page_ok D X g t q p ->
  next_id t <= next_id t' ->
  attached D' X' t' q (SetParentPageId P' p) ->
  (depth g q = height g -> depth g' q = height g') ->
  ((depth g q < height g)%nat -> (depth g' q < height g')%nat) ->
  lower g' q = lower g q -> upper g' q = upper g q ->
  (forall n i kc, p = Internal n -> i_array n !! i = Some kc ->
     child_ok D X g t q n i kc ->
     (kc.2 ∉ D') /\ parent_of t' kc.2 = Some q
     /\ depth g' kc.2 = S (depth g' q)
     /\ lower g' kc.2 = lower g kc.2
     /\ upper_seen g' X' kc.2 = upper_seen g X kc.2) ->
  page_ok D' X' g' t' q (SetParentPageId P' p).
Proof.
  intros (Hq & _ & Hp) Hnext Hatt Hleaf Hint Hlo Hup Hch.
  split; [lia|]. split; [done|]. destruct p as [l|n].
  - destruct Hp as (? & ? & ? & ? & Hr & ?). simpl. split_and!; try done.
    + by apply Hleaf.
    + intros x Hx. unfold in_range. rewrite Hlo, Hup. by apply Hr.
  - destruct Hp as (? & ? & ? & ? & Hb & ? & H0 & Hc). simpl.
    split_and!; try done.
    + by apply Hint.
    + simpl. rewrite Hlo, Hup. apply Hb.
    + simpl. rewrite Hlo. apply H0.
    + simpl. intros i kc Hi. pose proof (Hc i kc Hi) as Hco.
      destruct (Hch n i kc eq_refl Hi Hco) as (? & ? & ? & Hl' & Hu').
      destruct Hco as (_ & _ & _ & Hl & Hu).
      split_and!; try done.
      * rewrite Hl', Hlo. done.
      * rewrite Hu', Hup. done.
Qed.

Lemma page_ok_transfer D X g t D' X' g' t' q p :
  page_ok D X g t q p ->
  next_id t <= next_id t' ->
  attached D' X' t' q p ->
  (depth g q = height g -> depth g' q = height g') ->
  ((depth g q < height g)%nat -> (depth g' q < height g')%nat) ->
  lower g' q = lower g q -> upper g' q = upper g q ->
  (forall n i kc, p = Internal n -> i_array n !! i = Some kc ->
     child_ok D X g t q n i kc ->
     (kc.2 ∉ D') /\ parent_of t' kc.2 = Some q
     /\ depth g' kc.2 = S (depth g' q)
     /\ lower g' kc.2 = lower g kc.2
     /\ upper_seen g' X' kc.2 = upper_seen g X kc.2) ->
  page_ok D' X' g' t' q p.
Proof.
  intros Hok Hnext Hatt Hleaf Hint Hlo Hup Hch.
  pose proof (page_ok_reparent D X g t D' X' g' t' q p (GetParentPageId p)) as H.
  rewrite SetParentPageId_id in H. by apply H.
Qed.

Lemma core_page_lt D X g t q p :
  core D X g t -> pages t !! q = Some p -> q ∉ D -> 0 < q < next_id t.
Proof. intros Hc Hq Hd. by destruct (core_page _ _ _ _ _ _ _ _ Hc Hq Hd). Qed.

Lemma core_fresh g t : core ∅ None g t -> pages t !! next_id t = None.
Proof.
  intros Hc. destruct (pages t !! next_id t) as [p|] eqn:Hp; [|done].
  pose proof (core_page_lt _ _ _ _ _ _ Hc Hp (not_elem_of_empty _)). lia.
Qed.

Lemma core_child_lt D X g t P c :
  core D X g t -> P ∉ D -> is_child t P c -> 0 < c < next_id t.
Proof.
  intros Hc HP Hch. apply is_child_lookup in Hch as (n & i & k & Hn & Hi).
  destruct (core_page _ _ _ _ _ _ _ _ Hc Hn HP) as (_ & _ & Hin).
  destruct (child_page _ _ _ _ _ _ _ _ _ _ Hin Hi) as (Hd & _ & pc & Hpc & _).
  by eapply core_page_lt.
Qed.

End FrameFacts.

Section InsertFacts.
Variables leaf_max_size internal_max_size : Z.
Hypothesis Hlm : 1 <= leaf_max_size.
Hypothesis Him : 3 <= internal_max_size.
Notation core := (core leaf_max_size internal_max_size).
Notation page_ok := (page_ok leaf_max_size internal_max_size).
Notation internal_ok := (internal_ok internal_max_size).
Notation leaf_ok := (leaf_ok leaf_max_size).
Notation sizes := (sizes leaf_max_size).
Notation wf := (wf leaf_max_size internal_max_size).

Lemma entry_empty D t k v : pages t = ∅ -> ~ entry D t k v.
Proof. intros Hp (L & l & _ & HL & _). by rewrite Hp in HL. Qed.

Lemma Leaf_Insert_Init key value q parent :
  Leaf.Insert key value (Leaf.Init leaf_max_size q parent) =
  Val (mkLeaf leaf_max_size parent q INVALID_PAGE_ID [(key, value)]).
Proof. reflexivity. Qed.

(** [StartNewTree]: the index is one root leaf with the one entry. *)
Lemma StartNewTree_spec key value t (h : nat) :
  wf h t -> IsEmpty t = true ->
  exists t',
    StartNewTree leaf_max_size key value t = Val t'
    /\ wf 0 t' /\ IsEmpty t' = false
    /\ forall k v, entry ∅ t' k v <-> k = key /\ v = value.
Proof.
  intros [Hn Hwf] He. rewrite He in Hwf.
  unfold StartNewTree. cbn [NewPage]. rewrite Leaf_Insert_Init.
  cbn [mbind res_bind]. eexists. split; [reflexivity|].
  set (R := next_id t).
  assert (Hne : R <> INVALID_PAGE_ID) by (unfold INVALID_PAGE_ID; lia).
  split_and!.
  - split; [simpl; lia|]. unfold IsEmpty. simpl. fold R.
    rewrite bool_decide_eq_false_2 by done.
    exists (mkShape 0 (fun _ => 0%nat) (fun _ => None) (fun _ => None)).
    split; [done|]. split.
    + split; [|split].
      * unfold root_ok, parent_of. simpl. rewrite lookup_insert_eq. done.
      * done.
      * simpl. intros q p Hq _. rewrite Hwf in Hq.
        apply lookup_insert_Some in Hq as [[<- <-]|[_ Hq]]; [|done].
        split; [simpl; lia|]. split; [by left|]. simpl.
        split_and!; try done; try (simpl; lia).
        unfold sorted_keys. simpl. repeat constructor.
    + intros q p Hq _. simpl in Hq. rewrite Hwf in Hq.
      apply lookup_insert_Some in Hq as [[<- <-]|[_ Hq]]; [|done].
      simpl. rewrite decide_True by done. right. simpl. lia.
  - unfold IsEmpty. simpl. by rewrite bool_decide_eq_false_2.
  - intros k v. unfold entry. simpl. rewrite Hwf. split.
    + intros (L & l & _ & HL & Hin).
      apply lookup_insert_Some in HL as [[<- [= <-]]|[_ HL]]; [|done].
      simpl in Hin. apply list_elem_of_singleton in Hin. by injection Hin as -> ->.
    + intros [-> ->]. eexists R, _. split; [set_solver|].
      rewrite lookup_insert_eq. split; [done|]. simpl. set_solver.
Qed.

Lemma quot_half (a : Z) : 0 <= a -> a ÷ 2 = a / 2.
Proof. intros. by apply Z.quot_div_nonneg. Qed.

(** A leaf that overflows is split; until the separator is inserted
    into the parent, the new leaf hangs on the old one. *)
Lemma leaf_split_core g t t' L l a key value :
  core ∅ None g t -> sizes ∅ None t ->
  pages t !! L = Some (Leaf l) ->
  sorted_keys a -> (forall x, x ∈ a -> in_range g L x.1) ->
  Z.of_nat (length a) = leaf_max_size + 1 ->
  (forall x, x ∈ a <-> x = (key, value) \/ x ∈ l_array l) ->
  let idx := Z.to_nat ((leaf_max_size + 1) / 2) in
  let R := next_id t in
  root_page_id t' = root_page_id t -> next_id t' = next_id t + 1 ->
  (forall q, pages t' !! q =
     if decide (q = R)
     then Some (Leaf (mkLeaf leaf_max_size (l_parent_page_id l) R
                        (next_page_id l) (drop idx a)))
     else if decide (q = L)
     then Some (Leaf (mkLeaf (l_max_size l) (l_parent_page_id l) (l_page_id l)
                        R (take idx a)))
     else pages t !! q) ->
  exists g' sep r0,
    drop idx a !! 0%nat = Some (sep, r0)
    /\ lower g' R = Some sep
    /\ height g' = height g
    /\ depth g' L = depth g L
    /\ core ∅ (Some (L, R)) g' t'
    /\ sizes ∅ None t'
    /\ forall k v, entry ∅ t' k v <-> entry ∅ t k v \/ (k = key /\ v = value).
Proof.
  intros Hcore Hsizes HL Hs Hr Hlen Ha idx R Hroot Hnext Hp'.
  pose proof (core_page _ _ _ _ _ _ _ _ Hcore HL (not_elem_of_empty _)) as HokL.
  pose proof HokL as (HLlt & HattL & HlidL & HlmaxL & HdepL & _).
  pose proof (core_fresh _ _ _ _ Hcore) as HRnone. fold R in HRnone.
  assert (HLR : L <> R) by (unfold R; lia).
  assert (Hidx : (1 <= idx)%nat /\ (idx <= length a)%nat /\ Z.of_nat idx = (leaf_max_size + 1) / 2).
  { unfold idx.
    assert (1 <= (leaf_max_size + 1) / 2) by (apply Z.div_le_lower_bound; lia).
    assert ((leaf_max_size + 1) / 2 <= leaf_max_size + 1) by (apply Z.div_le_upper_bound; lia).
    lia. }
  destruct Hidx as (Hidx1 & Hidx2 & Hidx3).
  assert (Hidx4 : (leaf_max_size + 1) / 2 <= leaf_max_size)
    by (apply Z.div_le_upper_bound; lia).
  destruct (lookup_lt_is_Some_2 a idx) as [[sep r0] Hsep].
  { assert ((leaf_max_size + 1) / 2 < leaf_max_size + 1)
      by (apply Z.div_lt_upper_bound; lia). lia. }
  destruct (lookup_lt_is_Some_2 a 0) as [x0 Hx0]; [lia|].
  assert (Hx0sep : x0.1 < sep).
  { change sep with (sep, r0).1. eapply sorted_keys_lookup; [exact Hs| |done..]. lia. }
  assert (Hsepin : (sep, r0) ∈ a) by (by eapply list_elem_of_lookup_2).
  assert (Hx0in : x0 ∈ a) by (by eapply list_elem_of_lookup_2).
  set (g' := mkShape (height g)
    (fun x => if decide (x = R) then depth g L else depth g x)
    (fun x => if decide (x = R) then Some sep else lower g x)
    (fun x => if decide (x = R) then upper g L
              else if decide (x = L) then Some sep else upper g x)).
  exists g', sep, r0.
  assert (Hnochild : forall P, ~ is_child t P R).
  { intros P Hch. destruct (core_child_lt _ _ ∅ _ _ _ P _ Hcore (not_elem_of_empty _) Hch).
    unfold R in *. lia. }
  assert (Hpar : forall c, c <> R -> parent_of t' c = parent_of t c).
  { intros c Hc. unfold parent_of. rewrite Hp', decide_False by done.
    destruct (decide (c = L)) as [->|]; [|done]. by rewrite HL. }
  assert (Hchild : forall P c, is_child t' P c <-> is_child t P c).
  { intros P c. unfold is_child. rewrite Hp'.
    destruct (decide (P = R)) as [->|].
    { rewrite HRnone. split; intros (? & [=] & _). }
    destruct (decide (P = L)) as [->|]; [|done].
    rewrite HL. split; intros (? & [=] & _). }
  split_and!.
  - rewrite lookup_drop. by rewrite Nat.add_0_r.
  - decided.
  - done.
  - decided.
  - pose proof Hcore as ((HrD & Hrpar & Hrdep & Hrlo & Hrup) & _ & Hpages).
    simpl in Hrup.
    assert (HrootR : root_page_id t <> R).
    { apply parent_of_Some in Hrpar as (p & Hp & _).
      pose proof (core_page_lt _ _ _ _ _ _ _ _ Hcore Hp (not_elem_of_empty _)).
      unfold R. lia. }
    split; [|split].
    + unfold root_ok. rewrite Hroot. split_and!.
      * set_solver.
      * by rewrite Hpar.
      * decided.
      * decided.
      * simpl. goal_decide; congruence.
    + simpl. split_and!; try done.
      * rewrite Hp', decide_False, decide_True by done. eauto.
      * unfold parent_of. rewrite !Hp', decide_True, decide_False, decide_True by done.
        done.
      * goal_decide; congruence.
      * intros P. rewrite Hchild. apply Hnochild.
      * exists sep. goal_decide; try congruence.
        split_and!; try done.
        -- destruct (Hr x0 Hx0in) as [Hab _].
           by eapply above_strictly.
        -- destruct (Hr _ Hsepin) as [_ Hbl]. done.
    + intros q p Hq _. rewrite Hp' in Hq.
      destruct (decide (q = R)) as [->|HqR]; [|destruct (decide (q = L)) as [->|HqL]].
      * injection Hq as <-. split; [lia|]. split; [right; left; eauto|].
        simpl. split_and!; try done.
        -- decided.
        -- by apply sorted_keys_drop.
        -- intros x Hx. unfold in_range. simpl. goal_decide; try congruence.
           apply elem_of_drop_lookup in Hx as (i & Hi & Hxi). split.
           ++ simpl. destruct (decide (i = idx)) as [->|].
              ** rewrite Hsep in Hxi. injection Hxi as <-. simpl. lia.
              ** assert (sep < x.1); [|lia].
                 change sep with (sep, r0).1.
                 eapply sorted_keys_lookup; [exact Hs| |done..]. lia.
           ++ apply (Hr x). by eapply list_elem_of_lookup_2.
        -- simpl. rewrite length_drop. lia.
      * injection Hq as <-. split; [lia|]. split.
        -- unfold attached in *. simpl in *. rewrite Hroot.
           destruct HattL as [?|[[? [=]]|[? ?]]]; [by left|].
           right; right. split; [done|]. by apply Hchild.
        -- simpl. split_and!; try done.
           ++ decided.
           ++ by apply sorted_keys_take.
           ++ intros x Hx. unfold in_range. simpl. goal_decide; try congruence.
              split.
              ** apply (Hr x). by eapply subseteq_take.
              ** simpl. change sep with (sep, r0).1.
                 eapply (sorted_keys_take_drop idx a); [done..|].
                 apply elem_of_drop_lookup. exists idx. split; [lia|done].
           ++ simpl. rewrite length_take. lia.
      * pose proof (Hpages q p Hq (not_elem_of_empty _)) as Hok.
        eapply page_ok_transfer; [exact Hok|lia|..].
        -- destruct Hok as (_ & Hatt & _). unfold attached in *. rewrite Hroot.
           destruct Hatt as [?|[[? [=]]|[? ?]]]; [by left|].
           right; right. split; [done|]. by apply Hchild.
        -- decided.
        -- decided.
        -- decided.
        -- decided.
        -- intros n i kc -> Hi (_ & Hcpar & Hcdep & _).
           assert (kc.2 <> R) as HcR.
           { intros e. apply (Hnochild q). apply is_child_lookup.
             exists n, i, kc.1. split; [done|]. rewrite <- e. by destruct kc. }
           split_and!.
           ++ set_solver.
           ++ by rewrite Hpar.
           ++ decided.
           ++ decided.
           ++ simpl. goal_decide; congruence.
  - intros q p Hq _. rewrite Hp' in Hq. unfold size_ok. rewrite Hroot.
    assert (HrootR : root_page_id t <> R).
    { destruct (core_root_page _ _ _ _ _ _ Hcore) as (pr & Hpr & _).
      pose proof (core_page_lt _ _ _ _ _ _ _ _ Hcore Hpr (not_elem_of_empty _)).
      unfold R. lia. }
    assert (Hhalf : leaf_max_size ÷ 2 <= (leaf_max_size + 1) / 2).
    { rewrite quot_half by lia. apply Z.div_le_mono; lia. }
    assert (Hhalf2 : leaf_max_size ÷ 2 <= leaf_max_size + 1 - (leaf_max_size + 1) / 2).
    { rewrite quot_half by lia.
      pose proof (Z.div_mod (leaf_max_size + 1) 2 ltac:(lia)).
      pose proof (Z.mod_pos_bound (leaf_max_size + 1) 2 ltac:(lia)).
      pose proof (Z.div_mod leaf_max_size 2 ltac:(lia)).
      pose proof (Z.mod_pos_bound leaf_max_size 2 ltac:(lia)). lia. }
    destruct (decide (q = R)) as [->|HqR]; [|destruct (decide (q = L)) as [->|HqL]].
    + injection Hq as <-. simpl. rewrite length_drop.
      goal_decide; try congruence; lia.
    + injection Hq as <-. simpl. rewrite length_take.
      goal_decide; try congruence; lia.
    + apply (Hsizes q p Hq). set_solver.
  - intros k v. unfold entry. split.
    + intros (L' & l' & _ & HL' & Hin). rewrite Hp' in HL'.
      destruct (decide (L' = R)) as [->|]; [|destruct (decide (L' = L)) as [->|]].
      * injection HL' as <-. simpl in Hin. apply subseteq_drop in Hin.
        apply Ha in Hin as [[= -> ->]|Hin]; [by right|].
        left. exists L, l. split_and!; [set_solver|done..].
      * injection HL' as <-. simpl in Hin. apply subseteq_take in Hin.
        apply Ha in Hin as [[= -> ->]|Hin]; [by right|].
        left. exists L, l. split_and!; [set_solver|done..].
      * left. exists L', l'. split_and!; [set_solver|done..].
    + assert (Hina : forall x, x ∈ a ->
        exists L' l', (L' ∉ (∅ : gset Z)) /\ pages t' !! L' = Some (Leaf l') /\ x ∈ l_array l').
      { intros x Hx. rewrite <- (take_drop idx a) in Hx.
        apply elem_of_app in Hx as [Hx|Hx].
        - eexists L, _. rewrite Hp', decide_False, decide_True by done.
          split_and!; [set_solver|done..].
        - eexists R, _. rewrite Hp', decide_True by done.
          split_and!; [set_solver|done..]. }
      intros [(L' & l' & _ & HL' & Hin)|[-> ->]].
      * destruct (decide (L' = L)) as [->|HneL].
        -- rewrite HL in HL'. injection HL' as <-. apply Hina, Ha. by right.
        -- exists L', l'. rewrite Hp'.
           rewrite decide_False, decide_False; [|done|].
           ++ split_and!; [set_solver|done..].
           ++ intros ->. by rewrite HRnone in HL'.
      * apply Hina, Ha. by left.
Qed.

End InsertFacts.


(** ** [InsertIntoParent] *)

Import BPT.

Section ParentFacts.
Variables leaf_max_size internal_max_size : Z.
Hypothesis Hlm : 1 <= leaf_max_size.
Hypothesis Him : 3 <= internal_max_size.
Notation core := (core leaf_max_size internal_max_size).
Notation page_ok := (page_ok leaf_max_size internal_max_size).
Notation internal_ok := (internal_ok internal_max_size).
Notation internal_ok_upto := (internal_ok_upto internal_max_size).
Notation leaf_ok := (leaf_ok leaf_max_size).
Notation sizes := (sizes leaf_max_size).
Notation wf := (wf leaf_max_size internal_max_size).

Lemma entry_leaf_entries D t k v :
  entry D t k v <->
  exists L a, (L ∉ D) /\ leaf_entries (pages t !! L) = Some a /\ (k, v) ∈ a.
Proof.
  split.
  - intros (L & l & ? & HL & ?). exists L, (l_array l). by rewrite HL.
  - intros (L & a & ? & HL & ?). destruct (pages t !! L) as [[l|n]|] eqn:Hp; try done.
    injection HL as <-. by exists L, l.
Qed.

Lemma entry_ext D t t' :
  (forall q, q ∉ D -> leaf_entries (pages t' !! q) = leaf_entries (pages t !! q)) ->
  forall k v, entry D t' k v <-> entry D t k v.
Proof.
  intros H k v. rewrite !entry_leaf_entries.
  split; intros (L & a & ? & HL & ?); exists L, a.
  - by rewrite <- H.
  - by rewrite H.
Qed.

Lemma leaf_entries_Set P p :
  leaf_entries (Some (SetParentPageId P p)) = leaf_entries (Some p).
Proof. by destruct p. Qed.

Lemma leaf_entries_fmap_Set P o :
  leaf_entries (SetParentPageId P <$> o) = leaf_entries o.
Proof. destruct o as [[]|]; done. Qed.

Lemma page_ok_id D X g t q p : page_ok D X g t q p -> GetPageId p = q.
Proof. intros (_ & _ & H). destruct p; simpl; by destruct H. Qed.

Lemma invalid_parent_root D X g t q p :
  core D X g t -> pages t !! q = Some p -> q ∉ D ->
  GetParentPageId p = INVALID_PAGE_ID ->
  q = root_page_id t \/ exists old, X = Some (old, q).
Proof.
  intros Hc Hq Hd Hpar.
  destruct (core_page _ _ _ _ _ _ _ _ Hc Hq Hd) as (_ & Hatt & _).
  destruct Hatt as [?|[?|[HPd (n & Hn & _)]]]; [by left|by right|].
  pose proof (core_page_lt _ _ _ _ _ _ _ _ Hc Hn HPd) as Hlt.
  rewrite Hpar in Hlt. unfold INVALID_PAGE_ID in Hlt. lia.
Qed.

(** The root was split: a new root takes the two halves. *)
Lemma new_root_core g t t' old new po pn key :
  core ∅ (Some (old, new)) g t -> sizes ∅ None t ->
  (forall l, po = Leaf l -> leaf_max_size ÷ 2 <= Z.of_nat (length (l_array l))) ->
  pages t !! old = Some po -> pages t !! new = Some pn ->
  GetParentPageId po = INVALID_PAGE_ID -> lower g new = Some key ->
  let R := next_id t in
  root_page_id t' = R -> next_id t' = next_id t + 1 ->
  (forall q, pages t' !! q =
     if decide (q = new) then Some (SetParentPageId R pn)
     else if decide (q = old) then Some (SetParentPageId R po)
     else if decide (q = R)
     then Some (Internal (mkInternal internal_max_size INVALID_PAGE_ID R
                            [(0, GetPageId po); (key, GetPageId pn)]))
     else pages t !! q) ->
  exists g',
    height g' = S (height g)
    /\ core ∅ None g' t' /\ sizes ∅ None t'
    /\ forall k v, entry ∅ t' k v <-> entry ∅ t k v.
Proof.
  intros Hcore Hsizes Holdsz Hold Hnew Hinv Hkey R Hroot Hnext Hp'.
  pose proof Hcore as ((_ & Hrpar & Hrdep & Hrlo & Hrup)
    & (_ & _ & Hon & _ & Hppar & Hpdep & Hnochild & sep & Hlonew & Hupold & _)
    & Hpages).
  rewrite Hkey in Hlonew. injection Hlonew as <-.
  pose proof (Hpages _ _ Hold (not_elem_of_empty _)) as Hokold.
  pose proof (Hpages _ _ Hnew (not_elem_of_empty _)) as Hoknew.
  pose proof (page_ok_id _ _ _ _ _ _ Hokold) as Hidold.
  pose proof (page_ok_id _ _ _ _ _ _ Hoknew) as Hidnew.
  rewrite Hidold, Hidnew in Hp'.
  assert (Holdroot : old = root_page_id t).
  { destruct (invalid_parent_root _ _ _ _ _ _ Hcore Hold (not_elem_of_empty _) Hinv)
      as [?|[o [= _ ?]]]; [done|congruence]. }
  simpl in Hrup. rewrite <- Holdroot in Hrdep, Hrlo, Hrup.
  rewrite decide_True in Hrup by done.
  assert (HoldR : old <> R) by (destruct Hokold; unfold R; lia).
  assert (HRpos : 0 < R) by (destruct Hokold; unfold R; lia).
  assert (HnewR : new <> R) by (destruct Hoknew; unfold R; lia).
  assert (HRnone : pages t !! R = None).
  { destruct (pages t !! R) as [p|] eqn:Hp; [|done].
    destruct (Hpages _ _ Hp (not_elem_of_empty _)). unfold R in *. lia. }
  set (g' := mkShape (S (height g))
    (fun x => if decide (x = R) then 0%nat else S (depth g x))
    (fun x => if decide (x = R) then None else lower g x)
    (fun x => if decide (x = R) then None else upper g x)).
  exists g'. split; [done|].
  assert (Hchild : forall P c, P <> R -> is_child t P c -> is_child t' P c).
  { intros P c HP (n & Hn & Hc). unfold is_child. rewrite Hp'.
    destruct (decide (P = new)) as [->|]; [|destruct (decide (P = old)) as [->|]].
    - rewrite Hnew in Hn. injection Hn as ->. by exists (mkInternal (i_max_size n) R (i_page_id n) (i_array n)).
    - rewrite Hold in Hn. injection Hn as ->. by exists (mkInternal (i_max_size n) R (i_page_id n) (i_array n)).
    - rewrite decide_False by done. by exists n. }
  assert (HchildR : forall c, c = old \/ c = new -> is_child t' R c).
  { intros c Hc. eexists. rewrite Hp', decide_False, decide_False, decide_True by done.
    split; [done|]. simpl. set_solver. }
  assert (Hkid : forall q n i kc, pages t !! q = Some (Internal n) ->
            i_array n !! i = Some kc ->
            kc.2 <> old /\ kc.2 <> new /\ kc.2 <> R
            /\ parent_of t' kc.2 = Some q).
  { intros q n i kc Hq Hi.
    destruct (Hpages _ _ Hq (not_elem_of_empty _)) as (Hqlt & _ & Hin).
    destruct (child_page _ _ _ _ _ _ _ _ _ _ Hin Hi) as (_ & _ & pc & Hpc & Hpcpar).
    assert (kc.2 <> old).
    { intros e. rewrite e, Hold in Hpc. injection Hpc as <-.
      rewrite Hinv in Hpcpar. unfold INVALID_PAGE_ID in *. lia. }
    assert (kc.2 <> new).
    { intros e. apply (Hnochild q). exists n. split; [done|].
      rewrite <- e. apply list_elem_of_fmap. exists kc. split; [done|].
      by eapply list_elem_of_lookup_2. }
    assert (kc.2 <> R) by (intros e; by rewrite e, HRnone in Hpc).
    split_and!; try done.
    unfold parent_of. rewrite Hp', !decide_False by done. rewrite Hpc. simpl.
    by rewrite Hpcpar. }
  (* a page other than the new root, under its possibly new parent *)
  assert (Hmoved : forall q p P',
    pages t !! q = Some p ->
    attached ∅ None t' q (SetParentPageId P' p) ->
    page_ok ∅ None g' t' q (SetParentPageId P' p)).
  { intros q p P' Hq Hatt.
    assert (q <> R) as HqR by (intros ->; by rewrite HRnone in Hq).
    eapply page_ok_reparent; [by apply (Hpages q p Hq)|lia|done|..].
    - simpl. rewrite decide_False by done. lia.
    - simpl. rewrite decide_False by done. lia.
    - simpl. by rewrite decide_False.
    - simpl. by rewrite decide_False.
    - intros n i kc -> Hi (_ & _ & Hd & _).
      destruct (Hkid q n i kc Hq Hi) as (? & ? & ? & ?).
      split_and!; try done.
      + simpl. rewrite !decide_False by done. by rewrite Hd.
      + simpl. by rewrite decide_False.
      + simpl. by rewrite !decide_False. }
  split; [|split].
  - split; [|split].
    + unfold root_ok, parent_of. rewrite Hroot, Hp'. split_and!; decided.
    + done.
    + intros q p Hq _. rewrite Hp' in Hq.
      destruct (decide (q = new)) as [->|Hqn];
        [|destruct (decide (q = old)) as [->|Hqo];
          [|destruct (decide (q = R)) as [->|HqR]]].
      * injection Hq as <-. apply Hmoved; [done|].
        right; right. rewrite GetParentPageId_Set. split; [done|].
        apply HchildR. by right.
      * injection Hq as <-. apply Hmoved; [done|].
        right; right. rewrite GetParentPageId_Set. split; [done|].
        apply HchildR. by left.
      * injection Hq as <-. split; [lia|]. split; [by left|].
        simpl. split_and!; try done.
        -- decided.
        -- unfold sorted_keys. simpl. repeat constructor.
        -- decided.
        -- simpl. lia.
        -- decided.
        -- intros i kc Hi. destruct i as [|[|i]]; simpl in Hi; [| |done].
           ++ injection Hi as <-. unfold child_ok, parent_of. simpl. rewrite Hp'.
              split_and!; try done; goal_decide; simpl;
                rewrite ?GetParentPageId_Set; try done; try congruence.
           ++ injection Hi as <-. unfold child_ok, parent_of. simpl. rewrite Hp'.
              split_and!; try done; goal_decide; simpl;
                rewrite ?GetParentPageId_Set; try done; try congruence.
      * rewrite <- (SetParentPageId_id p). apply Hmoved; [done|].
        rewrite SetParentPageId_id.
        destruct (Hpages q p Hq (not_elem_of_empty _)) as (_ & Hatt & _).
        destruct Hatt as [?|[[o [= _ ?]]|[_ Hch]]]; [congruence|congruence|].
        right; right. split; [done|]. apply Hchild; [|done].
        intros e. destruct Hch as (n & Hn & _). by rewrite e, HRnone in Hn.
  - assert (Hsz : forall q p P', pages t !! q = Some p -> q <> R ->
              (forall l, p = Leaf l -> leaf_max_size ÷ 2 <= Z.of_nat (length (l_array l))) ->
              size_ok leaf_max_size None t' q (SetParentPageId P' p)).
    { intros q0 p0 P' Hq0 Hne Hl. unfold size_ok. rewrite Hroot.
      pose proof (Hsizes q0 p0 Hq0 (not_elem_of_empty _)) as Hs. unfold size_ok in Hs.
      destruct p0 as [l|n]; simpl in *.
      - rewrite decide_False by done. specialize (Hl l eq_refl). lia.
      - done. }
    assert (Hleafsz : forall q l, pages t !! q = Some (Leaf l) -> q <> old ->
              leaf_max_size ÷ 2 <= Z.of_nat (length (l_array l))).
    { intros q0 l Hq0 Hne.
      pose proof (Hsizes q0 _ Hq0 (not_elem_of_empty _)) as Hs. unfold size_ok in Hs.
      rewrite decide_False in Hs by congruence. simpl in Hs. lia. }
    intros q p Hq _. rewrite Hp' in Hq.
    destruct (decide (q = new)) as [->|Hqn];
      [|destruct (decide (q = old)) as [->|Hqo];
        [|destruct (decide (q = R)) as [->|HqR]]].
    + injection Hq as <-. apply Hsz; [done..|].
      intros l ->. by eapply Hleafsz.
    + injection Hq as <-. by apply Hsz.
    + injection Hq as <-. unfold size_ok. simpl. lia.
    + rewrite <- (SetParentPageId_id p). apply Hsz; [done..|].
      intros l ->. by eapply Hleafsz.
  - apply entry_ext. intros q _. rewrite Hp'.
    goal_decide; subst; rewrite ?leaf_entries_Set, ?Hold, ?Hnew, ?HRnone; done.
Qed.

Lemma sorted_from1_intro (array : list (Z * Z)) :
  (forall (i j : nat) x y, (1 <= i)%nat -> (i < j)%nat ->
     array !! i = Some x -> array !! j = Some y -> x.1 < y.1) ->
  sorted_keys (drop 1 array).
Proof.
  intros H. apply sorted_keys_intro. intros i j x y Hij Hi Hj.
  rewrite lookup_drop in Hi, Hj. eapply (H (1 + i)%nat (1 + j)%nat); [lia|lia|done..].
Qed.

Lemma next_key_insert_at (array : list (Z * Z)) (i j : nat) x hi :
  (i < length array)%nat ->
  next_key (insert_at (Z.of_nat (S i)) x array) j hi =
  if decide (j < i)%nat then next_key array j hi
  else if decide (j = i) then Some x.1
  else next_key array (j - 1) hi.
Proof.
  intros Hi. unfold next_key. rewrite lookup_insert_at by lia.
  destruct (decide (j < i)%nat).
  - rewrite decide_True by lia. done.
  - destruct (decide (j = i)) as [->|].
    + rewrite decide_False by lia. rewrite decide_True by done. done.
    + rewrite decide_False by lia. rewrite decide_False by lia.
      replace (S j - 1)%nat with (S (j - 1)) by lia. done.
Qed.

Lemma internal_ok_upto_le D X g t b b' q n :
  internal_ok_upto D X g t b q n -> Z.of_nat (length (i_array n)) <= b' ->
  internal_ok_upto D X g t b' q n.
Proof. intros (? & ? & ? & ? & ? & ? & ? & ?) ?. by split_and!. Qed.

(** The parent of a page that is not the root. *)
Lemma parent_page D X g t q p :
  core D X g t -> pages t !! q = Some p -> q ∉ D ->
  GetParentPageId p <> INVALID_PAGE_ID ->
  (forall old, X <> Some (old, q)) ->
  exists n (i : nat) k,
    (GetParentPageId p ∉ D)
    /\ pages t !! GetParentPageId p = Some (Internal n)
    /\ i_array n !! i = Some (k, q)
    /\ Internal.ValueIndex q n = Z.of_nat i
    /\ internal_ok D X g t (GetParentPageId p) n
    /\ depth g q = S (depth g (GetParentPageId p)).
Proof.
  intros Hc Hq Hd Hpar HX.
  destruct (core_page _ _ _ _ _ _ _ _ Hc Hq Hd) as (_ & Hatt & _).
  destruct Hatt as [Hr|[[o Ho]|[HPd Hch]]].
  - exfalso. destruct Hc as ((_ & Hrp & _) & _). rewrite <- Hr in Hrp.
    unfold parent_of in Hrp. rewrite Hq in Hrp. simpl in Hrp. congruence.
  - exfalso. by eapply HX.
  - apply is_child_lookup in Hch as (n & i & k & Hn & Hi).
    destruct (core_page _ _ _ _ _ _ _ _ Hc Hn HPd) as (_ & _ & Hin).
    exists n, i, k. split_and!; try done.
    + by eapply ValueIndex_child.
    + by destruct (child_page _ _ _ _ _ _ _ _ _ _ Hin Hi) as (_ & ? & _).
Qed.

(** [InsertNodeAfter]: the separator and the new page take the slot
    after the old page; the parent may now hold one slot too many. *)
Lemma insert_node_core g t old new po pn key :
  core ∅ (Some (old, new)) g t -> sizes ∅ None t ->
  pages t !! old = Some po -> pages t !! new = Some pn ->
  GetParentPageId po <> INVALID_PAGE_ID -> lower g new = Some key ->
  let P := GetParentPageId po in
  exists n (i : nat) k,
    pages t !! P = Some (Internal n) /\ i_array n !! i = Some (k, old)
    /\ Internal.ValueIndex old n = Z.of_nat i
    /\ P <> new /\ P <> old /\ GetPageId po = old /\ GetPageId pn = new
    /\ (depth g P < height g)%nat
    /\ let a := insert_at (Z.of_nat (S i)) (key, new) (i_array n) in
       forall t2,
         root_page_id t2 = root_page_id t -> next_id t2 = next_id t ->
         (forall q, pages t2 !! q =
            if decide (q = P) then Some (Internal (Internal.with_array a n))
            else if decide (q = new) then Some (SetParentPageId P pn)
            else pages t !! q) ->
         root_ok ∅ None g t2
         /\ (forall q p, pages t2 !! q = Some p -> q <> P -> page_ok ∅ None g t2 q p)
         /\ 0 < P < next_id t2
         /\ attached ∅ None t2 P (Internal (Internal.with_array a n))
         /\ internal_ok_upto ∅ None g t2 (internal_max_size + 1) P
              (Internal.with_array a n)
         /\ sizes ∅ None t2
         /\ (forall k v, entry ∅ t2 k v <-> entry ∅ t k v).
Proof.
  intros Hcore Hsizes Hold Hnew Hpar Hkey P.
  pose proof (eq_refl : P = GetParentPageId po) as HPdef. clearbody P.
  pose proof Hcore as ((_ & Hrpar & Hrdep & Hrlo & Hrup)
    & (_ & _ & Hon & _ & Hppar & Hpdep & Hnochild & sep & Hlonew & Hupold & Hsa & Hbl)
    & Hpages).
  rewrite Hkey in Hlonew. injection Hlonew as <-.
  pose proof (Hpages _ _ Hold (not_elem_of_empty _)) as Hokold.
  pose proof (Hpages _ _ Hnew (not_elem_of_empty _)) as Hoknew.
  pose proof (page_ok_id _ _ _ _ _ _ Hokold) as Hidold.
  pose proof (page_ok_id _ _ _ _ _ _ Hoknew) as Hidnew.
  destruct (parent_page _ _ _ _ _ _ Hcore Hold (not_elem_of_empty _) Hpar)
    as (n & i & k & _ & HPn & Hi & HVI & Hin & Hdep).
  { intros o [= _ ?]. done. }
  rewrite <- HPdef in HPn, Hin, Hdep.
  assert (HPold : P <> old) by (intros e; rewrite e in Hdep; lia).
  assert (HPnew : P <> new) by (intros e; rewrite e in Hdep; lia).
  pose proof (Hpages _ _ HPn (not_elem_of_empty _)) as HokP.
  pose proof Hin as (HPid & HPmax & HPdep & HPs & HPb & HPlen & HPhead & HPch).
  exists n, i, k. split_and!; try done.
  intros a t2 Hr Hn Hp2.
  pose proof (lookup_lt_Some _ _ _ Hi) as Hilen.
  pose proof (children_NoDup _ _ _ _ _ _ _ _ Hin) as Hnd.
  assert (Hother : forall (j : nat) kc, i_array n !! j = Some kc -> j <> i -> kc.2 <> old).
  { intros j kc Hj Hji e. apply Hji.
    eapply (NoDup_lookup _ _ _ _ Hnd); rewrite list_lookup_fmap.
    - by rewrite Hj.
    - rewrite Hi. simpl. by rewrite e. }
  assert (Hnotnew : forall q nq (j : nat) kc, pages t !! q = Some (Internal nq) ->
            i_array nq !! j = Some kc -> kc.2 <> new).
  { intros q nq j kc Hq Hj e. apply (Hnochild q). exists nq. split; [done|].
    rewrite <- e. apply list_elem_of_fmap. exists kc. split; [done|].
    by eapply list_elem_of_lookup_2. }
  destruct (HPch i _ Hi) as (_ & _ & _ & Hlo_old & Hup_old).
  simpl in Hlo_old, Hup_old. rewrite decide_True in Hup_old by done.
  assert (F1 : forall c, c <> new -> parent_of t2 c = parent_of t c).
  { intros c Hc. unfold parent_of. rewrite Hp2.
    destruct (decide (c = P)) as [->|]; [by rewrite HPn|].
    by rewrite decide_False. }
  assert (F2 : parent_of t2 new = Some P).
  { unfold parent_of. rewrite Hp2, decide_False, decide_True by done.
    simpl. by rewrite GetParentPageId_Set. }
  assert (Hina : forall x, x ∈ i_array n -> x ∈ a).
  { intros x Hx. apply elem_of_insert_at. by right. }
  assert (F3 : forall P0 c, is_child t P0 c -> is_child t2 P0 c).
  { intros P0 c (n0 & Hn0 & Hc). unfold is_child. rewrite Hp2.
    destruct (decide (P0 = P)) as [->|].
    - rewrite HPn in Hn0. injection Hn0 as <-. eexists. split; [done|]. simpl.
      apply list_elem_of_fmap in Hc as (x & -> & Hx).
      apply list_elem_of_fmap. exists x. split; [done|]. by apply Hina.
    - destruct (decide (P0 = new)) as [->|].
      + rewrite Hnew in Hn0. injection Hn0 as ->. by eexists.
      + by exists n0. }
  assert (F4 : is_child t2 P new).
  { unfold is_child. rewrite Hp2, decide_True by done. eexists. split; [done|].
    simpl. apply list_elem_of_fmap. exists (key, new). split; [done|].
    apply elem_of_insert_at. by left. }
  assert (Hrootnew : root_page_id t <> new).
  { intros e. rewrite <- e in Hppar. rewrite Hrpar in Hppar.
    unfold parent_of in Hppar. rewrite Hold in Hppar. simpl in Hppar. congruence. }
  assert (Hrootold : root_page_id t <> old).
  { intros e. rewrite e in Hrpar.
    unfold parent_of in Hrpar. rewrite Hold in Hrpar. simpl in Hrpar. congruence. }
  (* a page other than the parent, possibly with its parent field set *)
  assert (Hmoved : forall q p P',
    pages t !! q = Some p -> q <> P ->
    attached ∅ None t2 q (SetParentPageId P' p) ->
    page_ok ∅ None g t2 q (SetParentPageId P' p)).
  { intros q p P' Hq HqP Hatt.
    eapply page_ok_reparent; [by apply (Hpages q p Hq)|lia|done|done..|].
    intros nq j kc -> Hj (_ & Hcpar & Hcdep & _).
    assert (kc.2 <> new) by (by eapply Hnotnew).
    assert (kc.2 <> old).
    { intros e. rewrite e in Hcpar. unfold parent_of in Hcpar.
      rewrite Hold in Hcpar. simpl in Hcpar. congruence. }
    split_and!; try done.
    - by rewrite F1.
    - simpl. by rewrite decide_False. }
  split_and!.
  - unfold root_ok. rewrite Hr. split_and!; try done.
    + by rewrite F1.
    + simpl in *. by rewrite decide_False in Hrup.
  - intros q p Hq HqP. rewrite Hp2, decide_False in Hq by done.
    destruct (decide (q = new)) as [->|Hqn].
    + injection Hq as <-. apply Hmoved; [done..|].
      right; right. by rewrite GetParentPageId_Set.
    + rewrite <- (SetParentPageId_id p). apply Hmoved; [done..|].
      rewrite SetParentPageId_id.
      destruct (Hpages q p Hq (not_elem_of_empty _)) as (_ & Hatt & _).
      unfold attached in *. rewrite Hr.
      destruct Hatt as [?|[[o [= _ ?]]|[? Hch]]]; [by left|done|].
      right; right. split; [done|]. by apply F3.
  - destruct HokP. lia.
  - rewrite Hn. destruct HokP. lia.
  - destruct HokP as (_ & Hatt & _). unfold attached in *. simpl in *. rewrite Hr.
    destruct Hatt as [?|[[o [= _ ?]]|[? Hch]]]; [by left|done|].
    right; right. split; [done|]. by apply F3.
  - assert (Hla : forall j : nat, a !! j =
        if decide (j < S i)%nat then i_array n !! j
        else if decide (j = S i) then Some (key, new)
        else i_array n !! (j - 1)%nat).
    { intros j. unfold a. rewrite lookup_insert_at by lia. done. }
    assert (Hkey_lo : forall (j : nat) x, (1 <= j)%nat -> (j <= i)%nat ->
              i_array n !! j = Some x -> x.1 < key).
    { intros j x H1 Hji Hj. rewrite decide_False in Hlo_old by lia.
      rewrite Hlo_old in Hsa. simpl in Hsa.
      destruct (decide (j = i)) as [->|].
      - rewrite Hi in Hj. injection Hj as <-. done.
      - pose proof (internal_keys_lt _ _ _ _ _ _ _ _ j i _ _ Hin ltac:(lia) ltac:(lia) Hj Hi).
        simpl in *. lia. }
    assert (Hkey_hi : forall (j : nat) x, (i < j)%nat ->
              i_array n !! j = Some x -> key < x.1).
    { intros j x Hij Hj.
      destruct (lookup_lt_is_Some_2 (i_array n) (S i)) as [y Hy].
      { apply lookup_lt_Some in Hj. lia. }
      rewrite Hup_old in Hbl. unfold next_key in Hbl. rewrite Hy in Hbl.
      simpl in Hbl. destruct (decide (j = S i)) as [->|].
      - rewrite Hy in Hj. injection Hj as <-. done.
      - pose proof (internal_keys_lt _ _ _ _ _ _ _ _ (S i) j _ _ Hin ltac:(lia) ltac:(lia) Hy Hj).
        lia. }
    split_and!; try done.
    + apply sorted_from1_intro. intros j1 j2 x y H1 H12 Hj1 Hj2.
      rewrite Hla in Hj1, Hj2.
      destruct (decide (j1 < S i)%nat); [|destruct (decide (j1 = S i)) as [->|]];
      (destruct (decide (j2 < S i)%nat); [|destruct (decide (j2 = S i)) as [->|]]);
      try lia.
      * by eapply (internal_keys_lt _ _ _ _ _ _ _ _ j1 j2).
      * injection Hj2 as <-. simpl. eapply Hkey_lo; [|  |done]; lia.
      * eapply (internal_keys_lt _ _ _ _ _ _ _ _ j1 (j2 - 1)); [done| |lia|done..]. lia.
      * injection Hj1 as <-. simpl. eapply Hkey_hi; [|done]. lia.
      * eapply (internal_keys_lt _ _ _ _ _ _ _ _ (j1 - 1) (j2 - 1)); [done| |lia|done..]. lia.
    + intros x Hx. apply elem_of_drop_lookup in Hx as (j & Hj1 & Hj).
      simpl in Hj. rewrite Hla in Hj.
      destruct (decide (j < S i)%nat); [|destruct (decide (j = S i)) as [->|]].
      * by eapply (internal_key_bounds _ _ _ _ _ _ _ _ j).
      * injection Hj as <-. simpl. split.
        -- destruct (decide (i = 0%nat)) as [->|].
           ++ by rewrite Hlo_old in Hsa.
           ++ destruct (internal_key_bounds _ _ _ _ _ _ _ _ i _ Hin ltac:(lia) Hi) as [Hk _].
              eapply strictly_above_trans; [exact Hk|].
              simpl. assert (k < key); [|lia].
              change k with (k, old).1. eapply Hkey_lo; [| |done]; lia.
        -- rewrite Hup_old in Hbl. unfold next_key in Hbl.
           destruct (i_array n !! S i) as [y|] eqn:Hy; [|done].
           destruct (internal_key_bounds _ _ _ _ _ _ _ _ (S i) _ Hin ltac:(lia) Hy) as [_ Hk].
           eapply below_trans; [exact Hk|]. simpl in Hbl. lia.
      * eapply (internal_key_bounds _ _ _ _ _ _ _ _ (j - 1)); [done| |done]. lia.
    + simpl. unfold a. rewrite length_insert_at. lia.
    + intros b Hb. specialize (HPhead b Hb). simpl.
      destruct (i_array n) as [|x rest] eqn:Harr; [done|].
      unfold a. unfold insert_at. rewrite Nat2Z.id. simpl. done.
    + intros j kc Hj. simpl in Hj. rewrite Hla in Hj.
      unfold child_ok. simpl. unfold a. rewrite next_key_insert_at by done.
      destruct (decide (j < S i)%nat) as [Hlt|Hge];
        [|destruct (decide (j = S i)) as [->|Hne]].
      * destruct (HPch j kc Hj) as (? & ? & ? & Hl & Hu). simpl in Hu.
        assert (kc.2 <> new) by (by eapply Hnotnew).
        split_and!; try done.
        -- by rewrite F1.
        -- destruct (decide (j < i)%nat).
           ++ rewrite decide_False in Hu; [done|]. eapply Hother; [done|lia].
           ++ rewrite decide_True by lia. assert (j = i) as -> by lia.
              rewrite Hi in Hj. injection Hj as <-. simpl. done.
      * injection Hj as <-. simpl. split_and!; try done.
        -- rewrite Hpdep. done.
        -- rewrite decide_False by lia. rewrite decide_False by lia.
           rewrite Nat.sub_0_r. done.
      * destruct (HPch (j - 1)%nat kc Hj) as (? & ? & ? & Hl & Hu). simpl in Hu.
        assert (kc.2 <> new) by (by eapply Hnotnew).
        split_and!; try done.
        -- by rewrite F1.
        -- rewrite decide_False by lia. rewrite decide_False in Hl by lia. done.
        -- rewrite decide_False by lia. rewrite decide_False by lia.
           rewrite decide_False in Hu; [done|]. eapply Hother; [done|lia].
  - intros q p Hq _. rewrite Hp2 in Hq. unfold size_ok. rewrite Hr.
    destruct (decide (q = P)) as [->|]; [|destruct (decide (q = new)) as [->|]].
    + injection Hq as <-. simpl. unfold a. rewrite length_insert_at. lia.
    + injection Hq as <-.
      pose proof (Hsizes new pn Hnew (not_elem_of_empty _)) as Hs. unfold size_ok in Hs.
      by destruct pn.
    + by apply (Hsizes q p Hq).
  - apply entry_ext. intros q _. rewrite Hp2.
    goal_decide; subst; rewrite ?leaf_entries_Set, ?HPn, ?Hnew; done.
Qed.

Lemma next_key_drop (array : list (Z * Z)) (m j : nat) hi :
  next_key (drop m array) j hi = next_key array (m + j) hi.
Proof. unfold next_key. rewrite lookup_drop. by rewrite Nat.add_succ_r. Qed.

Lemma next_key_take (array : list (Z * Z)) (m j : nat) hi x :
  (S j <= m)%nat -> array !! m = Some x ->
  next_key (take m array) j (Some x.1) = next_key array j hi.
Proof.
  intros Hj Hm. unfold next_key. destruct (decide (S j = m)) as [<-|].
  - rewrite Hm. rewrite lookup_take_ge by lia. done.
  - rewrite lookup_take_lt by lia.
    destruct (lookup_lt_is_Some_2 array (S j)) as [y Hy].
    { apply lookup_lt_Some in Hm. lia. }
    by rewrite Hy.
Qed.

(** An internal page that overflows is split; until the separator is
    inserted into its parent, the new page hangs on the old one. *)
Lemma internal_split_core g t2 P n1 :
  root_ok ∅ None g t2 ->
  (forall q p, pages t2 !! q = Some p -> q <> P -> page_ok ∅ None g t2 q p) ->
  pages t2 !! P = Some (Internal n1) -> 0 < P < next_id t2 ->
  attached ∅ None t2 P (Internal n1) ->
  internal_ok_upto ∅ None g t2 (internal_max_size + 1) P n1 ->
  Z.of_nat (length (i_array n1)) = internal_max_size + 1 ->
  sizes ∅ None t2 ->
  let mid := Z.to_nat (Internal.GetSize n1 ÷ 2) in
  let R := next_id t2 in
  P <> R
  /\ (forall c, c ∈ (drop mid (i_array n1)).*2 ->
        is_Some (pages t2 !! c) /\ c <> P /\ c <> R)
  /\ exists sep c0,
       i_array n1 !! mid = Some (sep, c0)
       /\ forall t3,
            root_page_id t3 = root_page_id t2 -> next_id t3 = next_id t2 + 1 ->
            (forall q, pages t3 !! q =
               if decide (q = R)
               then Some (Internal (mkInternal internal_max_size
                                      (i_parent_page_id n1) R
                                      (drop mid (i_array n1))))
               else if decide (q = P)
               then Some (Internal (Internal.with_array (take mid (i_array n1)) n1))
               else if decide (q ∈ (drop mid (i_array n1)).*2)
               then SetParentPageId R <$> pages t2 !! q
               else pages t2 !! q) ->
            exists g',
              lower g' R = Some sep
              /\ height g' = height g
              /\ depth g' P = depth g P
              /\ core ∅ (Some (P, R)) g' t3
              /\ sizes ∅ None t3
              /\ forall k v, entry ∅ t3 k v <-> entry ∅ t2 k v.
Proof.
  intros Hroot Hothers HP HPlt HattP Hin Hlen Hsizes mid R.
  pose proof Hin as (HPid & HPmax & HPdep & HPs & HPb & _ & HPhead & HPch).
  set (a := i_array n1) in *.
  assert (Hmid : (2 <= mid)%nat /\ (mid + 2 <= length a)%nat
                 /\ Z.of_nat mid <= internal_max_size
                 /\ Z.of_nat (length a) - Z.of_nat mid <= internal_max_size).
  { unfold mid, Internal.GetSize. fold a. rewrite Hlen.
    rewrite quot_half by lia.
    assert (2 <= (internal_max_size + 1) / 2) by (apply Z.div_le_lower_bound; lia).
    assert (2 * ((internal_max_size + 1) / 2) <= internal_max_size + 1)
      by (apply Z.mul_div_le; lia).
    lia. }
  destruct Hmid as (Hmid2 & Hmidlen & Hmidim & Hrestim).
  assert (HPR : P <> R) by (unfold R; lia).
  assert (HRnone : pages t2 !! R = None).
  { destruct (pages t2 !! R) as [p|] eqn:Hp; [|done].
    destruct (Hothers _ _ Hp (not_eq_sym HPR)). unfold R in *. lia. }
  assert (Hkid : forall (j : nat) kc, a !! j = Some kc ->
            exists pc, pages t2 !! kc.2 = Some pc /\ GetParentPageId pc = P
              /\ kc.2 <> P /\ kc.2 <> R /\ depth g kc.2 = S (depth g P)).
  { intros j kc Hj.
    destruct (child_page _ _ _ _ _ _ _ _ _ _ Hin Hj) as (_ & Hd & pc & Hpc & Hpar).
    exists pc. split_and!; try done.
    - intros e. rewrite e in Hd. lia.
    - intros e. by rewrite e, HRnone in Hpc. }
  pose proof (children_NoDup _ _ _ _ _ _ _ _ Hin) as Hnd. fold a in Hnd.
  assert (HM : forall c, c ∈ (drop mid a).*2 <->
             exists (j : nat) k, (mid <= j)%nat /\ a !! j = Some (k, c)).
  { intros c. rewrite list_elem_of_fmap. split.
    - intros ([k c'] & -> & Hx). apply elem_of_drop_lookup in Hx as (j & ? & ?).
      by exists j, k.
    - intros (j & k & ? & ?). exists (k, c). split; [done|].
      apply elem_of_drop_lookup. by exists j. }
  assert (HnotM : forall (j : nat) kc, a !! j = Some kc -> (j < mid)%nat ->
             kc.2 ∉ (drop mid a).*2).
  { intros j kc Hj Hlt Hc. apply HM in Hc as (j' & k' & Hge & Hj').
    assert (j = j'); [|lia].
    eapply (NoDup_lookup _ _ _ _ Hnd); rewrite list_lookup_fmap.
    - by rewrite Hj.
    - by rewrite Hj'. }
  split; [done|]. split.
  { intros c Hc. apply HM in Hc as (j & k & _ & Hj).
    destruct (Hkid j _ Hj) as (pc & Hpc & _ & ? & ? & _). simpl in *. eauto. }
  destruct (lookup_lt_is_Some_2 a mid) as [[sep c0] Hsep]; [lia|].
  exists sep, c0. split; [done|]. intros t3 Hr3 Hn3 Hp3.
  set (g' := mkShape (height g)
    (fun x => if decide (x = R) then depth g P else depth g x)
    (fun x => if decide (x = R) then Some sep else lower g x)
    (fun x => if decide (x = R) then upper g P
              else if decide (x = P) then Some sep else upper g x)).
  exists g'.
  destruct (internal_key_bounds _ _ _ _ _ _ _ _ mid _ Hin ltac:(lia) Hsep) as [Hsep_lo Hsep_hi].
  simpl in Hsep_lo, Hsep_hi.
  (* parents in the new store *)
  assert (Hpar_same : forall c, c <> R -> c ∉ (drop mid a).*2 ->
            parent_of t3 c = parent_of t2 c).
  { intros c HcR HcM. unfold parent_of. rewrite Hp3. dsimp.
    destruct (decide (c = P)) as [->|]; [by rewrite HP|].
    by dsimp. }
  assert (Hpar_moved : forall c, c ∈ (drop mid a).*2 -> parent_of t3 c = Some R).
  { intros c Hc. pose proof Hc as Hc'. apply HM in Hc' as (j & k & _ & Hj).
    destruct (Hkid j _ Hj) as (pc & Hpc & _ & ? & ? & _). simpl in *.
    unfold parent_of. rewrite Hp3. dsimp.
    rewrite Hpc. simpl. by rewrite GetParentPageId_Set. }
  assert (Hchild_same : forall P0 c, P0 <> P -> is_child t2 P0 c -> is_child t3 P0 c).
  { intros P0 c HP0 (n0 & Hn0 & Hc). unfold is_child. rewrite Hp3.
    rewrite decide_False by (intros ->; by rewrite HRnone in Hn0).
    dsimp. rewrite Hn0. destruct (decide _); simpl; by eexists. }
  assert (Hchild_P : forall (j : nat) kc, a !! j = Some kc -> (j < mid)%nat ->
            is_child t3 P kc.2).
  { intros j kc Hj Hlt. unfold is_child. rewrite Hp3. dsimp.
    eexists. split; [done|]. simpl. apply list_elem_of_fmap. exists kc. split; [done|].
    apply elem_of_take_lookup. by exists j. }
  assert (Hchild_R : forall c, c ∈ (drop mid a).*2 -> is_child t3 R c).
  { intros c Hc. unfold is_child. rewrite Hp3. dsimp.
    eexists. split; [done|]. done. }
  assert (Hnochild2 : forall P0 n0 (j : nat) kc, pages t2 !! P0 = Some (Internal n0) ->
            i_array n0 !! j = Some kc -> kc.2 <> R).
  { intros P0 n0 j kc Hn0 Hj e.
    destruct (decide (P0 = P)) as [->|HP0].
    - rewrite HP in Hn0. injection Hn0 as <-.
      destruct (Hkid j _ Hj) as (_ & _ & _ & _ & ? & _). done.
    - destruct (Hothers _ _ Hn0 HP0) as (_ & _ & Hin0).
      destruct (child_page _ _ _ _ _ _ _ _ _ _ Hin0 Hj) as (_ & _ & pc & Hpc & _).
      by rewrite e, HRnone in Hpc. }
  pose proof Hroot as (_ & Hrpar & Hrdep & Hrlo & Hrup). simpl in Hrup.
  assert (HrootR : root_page_id t2 <> R).
  { intros e. rewrite e in Hrpar. unfold parent_of in Hrpar. by rewrite HRnone in Hrpar. }
  assert (HrootM : root_page_id t2 ∉ (drop mid a).*2).
  { intros Hc. apply HM in Hc as (j & k & _ & Hj).
    destruct (Hkid j _ Hj) as (pc & Hpc & Hpcpar & _). simpl in *.
    unfold parent_of in Hrpar. rewrite Hpc in Hrpar. simpl in Hrpar.
    unfold INVALID_PAGE_ID in *. injection Hrpar as ?. lia. }
  split_and!.
  - simpl. by dsimp.
  - done.
  - simpl. by dsimp.
  - split; [|split].
    + unfold root_ok. rewrite Hr3. split_and!; try done.
      * by rewrite Hpar_same.
      * simpl. by dsimp.
      * simpl. by dsimp.
      * simpl. destruct (decide (root_page_id t2 = P)) as [e|].
        -- dsimp. by rewrite <- e.
        -- by dsimp.
    + simpl. split_and!; try done.
      * rewrite Hp3. dsimp. eauto.
      * unfold parent_of. rewrite !Hp3. dsimp.
        dsimp. done.
      * dsimp. by dsimp.
      * intros P0 (n0 & Hn0 & Hc). rewrite Hp3 in Hn0.
        apply list_elem_of_fmap in Hc as (kc & HkcR & Hkc).
        apply list_elem_of_lookup in Hkc as (j & Hj).
        destruct (decide (P0 = R)) as [->|]; [|destruct (decide (P0 = P)) as [->|]].
        -- injection Hn0 as <-. simpl in Hj. rewrite lookup_drop in Hj.
           destruct (Hkid _ _ Hj) as (_ & _ & _ & _ & ? & _). congruence.
        -- injection Hn0 as <-. simpl in Hj.
           apply lookup_take_Some in Hj as [Hj _].
           destruct (Hkid _ _ Hj) as (_ & _ & _ & _ & ? & _). congruence.
        -- assert (exists n', pages t2 !! P0 = Some (Internal n') /\ i_array n' = i_array n0)
             as (n' & Hn' & Harr).
           { destruct (decide (P0 ∈ (drop mid a).*2)); [|by exists n0].
             destruct (pages t2 !! P0) as [[l|n']|]; simpl in Hn0; try done.
             injection Hn0 as <-. by exists n'. }
           rewrite <- Harr in Hj. by eapply (Hnochild2 P0 n' j kc).
      * exists sep. goal_decide; try congruence. done.
    + intros q p Hq _. rewrite Hp3 in Hq.
      destruct (decide (q = R)) as [->|HqR]; [|destruct (decide (q = P)) as [->|HqP]].
      * (* the new page *)
        injection Hq as <-. split; [lia|]. split; [right; left; eauto|].
        simpl. split_and!; try done.
        -- simpl. by dsimp.
        -- simpl. rewrite drop_drop. replace (mid + 1)%nat with (1 + mid)%nat by lia.
           rewrite <- drop_drop. by apply sorted_keys_drop.
        -- intros x Hx. simpl in Hx. rewrite drop_drop in Hx.
           apply elem_of_drop_lookup in Hx as (j & Hj1 & Hj). simpl.
           dsimp.
           destruct (internal_key_bounds _ _ _ _ _ _ _ _ j _ Hin ltac:(lia) Hj) as [_ Hhi].
           split; [|done]. simpl. change sep with (sep, c0).1.
           eapply (internal_keys_lt _ _ _ _ _ _ _ _ mid j); [done| | |done..]; lia.
        -- simpl. rewrite length_drop. lia.
        -- simpl. dsimp. intros b [= <-].
           rewrite head_lookup, lookup_drop, Nat.add_0_r, Hsep. done.
        -- intros j kc Hj. simpl in Hj. rewrite lookup_drop in Hj.
           destruct (Hkid _ _ Hj) as (pc & Hpc & _ & HcP & HcR & Hcd).
           destruct (HPch _ _ Hj) as (_ & _ & _ & Hcl & Hcu). simpl in Hcu.
           unfold child_ok. simpl. rewrite next_key_drop. split_and!; try done.
           ++ apply Hpar_moved. apply HM. exists (mid + j)%nat, kc.1.
              split; [lia|]. by destruct kc.
           ++ by dsimp.
           ++ dsimp. dsimp.
              rewrite Hcl. dsimp.
              destruct (decide (j = 0%nat)) as [->|]; [|done].
              rewrite Nat.add_0_r, Hsep in Hj. by injection Hj as <-.
           ++ dsimp. dsimp. done.
      * (* the page that was split *)
        injection Hq as <-. split; [lia|]. split.
        -- unfold attached in *. simpl in *. rewrite Hr3.
           destruct HattP as [?|[[? [=]]|[? Hch]]]; [by left|].
           right; right. split; [done|]. apply Hchild_same; [|done].
           intros e. apply is_child_lookup in Hch as (n0 & j & k0 & Hn0 & Hj).
           rewrite e, HP in Hn0. injection Hn0 as <-.
           destruct (Hkid _ _ Hj) as (_ & _ & _ & ? & _). done.
        -- simpl. split_and!; try done.
           ++ simpl. by dsimp.
           ++ simpl. apply sorted_from1_intro. intros j1 j2 x y H1 H12 Hj1 Hj2.
              apply lookup_take_Some in Hj1 as [Hj1 _].
              apply lookup_take_Some in Hj2 as [Hj2 _].
              by eapply (internal_keys_lt _ _ _ _ _ _ _ _ j1 j2).
           ++ intros x Hx. simpl in Hx.
              apply elem_of_drop_lookup in Hx as (j & Hj1 & Hj).
              apply lookup_take_Some in Hj as [Hj Hjm]. simpl.
              dsimp. dsimp.
              destruct (internal_key_bounds _ _ _ _ _ _ _ _ j _ Hin ltac:(lia) Hj) as [Hlo _].
              split; [done|]. simpl. change sep with (sep, c0).1.
              by eapply (internal_keys_lt _ _ _ _ _ _ _ _ j mid).
           ++ simpl. rewrite length_take. lia.
           ++ simpl. dsimp. intros b Hb.
              specialize (HPhead b Hb). rewrite head_lookup in HPhead |- *.
              rewrite lookup_take_lt by lia. done.
           ++ intros j kc Hj. simpl in Hj.
              apply lookup_take_Some in Hj as [Hj Hjm].
              destruct (Hkid _ _ Hj) as (pc & Hpc & Hpcpar & HcP & HcR & Hcd).
              destruct (HPch _ _ Hj) as (_ & Hcp & _ & Hcl & Hcu). simpl in Hcu.
              unfold child_ok. simpl. split_and!; try done.
              ** rewrite Hpar_same; [done..|]. by eapply HnotM.
              ** by dsimp.
              ** dsimp. done.
              ** dsimp. dsimp.
                 rewrite Hcu. symmetry.
                 change sep with (sep, c0).1. by apply next_key_take.
      * (* the other pages *)
        assert (exists p0 P', pages t2 !! q = Some p0 /\ p = SetParentPageId P' p0
                  /\ (q ∈ (drop mid a).*2 -> P' = R)
                  /\ (q ∉ (drop mid a).*2 -> P' = GetParentPageId p0))
          as (p0 & P' & Hq0 & -> & HinM & HnotinM).
        { destruct (decide (q ∈ (drop mid a).*2)).
          - destruct (pages t2 !! q) as [p0|] eqn:Hq0; [|done]. injection Hq as <-.
            exists p0, R. split_and!; try done.
          - exists p, (GetParentPageId p). split_and!; try done.
            by rewrite SetParentPageId_id. }
        pose proof (Hothers q p0 Hq0 HqP) as Hok.
        eapply page_ok_reparent; [exact Hok|lia|..].
        -- destruct (decide (q ∈ (drop mid a).*2)) as [HqM|HqM].
           ++ right; right. rewrite GetParentPageId_Set, (HinM HqM).
              split; [done|]. by apply Hchild_R.
           ++ rewrite (HnotinM HqM), SetParentPageId_id.
              destruct Hok as (_ & Hatt & _). unfold attached in *. rewrite Hr3.
              destruct Hatt as [?|[[? [=]]|[? Hch]]]; [by left|].
              right; right. split; [done|].
              destruct (decide (GetParentPageId p0 = P)) as [e|HneP].
              ** rewrite e in Hch |- *.
                 apply is_child_lookup in Hch as (n0 & j & k0 & Hn0 & Hj).
                 rewrite HP in Hn0. injection Hn0 as <-.
                 destruct (decide (j < mid)%nat).
                 --- by apply (Hchild_P j (k0, q)).
                 --- exfalso. apply HqM. apply HM. exists j, k0. split; [lia|done].
              ** by apply Hchild_same.
        -- simpl. by dsimp.
        -- simpl. by dsimp.
        -- simpl. by dsimp.
        -- simpl. by dsimp.
        -- intros nq j kc -> Hj (_ & Hcpar & Hcdep & _).
           assert (kc.2 <> R) by (by eapply Hnochild2).
           assert (kc.2 ∉ (drop mid a).*2).
           { intros Hc. apply HM in Hc as (j' & k' & _ & Hj').
             destruct (Hkid _ _ Hj') as (pc & Hpc & Hpcpar & _). simpl in *.
             unfold parent_of in Hcpar. rewrite Hpc in Hcpar. simpl in Hcpar. congruence. }
           split_and!; try done.
           ++ by rewrite Hpar_same.
           ++ simpl. by dsimp.
           ++ simpl. by dsimp.
           ++ simpl. destruct (decide (kc.2 = P)) as [e|].
              ** dsimp. by rewrite e.
              ** by dsimp.
  - intros q p Hq _. rewrite Hp3 in Hq. unfold size_ok. rewrite Hr3.
    destruct (decide (q = R)) as [->|HqR]; [|destruct (decide (q = P)) as [->|HqP]].
    + injection Hq as <-. simpl. rewrite length_drop. lia.
    + injection Hq as <-. simpl. rewrite length_take. lia.
    + assert (exists p0 P', pages t2 !! q = Some p0 /\ p = SetParentPageId P' p0)
        as (p0 & P' & Hq0 & ->).
      { destruct (decide (q ∈ (drop mid a).*2)).
        - destruct (pages t2 !! q) as [p0|] eqn:Hq0; [|done]. injection Hq as <-.
          by exists p0, R.
        - exists p, (GetParentPageId p). by rewrite SetParentPageId_id. }
      pose proof (Hsizes q p0 Hq0 (not_elem_of_empty _)) as Hs. unfold size_ok in Hs.
      by destruct p0.
  - apply entry_ext. intros q _. rewrite Hp3.
    goal_decide; subst; rewrite ?leaf_entries_fmap_Set, ?HP, ?HRnone; done.
Qed.

Lemma is_Some_clean_Add q txn :
  is_Some txn -> clean txn ->
  is_Some (AddIntoPageSet q txn) /\ clean (AddIntoPageSet q txn).
Proof. intros [x ->] Hc. split; [by eexists|done]. Qed.

Lemma not_empty_pos t : 0 < root_page_id t -> IsEmpty t = false.
Proof.
  intros Hr. unfold IsEmpty, INVALID_PAGE_ID. rewrite bool_decide_eq_false. lia.
Qed.

Lemma InsertIntoParent_root_case (fuel : nat) g t old new key txn po :
  core ∅ (Some (old, new)) g t -> sizes ∅ None t ->
  pages t !! old = Some po ->
  (forall l, po = Leaf l -> leaf_max_size ÷ 2 <= Z.of_nat (length (l_array l))) ->
  lower g new = Some key -> is_Some txn -> clean txn ->
  GetParentPageId po = INVALID_PAGE_ID ->
  exists t' g' txn',
    InsertIntoParent leaf_max_size internal_max_size fuel old key new txn t
      = Val (t', txn')
    /\ core ∅ None g' t' /\ sizes ∅ None t'
    /\ (height g' <= S (height g))%nat
    /\ is_Some txn' /\ clean txn'
    /\ IsEmpty t' = false /\ 0 < next_id t'
    /\ forall k v, entry ∅ t' k v <-> entry ∅ t k v.
Proof.
  intros Hcore Hsizes Hold Holdsz Hkey Htxn Hcl Hinv.
  pose proof Hcore as (_ & (_ & _ & Hon & _ & Hppar & _) & Hpages).
  assert (exists pn, pages t !! new = Some pn) as [pn Hnew].
  { unfold parent_of in Hppar. rewrite Hold in Hppar.
    destruct (pages t !! new); [eauto|done]. }
  pose proof (Hpages _ _ Hold (not_elem_of_empty _)) as Hokold.
  pose proof (Hpages _ _ Hnew (not_elem_of_empty _)) as Hoknew.
  rewrite (InsertIntoParent_root leaf_max_size internal_max_size _ old key new
             txn t po pn Htxn Hold Hnew Hinv Hon)
    by (destruct Hokold, Hoknew; lia).
  match goal with |- context [Val (?t', txn)] => set (t1 := t') end.
  destruct (new_root_core g t t1 old new po pn key Hcore Hsizes Holdsz Hold Hnew
              Hinv Hkey eq_refl eq_refl) as (g' & Hh & Hc' & Hs' & He').
  { intros q. simpl. rewrite !lookup_insert. goal_decide; congruence. }
  exists t1, g', txn. split_and!; try done.
  - lia.
  - apply not_empty_pos. simpl. destruct Hokold. lia.
  - simpl. destruct Hokold. lia.
Qed.

(** [InsertIntoParent] completes the split: the separator reaches an
    ancestor with room for it, or a new root. *)
Lemma InsertIntoParent_spec (fuel : nat) :
  forall g t old new key txn po,
    core ∅ (Some (old, new)) g t -> sizes ∅ None t ->
    pages t !! old = Some po ->
    (forall l, po = Leaf l -> leaf_max_size ÷ 2 <= Z.of_nat (length (l_array l))) ->
    lower g new = Some key -> is_Some txn -> clean txn ->
    (depth g old <= fuel)%nat ->
    exists t' g' txn',
      InsertIntoParent leaf_max_size internal_max_size fuel old key new txn t
        = Val (t', txn')
      /\ core ∅ None g' t' /\ sizes ∅ None t'
      /\ (height g' <= S (height g))%nat
      /\ is_Some txn' /\ clean txn'
      /\ IsEmpty t' = false /\ 0 < next_id t'
      /\ forall k v, entry ∅ t' k v <-> entry ∅ t k v.
Proof.
  induction fuel as [|fuel IH];
    intros g t old new key txn po Hcore Hsizes Hold Holdsz Hkey Htxn Hcl Hfuel.
  all: pose proof Hcore as (_ & (_ & _ & Hon & _ & Hppar & _) & Hpages).
  all: assert (exists pn, pages t !! new = Some pn) as [pn Hnew]
    by (unfold parent_of in Hppar; rewrite Hold in Hppar;
        destruct (pages t !! new); [eauto|done]).
  all: pose proof (Hpages _ _ Hold (not_elem_of_empty _)) as Hokold.
  all: pose proof (Hpages _ _ Hnew (not_elem_of_empty _)) as Hoknew.
  all: destruct (decide (GetParentPageId po = INVALID_PAGE_ID)) as [Hinv|Hninv].
  1, 3: by eapply InsertIntoParent_root_case.
  - (* no fuel is needed when the parent has room *)
    destruct (insert_node_core g t old new po pn key Hcore Hsizes Hold Hnew Hninv Hkey)
      as (n & i & k & HPn & Hi & HVI & HPnew & HPold & Hidold & Hidnew & HPdep & Hmain).
    destruct (parent_page _ _ _ _ _ _ Hcore Hold (not_elem_of_empty _) Hninv)
      as (? & ? & ? & _ & _ & _ & _ & _ & Hd).
    { intros o [= _ ?]. done. }
    lia.
  - destruct (insert_node_core g t old new po pn key Hcore Hsizes Hold Hnew Hninv Hkey)
      as (n & i & k & HPn & Hi & HVI & HPnew & HPold & Hidold & Hidnew & HPdep & Hmain).
    destruct (parent_page _ _ _ _ _ _ Hcore Hold (not_elem_of_empty _) Hninv)
      as (? & ? & ? & _ & _ & _ & _ & _ & Hd).
    { intros o [= _ ?]. done. }
    set (P := GetParentPageId po) in *.
    rewrite (InsertIntoParent_nonroot leaf_max_size internal_max_size _ old key new
               txn t po pn n Htxn Hold Hnew Hninv HPn (not_eq_sym HPnew))
      by (rewrite Hidold, HVI; lia).
    fold P. rewrite Hidold, Hidnew, HVI.
    replace (Z.of_nat i + 1) with (Z.of_nat (S i)) by lia.
    set (a := insert_at (Z.of_nat (S i)) (key, new) (i_array n)) in *.
    set (t2 := put P (Internal (Internal.with_array a n))
                 (put new (SetParentPageId P pn) t)).
    destruct (Hmain t2 eq_refl eq_refl)
      as (Hroot2 & Hothers2 & HPlt2 & Hatt2 & Hin2 & Hsizes2 & Hent2).
    { intros q. unfold t2. rewrite !pages_put.
      goal_decide; congruence. }
    pose proof Hin2 as (_ & Hmax2 & _ & _ & _ & Hlen2 & _). simpl in Hmax2, Hlen2.
    unfold Internal.GetSize. cbn [i_array i_max_size Internal.with_array].
    pose proof (Hpages _ _ HPn (not_elem_of_empty _)) as (_ & _ & _ & HmaxP & _).
    rewrite HmaxP.
    case_bool_decide as Hover.
    + (* the parent overflows and is split *)
      assert (Hlena : Z.of_nat (length a) = internal_max_size + 1) by lia.
      assert (HP2 : pages t2 !! P = Some (Internal (Internal.with_array a n))).
      { unfold t2. rewrite pages_put. by rewrite decide_True. }
      destruct (internal_split_core g t2 P _ Hroot2 Hothers2 HP2 HPlt2 Hatt2 Hin2
                  Hlena Hsizes2)
        as (HPR & Hmovedpre & sep & c0 & Hsep & Hsplit).
      destruct (Split_internal_spec leaf_max_size internal_max_size P txn t2 _
                  HP2 Htxn HPR Hmovedpre)
        as (t3 & HS & Hr3 & Hn3 & _ & Hp3).
      rewrite HS. cbn [mbind res_bind].
      destruct (Hsplit t3 Hr3 Hn3 Hp3) as (g3 & Hlo3 & Hh3 & Hd3 & Hc3 & Hs3 & He3).
      assert (HR3 : pages t3 !! next_id t2 = Some (Internal
                (mkInternal internal_max_size (i_parent_page_id n) (next_id t2)
                   (drop (Z.to_nat (Internal.GetSize (Internal.with_array a n) ÷ 2)) a)))).
      { rewrite Hp3. by rewrite decide_True. }
      apply FetchInternal_Val in HR3 as HR3'. rewrite HR3'. cbn [mbind res_bind].
      unfold Internal.KeyAt. cbn [i_array].
      rewrite (proj2 (slot_Val _ 0 (sep, c0))).
      2:{ split; [lia|]. rewrite lookup_drop. simpl. by rewrite Nat.add_0_r. }
      cbn [mbind res_bind fst].
      destruct (is_Some_clean_Add (next_id t2) txn Htxn Hcl) as [Htxn3 Hcl3].
      assert (HP3 : pages t3 !! P =
                Some (Internal (Internal.with_array
                  (take (Z.to_nat (Internal.GetSize (Internal.with_array a n) ÷ 2)) a)
                  (Internal.with_array a n)))).
      { rewrite Hp3. by dsimp. }
      destruct (IH g3 t3 P (next_id t2) sep (AddIntoPageSet (next_id t2) txn) _
                  Hc3 Hs3 HP3 ltac:(done) Hlo3 Htxn3 Hcl3)
        as (t' & g' & txn' & HI & Hc' & Hs' & Hh' & Htxn' & Hcl' & Hne' & Hnx' & He').
      { unfold P in *. lia. }
      exists t', g', txn'. split_and!; try done.
      * lia.
      * intros k0 v0. by rewrite He', He3, Hent2.
    + exists t2, g, txn. split_and!; try done.
      * split; [done|]. split; [done|].
        intros q p Hq _. destruct (decide (q = P)) as [->|]; [|by apply Hothers2].
        unfold t2 in Hq. rewrite pages_put, decide_True in Hq by done.
        injection Hq as <-. split; [done|]. split; [done|].
        eapply internal_ok_upto_le; [done|]. simpl. lia.
      * lia.
      * apply not_empty_pos. simpl.
        destruct (core_root_page _ _ _ _ _ _ Hcore) as (pr & Hpr & _).
        pose proof (core_page_lt _ _ _ _ _ _ _ _ Hcore Hpr (not_elem_of_empty _)). lia.
      * simpl. destruct Hokold. lia.
Qed.

End ParentFacts.


(** ** [Insert] *)

Import BPT.

Section InsertSpec.
Variables leaf_max_size internal_max_size : Z.
Hypothesis Hlm : 1 <= leaf_max_size.
Hypothesis Him : 3 <= internal_max_size.
Notation core := (core leaf_max_size internal_max_size).
Notation page_ok := (page_ok leaf_max_size internal_max_size).
Notation sizes := (sizes leaf_max_size).
Notation wf := (wf leaf_max_size internal_max_size).

Lemma InsertIntoLeaf_spec g t (fuel : nat) key value txn :
  core ∅ None g t -> sizes ∅ None t -> IsEmpty t = false -> 0 < next_id t ->
  is_Some txn -> clean txn -> (height g <= fuel)%nat ->
  exists b t' g' txn',
    InsertIntoLeaf leaf_max_size internal_max_size fuel key value txn t
      = Val (b, t', txn')
    /\ core ∅ None g' t' /\ sizes ∅ None t'
    /\ (height g' <= S (height g))%nat
    /\ is_Some txn' /\ clean txn'
    /\ IsEmpty t' = false /\ 0 < next_id t'
    /\ (b = false -> t' = t)
    /\ (b = false <-> exists v, entry ∅ t key v)
    /\ (b = true -> forall k v,
          entry ∅ t' k v <-> entry ∅ t k v \/ (k = key /\ v = value)).
Proof.
  intros Hcore Hsizes Hne Hnext Htxn Hcl Hfuel. unfold InsertIntoLeaf.
  destruct (FindLeafPage_spec leaf_max_size internal_max_size g t key INSERT fuel txn
              Hcore Hsizes Hne Hcl Hfuel)
    as (L & l & txn1 & -> & HL & Hr & Hcl1 & His1 & _).
  cbn [mbind res_bind deref]. unfold FetchLeaf, FetchPage. rewrite HL.
  cbn [mbind res_bind deref].
  assert (Htxn1 : is_Some txn1) by (by apply His1).
  pose proof (core_page _ _ _ _ _ _ _ _ Hcore HL (not_elem_of_empty _)) as HokL.
  pose proof HokL as (HLlt & HattL & HLid & HLmax & HLdep & HLs & HLr & HLlen).
  pose proof (entry_lookup leaf_max_size internal_max_size g t key L l) as Hel.
  destruct (Leaf.Lookup key l) as [v0|] eqn:Hlk.
  - (* the key is there already *)
    destruct (FreePages_clean true txn1 (-1) t Hcl1) as (txn2 & -> & Hcl2 & His2 & _).
    cbn [mbind res_bind]. exists false, t, g, txn2. split_and!; try done.
    + lia.
    + by apply His2.
    + split; [|done]. intros _. exists v0. by apply Hel.
  - assert (Hnoentry : ~ exists v, entry ∅ t key v).
    { intros [v Hv]. by apply (Hel v Hcore Hsizes HL Hr) in Hv. }
    clear Hel. apply (Leaf_Lookup_None key l HLs) in Hlk.
    destruct (Leaf_Insert_spec key value l HLs Hlk) as (l1 & -> & Hl1 & Hs1 & Hin1 & Hlen1).
    cbn [mbind res_bind].
    assert (Hmax1 : l_max_size l1 = leaf_max_size) by (by rewrite Hl1).
    assert (Hr1 : forall x, x ∈ l_array l1 -> in_range g L x.1).
    { intros x Hx. apply Hin1 in Hx as [->|Hx]; [done|by apply HLr]. }
    unfold Leaf.GetSize. rewrite Hmax1.
    case_bool_decide as Hover.
    + (* the leaf overflows *)
      assert (Hlen : Z.of_nat (length (l_array l1)) = leaf_max_size + 1) by lia.
      assert (HL2 : pages (put L (Leaf l1) t) !! L = Some (Leaf l1))
        by (by rewrite pages_put, decide_True).
      rewrite (Split_leaf_spec leaf_max_size internal_max_size L txn1 _ l1 HL2 Htxn1)
        by (unfold Leaf.GetSize; lia).
      cbn [mbind res_bind]. rewrite Hmax1.
      change (next_id (put L (Leaf l1) t)) with (next_id t).
      match goal with
      | |- context [InsertIntoParent _ _ _ _ _ _ _ ?t'] => set (t3 := t')
      end.
      destruct (leaf_split_core leaf_max_size internal_max_size Hlm Him g t t3 L l
                  (l_array l1) key value Hcore Hsizes HL Hs1 Hr1 Hlen Hin1)
        as (g3 & sep & r0 & Hsep & Hlo3 & Hh3 & Hd3 & Hc3 & Hs3 & He3).
      { done. }
      { done. }
      { intros q. unfold t3. rewrite !pages_put. simpl. rewrite lookup_insert.
        rewrite Hl1. simpl. rewrite HLmax. goal_decide; congruence. }
      assert (HR3 : pages t3 !! next_id t =
                Some (Leaf (mkLeaf leaf_max_size (l_parent_page_id l1) (next_id t)
                       (next_page_id l1)
                       (drop (Z.to_nat ((leaf_max_size + 1) / 2)) (l_array l1))))).
      { unfold t3. rewrite pages_put. by rewrite decide_True. }
      rewrite HR3. cbn [mbind res_bind deref].
      unfold Leaf.KeyAt. cbn [l_array].
      rewrite (proj2 (slot_Val _ 0 (sep, r0))) by (split; [lia|done]).
      cbn [mbind res_bind fst].
      destruct (is_Some_clean_Add (next_id t) txn1 Htxn1 Hcl1) as [Htxn3 Hcl3].
      assert (HL3 : pages t3 !! L =
                Some (Leaf (mkLeaf (l_max_size l1) (l_parent_page_id l1) (l_page_id l1)
                        (next_id t)
                        (take (Z.to_nat ((leaf_max_size + 1) / 2)) (l_array l1))))).
      { unfold t3. rewrite !pages_put. dsimp. by rewrite Hmax1. }
      destruct (InsertIntoParent_spec leaf_max_size internal_max_size Hlm Him fuel
                  g3 t3 L (next_id t) sep (AddIntoPageSet (next_id t) txn1) _
                  Hc3 Hs3 HL3)
        as (t4 & g4 & txn4 & -> & Hc4 & Hs4 & Hh4 & Htxn4 & Hcl4 & Hne4 & Hnx4 & He4);
        try done.
      { intros l0 [= <-]. simpl. rewrite length_take.
        rewrite quot_half by lia.
        assert (leaf_max_size / 2 <= (leaf_max_size + 1) / 2)
          by (apply Z.div_le_mono; lia).
        assert ((leaf_max_size + 1) / 2 <= leaf_max_size + 1)
          by (apply Z.div_le_upper_bound; lia).
        assert (0 <= leaf_max_size / 2) by (apply Z.div_pos; lia).
        lia. }
      { lia. }
      cbn [mbind res_bind].
      destruct (FreePages_clean true txn4 (-1) t4 Hcl4) as (txn5 & -> & Hcl5 & His5 & _).
      cbn [mbind res_bind]. exists true, t4, g4, txn5. split_and!; try done.
      * lia.
      * by apply His5.
      * intros _ k v. by rewrite He4, He3.
    + (* the leaf has room *)
      cbn [mbind res_bind].
      destruct (FreePages_clean true txn1 (-1) (put L (Leaf l1) t) Hcl1)
        as (txn2 & -> & Hcl2 & His2 & _).
      cbn [mbind res_bind].
      exists true, (put L (Leaf l1) t), g, txn2. split_and!; try done.
      * eapply (put_leaf_core _ _ _ _ _ _ _ L l l1); try done.
        -- intros q. rewrite pages_put. by destruct (decide (L = q)); goal_decide.
        -- by rewrite Hl1.
        -- intros _. rewrite Hl1. split_and!; try done.
           ++ by rewrite <- Hl1.
           ++ by rewrite <- Hl1.
           ++ rewrite <- Hl1. lia.
      * intros q p Hq _. rewrite pages_put in Hq.
        destruct (decide (L = q)) as [<-|].
        -- injection Hq as <-. pose proof (Hsizes L _ HL (not_elem_of_empty _)) as Hsz.
           unfold size_ok in *. simpl in *. rewrite Hlen1.
           destruct (decide (L = root_page_id t)); lia.
        -- by apply (Hsizes q p Hq).
      * lia.
      * by apply His2.
      * intros _ k v. rewrite !entry_leaf_entries. split.
        -- intros (L' & a & _ & Ha & Hin). rewrite pages_put in Ha.
           destruct (decide (L = L')) as [<-|].
           ++ simpl in Ha. injection Ha as <-.
              apply Hin1 in Hin as [[= -> ->]|Hin]; [by right|].
              left. exists L, (l_array l). by rewrite HL.
           ++ left. by exists L', a.
        -- intros [(L' & a & _ & Ha & Hin)|[-> ->]].
           ++ destruct (decide (L = L')) as [<-|].
              ** exists L, (l_array l1). rewrite pages_put, decide_True by done.
                 split_and!; try done. apply Hin1. right.
                 rewrite HL in Ha. by injection Ha as <-.
              ** exists L', a. rewrite pages_put, decide_False by done. done.
           ++ exists L, (l_array l1). rewrite pages_put, decide_True by done.
              split_and!; try done. apply Hin1. by left.
Qed.

(** [Insert] keeps the index well formed; it refuses a key that is
    there and changes nothing then, and otherwise adds the one entry. *)
Lemma Insert_spec (h fuel : nat) t key value txn :
  wf h t -> is_Some txn -> clean txn -> (h <= fuel)%nat ->
  exists b t' (h' : nat) txn',
    Insert leaf_max_size internal_max_size fuel key value txn t = Val (b, t', txn')
    /\ wf h' t' /\ (h' <= S h)%nat
    /\ is_Some txn' /\ clean txn'
    /\ IsEmpty t' = false
    /\ (b = false -> t' = t)
    /\ (b = false <-> exists v, entry ∅ t key v)
    /\ (b = true -> forall k v,
          entry ∅ t' k v <-> entry ∅ t k v \/ (k = key /\ v = value)).
Proof.
  intros Hwf Htxn Hcl Hfuel. unfold Insert.
  destruct (IsEmpty t) eqn:He.
  - destruct (StartNewTree_spec leaf_max_size internal_max_size Hlm Him key value t h Hwf He)
      as (t' & -> & Hwf' & Hne' & Hent).
    cbn [mbind res_bind]. exists true, t', 0%nat, txn. split_and!; try done.
    + lia.
    + split; [done|]. intros [v Hv]. destruct Hwf as [_ Hwf]. rewrite He in Hwf.
      exfalso. by eapply entry_empty.
    + intros _ k v. rewrite Hent. split; [by right|].
      intros [Hv|?]; [|done]. destruct Hwf as [_ Hwf]. rewrite He in Hwf.
      exfalso. by eapply entry_empty.
  - destruct Hwf as [Hnext Hwf]. rewrite He in Hwf.
    destruct Hwf as (g & Hh & Hcore & Hsizes).
    destruct (InsertIntoLeaf_spec g t fuel key value txn Hcore Hsizes He Hnext Htxn Hcl)
      as (b & t' & g' & txn' & HI & Hc' & Hs' & Hh' & Htxn' & Hcl' & Hne' & Hnx' & Hsame & Hb & Hent).
    { lia. }
    exists b, t', (height g'), txn'. split_and!; try done.
    + split; [done|]. rewrite Hne'. by exists g'.
    + lia.
Qed.

End InsertSpec.


(** ** The page moves of [Remove] *)

Import BPT.

Lemma FetchPage_eq q t p : pages t !! q = Some p -> FetchPage q t = Val p.
Proof. apply FetchPage_Val. Qed.

Lemma FetchLeaf_eq q t l : pages t !! q = Some (Leaf l) -> FetchLeaf q t = Val l.
Proof. apply FetchLeaf_Val. Qed.

Lemma FetchInternal_eq q t n :
  pages t !! q = Some (Internal n) -> FetchInternal q t = Val n.
Proof. apply FetchInternal_Val. Qed.

Lemma slot_eq {A} (array : list A) (i : nat) (x : A) :
  array !! i = Some x -> slot array (Z.of_nat i) = Val x.
Proof. apply slot_lookup. Qed.

Lemma KeyAt_eq n (i : nat) kv :
  i_array n !! i = Some kv -> Internal.KeyAt (Z.of_nat i) n = Val kv.1.
Proof. intros H. unfold Internal.KeyAt. by rewrite (slot_eq _ _ _ H). Qed.

Lemma ValueAt_eq n (i : nat) kv :
  i_array n !! i = Some kv -> Internal.ValueAt (Z.of_nat i) n = Val kv.2.
Proof. intros H. unfold Internal.ValueAt. by rewrite (slot_eq _ _ _ H). Qed.

Lemma SetKeyAt_eq n (i : nat) key kv :
  i_array n !! i = Some kv ->
  Internal.SetKeyAt (Z.of_nat i) key n =
  Val (Internal.with_array (<[i := (key, kv.2)]> (i_array n)) n).
Proof.
  intros H. unfold Internal.SetKeyAt. rewrite (slot_eq _ _ _ H).
  cbn [mbind res_bind]. by rewrite Nat2Z.id.
Qed.

Lemma Leaf_KeyAt_eq l (i : nat) kv :
  l_array l !! i = Some kv -> Leaf.KeyAt (Z.of_nat i) l = Val kv.1.
Proof. intros H. unfold Leaf.KeyAt. by rewrite (slot_eq _ _ _ H). Qed.

Lemma Crabing_noprev q op txn t p :
  pages t !! q = Some p ->
  CrabingProtocalFetchPage q op (-1) txn t = Val (p, t, AddIntoPageSet q txn).
Proof.
  intros Hq. unfold CrabingProtocalFetchPage. rewrite (FetchPage_eq _ _ _ Hq).
  cbn [mbind res_bind]. rewrite bool_decide_eq_false_2 by lia. done.
Qed.

(** [FindLeftSibling]: the left sibling, or the right one for the
    leftmost child. *)
Lemma FindLeftSibling_spec N txn t p n (i : nat) kS S pS :
  pages t !! N = Some p -> GetPageId p = N ->
  pages t !! GetParentPageId p = Some (Internal n) ->
  Internal.ValueIndex N n = Z.of_nat i ->
  i_array n !! (if decide (i = 0%nat) then 1%nat else (i - 1)%nat) = Some (kS, S) ->
  pages t !! S = Some pS -> IsLeafPage pS = IsLeafPage p ->
  FindLeftSibling N txn t =
  Val (bool_decide (i = 0%nat), S, t, AddIntoPageSet S txn).
Proof.
  intros HN Hid HP Hidx HS HpS Hleaf. unfold FindLeftSibling.
  rewrite (FetchPage_eq _ _ _ HN). cbn [mbind res_bind].
  rewrite (FetchInternal_eq _ _ _ HP). cbn [mbind res_bind].
  rewrite Hid, Hidx.
  assert ((if bool_decide (Z.of_nat i = 0) then Z.of_nat i + 1 else Z.of_nat i - 1)
          = Z.of_nat (if decide (i = 0%nat) then 1%nat else (i - 1)%nat)) as ->.
  { case_bool_decide; case_decide; lia. }
  rewrite (ValueAt_eq _ _ _ HS). cbn [mbind res_bind snd].
  rewrite (Crabing_noprev _ _ _ _ _ HpS). cbn [mbind res_bind].
  rewrite (bool_decide_eq_true_2 (IsLeafPage pS = IsLeafPage p) Hleaf).
  cbn [assert mbind res_bind].
  do 4 f_equal. apply bool_decide_ext. lia.
Qed.

(** [MoveAllTo] between two leaves. *)
Lemma MoveAllTo_leaf_spec left (r : Z) right t ll lr :
  pages t !! right = Some (Leaf lr) -> pages t !! left = Some (Leaf ll) ->
  MoveAllTo left r right t =
  Val (put left (Leaf (mkLeaf (l_max_size ll) (l_parent_page_id ll) (l_page_id ll)
                         (next_page_id lr) (l_array ll ++ l_array lr)))
         (put right (Leaf (Leaf.with_array [] lr)) t)).
Proof.
  intros Hr Hl. unfold MoveAllTo. rewrite (FetchPage_eq _ _ _ Hr).
  cbn [mbind res_bind]. rewrite (FetchLeaf_eq _ _ _ Hl). done.
Qed.

(** [MoveAllTo] between two internal pages: the separator comes down
    from the parent and the children change parent. *)
Lemma MoveAllTo_internal_spec left (r : nat) right t nl nr nP kr k0 c0 rest :
  pages t !! right = Some (Internal nr) -> pages t !! left = Some (Internal nl) ->
  pages t !! i_parent_page_id nr = Some (Internal nP) ->
  i_array nP !! r = Some kr -> i_array nr = (k0, c0) :: rest ->
  left <> right ->
  (forall c, c ∈ (i_array nr).*2 ->
     is_Some (pages t !! c) /\ c <> left /\ c <> right) ->
  exists t',
    MoveAllTo left (Z.of_nat r) right t = Val t'
    /\ root_page_id t' = root_page_id t
    /\ next_id t' = next_id t
    /\ forall q, pages t' !! q =
         if decide (q = right) then Some (Internal (Internal.with_array [] nr))
         else if decide (q = left)
         then Some (Internal (Internal.with_array
                      (i_array nl ++ (kr.1, c0) :: rest) nl))
         else if decide (q ∈ (i_array nr).*2)
         then SetParentPageId (i_page_id nl) <$> pages t !! q
         else pages t !! q.
Proof.
  intros Hr Hl HP Hkr Harr Hne Hch. unfold MoveAllTo.
  rewrite (FetchPage_eq _ _ _ Hr). cbn [mbind res_bind].
  unfold Internal_MoveAllTo. rewrite (FetchInternal_eq _ _ _ Hr).
  cbn [mbind res_bind]. rewrite (FetchInternal_eq _ _ _ HP). cbn [mbind res_bind].
  rewrite (KeyAt_eq _ _ _ Hkr). cbn [mbind res_bind].
  assert (H0 : i_array nr !! 0%nat = Some (k0, c0)) by (by rewrite Harr).
  pose proof (SetKeyAt_eq nr 0 kr.1 _ H0) as HS0.
  change (Z.of_nat 0) with 0 in HS0. rewrite HS0. cbn [mbind res_bind snd].
  rewrite Harr. cbn [list_insert insert].
  set (n1 := Internal.with_array ((kr.1, c0) :: rest) nr).
  assert (Hl1 : pages (put right (Internal n1) t) !! left = Some (Internal nl))
    by (by rewrite pages_put, decide_False).
  rewrite (FetchInternal_eq _ _ _ Hl1). cbn [mbind res_bind].
  assert (Hkids : (i_array n1).*2 = (i_array nr).*2) by (by rewrite Harr).
  destruct (reparent_spec (i_array n1).*2 (i_page_id nl) (put right (Internal n1) t))
    as (t2 & -> & Hr2 & Hn2 & _ & Hp2).
  { intros c Hc. rewrite Hkids in Hc. destruct (Hch c Hc) as (? & ? & ?).
    by rewrite pages_put, decide_False. }
  cbn [mbind res_bind].
  assert (Hl2 : pages t2 !! left = Some (Internal nl)).
  { rewrite Hp2, decide_False; [done|]. rewrite Hkids. intros Hc.
    by destruct (Hch _ Hc) as (_ & ? & _). }
  rewrite (put_internal_array_Val _ _ _ _ Hl2). cbn [mbind res_bind].
  assert (Hr2' : pages (put left (Internal (Internal.with_array
                   (i_array nl ++ i_array n1) nl)) t2) !! right = Some (Internal n1)).
  { rewrite pages_put, decide_False by done. rewrite Hp2, decide_False.
    - by rewrite pages_put, decide_True.
    - rewrite Hkids. intros Hc. by destruct (Hch _ Hc) as (_ & _ & ?). }
  rewrite (put_internal_array_Val _ _ _ _ Hr2').
  eexists. split; [reflexivity|]. split_and!; try done.
  intros q. rewrite !pages_put.
  destruct (decide (right = q)) as [<-|]; [by rewrite decide_True|].
  rewrite (decide_False (P := q = right)) by done.
  destruct (decide (left = q)) as [<-|]; [by rewrite decide_True|].
  rewrite (decide_False (P := q = left)) by done.
  rewrite Hp2, Hkids, pages_put.
  rewrite !(decide_False (P := right = q)) by done. by rewrite Harr.
Qed.

(** The four moves of [Redistribute]. *)
Lemma Leaf_MoveFirstToEndOf_spec N S t ls ln nP x0 x1 rest (j : nat) kv :
  pages t !! S = Some (Leaf ls) -> l_array ls = x0 :: x1 :: rest ->
  pages t !! N = Some (Leaf ln) -> S <> N ->
  Leaf.GetSize ln < l_max_size ln ->
  pages t !! l_parent_page_id ls = Some (Internal nP) ->
  Internal.ValueIndex (l_page_id ls) nP = Z.of_nat j ->
  i_array nP !! j = Some kv ->
  Leaf_MoveFirstToEndOf N S t =
  Val (put (l_parent_page_id ls)
         (Internal (Internal.with_array (<[j := (x1.1, kv.2)]> (i_array nP)) nP))
         (put N (Leaf (Leaf.with_array (l_array ln ++ [x0]) ln))
            (put S (Leaf (Leaf.with_array (x1 :: rest) ls)) t))).
Proof.
  intros HS Harr HN Hne Hroom HP Hidx Hkv. unfold Leaf_MoveFirstToEndOf.
  rewrite (FetchLeaf_eq _ _ _ HS). cbn [mbind res_bind].
  unfold Leaf.GetItem. change 0 with (Z.of_nat 0).
  rewrite (slot_eq (l_array ls) 0 x0) by (by rewrite Harr).
  cbn [mbind res_bind]. rewrite Harr. cbn [drop].
  set (l1 := Leaf.with_array (x1 :: rest) ls).
  assert (HN1 : pages (put S (Leaf l1) t) !! N = Some (Leaf ln))
    by (by rewrite pages_put, decide_False).
  rewrite (FetchLeaf_eq _ _ _ HN1). cbn [mbind res_bind].
  unfold Leaf.CopyLastFrom. rewrite bool_decide_eq_true_2 by done.
  cbn [assert mbind res_bind].
  set (r1 := Leaf.with_array (l_array ln ++ [x0]) ln).
  assert (HS2 : pages (put N (Leaf r1) (put S (Leaf l1) t)) !! S = Some (Leaf l1)).
  { rewrite pages_put, decide_False by done. by rewrite pages_put, decide_True. }
  rewrite (FetchLeaf_eq _ _ _ HS2). cbn [mbind res_bind].
  assert (HP2 : pages (put N (Leaf r1) (put S (Leaf l1) t)) !! l_parent_page_id l1
                = Some (Internal nP)).
  { rewrite !pages_put. simpl.
    destruct (decide (N = l_parent_page_id ls)) as [e|]; [by rewrite e, HP in HN|].
    destruct (decide (S = l_parent_page_id ls)) as [e|]; [by rewrite e, HP in HS|].
    done. }
  rewrite (FetchInternal_eq _ _ _ HP2). cbn [mbind res_bind].
  rewrite (Leaf_KeyAt_eq l1 0 x1) by done. cbn [mbind res_bind].
  change (l_page_id l1) with (l_page_id ls). rewrite Hidx.
  rewrite (SetKeyAt_eq _ _ _ _ Hkv). done.
Qed.

Lemma Leaf_MoveLastToFrontOf_spec N (idx : nat) S t ls ln nP xm kv :
  pages t !! S = Some (Leaf ls) ->
  l_array ls !! (length (l_array ls) - 1)%nat = Some xm ->
  pages t !! N = Some (Leaf ln) -> S <> N ->
  pages t !! l_parent_page_id ln = Some (Internal nP) ->
  i_array nP !! idx = Some kv ->
  Leaf_MoveLastToFrontOf N (Z.of_nat idx) S t =
  Val (put (l_parent_page_id ln)
         (Internal (Internal.with_array (<[idx := (xm.1, kv.2)]> (i_array nP)) nP))
         (put N (Leaf (Leaf.with_array (xm :: l_array ln) ln))
            (put S (Leaf (Leaf.with_array
                      (take (length (l_array ls) - 1) (l_array ls)) ls)) t))).
Proof.
  intros HS Hxm HN Hne HP Hkv. unfold Leaf_MoveLastToFrontOf.
  rewrite (FetchLeaf_eq _ _ _ HS). cbn [mbind res_bind].
  pose proof (lookup_lt_Some _ _ _ Hxm) as Hlen.
  unfold Leaf.GetItem, Leaf.GetSize.
  replace (Z.of_nat (length (l_array ls)) - 1)
    with (Z.of_nat (length (l_array ls) - 1)) by lia.
  rewrite (slot_eq _ _ _ Hxm). cbn [mbind res_bind]. rewrite Nat2Z.id.
  set (l1 := Leaf.with_array (take (length (l_array ls) - 1) (l_array ls)) ls).
  assert (HN1 : pages (put S (Leaf l1) t) !! N = Some (Leaf ln))
    by (by rewrite pages_put, decide_False).
  rewrite (FetchLeaf_eq _ _ _ HN1). cbn [mbind res_bind].
  unfold Leaf.CopyFirstFrom_array.
  set (r1 := Leaf.with_array (xm :: l_array ln) ln).
  assert (HP2 : pages (put N (Leaf r1) (put S (Leaf l1) t)) !! l_parent_page_id r1
                = Some (Internal nP)).
  { rewrite !pages_put. simpl.
    destruct (decide (N = l_parent_page_id ln)) as [e|]; [by rewrite e, HP in HN|].
    destruct (decide (S = l_parent_page_id ln)) as [e|]; [by rewrite e, HP in HS|].
    done. }
  rewrite (FetchInternal_eq _ _ _ HP2). cbn [mbind res_bind].
  change 0 with (Z.of_nat 0).
  rewrite (Leaf_KeyAt_eq r1 0 xm) by done. cbn [mbind res_bind].
  rewrite (SetKeyAt_eq _ _ _ _ Hkv). done.
Qed.

Lemma Internal_MoveFirstToEndOf_spec N S t ns nn nP k0 v0 x1 rest pc (j : nat) kv :
  pages t !! S = Some (Internal ns) -> i_array ns = (k0, v0) :: x1 :: rest ->
  pages t !! N = Some (Internal nn) -> S <> N ->
  Internal.GetSize nn < i_max_size nn ->
  pages t !! v0 = Some pc -> v0 <> S -> v0 <> N ->
  pages t !! i_parent_page_id ns = Some (Internal nP) ->
  i_parent_page_id ns <> S -> i_parent_page_id ns <> N -> i_parent_page_id ns <> v0 ->
  Internal.ValueIndex (i_page_id ns) nP = Z.of_nat j ->
  i_array nP !! j = Some kv ->
  Internal_MoveFirstToEndOf N S t =
  Val (put (i_parent_page_id ns)
         (Internal (Internal.with_array (<[j := (x1.1, kv.2)]> (i_array nP)) nP))
         (put v0 (SetParentPageId (i_page_id nn) pc)
            (put N (Internal (Internal.with_array (i_array nn ++ [(k0, v0)]) nn))
               (put S (Internal (Internal.with_array (x1 :: rest) ns)) t)))).
Proof.
  intros HS Harr HN Hne Hroom Hv0 Hv0S Hv0N HP HPS HPN HPv Hidx Hkv.
  unfold Internal_MoveFirstToEndOf.
  rewrite (FetchInternal_eq _ _ _ HS). cbn [mbind res_bind].
  assert (H0 : i_array ns !! 0%nat = Some (k0, v0)) by (by rewrite Harr).
  change 0 with (Z.of_nat 0).
  rewrite (KeyAt_eq _ _ _ H0), (ValueAt_eq _ _ _ H0). cbn [mbind res_bind fst snd].
  rewrite Harr. cbn [drop].
  set (n1 := Internal.with_array (x1 :: rest) ns).
  assert (HN1 : pages (put S (Internal n1) t) !! N = Some (Internal nn))
    by (by rewrite pages_put, decide_False).
  rewrite (FetchInternal_eq _ _ _ HN1). cbn [mbind res_bind].
  unfold Internal.CopyLastFrom. rewrite bool_decide_eq_true_2 by done.
  cbn [assert mbind res_bind].
  set (r1 := Internal.with_array (i_array nn ++ [(k0, v0)]) nn).
  assert (Hv2 : pages (put N (Internal r1) (put S (Internal n1) t)) !! v0 = Some pc).
  { rewrite !pages_put. by rewrite !decide_False. }
  rewrite (set_parent_Val _ _ _ _ Hv2). cbn [mbind res_bind].
  set (t3 := put v0 _ _).
  assert (HS3 : pages t3 !! S = Some (Internal n1)).
  { unfold t3. rewrite !pages_put. rewrite !decide_False by done.
    by rewrite decide_True. }
  rewrite (FetchInternal_eq _ _ _ HS3). cbn [mbind res_bind].
  assert (HP3 : pages t3 !! i_parent_page_id n1 = Some (Internal nP)).
  { unfold t3. rewrite !pages_put. simpl. by rewrite !decide_False. }
  rewrite (FetchInternal_eq _ _ _ HP3). cbn [mbind res_bind].
  rewrite (KeyAt_eq n1 0 x1) by done. cbn [mbind res_bind].
  change (i_page_id n1) with (i_page_id ns). rewrite Hidx.
  rewrite (SetKeyAt_eq _ _ _ _ Hkv). done.
Qed.

Lemma Internal_MoveLastToFrontOf_spec N (idx : nat) S t ns nn nP k v pc kv :
  pages t !! S = Some (Internal ns) ->
  i_array ns !! (length (i_array ns) - 1)%nat = Some (k, v) ->
  pages t !! N = Some (Internal nn) -> S <> N ->
  pages t !! v = Some pc -> v <> S -> v <> N ->
  pages t !! i_parent_page_id nn = Some (Internal nP) ->
  i_parent_page_id nn <> S -> i_parent_page_id nn <> N -> i_parent_page_id nn <> v ->
  i_array nP !! idx = Some kv ->
  Internal_MoveLastToFrontOf N (Z.of_nat idx) S t =
  Val (put (i_parent_page_id nn)
         (Internal (Internal.with_array (<[idx := (k, kv.2)]> (i_array nP)) nP))
         (put v (SetParentPageId (i_page_id nn) pc)
            (put N (Internal (Internal.with_array ((k, v) :: i_array nn) nn))
               (put S (Internal (Internal.with_array
                         (take (length (i_array ns) - 1) (i_array ns)) ns)) t)))).
Proof.
  intros HS Hlast HN Hne Hv HvS HvN HP HPS HPN HPv Hkv.
  unfold Internal_MoveLastToFrontOf.
  rewrite (FetchInternal_eq _ _ _ HS). cbn [mbind res_bind].
  pose proof (lookup_lt_Some _ _ _ Hlast) as Hlen.
  unfold Internal.GetSize.
  replace (Z.of_nat (length (i_array ns)) - 1)
    with (Z.of_nat (length (i_array ns) - 1)) by lia.
  rewrite (KeyAt_eq _ _ _ Hlast), (ValueAt_eq _ _ _ Hlast).
  cbn [mbind res_bind fst snd]. rewrite Nat2Z.id.
  set (n1 := Internal.with_array (take (length (i_array ns) - 1) (i_array ns)) ns).
  assert (HN1 : pages (put S (Internal n1) t) !! N = Some (Internal nn))
    by (by rewrite pages_put, decide_False).
  rewrite (FetchInternal_eq _ _ _ HN1). cbn [mbind res_bind].
  set (r1 := Internal.with_array ((k, v) :: i_array nn) nn).
  assert (Hv2 : pages (put N (Internal r1) (put S (Internal n1) t)) !! v = Some pc).
  { rewrite !pages_put. by rewrite !decide_False. }
  rewrite (set_parent_Val _ _ _ _ Hv2). cbn [mbind res_bind].
  set (t3 := put v _ _).
  assert (HN3 : pages t3 !! N = Some (Internal r1)).
  { unfold t3. rewrite !pages_put. rewrite !decide_False by done.
    by rewrite decide_True. }
  rewrite (FetchInternal_eq _ _ _ HN3). cbn [mbind res_bind].
  assert (HP3 : pages t3 !! i_parent_page_id r1 = Some (Internal nP)).
  { unfold t3. rewrite !pages_put. simpl. by rewrite !decide_False. }
  rewrite (FetchInternal_eq _ _ _ HP3). cbn [mbind res_bind].
  change 0 with (Z.of_nat 0).
  rewrite (KeyAt_eq r1 0 (k, v)) by done. cbn [mbind res_bind].
  rewrite (SetKeyAt_eq _ _ _ _ Hkv). done.
Qed.

(** [AdjustRoot] *)
Lemma AdjustRoot_leaf R t l :
  pages t !! R = Some (Leaf l) -> l_parent_page_id l = INVALID_PAGE_ID ->
  l_array l = [] ->
  AdjustRoot R t = Val (true, UpdateRootPageId (set_root INVALID_PAGE_ID t)).
Proof.
  intros HR Hpar Harr. unfold AdjustRoot. rewrite (FetchPage_eq _ _ _ HR).
  rewrite bind_Val. rewrite (bool_decide_eq_true_2 _ Hpar).
  cbn [assert mbind res_bind]. unfold Leaf.GetSize. rewrite Harr. done.
Qed.

Lemma AdjustRoot_collapse R t n k c pc :
  pages t !! R = Some (Internal n) -> i_array n = [(k, c)] ->
  pages t !! c = Some pc -> c <> R ->
  AdjustRoot R t =
  Val (true,
       put c (SetParentPageId INVALID_PAGE_ID pc)
         (UpdateRootPageId (set_root c (put R (Internal (Internal.with_array [] n)) t)))).
Proof.
  intros HR Harr Hc Hne. unfold AdjustRoot. rewrite (FetchPage_eq _ _ _ HR).
  rewrite bind_Val. unfold Internal.GetSize. rewrite Harr. simpl length.
  rewrite bool_decide_eq_true_2 by done.
  unfold Internal.RemoveAndReturnOnlyChild, Internal.GetSize. rewrite Harr.
  change 0 with (Z.of_nat 0). rewrite (ValueAt_eq n 0 (k, c)) by (by rewrite Harr).
  cbn [mbind res_bind snd]. simpl length. simpl take.
  rewrite (set_parent_Val _ _ _ pc); [done|].
  simpl. by rewrite lookup_insert_ne.
Qed.

Lemma AdjustRoot_keep R t n :
  pages t !! R = Some (Internal n) -> length (i_array n) <> 1%nat ->
  AdjustRoot R t = Val (false, t).
Proof.
  intros HR Hlen. unfold AdjustRoot. rewrite (FetchPage_eq _ _ _ HR).
  rewrite bind_Val. unfold Internal.GetSize.
  rewrite bool_decide_eq_false_2 by lia. done.
Qed.

(** ** The frame of the page moves of [Remove] *)

Import BPT.

Section RemoveFrame.
Variables leaf_max_size internal_max_size : Z.
Notation core := (core leaf_max_size internal_max_size).
Notation page_ok := (page_ok leaf_max_size internal_max_size).
Notation internal_ok := (internal_ok internal_max_size).
Notation internal_ok_upto := (internal_ok_upto internal_max_size).
Notation leaf_ok := (leaf_ok leaf_max_size).
Notation sizes := (sizes leaf_max_size).
Notation size_ok := (size_ok leaf_max_size).
Notation wf := (wf leaf_max_size internal_max_size).

Lemma root_page_iff D g t q p :
  core D None g t -> pages t !! q = Some p -> q ∉ D ->
  IsRootPage p = bool_decide (q = root_page_id t).
Proof.
  intros Hc Hq Hd. unfold IsRootPage.
  destruct (decide (GetParentPageId p = INVALID_PAGE_ID)) as [Hp|Hp].
  - rewrite bool_decide_eq_true_2 by done.
    destruct (invalid_parent_root _ _ _ _ _ _ _ _ Hc Hq Hd Hp) as [->|[o Ho]]; [|done].
    by rewrite bool_decide_eq_true_2.
  - rewrite bool_decide_eq_false_2 by done.
    rewrite bool_decide_eq_false_2; [done|]. intros ->.
    destruct Hc as ((_ & Hrp & _) & _). unfold parent_of in Hrp.
    rewrite Hq in Hrp. simpl in Hrp. congruence.
Qed.

(** Pages outside the set [T] of touched pages stay well formed. *)
Lemma core_frame (T : gset Z) D D' g g' t t' :
  core D None g t ->
  root_page_id t' = root_page_id t -> next_id t' = next_id t ->
  height g' = height g ->
  (forall q, q ∈ D' -> q ∉ D -> q ∈ T) ->
  (forall q, q ∉ T -> pages t' !! q = pages t !! q) ->
  (forall q, q ∉ T ->
     depth g' q = depth g q /\ lower g' q = lower g q /\ upper g' q = upper g q) ->
  (forall P0 q, P0 ∈ T -> q ∉ T -> P0 ∉ D -> is_child t P0 q ->
     (P0 ∉ D') /\ is_child t' P0 q) ->
  (forall c q, c ∈ T -> q ∉ T -> c ∉ D -> parent_of t c = Some q ->
     (c ∉ D') /\ parent_of t' c = Some q /\ depth g' c = depth g c
     /\ lower g' c = lower g c /\ upper g' c = upper g c) ->
  (forall q p, q ∈ T -> pages t' !! q = Some p -> q ∉ D' -> page_ok D' None g' t' q p) ->
  (root_page_id t ∈ T -> root_ok D' None g' t') ->
  (forall q, q ∉ T -> q ∈ D -> q ∈ D') ->
  core D' None g' t'.
Proof.
  intros Hc Hroot Hnext Hh HD2 Hsame Hg Hup Hdown HT Hr HD1.
  assert (HnD : forall q, q ∉ T -> q ∉ D' -> q ∉ D) by (intros q ?? ?; naive_solver).
  assert (HnD' : forall q, q ∉ T -> q ∉ D -> q ∉ D') by (intros q ?? ?; naive_solver).
  split; [|split; [done|]].
  - destruct (decide (root_page_id t ∈ T)) as [Hin|Hout]; [by apply Hr|].
    destruct Hc as ((Hrd & Hrp & Hr0 & Hrl & Hru) & _).
    destruct (Hg _ Hout) as (Hg1 & Hg2 & Hg3).
    unfold root_ok. rewrite Hroot. split_and!.
    + by apply HnD'.
    + unfold parent_of. by rewrite Hsame.
    + by rewrite Hg1.
    + by rewrite Hg2.
    + simpl in *. by rewrite Hg3.
  - intros q p Hq Hd.
    destruct (decide (q ∈ T)) as [Hin|Hout]; [by apply HT|].
    rewrite Hsame in Hq by done.
    assert (Hd0 : q ∉ D) by by apply HnD.
    pose proof (core_page _ _ _ _ _ _ _ _ Hc Hq Hd0) as Hok.
    destruct (Hg _ Hout) as (Hg1 & Hg2 & Hg3).
    eapply page_ok_transfer; [exact Hok|lia| | | |done|done|].
    + destruct Hok as (_ & [Hatt|[[o Ho]|[HPd Hch]]] & _).
      * left. congruence.
      * done.
      * right; right.
        destruct (decide (GetParentPageId p ∈ T)) as [HPin|HPout].
        -- by apply Hup.
        -- split; [by apply HnD'|]. eapply is_child_ext; [|done]. by apply Hsame.
    + rewrite Hg1, Hh. done.
    + rewrite Hg1, Hh. done.
    + intros n i kc -> Hi (Hcd & Hcp & Hcdep & Hcl & Hcu). simpl in Hcu.
      destruct (decide (kc.2 ∈ T)) as [Hcin|Hcout].
      * destruct (Hdown _ _ Hcin Hout Hcd Hcp) as (? & ? & Hd1 & Hd2 & Hd3).
        split_and!; try done.
        by rewrite Hd1, Hg1.
      * destruct (Hg _ Hcout) as (Hc1 & Hc2 & Hc3).
        split_and!; try done.
        -- by apply HnD'.
        -- rewrite <- Hcp. apply parent_of_ext. by apply Hsame.
        -- by rewrite Hc1, Hg1.
Qed.

Lemma sizes_frame (T : gset Z) D D' U U' t t' :
  sizes D U t ->
  root_page_id t' = root_page_id t ->
  (forall q, q ∉ T -> q ∈ D -> q ∈ D') ->
  (forall q, q ∉ T -> pages t' !! q = pages t !! q) ->
  (forall q, U = Some q -> q ∈ T) ->
  (forall q p, q ∈ T -> pages t' !! q = Some p -> q ∉ D' -> size_ok U' t' q p) ->
  sizes D' U' t'.
Proof.
  intros Hs Hroot HD1 Hsame HU HT q p Hq Hd.
  destruct (decide (q ∈ T)) as [Hin|Hout]; [by apply HT|].
  rewrite Hsame in Hq by done.
  assert (Hd0 : q ∉ D) by (intros ?; apply Hd; by apply HD1).
  specialize (Hs q p Hq Hd0).
  assert (HUq : U <> Some q) by (intros HUq; by apply Hout, HU).
  destruct p as [l|n]; simpl in *.
  - rewrite Hroot. destruct (decide (q = root_page_id t)).
    + destruct Hs as [?|?]; [done|by right].
    + rewrite decide_False in Hs by done. destruct (decide (U' = Some q)); lia.
  - rewrite decide_False in Hs by done. destruct (decide (U' = Some q)); lia.
Qed.

Lemma entry_frame (T : gset Z) D D' t t' :
  (forall q, q ∉ T -> q ∈ D <-> q ∈ D') ->
  (forall q, q ∉ T -> pages t' !! q = pages t !! q) ->
  (forall k v,
     (exists L a, L ∈ T /\ (L ∉ D') /\ leaf_entries (pages t' !! L) = Some a /\ (k, v) ∈ a)
     <-> (exists L a, L ∈ T /\ (L ∉ D) /\ leaf_entries (pages t !! L) = Some a /\ (k, v) ∈ a)) ->
  forall k v, entry D' t' k v <-> entry D t k v.
Proof.
  intros HD Hsame HT k v. rewrite !entry_leaf_entries.
  split; intros (L & a & Hd & HL & Hin).
  - destruct (decide (L ∈ T)) as [HLT|HLT].
    + destruct (proj1 (HT k v)) as (L' & a' & ? & ? & ? & ?); [by exists L, a|].
      by exists L', a'.
    + exists L, a. rewrite <- Hsame by done. split_and!; try done. by rewrite HD.
  - destruct (decide (L ∈ T)) as [HLT|HLT].
    + destruct (proj2 (HT k v)) as (L' & a' & ? & ? & ? & ?); [by exists L, a|].
      by exists L', a'.
    + exists L, a. rewrite Hsame by done. split_and!; try done. by rewrite <- HD.
Qed.

(** The latched ancestors above the pages that a move changes. *)
Lemma chain_above D g t t' ps ps' (d : nat) :
  core D None g t ->
  (forall q, (depth g q < d)%nat -> pages t' !! q = pages t !! q) ->
  (forall q, q ∈ ps -> q ∈ ps') ->
  forall A e, chain t ps A e -> (depth g A < d)%nat -> A ∉ D -> chain t' ps' A e.
Proof.
  intros Hc Hsame Hps A e Hch. induction Hch as [q extra Hin Hnext IH].
  intros Hd HD. constructor; [by apply Hps|].
  intros p Hq Hpar Hun. rewrite Hsame in Hq by done.
  destruct (parent_page _ _ _ _ _ _ _ _ Hc Hq HD Hpar) as (n & i & k & HPd & _ & _ & _ & _ & Hdep);
    [done|].
  apply IH; try done. lia.
Qed.

Lemma chain_parent D g t t' ps ps' P pP pP' :
  core D None g t -> pages t !! P = Some pP -> P ∉ D ->
  (forall q, (depth g q < depth g P)%nat -> pages t' !! q = pages t !! q) ->
  (forall q, q ∈ ps -> q ∈ ps') ->
  pages t' !! P = Some pP' ->
  GetParentPageId pP' = GetParentPageId pP ->
  (unsafe pP' 1 -> unsafe pP 0) ->
  chain t ps P 0 -> chain t' ps' P 1.
Proof.
  intros Hc HP HPd Hsame Hps HP' Hpar Hun Hch.
  inversion Hch as [q extra Hin Hnext Hq1 Hq2]. subst q extra.
  constructor; [by apply Hps|].
  intros p Hq Hp Hu. assert (p = pP') as -> by congruence.
  rewrite Hpar in *.
  destruct (parent_page _ _ _ _ _ _ _ _ Hc HP HPd Hp) as (n & i & k & HGd & _ & _ & _ & _ & Hdep);
    [done|].
  apply (chain_above D g t t' ps ps' (depth g P) Hc Hsame Hps); [|lia|done].
  apply Hnext; [done|done|]. by apply Hun.
Qed.

End RemoveFrame.

(** ** Two adjacent children and their parent *)

Import BPT.

Section Siblings.
Variables leaf_max_size internal_max_size : Z.
Notation core := (core leaf_max_size internal_max_size).
Notation page_ok := (page_ok leaf_max_size internal_max_size).
Notation internal_ok := (internal_ok internal_max_size).
Notation internal_ok_upto := (internal_ok_upto internal_max_size).
Notation leaf_ok := (leaf_ok leaf_max_size).
Notation sizes := (sizes leaf_max_size).
Notation size_ok := (size_ok leaf_max_size).

Lemma next_key_Some (array : list (Z * Z)) (i : nat) hi x :
  array !! S i = Some x -> next_key array i hi = Some x.1.
Proof. unfold next_key. by intros ->. Qed.

Lemma next_key_None (array : list (Z * Z)) (i : nat) hi :
  array !! S i = None -> next_key array i hi = hi.
Proof. unfold next_key. by intros ->. Qed.

Lemma next_key_below D g t b q n (i : nat) x :
  internal_ok_upto D None g t b q n -> (1 <= i)%nat -> i_array n !! i = Some x ->
  below x.1 (next_key (i_array n) i (upper g q)).
Proof.
  intros Hok H1 Hi. unfold next_key.
  destruct (i_array n !! S i) as [y|] eqn:Hy.
  - simpl. by eapply (internal_keys_lt _ _ _ _ _ _ _ _ i (S i)); [done| |lia|done|done].
  - by eapply (internal_key_bounds _ _ _ _ _ _ _ _ i).
Qed.

Lemma adjacent_facts D g t P nP (r : nat) kl left kr right :
  core D None g t -> P ∉ D -> pages t !! P = Some (Internal nP) ->
  i_array nP !! r = Some (kl, left) -> i_array nP !! S r = Some (kr, right) ->
  internal_ok D None g t P nP
  /\ left <> right /\ left <> P /\ right <> P /\ (left ∉ D) /\ (right ∉ D)
  /\ (exists pl, pages t !! left = Some pl /\ GetParentPageId pl = P)
  /\ (exists pr, pages t !! right = Some pr /\ GetParentPageId pr = P)
  /\ depth g left = S (depth g P) /\ depth g right = S (depth g P)
  /\ upper g left = Some kr /\ lower g right = Some kr
  /\ lower g left = (if decide (r = 0%nat) then lower g P else Some kl)
  /\ upper g right = next_key (i_array nP) (S r) (upper g P)
  /\ strictly_above (lower g left) kr /\ below kr (upper g right).
Proof.
  intros Hc HPd HP Hl Hr.
  destruct (core_page _ _ _ _ _ _ _ _ Hc HP HPd) as (_ & _ & Hin).
  pose proof Hin as (_ & _ & _ & _ & _ & _ & _ & Hch).
  destruct (Hch _ _ Hl) as (Hld & Hlp & Hldep & Hll & Hlu).
  destruct (Hch _ _ Hr) as (Hrd & Hrp & Hrdep & Hrl & Hru).
  simpl in *. rewrite (next_key_Some _ _ _ _ Hr) in Hlu. simpl in Hlu.
  pose proof (children_NoDup _ _ _ _ _ _ _ _ Hin) as Hnd.
  assert (left <> right).
  { intros e. assert (r = S r); [|lia].
    eapply (NoDup_lookup _ _ _ _ Hnd); rewrite list_lookup_fmap.
    - by rewrite Hl.
    - rewrite Hr. simpl. by rewrite e. }
  split_and!; try done.
  - intros e. rewrite e in Hldep. lia.
  - intros e. rewrite e in Hrdep. lia.
  - by apply parent_of_Some.
  - by apply parent_of_Some.
  - rewrite Hll. destruct (decide (r = 0%nat)) as [->|Hr0].
    + by destruct (internal_key_bounds _ _ _ _ _ _ _ _ 1%nat _ Hin ltac:(lia) Hr).
    + simpl. by eapply (internal_keys_lt _ _ _ _ _ _ _ _ r (S r) (kl, left) (kr, right));
        [done|lia|lia|done|done].
  - rewrite Hru. by apply (next_key_below _ _ _ _ _ _ _ (kr, right) Hin); [lia|].
Qed.

(** The parent after slot [S r] has been removed. *)
Lemma parent_merge_ok D g t t' P nP (r : nat) kl left kr right :
  core D None g t -> P ∉ D -> pages t !! P = Some (Internal nP) ->
  i_array nP !! r = Some (kl, left) -> i_array nP !! S r = Some (kr, right) ->
  root_page_id t' = root_page_id t -> next_id t' = next_id t ->
  (forall q, (depth g q <= depth g P)%nat -> q <> P -> pages t' !! q = pages t !! q) ->
  (forall c, c ∈ (i_array nP).*2 -> c <> right -> parent_of t' c = Some P) ->
  page_ok ({[right]} ∪ D) None (merge_shape left right g) t' P
    (Internal (Internal.with_array (remove_at (Z.of_nat (S r)) (i_array nP)) nP)).
Proof.
  intros Hc HPd HP Hl Hr Hroot Hnext Hsame Hpar.
  destruct (adjacent_facts _ _ _ _ _ _ _ _ _ _ Hc HPd HP Hl Hr)
    as (Hin & Hlr & HlP & HrP & Hld & Hrd & _ & _ & Hldep & Hrdep
        & Hlu & Hrl & Hll & Hru & Hsa & Hbl).
  pose proof (core_page _ _ _ _ _ _ _ _ Hc HP HPd) as (Hlt & Hatt & _).
  pose proof Hin as (Hid & Hmax & Hdep & Hs & Hb & Hlen & Hhead & Hch).
  pose proof (lookup_lt_Some _ _ _ Hr) as Hrlen.
  pose proof (children_NoDup _ _ _ _ _ _ _ _ Hin) as Hnd.
  set (a := remove_at (Z.of_nat (S r)) (i_array nP)).
  assert (Hla : forall j : nat, a !! j =
      if decide (j < S r)%nat then i_array nP !! j else i_array nP !! S j).
  { intros j. unfold a. by rewrite lookup_remove_at. }
  assert (Hlena : length a = (length (i_array nP) - 1)%nat).
  { unfold a. by rewrite length_remove_at. }
  clearbody a.
  assert (Hother : forall (j : nat) kc, i_array nP !! j = Some kc -> j <> S r ->
            kc.2 <> right).
  { intros j kc Hj Hji e. apply Hji.
    eapply (NoDup_lookup _ _ _ _ Hnd); rewrite list_lookup_fmap.
    - by rewrite Hj.
    - rewrite Hr. simpl. by rewrite e. }
  assert (Hotherl : forall (j : nat) kc, i_array nP !! j = Some kc -> j <> r ->
            kc.2 <> left).
  { intros j kc Hj Hji e. apply Hji.
    eapply (NoDup_lookup _ _ _ _ Hnd); rewrite list_lookup_fmap.
    - by rewrite Hj.
    - rewrite Hl. simpl. by rewrite e. }
  split; [lia|]. split.
  - destruct Hatt as [Hatt|[[o Ho]|[HGd Hchd]]]; [left; congruence|done|].
    right; right. simpl in *.
    destruct Hchd as (nG & HG & HPin).
    assert (HGdep : depth g P = S (depth g (i_parent_page_id nP))).
    { apply list_elem_of_fmap in HPin as (x & -> & Hx).
      apply list_elem_of_lookup in Hx as (j & Hj).
      destruct (core_page _ _ _ _ _ _ _ _ Hc HG HGd) as (_ & _ & HinG).
      by destruct (child_page _ _ _ _ _ _ _ _ _ _ HinG Hj) as (_ & ? & _). }
    split.
    + intros [e%elem_of_singleton|?]%elem_of_union; [|done].
      rewrite e in HGdep. lia.
    + exists nG. split; [|done]. rewrite Hsame; [done|lia|].
      intros e. rewrite e in HGdep. lia.
  - unfold internal_ok, internal_ok_upto, Internal.with_array. simpl.
    split_and!; try done.
    + apply sorted_from1_intro. intros j1 j2 x y H1 H12 Hj1 Hj2.
      rewrite Hla in Hj1, Hj2.
      destruct (decide (j1 < S r)%nat); destruct (decide (j2 < S r)%nat);
        try lia; refine (internal_keys_lt _ _ _ _ _ _ _ _ _ _ _ _ Hin _ _ Hj1 Hj2); lia.
    + intros x Hx. apply elem_of_drop_lookup in Hx as (j & Hj1 & Hj).
      rewrite Hla in Hj. unfold merge_shape. simpl.
      rewrite decide_False by done.
      destruct (decide (j < S r)%nat);
        refine (internal_key_bounds _ _ _ _ _ _ _ _ _ _ Hin _ Hj); lia.
    + rewrite Hlena. lia.
    + intros lo Ha. unfold merge_shape in Ha. simpl in Ha.
      specialize (Hhead lo Ha). rewrite head_lookup in *. rewrite Hla.
      by rewrite decide_True by lia.
    + intros j kc Hj. rewrite Hla in Hj.
      unfold child_ok, merge_shape. simpl.
      rewrite (decide_False (P := P = left)) by done.
      destruct (decide (j < S r)%nat) as [Hjr|Hjr].
      * destruct (Hch _ _ Hj) as (Hcd & Hcp & Hcdep & Hcl & Hcu). simpl in Hcu.
        assert (kc.2 <> right) by (eapply Hother; [done|lia]).
        split_and!; try done.
        -- intros [e%elem_of_singleton|?]%elem_of_union; done.
        -- apply Hpar; [|done]. apply list_elem_of_fmap. exists kc.
           split; [done|]. by eapply list_elem_of_lookup_2.
        -- unfold next_key. rewrite Hla.
           destruct (decide (j = r)) as [->|Hjr'].
           ++ rewrite Hl in Hj. injection Hj as <-. simpl.
              rewrite decide_True, decide_False by (done || lia).
              by rewrite Hru.
           ++ rewrite decide_False by (eapply Hotherl; done).
              rewrite decide_True by lia. by rewrite Hcu.
      * destruct (Hch _ _ Hj) as (Hcd & Hcp & Hcdep & Hcl & Hcu). simpl in Hcu.
        assert (kc.2 <> right) by (eapply Hother; [done|lia]).
        assert (kc.2 <> left) by (eapply Hotherl; [done|lia]).
        split_and!; try done.
        -- intros [e%elem_of_singleton|?]%elem_of_union; done.
        -- apply Hpar; [|done]. apply list_elem_of_fmap. exists kc.
           split; [done|]. by eapply list_elem_of_lookup_2.
        -- rewrite Hcl. by rewrite !decide_False by lia.
        -- rewrite decide_False by done. rewrite Hcu.
           unfold next_key. rewrite Hla. by rewrite decide_False by lia.
Qed.

(** The parent after the key of slot [S r] has been replaced. *)
Lemma parent_shift_ok D g t t' P nP (r : nat) kl left kr right sep :
  core D None g t -> P ∉ D -> pages t !! P = Some (Internal nP) ->
  i_array nP !! r = Some (kl, left) -> i_array nP !! S r = Some (kr, right) ->
  strictly_above (lower g left) sep -> below sep (upper g right) ->
  root_page_id t' = root_page_id t -> next_id t' = next_id t ->
  (forall q, (depth g q <= depth g P)%nat -> q <> P -> pages t' !! q = pages t !! q) ->
  (forall c, c ∈ (i_array nP).*2 -> parent_of t' c = Some P) ->
  page_ok D None (shift_shape left right sep g) t' P
    (Internal (Internal.with_array (<[S r := (sep, right)]> (i_array nP)) nP)).
Proof.
  intros Hc HPd HP Hl Hr Hsep1 Hsep2 Hroot Hnext Hsame Hpar.
  destruct (adjacent_facts _ _ _ _ _ _ _ _ _ _ Hc HPd HP Hl Hr)
    as (Hin & Hlr & HlP & HrP & Hld & Hrd & _ & _ & Hldep & Hrdep
        & Hlu & Hrl & Hll & Hru & Hsa & Hbl).
  pose proof (core_page _ _ _ _ _ _ _ _ Hc HP HPd) as (Hlt & Hatt & _).
  pose proof Hin as (Hid & Hmax & Hdep & Hs & Hb & Hlen & Hhead & Hch).
  pose proof (lookup_lt_Some _ _ _ Hr) as Hrlen.
  pose proof (children_NoDup _ _ _ _ _ _ _ _ Hin) as Hnd.
  assert (Hla : forall j : nat, <[S r := (sep, right)]> (i_array nP) !! j =
      if decide (j = S r) then Some (sep, right) else i_array nP !! j).
  { intros j. destruct (decide (j = S r)) as [->|].
    - by rewrite list_lookup_insert_eq.
    - by rewrite list_lookup_insert_ne. }
  assert (Hother : forall (j : nat) kc, i_array nP !! j = Some kc -> j <> S r ->
            kc.2 <> right).
  { intros j kc Hj Hji e. apply Hji.
    eapply (NoDup_lookup _ _ _ _ Hnd); rewrite list_lookup_fmap.
    - by rewrite Hj.
    - rewrite Hr. simpl. by rewrite e. }
  assert (Hotherl : forall (j : nat) kc, i_array nP !! j = Some kc -> j <> r ->
            kc.2 <> left).
  { intros j kc Hj Hji e. apply Hji.
    eapply (NoDup_lookup _ _ _ _ Hnd); rewrite list_lookup_fmap.
    - by rewrite Hj.
    - rewrite Hl. simpl. by rewrite e. }
  assert (Hlo : forall (j : nat) x, (1 <= j)%nat -> (j < S r)%nat ->
            i_array nP !! j = Some x -> x.1 < sep).
  { intros j x H1 Hjr Hj. rewrite decide_False in Hll by lia.
    rewrite Hll in Hsep1. simpl in Hsep1.
    destruct (decide (j = r)) as [->|].
    - rewrite Hl in Hj. injection Hj as <-. done.
    - pose proof (internal_keys_lt _ _ _ _ _ _ _ _ j r _ _ Hin ltac:(lia) ltac:(lia) Hj Hl).
      simpl in *. lia. }
  assert (Hhi : forall (j : nat) x, (S r < j)%nat ->
            i_array nP !! j = Some x -> sep < x.1).
  { intros j x Hjr Hj.
    destruct (lookup_lt_is_Some_2 (i_array nP) (S (S r))) as [y Hy].
    { apply lookup_lt_Some in Hj. lia. }
    rewrite Hru, (next_key_Some _ _ _ _ Hy) in Hsep2. simpl in Hsep2.
    destruct (decide (j = S (S r))) as [->|].
    - rewrite Hy in Hj. injection Hj as <-. done.
    - pose proof (internal_keys_lt _ _ _ _ _ _ _ _ (S (S r)) j _ _ Hin ltac:(lia) ltac:(lia) Hy Hj).
      lia. }
  assert (HsepP : strictly_above (lower g P) sep /\ below sep (upper g P)).
  { split.
    - destruct (decide (r = 0%nat)) as [->|Hr0].
      + by rewrite Hll in Hsep1.
      + destruct (internal_key_bounds _ _ _ _ _ _ _ _ r _ Hin ltac:(lia) Hl) as [Hk _].
        rewrite Hll in Hsep1. simpl in *. destruct (lower g P); simpl in *; lia.
    - rewrite Hru in Hsep2. unfold next_key in Hsep2.
      destruct (i_array nP !! S (S r)) as [y|] eqn:Hy; [|done].
      destruct (internal_key_bounds _ _ _ _ _ _ _ _ (S (S r)) _ Hin ltac:(lia) Hy) as [_ Hk].
      simpl in *. destruct (upper g P); simpl in *; lia. }
  split; [lia|]. split.
  - destruct Hatt as [Hatt|[[o Ho]|[HGd Hchd]]]; [left; congruence|done|].
    right; right. simpl in *.
    destruct Hchd as (nG & HG & HPin).
    assert (HGdep : depth g P = S (depth g (i_parent_page_id nP))).
    { apply list_elem_of_fmap in HPin as (x & -> & Hx).
      apply list_elem_of_lookup in Hx as (j & Hj).
      destruct (core_page _ _ _ _ _ _ _ _ Hc HG HGd) as (_ & _ & HinG).
      by destruct (child_page _ _ _ _ _ _ _ _ _ _ HinG Hj) as (_ & ? & _). }
    split; [done|].
    exists nG. split; [|done]. rewrite Hsame; [done|lia|].
    intros e. rewrite e in HGdep. lia.
  - unfold internal_ok, internal_ok_upto, Internal.with_array. simpl.
    rewrite !(decide_False (P := P = left)), !(decide_False (P := P = right)) by done.
    split_and!; try done.
    + apply sorted_from1_intro. intros j1 j2 x y H1 H12 Hj1 Hj2.
      rewrite Hla in Hj1, Hj2.
      destruct (decide (j1 = S r)) as [->|]; destruct (decide (j2 = S r)) as [->|];
        try lia.
      * injection Hj1 as <-. simpl. by eapply Hhi.
      * injection Hj2 as <-. simpl. refine (Hlo _ _ _ _ Hj1); lia.
      * refine (internal_keys_lt _ _ _ _ _ _ _ _ _ _ _ _ Hin _ _ Hj1 Hj2); lia.
    + intros x Hx. apply elem_of_drop_lookup in Hx as (j & Hj1 & Hj).
      rewrite Hla in Hj.
      case_decide.
      * by injection Hj as <-.
      * refine (internal_key_bounds _ _ _ _ _ _ _ _ _ _ Hin _ Hj); lia.
    + rewrite length_insert. lia.
    + intros a Ha. specialize (Hhead a Ha). rewrite head_lookup in *. rewrite Hla.
      by rewrite decide_False by lia.
    + intros j kc Hj. rewrite Hla in Hj.
      unfold child_ok, shift_shape. simpl.
      rewrite (decide_False (P := P = left)), (decide_False (P := P = right)) by done.
      assert (Hnk : forall i : nat, next_key (<[S r := (sep, right)]> (i_array nP)) i (upper g P)
                = if decide (i = r) then Some sep else next_key (i_array nP) i (upper g P)).
      { intros i. unfold next_key. rewrite Hla.
        destruct (decide (i = r)) as [->|]; [by rewrite decide_True|].
        by rewrite decide_False by lia. }
      rewrite Hnk.
      destruct (decide (j = S r)) as [->|Hjr].
      * injection Hj as <-. simpl.
        destruct (Hch _ _ Hr) as (Hcd & Hcp & Hcdep & Hcl & Hcu). simpl in *.
        rewrite decide_True by done.
        rewrite (decide_False (P := right = left)) by done.
        rewrite (decide_False (P := S r = r)) by lia.
        split_and!; try done.
        apply Hpar. apply list_elem_of_fmap. exists (kr, right).
        split; [done|]. by eapply list_elem_of_lookup_2.
      * destruct (Hch _ _ Hj) as (Hcd & Hcp & Hcdep & Hcl & Hcu). simpl in Hcu.
        assert (kc.2 <> right) by (eapply Hother; [done|lia]).
        rewrite (decide_False (P := kc.2 = right)) by done.
        split_and!; try done.
        -- apply Hpar. apply list_elem_of_fmap. exists kc.
           split; [done|]. by eapply list_elem_of_lookup_2.
        -- destruct (decide (j = r)) as [->|Hjr'].
           ++ rewrite Hl in Hj. injection Hj as <-. simpl. by rewrite decide_True.
           ++ by rewrite decide_False by (eapply Hotherl; done).
Qed.

End Siblings.

(** ** Merging and rebalancing two leaves *)

Import BPT.

Section LeafMoves.
Variables leaf_max_size internal_max_size : Z.
Notation core := (core leaf_max_size internal_max_size).
Notation page_ok := (page_ok leaf_max_size internal_max_size).
Notation internal_ok := (internal_ok internal_max_size).
Notation internal_ok_upto := (internal_ok_upto internal_max_size).
Notation leaf_ok := (leaf_ok leaf_max_size).
Notation sizes := (sizes leaf_max_size).
Notation size_ok := (size_ok leaf_max_size).

Lemma elem_of_three (q a b c : Z) :
  q ∈ ({[a; b; c]} : gset Z) <-> q = a \/ q = b \/ q = c.
Proof. set_solver. Qed.

Lemma not_elem_of_three (q a b c : Z) :
  q ∉ ({[a; b; c]} : gset Z) <-> q <> a /\ q <> b /\ q <> c.
Proof. set_solver. Qed.

Lemma not_elem_of_dead (q right : Z) (D : gset Z) :
  q ∉ {[right]} ∪ D <-> q <> right /\ q ∉ D.
Proof. set_solver. Qed.

Lemma root_not_child D g t P n (i : nat) kc :
  core D None g t -> internal_ok D None g t P n -> i_array n !! i = Some kc ->
  kc.2 <> root_page_id t.
Proof.
  intros ((_ & _ & Hr0 & _) & _) Hin Hi e.
  destruct (child_page _ _ _ _ _ _ _ _ _ _ Hin Hi) as (_ & Hdep & _).
  rewrite e in Hdep. lia.
Qed.

(** The entries of two adjacent leaves, taken together. *)
Lemma combined_leaf D g t P nP (r : nat) kl left kr right ll lr :
  core D None g t -> P ∉ D -> pages t !! P = Some (Internal nP) ->
  i_array nP !! r = Some (kl, left) -> i_array nP !! S r = Some (kr, right) ->
  pages t !! left = Some (Leaf ll) -> pages t !! right = Some (Leaf lr) ->
  sorted_keys (l_array ll ++ l_array lr)
  /\ (forall x, x ∈ l_array ll -> x.1 < kr)
  /\ (forall x, x ∈ l_array lr -> kr <= x.1)
  /\ (forall x, x ∈ l_array ll ++ l_array lr ->
        above (lower g left) x.1 /\ below x.1 (upper g right)).
Proof.
  intros Hc HPd HP Hl Hr Hll Hlr.
  destruct (adjacent_facts _ _ _ _ _ _ _ _ _ _ _ _ Hc HPd HP Hl Hr)
    as (Hin & Hlrne & HlP & HrP & Hld & Hrd & _ & _ & Hldep & Hrdep
        & Hlu & Hrl & Hlo & Hru & Hsa & Hbl).
  destruct (core_page _ _ _ _ _ _ _ _ Hc Hll Hld) as (_ & _ & _ & _ & _ & Hsl & Hrl1 & _).
  destruct (core_page _ _ _ _ _ _ _ _ Hc Hlr Hrd) as (_ & _ & _ & _ & _ & Hsr & Hrr1 & _).
  assert (Hlt : forall x, x ∈ l_array ll -> x.1 < kr).
  { intros x Hx. destruct (Hrl1 x Hx) as [_ Hb]. rewrite Hlu in Hb. done. }
  assert (Hge : forall x, x ∈ l_array lr -> kr <= x.1).
  { intros x Hx. destruct (Hrr1 x Hx) as [Ha _]. rewrite Hrl in Ha. done. }
  split_and!; try done.
  - apply sorted_keys_app. split_and!; try done.
    intros x y Hx Hy. specialize (Hlt x Hx). specialize (Hge y Hy). lia.
  - intros x [Hx|Hx]%elem_of_app.
    + destruct (Hrl1 x Hx) as [Ha _]. split; [done|].
      eapply below_trans; [exact Hbl|]. specialize (Hlt x Hx). lia.
    + destruct (Hrr1 x Hx) as [_ Hb]. split; [|done].
      eapply strictly_above_above; [exact Hsa|]. by apply Hge.
Qed.

Lemma leaf_merge_core D U g t t' P nP (r : nat) kl left kr right ll lr l' :
  core D None g t -> sizes D U t -> U = Some left \/ U = Some right ->
  P ∉ D -> pages t !! P = Some (Internal nP) ->
  i_array nP !! r = Some (kl, left) -> i_array nP !! S r = Some (kr, right) ->
  pages t !! left = Some (Leaf ll) -> pages t !! right = Some (Leaf lr) ->
  l_array l' = l_array ll ++ l_array lr ->
  l_page_id l' = l_page_id ll -> l_max_size l' = l_max_size ll ->
  l_parent_page_id l' = l_parent_page_id ll ->
  Z.of_nat (length (l_array l')) <= leaf_max_size ->
  root_page_id t' = root_page_id t -> next_id t' = next_id t ->
  pages t' !! P =
    Some (Internal (Internal.with_array (remove_at (Z.of_nat (S r)) (i_array nP)) nP)) ->
  pages t' !! left = Some (Leaf l') ->
  (forall q, q <> P -> q <> left -> q <> right -> pages t' !! q = pages t !! q) ->
  core ({[right]} ∪ D) None (merge_shape left right g) t'
  /\ sizes ({[right]} ∪ D) (Some P) t'
  /\ forall k v, entry ({[right]} ∪ D) t' k v <-> entry D t k v.
Proof.
  intros Hc Hs HU HPd HP Hl Hr Hll Hlr Harr Hid Hmax Hpar Hlen Hroot Hnext HP' Hl' Hsame.
  destruct (adjacent_facts _ _ _ _ _ _ _ _ _ _ _ _ Hc HPd HP Hl Hr)
    as (Hin & Hlrne & HlP & HrP & Hld & Hrd & (pl & Hpl & Hplp) & (pr & Hpr & Hprp)
        & Hldep & Hrdep & Hlu & Hrl & Hlo & Hru & Hsa & Hbl).
  rewrite Hll in Hpl. injection Hpl as <-. rewrite Hlr in Hpr. injection Hpr as <-.
  simpl in Hplp, Hprp.
  destruct (combined_leaf _ _ _ _ _ _ _ _ _ _ _ _ Hc HPd HP Hl Hr Hll Hlr)
    as (Hsorted & _ & _ & Hrange).
  pose proof (core_page _ _ _ _ _ _ _ _ Hc Hll Hld) as (Hllt & _ & Hlid & Hlmax & Hlh & _).
  pose proof Hc as ((Hrd0 & Hrp0 & Hr0 & Hrlo & Hrup) & _).
  pose proof (lookup_lt_Some _ _ _ Hr) as Hrlen.
  pose proof (children_NoDup _ _ _ _ _ _ _ _ Hin) as Hnd.
  assert (Hother : forall (j : nat) kc, i_array nP !! j = Some kc -> kc.2 <> right ->
            exists j', remove_at (Z.of_nat (S r)) (i_array nP) !! j' = Some kc).
  { intros j kc Hj Hne. destruct (decide (j < S r)%nat).
    - exists j. rewrite lookup_remove_at by done. by rewrite decide_True.
    - destruct (decide (j = S r)) as [->|].
      + rewrite Hr in Hj. by injection Hj as <-.
      + exists (j - 1)%nat. rewrite lookup_remove_at by done.
        rewrite decide_False by lia. by replace (S (j - 1)) with j by lia. }
  assert (HchP : forall c, c <> right -> is_child t P c -> is_child t' P c).
  { intros c Hne (n0 & Hn0 & Hcin). rewrite HP in Hn0. injection Hn0 as <-.
    eexists. split; [exact HP'|]. simpl.
    apply list_elem_of_fmap in Hcin as (x & -> & Hx).
    apply list_elem_of_lookup in Hx as (j & Hj).
    destruct (Hother j x Hj Hne) as (j' & Hj').
    apply list_elem_of_fmap. exists x. split; [done|]. by eapply list_elem_of_lookup_2. }
  assert (HPpage : page_ok ({[right]} ∪ D) None (merge_shape left right g) t' P
            (Internal (Internal.with_array (remove_at (Z.of_nat (S r)) (i_array nP)) nP))).
  { eapply parent_merge_ok; try done.
    - intros q Hq HqP. apply Hsame; [done| |]; intros e; rewrite e in Hq; lia.
    - intros c Hcin Hcr.
      destruct (decide (c = left)) as [->|Hcl].
      + unfold parent_of. rewrite Hl'. simpl. by rewrite Hpar, Hplp.
      + apply list_elem_of_fmap in Hcin as (x & -> & Hx).
        apply list_elem_of_lookup in Hx as (j & Hj).
        destruct (child_page _ _ _ _ _ _ _ _ _ _ Hin Hj) as (_ & Hdep & pc & Hpc & Hpcp).
        unfold parent_of. rewrite Hsame; try done.
        * by rewrite Hpc, <- Hpcp.
        * intros e. rewrite e in Hdep. lia. }
  split_and!.
  - apply (core_frame _ _ {[P; left; right]} D _ g _ t t'); try done.
    + intros q [e%elem_of_singleton|?]%elem_of_union ?; [|done].
      apply elem_of_three. auto.
    + intros q (? & ? & ?)%not_elem_of_three. by apply Hsame.
    + intros q (? & ? & ?)%not_elem_of_three. unfold merge_shape. simpl.
      by rewrite decide_False.
    + intros P0 q [->|[->| ->]]%elem_of_three (? & ? & ?)%not_elem_of_three HP0 Hch.
      * split; [apply not_elem_of_dead; done|]. by apply HchP.
      * destruct Hch as (n0 & Hn0 & _). congruence.
      * destruct Hch as (n0 & Hn0 & _). congruence.
    + intros c q [->|[->| ->]]%elem_of_three (HqP & ? & ?)%not_elem_of_three Hcd Hcp.
      * split; [apply not_elem_of_dead; done|]. unfold merge_shape. simpl.
        rewrite decide_False by done. split_and!; try done.
        unfold parent_of in *. rewrite HP'. by rewrite HP in Hcp.
      * exfalso. unfold parent_of in Hcp. rewrite Hll in Hcp. simpl in Hcp. congruence.
      * exfalso. unfold parent_of in Hcp. rewrite Hlr in Hcp. simpl in Hcp. congruence.
    + intros q p [->|[->| ->]]%elem_of_three Hq Hqd.
      * rewrite HP' in Hq. by injection Hq as <-.
      * rewrite Hl' in Hq. injection Hq as <-.
        split; [lia|]. split.
        -- right; right. simpl. rewrite Hpar, Hplp.
           split; [apply not_elem_of_dead; done|].
           apply HchP; [done|]. exists nP. split; [done|].
           apply list_elem_of_fmap. exists (kl, left). split; [done|].
           by eapply list_elem_of_lookup_2.
        -- unfold leaf_ok, in_range, merge_shape. simpl.
           rewrite decide_True by done. rewrite Harr.
           split_and!; try done; try congruence.
      * exfalso. apply Hqd. apply elem_of_union. left. by apply elem_of_singleton.
    + intros [e|[e|e]]%elem_of_three.
      * unfold root_ok. rewrite Hroot, e. unfold merge_shape. simpl.
        rewrite decide_False by done. rewrite <- e.
        split_and!; try done.
        -- rewrite e. apply not_elem_of_dead. done.
        -- unfold parent_of in *. rewrite e, HP'. by rewrite e, HP in Hrp0.
      * rewrite e in Hr0. lia.
      * rewrite e in Hr0. lia.
    + intros q _ ?. apply elem_of_union. by right.
  - apply (sizes_frame _ {[P; left; right]} D _ U _ t t' Hs); try done.
    + intros q _ ?. apply elem_of_union. by right.
    + intros q (? & ? & ?)%not_elem_of_three. by apply Hsame.
    + intros q Hq. apply elem_of_three. destruct HU; right; [left|right]; congruence.
    + intros q p [->|[->| ->]]%elem_of_three Hq Hqd.
      * rewrite HP' in Hq. injection Hq as <-. simpl.
        rewrite decide_True by done. rewrite length_remove_at by done. lia.
      * rewrite Hl' in Hq. injection Hq as <-. simpl.
        rewrite Hroot. rewrite decide_False by (intros e; rewrite <- e in Hr0; lia).
        rewrite decide_False by congruence.
        pose proof (Hs _ _ Hll Hld) as Hsl. pose proof (Hs _ _ Hlr Hrd) as Hsr.
        simpl in Hsl, Hsr.
        rewrite decide_False in Hsl by (intros e; rewrite <- e in Hr0; lia).
        rewrite decide_False in Hsr by (intros e; rewrite <- e in Hr0; lia).
        rewrite Harr, length_app.
        destruct HU as [-> | ->].
        -- rewrite decide_True in Hsl by done.
           rewrite decide_False in Hsr by congruence.
           assert (0 <= leaf_max_size ÷ 2 \/ leaf_max_size ÷ 2 < 0) as [?|?] by lia; lia.
        -- rewrite decide_False in Hsl by congruence.
           rewrite decide_True in Hsr by done. lia.
      * exfalso. apply Hqd. apply elem_of_union. left. by apply elem_of_singleton.
  - apply (entry_frame {[P; left; right]}).
    + intros q (? & ? & ?)%not_elem_of_three. split.
      * intros ?. apply elem_of_union. by right.
      * intros [e%elem_of_singleton|?]%elem_of_union; done.
    + intros q (? & ? & ?)%not_elem_of_three. by apply Hsame.
    + intros k v. split.
      * intros (L & a & [->|[->| ->]]%elem_of_three & HLd & Ha & Hka).
        -- rewrite HP' in Ha. done.
        -- rewrite Hl' in Ha. simpl in Ha. injection Ha as <-. rewrite Harr in Hka.
           apply elem_of_app in Hka as [Hka|Hka].
           ++ exists left, (l_array ll). rewrite Hll. split_and!; try done.
              apply elem_of_three. auto.
           ++ exists right, (l_array lr). rewrite Hlr. split_and!; try done.
              apply elem_of_three. auto.
        -- exfalso. apply HLd. apply elem_of_union. left. by apply elem_of_singleton.
      * intros (L & a & [->|[->| ->]]%elem_of_three & HLd & Ha & Hka).
        -- rewrite HP in Ha. done.
        -- rewrite Hll in Ha. simpl in Ha. injection Ha as <-.
           exists left, (l_array l'). rewrite Hl'. split_and!; try done.
           ++ apply elem_of_three. auto.
           ++ apply not_elem_of_dead. done.
           ++ rewrite Harr. apply elem_of_app. by left.
        -- rewrite Hlr in Ha. simpl in Ha. injection Ha as <-.
           exists left, (l_array l'). rewrite Hl'. split_and!; try done.
           ++ apply elem_of_three. auto.
           ++ apply not_elem_of_dead. done.
           ++ rewrite Harr. apply elem_of_app. by right.
Qed.

Lemma leaf_shift_core D U g t t' P nP (r : nat) kl left kr right ll lr l1 l2 x rest :
  core D None g t -> sizes D U t -> U = Some left \/ U = Some right ->
  P ∉ D -> pages t !! P = Some (Internal nP) ->
  i_array nP !! r = Some (kl, left) -> i_array nP !! S r = Some (kr, right) ->
  pages t !! left = Some (Leaf ll) -> pages t !! right = Some (Leaf lr) ->
  l_array ll ++ l_array lr = l_array l1 ++ l_array l2 ->
  l_array l1 <> [] -> l_array l2 = x :: rest ->
  l_page_id l1 = l_page_id ll -> l_max_size l1 = l_max_size ll ->
  l_parent_page_id l1 = l_parent_page_id ll ->
  l_page_id l2 = l_page_id lr -> l_max_size l2 = l_max_size lr ->
  l_parent_page_id l2 = l_parent_page_id lr ->
  leaf_max_size ÷ 2 <= Z.of_nat (length (l_array l1)) <= leaf_max_size ->
  leaf_max_size ÷ 2 <= Z.of_nat (length (l_array l2)) <= leaf_max_size ->
  root_page_id t' = root_page_id t -> next_id t' = next_id t ->
  pages t' !! P =
    Some (Internal (Internal.with_array (<[S r := (x.1, right)]> (i_array nP)) nP)) ->
  pages t' !! left = Some (Leaf l1) -> pages t' !! right = Some (Leaf l2) ->
  (forall q, q <> P -> q <> left -> q <> right -> pages t' !! q = pages t !! q) ->
  core D None (shift_shape left right x.1 g) t'
  /\ sizes D None t'
  /\ forall k v, entry D t' k v <-> entry D t k v.
Proof.
  intros Hc Hs HU HPd HP Hl Hr Hll Hlr Harr Hne Hx Hid1 Hmax1 Hpar1 Hid2 Hmax2 Hpar2
    Hlen1 Hlen2 Hroot Hnext HP' Hl' Hr' Hsame.
  destruct (adjacent_facts _ _ _ _ _ _ _ _ _ _ _ _ Hc HPd HP Hl Hr)
    as (Hin & Hlrne & HlP & HrP & Hld & Hrd & (pl & Hpl & Hplp) & (pr & Hpr & Hprp)
        & Hldep & Hrdep & Hlu & Hrl & Hlo & Hru & Hsa & Hbl).
  rewrite Hll in Hpl. injection Hpl as <-. rewrite Hlr in Hpr. injection Hpr as <-.
  simpl in Hplp, Hprp.
  destruct (combined_leaf _ _ _ _ _ _ _ _ _ _ _ _ Hc HPd HP Hl Hr Hll Hlr)
    as (Hsorted & _ & _ & Hrange).
  rewrite Harr in Hsorted, Hrange.
  apply sorted_keys_app in Hsorted as (Hs1 & Hs2 & Hs12).
  pose proof (core_page _ _ _ _ _ _ _ _ Hc Hll Hld) as (Hllt & _ & Hlid & Hlmax & Hlh & _).
  pose proof (core_page _ _ _ _ _ _ _ _ Hc Hlr Hrd) as (Hrlt & _ & Hrid & Hrmax & Hrh & _).
  pose proof Hc as ((Hrd0 & Hrp0 & Hr0 & Hrlo & Hrup) & _).
  pose proof (lookup_lt_Some _ _ _ Hr) as Hrlen.
  assert (Hxin : x ∈ l_array l2) by (rewrite Hx; left).
  assert (Hsep1 : strictly_above (lower g left) x.1).
  { destruct (l_array l1) as [|y l1'] eqn:Hl1; [done|].
    assert (Hy : y ∈ y :: l1') by left.
    eapply above_strictly; [|by apply (Hs12 y x)].
    apply Hrange. apply elem_of_app. by left. }
  assert (Hsep2 : below x.1 (upper g right)).
  { apply Hrange. apply elem_of_app. by right. }
  assert (HchP : forall c, is_child t P c -> is_child t' P c).
  { intros c (n0 & Hn0 & Hcin). rewrite HP in Hn0. injection Hn0 as <-.
    eexists. split; [exact HP'|]. simpl.
    apply list_elem_of_fmap in Hcin as (y & -> & Hy).
    apply list_elem_of_lookup in Hy as (j & Hj).
    destruct (decide (j = S r)) as [->|Hjr].
    - rewrite Hr in Hj. injection Hj as <-. simpl.
      apply list_elem_of_fmap. exists (x.1, right). split; [done|].
      eapply list_elem_of_lookup_2. by apply list_lookup_insert_eq.
    - apply list_elem_of_fmap. exists y. split; [done|].
      eapply list_elem_of_lookup_2. by rewrite list_lookup_insert_ne. }
  assert (HPpage : page_ok D None (shift_shape left right x.1 g) t' P
            (Internal (Internal.with_array (<[S r := (x.1, right)]> (i_array nP)) nP))).
  { eapply parent_shift_ok; try done.
    - intros q Hq HqP. apply Hsame; [done| |]; intros e; rewrite e in Hq; lia.
    - intros c Hcin.
      destruct (decide (c = left)) as [->|Hcl].
      { unfold parent_of. rewrite Hl'. simpl. by rewrite Hpar1, Hplp. }
      destruct (decide (c = right)) as [->|Hcr].
      { unfold parent_of. rewrite Hr'. simpl. by rewrite Hpar2, Hprp. }
      apply list_elem_of_fmap in Hcin as (y & -> & Hy).
      apply list_elem_of_lookup in Hy as (j & Hj).
      destruct (child_page _ _ _ _ _ _ _ _ _ _ Hin Hj) as (_ & Hdep & pc & Hpc & Hpcp).
      unfold parent_of. rewrite Hsame; try done.
      + by rewrite Hpc, <- Hpcp.
      + intros e. rewrite e in Hdep. lia. }
  assert (HinP : forall c k (j : nat), i_array nP !! j = Some (k, c) -> is_child t P c).
  { intros c k j Hj. exists nP. split; [done|].
    apply list_elem_of_fmap. exists (k, c). split; [done|].
    by eapply list_elem_of_lookup_2. }
  split_and!.
  - apply (core_frame _ _ {[P; left; right]} D _ g _ t t'); try done.
    + intros q (? & ? & ?)%not_elem_of_three. by apply Hsame.
    + intros q (? & ? & ?)%not_elem_of_three. unfold shift_shape. simpl.
      by rewrite !decide_False.
    + intros P0 q [->|[->| ->]]%elem_of_three (? & ? & ?)%not_elem_of_three HP0 Hch.
      * split; [done|]. by apply HchP.
      * destruct Hch as (n0 & Hn0 & _). congruence.
      * destruct Hch as (n0 & Hn0 & _). congruence.
    + intros c q [->|[->| ->]]%elem_of_three (HqP & ? & ?)%not_elem_of_three Hcd Hcp.
      * split; [done|]. unfold shift_shape. simpl.
        rewrite !decide_False by done. split_and!; try done.
        unfold parent_of in *. rewrite HP'. by rewrite HP in Hcp.
      * exfalso. unfold parent_of in Hcp. rewrite Hll in Hcp. simpl in Hcp. congruence.
      * exfalso. unfold parent_of in Hcp. rewrite Hlr in Hcp. simpl in Hcp. congruence.
    + intros q p [->|[->| ->]]%elem_of_three Hq Hqd.
      * rewrite HP' in Hq. by injection Hq as <-.
      * rewrite Hl' in Hq. injection Hq as <-.
        split; [lia|]. split.
        -- right; right. simpl. rewrite Hpar1, Hplp.
           split; [done|]. apply HchP. by eapply HinP.
        -- unfold leaf_ok, in_range, shift_shape. simpl. dsimp.
           split_and!; try done; try congruence; try lia.
           intros y Hy. split.
           ++ apply Hrange. apply elem_of_app. by left.
           ++ simpl. by apply Hs12.
      * rewrite Hr' in Hq. injection Hq as <-.
        split; [lia|]. split.
        -- right; right. simpl. rewrite Hpar2, Hprp.
           split; [done|]. apply HchP. by eapply HinP.
        -- unfold leaf_ok, in_range, shift_shape. simpl. dsimp.
           split_and!; try done; try congruence; try lia.
           intros y Hy. split.
           ++ simpl. rewrite Hx in Hy, Hs2.
              apply sorted_keys_cons in Hs2 as [_ Hs2].
              apply elem_of_cons in Hy as [->|Hy]; [lia|].
              specialize (Hs2 y Hy). lia.
           ++ apply Hrange. apply elem_of_app. by right.
    + intros [e|[e|e]]%elem_of_three.
      * unfold root_ok. rewrite Hroot, e. unfold shift_shape. simpl.
        rewrite !decide_False by done. rewrite <- e.
        split_and!; try done.
        unfold parent_of in *. rewrite e, HP'. by rewrite e, HP in Hrp0.
      * rewrite e in Hr0. lia.
      * rewrite e in Hr0. lia.
  - apply (sizes_frame _ {[P; left; right]} D _ U _ t t' Hs); try done.
    + intros q (? & ? & ?)%not_elem_of_three. by apply Hsame.
    + intros q Hq. apply elem_of_three. destruct HU; right; [left|right]; congruence.
    + intros q p [->|[->| ->]]%elem_of_three Hq Hqd.
      * rewrite HP' in Hq. injection Hq as <-. simpl.
        rewrite length_insert. lia.
      * rewrite Hl' in Hq. injection Hq as <-. simpl.
        rewrite Hroot. rewrite decide_False by (intros e; rewrite <- e in Hr0; lia).
        lia.
      * rewrite Hr' in Hq. injection Hq as <-. simpl.
        rewrite Hroot. rewrite decide_False by (intros e; rewrite <- e in Hr0; lia).
        lia.
  - apply (entry_frame {[P; left; right]}).
    + done.
    + intros q (? & ? & ?)%not_elem_of_three. by apply Hsame.
    + intros k v. split.
      * intros (L & a & [->|[->| ->]]%elem_of_three & HLd & Ha & Hka).
        -- rewrite HP' in Ha. done.
        -- rewrite Hl' in Ha. simpl in Ha. injection Ha as <-.
           assert (Hka' : (k, v) ∈ l_array ll ++ l_array lr).
           { rewrite Harr. apply elem_of_app. by left. }
           apply elem_of_app in Hka' as [Hka'|Hka'].
           ++ exists left, (l_array ll). rewrite Hll. split_and!; try done.
              apply elem_of_three. auto.
           ++ exists right, (l_array lr). rewrite Hlr. split_and!; try done.
              apply elem_of_three. auto.
        -- rewrite Hr' in Ha. simpl in Ha. injection Ha as <-.
           assert (Hka' : (k, v) ∈ l_array ll ++ l_array lr).
           { rewrite Harr. apply elem_of_app. by right. }
           apply elem_of_app in Hka' as [Hka'|Hka'].
           ++ exists left, (l_array ll). rewrite Hll. split_and!; try done.
              apply elem_of_three. auto.
           ++ exists right, (l_array lr). rewrite Hlr. split_and!; try done.
              apply elem_of_three. auto.
      * intros (L & a & [->|[->| ->]]%elem_of_three & HLd & Ha & Hka).
        -- rewrite HP in Ha. done.
        -- rewrite Hll in Ha. simpl in Ha. injection Ha as <-.
           assert (Hka' : (k, v) ∈ l_array l1 ++ l_array l2).
           { rewrite <- Harr. apply elem_of_app. by left. }
           apply elem_of_app in Hka' as [Hka'|Hka'].
           ++ exists left, (l_array l1). rewrite Hl'. split_and!; try done.
              apply elem_of_three. auto.
           ++ exists right, (l_array l2). rewrite Hr'. split_and!; try done.
              apply elem_of_three. auto.
        -- rewrite Hlr in Ha. simpl in Ha. injection Ha as <-.
           assert (Hka' : (k, v) ∈ l_array l1 ++ l_array l2).
           { rewrite <- Harr. apply elem_of_app. by right. }
           apply elem_of_app in Hka' as [Hka'|Hka'].
           ++ exists left, (l_array l1). rewrite Hl'. split_and!; try done.
              apply elem_of_three. auto.
           ++ exists right, (l_array l2). rewrite Hr'. split_and!; try done.
              apply elem_of_three. auto.
Qed.

End LeafMoves.

(** ** The slots of two adjacent internal pages *)

Import BPT.

Section Slots.
Variables leaf_max_size internal_max_size : Z.
Notation core := (core leaf_max_size internal_max_size).
Notation page_ok := (page_ok leaf_max_size internal_max_size).
Notation internal_ok := (internal_ok internal_max_size).
Notation internal_ok_upto := (internal_ok_upto internal_max_size).
Notation leaf_ok := (leaf_ok leaf_max_size).
Notation sizes := (sizes leaf_max_size).
Notation size_ok := (size_ok leaf_max_size).

Lemma slots_of_internal D g t b q n :
  internal_ok_upto D None g t b q n ->
  slots_ok D g (lower g q) (upper g q) (depth g q) (i_array n).
Proof.
  intros (_ & _ & _ & Hs & Hb & _ & Hh & Hch). split_and!; try done.
  intros i kc Hi. destruct (Hch i kc Hi) as (? & ? & ? & ? & ?). done.
Qed.

Lemma internal_of_slots D g t b q n :
  slots_ok D g (lower g q) (upper g q) (depth g q) (i_array n) ->
  i_page_id n = q -> i_max_size n = internal_max_size ->
  (depth g q < height g)%nat -> Z.of_nat (length (i_array n)) <= b ->
  (forall c, c ∈ (i_array n).*2 -> parent_of t c = Some q) ->
  internal_ok_upto D None g t b q n.
Proof.
  intros (Hs & Hb & Hh & Hch) Hid Hmax Hdep Hlen Hpar. split_and!; try done.
  intros i kc Hi. destruct (Hch i kc Hi) as (? & ? & ? & ?). split_and!; try done.
  apply Hpar. apply list_elem_of_fmap. exists kc. split; [done|].
  by eapply list_elem_of_lookup_2.
Qed.

Lemma slots_transfer D D' g g' lo hi d array :
  slots_ok D g lo hi d array ->
  (forall c, c ∈ array.*2 -> c ∉ D ->
     (c ∉ D') /\ depth g' c = depth g c /\ lower g' c = lower g c
     /\ upper g' c = upper g c) ->
  slots_ok D' g' lo hi d array.
Proof.
  intros (Hs & Hb & Hh & Hch) Ht. split_and!; try done.
  intros i kc Hi. destruct (Hch i kc Hi) as (Hd & Hdep & Hlo & Hup).
  destruct (Ht kc.2) as (? & Hd' & Hlo' & Hup'); [|done|].
  { apply list_elem_of_fmap. exists kc. split; [done|]. by eapply list_elem_of_lookup_2. }
  split_and!; [done|congruence..].
Qed.

Lemma slots_keys_lt D g lo hi d array (i j : nat) x y :
  slots_ok D g lo hi d array -> (1 <= i)%nat -> (i < j)%nat ->
  array !! i = Some x -> array !! j = Some y -> x.1 < y.1.
Proof. intros (Hs & _) ????. by eapply (sorted_from1_lookup array i j). Qed.

Lemma slots_key_bounds D g lo hi d array (i : nat) x :
  slots_ok D g lo hi d array -> (1 <= i)%nat -> array !! i = Some x ->
  strictly_above lo x.1 /\ below x.1 hi.
Proof.
  intros (_ & Hb & _) H1 Hi. apply Hb. apply elem_of_drop_lookup. eauto.
Qed.

Lemma slots_intro D g lo hi d (array : list (Z * Z)) :
  (forall (i j : nat) x y, (1 <= i)%nat -> (i < j)%nat ->
     array !! i = Some x -> array !! j = Some y -> x.1 < y.1) ->
  (forall (i : nat) x, (1 <= i)%nat -> array !! i = Some x ->
     strictly_above lo x.1 /\ below x.1 hi) ->
  (forall a, lo = Some a -> exists c, array !! 0%nat = Some (a, c)) ->
  (forall (i : nat) kc, array !! i = Some kc ->
     (kc.2 ∉ D) /\ depth g kc.2 = S d
     /\ lower g kc.2 = (if decide (i = 0%nat) then lo else Some kc.1)
     /\ upper g kc.2 = next_key array i hi) ->
  slots_ok D g lo hi d array.
Proof.
  intros Hs Hb Hh Hch. split_and!; try done.
  - by apply sorted_from1_intro.
  - intros x (i & Hi1 & Hi)%elem_of_drop_lookup. eapply Hb; [|done]. lia.
  - intros a Ha. destruct (Hh a Ha) as (c & Hc). rewrite head_lookup, Hc. done.
Qed.

Lemma slots_head D g lo hi d array a :
  slots_ok D g lo hi d array -> lo = Some a -> exists c, array !! 0%nat = Some (a, c).
Proof.
  intros (_ & _ & Hh & _) Ha. specialize (Hh a Ha). rewrite head_lookup in Hh.
  destruct (array !! 0%nat) as [[k c]|]; [|done]. simpl in Hh. injection Hh as ->.
  by exists c.
Qed.

Lemma slots_NoDup D g lo hi d array :
  slots_ok D g lo hi d array -> NoDup array.*2.
Proof.
  intros Hok. apply NoDup_alt. intros i j c Hi Hj.
  rewrite list_lookup_fmap in Hi, Hj.
  destruct (array !! i) as [[ki ci]|] eqn:Hai; [|done].
  destruct (array !! j) as [[kj cj]|] eqn:Haj; [|done].
  simpl in Hi, Hj. injection Hi as ->. injection Hj as ->.
  assert (Hgen : forall (a b : nat) ka kb, (a < b)%nat ->
            array !! a = Some (ka, c) -> array !! b = Some (kb, c) -> False).
  { clear i j ki kj Hai Haj. intros i j ki kj Hij Hai Haj.
    pose proof Hok as (_ & _ & _ & Hch).
    destruct (Hch i _ Hai) as (_ & _ & Hli & _).
    destruct (Hch j _ Haj) as (_ & _ & Hlj & _).
    simpl in Hli, Hlj. rewrite Hli in Hlj.
    rewrite (decide_False (P := j = 0%nat)) in Hlj by lia.
    destruct (decide (i = 0%nat)) as [->|Hi0].
    - destruct (slots_key_bounds _ _ _ _ _ _ j _ Hok ltac:(lia) Haj) as [Hsa _].
      rewrite Hlj in Hsa. simpl in Hsa. lia.
    - injection Hlj as ->.
      pose proof (slots_keys_lt _ _ _ _ _ _ i j _ _ Hok ltac:(lia) Hij Hai Haj).
      simpl in *. lia. }
  destruct (Nat.lt_trichotomy i j) as [Hlt|[->|Hlt]]; [|done|].
  - exfalso. by eapply (Hgen i j).
  - exfalso. by eapply (Hgen j i).
Qed.

Lemma slots_join D g lo k hi d al ar :
  slots_ok D g lo (Some k) d al -> slots_ok D g (Some k) hi d ar ->
  al <> [] -> strictly_above lo k -> below k hi ->
  slots_ok D g lo hi d (al ++ ar).
Proof.
  intros Hl Hr Hne Hsa Hbl.
  destruct (slots_head _ _ _ _ _ _ _ Hr eq_refl) as (c0 & Hr0).
  assert (Hlen : (1 <= length al)%nat) by (destruct al; [done|simpl; lia]).
  assert (Hla : forall i : nat, (al ++ ar) !! i =
      if decide (i < length al)%nat then al !! i else ar !! (i - length al)%nat).
  { intros i. destruct (decide (i < length al)%nat).
    - by rewrite lookup_app_l.
    - by rewrite lookup_app_r by lia. }
  assert (Hkl : forall (i : nat) x, (1 <= i)%nat -> al !! i = Some x -> x.1 < k).
  { intros i x H1 Hi. by destruct (slots_key_bounds _ _ _ _ _ _ i _ Hl H1 Hi). }
  assert (Hkr : forall (i : nat) x, ar !! i = Some x -> k <= x.1).
  { intros i x Hi. destruct (decide (i = 0%nat)) as [->|].
    - rewrite Hr0 in Hi. injection Hi as <-. simpl. lia.
    - destruct (slots_key_bounds _ _ _ _ _ _ i _ Hr ltac:(lia) Hi) as [H _].
      simpl in H. lia. }
  apply slots_intro.
  - intros i j x y H1 Hij Hi Hj. rewrite Hla in Hi, Hj.
    destruct (decide (i < length al)%nat); destruct (decide (j < length al)%nat); try lia.
    + by eapply (slots_keys_lt _ _ _ _ _ _ i j _ _ Hl).
    + specialize (Hkl i x H1 Hi). specialize (Hkr _ y Hj). lia.
    + destruct (decide (i - length al = 0)%nat) as [e|].
      * rewrite e, Hr0 in Hi. injection Hi as <-. simpl.
        destruct (slots_key_bounds _ _ _ _ _ _ (j - length al)%nat _ Hr ltac:(lia) Hj) as [H _]. done.
      * eapply (slots_keys_lt _ _ _ _ _ _ _ _ _ _ Hr); [| |exact Hi|exact Hj]; lia.
  - intros i x H1 Hi. rewrite Hla in Hi.
    destruct (decide (i < length al)%nat).
    + destruct (slots_key_bounds _ _ _ _ _ _ i _ Hl H1 Hi) as [H1' H2'].
      split; [done|]. eapply below_trans; [exact Hbl|]. simpl in H2'. lia.
    + split.
      * eapply strictly_above_trans; [exact Hsa|]. by eapply Hkr.
      * destruct (decide (i - length al = 0)%nat) as [e|].
        -- rewrite e, Hr0 in Hi. by injection Hi as <-.
        -- by destruct (slots_key_bounds _ _ _ _ _ _ (i - length al)%nat _ Hr ltac:(lia) Hi).
  - intros a Ha. destruct (slots_head _ _ _ _ _ _ _ Hl Ha) as (c & Hc).
    exists c. by rewrite lookup_app_l by lia.
  - intros i kc Hi. rewrite Hla in Hi.
    pose proof Hl as (_ & _ & _ & Hchl). pose proof Hr as (_ & _ & _ & Hchr).
    unfold next_key. rewrite Hla.
    destruct (decide (i < length al)%nat).
    + destruct (Hchl i kc Hi) as (? & ? & ? & Hup). split_and!; try done.
      rewrite Hup. unfold next_key.
      destruct (decide (S i < length al)%nat).
      { destruct (lookup_lt_is_Some_2 al (S i)) as [y ->]; [lia|done]. }
      rewrite lookup_ge_None_2 by lia.
      replace (S i - length al)%nat with 0%nat by lia. by rewrite Hr0.
    + destruct (Hchr _ kc Hi) as (? & ? & Hlo & Hup). split_and!; try done.
      * rewrite Hlo. rewrite (decide_False (P := i = 0%nat)) by lia.
        destruct (decide (i - length al = 0)%nat) as [e|]; [|done].
        rewrite e, Hr0 in Hi. by injection Hi as <-.
      * rewrite Hup. unfold next_key. rewrite decide_False by lia.
        by replace (S i - length al)%nat with (S (i - length al)) by lia.
Qed.

Lemma slots_take D g lo hi d array (m : nat) x :
  slots_ok D g lo hi d array -> (1 <= m)%nat -> array !! m = Some x ->
  slots_ok D g lo (Some x.1) d (take m array).
Proof.
  intros Hok Hm Hx. pose proof (lookup_lt_Some _ _ _ Hx) as Hlen.
  assert (Hla : forall (i : nat) y, take m array !! i = Some y ->
            (i < m)%nat /\ array !! i = Some y).
  { intros i y Hi. by apply lookup_take_Some in Hi as [? ?]. }
  apply slots_intro.
  - intros i j a b H1 Hij (? & Hi)%Hla (? & Hj)%Hla.
    by eapply (slots_keys_lt _ _ _ _ _ _ i j _ _ Hok).
  - intros i a H1 (? & Hi)%Hla.
    destruct (slots_key_bounds _ _ _ _ _ _ i _ Hok H1 Hi) as [? _]. split; [done|].
    simpl. by eapply (slots_keys_lt _ _ _ _ _ _ i m _ _ Hok).
  - intros a Ha. destruct (slots_head _ _ _ _ _ _ _ Hok Ha) as (c & Hc).
    exists c. by rewrite lookup_take_lt by lia.
  - intros i kc (? & Hi)%Hla. pose proof Hok as (_ & _ & _ & Hch).
    destruct (Hch i kc Hi) as (? & ? & ? & Hup). split_and!; try done.
    rewrite Hup. unfold next_key.
    destruct (decide (S i < m)%nat).
    + rewrite lookup_take_lt by lia.
      destruct (lookup_lt_is_Some_2 array (S i)) as [y ->]; [lia|done].
    + rewrite lookup_take_ge by lia. replace (S i) with m by lia. by rewrite Hx.
Qed.

Lemma slots_drop D g lo hi d array (m : nat) x :
  slots_ok D g lo hi d array -> (1 <= m)%nat -> array !! m = Some x ->
  slots_ok D g (Some x.1) hi d (drop m array).
Proof.
  intros Hok Hm Hx.
  apply slots_intro.
  - intros i j a b H1 Hij Hi Hj. rewrite lookup_drop in Hi, Hj.
    eapply (slots_keys_lt _ _ _ _ _ _ _ _ _ _ Hok); [| |exact Hi|exact Hj]; lia.
  - intros i a H1 Hi. rewrite lookup_drop in Hi.
    destruct (slots_key_bounds _ _ _ _ _ _ (m + i)%nat _ Hok ltac:(lia) Hi) as [_ ?]. split; [|done].
    simpl. eapply (slots_keys_lt _ _ _ _ _ _ m _ _ _ Hok); [| |exact Hx|exact Hi]; lia.
  - intros a [= <-]. exists x.2. rewrite lookup_drop, Nat.add_0_r, Hx. by destruct x.
  - intros i kc Hi. rewrite lookup_drop in Hi. pose proof Hok as (_ & _ & _ & Hch).
    destruct (Hch _ kc Hi) as (? & ? & Hlo & Hup). split_and!; try done.
    + rewrite Hlo. rewrite decide_False by lia.
      destruct (decide (i = 0%nat)) as [->|]; [|done].
      rewrite Nat.add_0_r, Hx in Hi. by injection Hi as <-.
    + by rewrite next_key_drop.
Qed.

End Slots.

(** ** Merging and rebalancing two internal pages *)

Import BPT.

Section InternalMoves.
Variables leaf_max_size internal_max_size : Z.
Notation core := (core leaf_max_size internal_max_size).
Notation page_ok := (page_ok leaf_max_size internal_max_size).
Notation internal_ok := (internal_ok internal_max_size).
Notation internal_ok_upto := (internal_ok_upto internal_max_size).
Notation leaf_ok := (leaf_ok leaf_max_size).
Notation sizes := (sizes leaf_max_size).
Notation size_ok := (size_ok leaf_max_size).

Lemma entry_same D D' t t' :
  (forall q, q ∈ D -> q ∈ D') ->
  (forall q, q ∉ D' -> leaf_entries (pages t' !! q) = leaf_entries (pages t !! q)) ->
  (forall q, q ∉ D -> q ∈ D' -> leaf_entries (pages t !! q) = None) ->
  forall k v, entry D' t' k v <-> entry D t k v.
Proof.
  intros HD Hsame Hdead k v. rewrite !entry_leaf_entries.
  split; intros (L & a & Hd & HL & Hin); exists L, a.
  - rewrite <- Hsame by done. split_and!; try done. intros ?. by apply Hd, HD.
  - destruct (decide (L ∈ D')) as [HLD|HLD].
    + rewrite Hdead in HL by done. done.
    + by rewrite Hsame.
Qed.

Lemma elem_of_touched (q P left right : Z) (cs : list Z) :
  q ∈ ({[P; left; right]} ∪ list_to_set cs : gset Z)
  <-> q = P \/ q = left \/ q = right \/ q ∈ cs.
Proof. rewrite elem_of_union, elem_of_three, elem_of_list_to_set. tauto. Qed.

Lemma not_elem_of_touched (q P left right : Z) (cs : list Z) :
  q ∉ ({[P; left; right]} ∪ list_to_set cs : gset Z)
  <-> q <> P /\ q <> left /\ q <> right /\ q ∉ cs.
Proof. rewrite elem_of_touched. tauto. Qed.

(** The slots of two adjacent internal pages, taken together. *)
Lemma combined_internal D U g t P nP (r : nat) kl left kr right nl nr :
  core D None g t -> sizes D U t ->
  P ∉ D -> pages t !! P = Some (Internal nP) ->
  i_array nP !! r = Some (kl, left) -> i_array nP !! S r = Some (kr, right) ->
  pages t !! left = Some (Internal nl) -> pages t !! right = Some (Internal nr) ->
  slots_ok D g (lower g left) (upper g right) (S (depth g P))
    (i_array nl ++ i_array nr)
  /\ (1 <= length (i_array nl))%nat /\ (1 <= length (i_array nr))%nat
  /\ (forall c, c ∈ (i_array nl).*2 -> parent_of t c = Some left)
  /\ (forall c, c ∈ (i_array nr).*2 -> parent_of t c = Some right)
  /\ forall c, c ∈ (i_array nl ++ i_array nr).*2 ->
       c <> P /\ c <> left /\ c <> right /\ (c ∉ D)
       /\ depth g c = S (S (depth g P))
       /\ exists pc, pages t !! c = Some pc /\ page_ok D None g t c pc.
Proof.
  intros Hc Hs HPd HP Hl Hr Hnl Hnr.
  destruct (adjacent_facts _ _ _ _ _ _ _ _ _ _ _ _ Hc HPd HP Hl Hr)
    as (Hin & Hlrne & HlP & HrP & Hld & Hrd & _ & _
        & Hldep & Hrdep & Hlu & Hrl & Hlo & Hru & Hsa & Hbl).
  destruct (core_page _ _ _ _ _ _ _ _ Hc Hnl Hld) as (_ & _ & Hinl).
  destruct (core_page _ _ _ _ _ _ _ _ Hc Hnr Hrd) as (_ & _ & Hinr).
  pose proof (slots_of_internal _ _ _ _ _ _ _ Hinl) as Hsl.
  pose proof (slots_of_internal _ _ _ _ _ _ _ Hinr) as Hsr.
  rewrite Hlu, Hldep in Hsl. rewrite Hrl, Hrdep in Hsr.
  pose proof (Hs _ _ Hnl Hld) as Hszl. pose proof (Hs _ _ Hnr Hrd) as Hszr.
  simpl in Hszl, Hszr.
  assert (Hll : (1 <= length (i_array nl))%nat) by (destruct (decide (U = Some left)); lia).
  assert (Hlr : (1 <= length (i_array nr))%nat) by (destruct (decide (U = Some right)); lia).
  assert (Hpl : forall c, c ∈ (i_array nl).*2 ->
            parent_of t c = Some left /\ (c ∉ D) /\ depth g c = S (S (depth g P))).
  { intros c (x & -> & Hx)%list_elem_of_fmap. apply list_elem_of_lookup in Hx as (j & Hj).
    pose proof Hinl as (_ & _ & _ & _ & _ & _ & _ & Hch).
    destruct (Hch _ _ Hj) as (? & ? & Hd & _). split_and!; try done. by rewrite Hd, Hldep. }
  assert (Hpr : forall c, c ∈ (i_array nr).*2 ->
            parent_of t c = Some right /\ (c ∉ D) /\ depth g c = S (S (depth g P))).
  { intros c (x & -> & Hx)%list_elem_of_fmap. apply list_elem_of_lookup in Hx as (j & Hj).
    pose proof Hinr as (_ & _ & _ & _ & _ & _ & _ & Hch).
    destruct (Hch _ _ Hj) as (? & ? & Hd & _). split_and!; try done. by rewrite Hd, Hrdep. }
  split_and!; try done.
  - eapply slots_join; try done. intros e. rewrite e in Hll. simpl in Hll. lia.
  - intros c Hcin. by apply Hpl.
  - intros c Hcin. by apply Hpr.
  - intros c Hcin. rewrite fmap_app in Hcin.
    assert (Hf : (c ∉ D) /\ depth g c = S (S (depth g P)) /\ is_Some (parent_of t c)).
    { apply elem_of_app in Hcin as [Hcin|Hcin].
      - destruct (Hpl c Hcin) as (-> & ? & ?). by split_and!.
      - destruct (Hpr c Hcin) as (-> & ? & ?). by split_and!. }
    destruct Hf as (Hcd & Hcdep & [Q HQ]).
    apply parent_of_Some in HQ as (pc & Hpc & _).
    split_and!; try done.
    + intros e. rewrite e in Hcdep. lia.
    + intros e. rewrite e in Hcdep. lia.
    + intros e. rewrite e in Hcdep. lia.
    + exists pc. split; [done|]. by eapply core_page.
Qed.

Lemma internal_merge_core D U g t t' P nP (r : nat) kl left kr right nl nr :
  core D None g t -> sizes D U t -> U = Some left \/ U = Some right ->
  P ∉ D -> pages t !! P = Some (Internal nP) ->
  i_array nP !! r = Some (kl, left) -> i_array nP !! S r = Some (kr, right) ->
  pages t !! left = Some (Internal nl) -> pages t !! right = Some (Internal nr) ->
  Z.of_nat (length (i_array nl ++ i_array nr)) <= internal_max_size ->
  root_page_id t' = root_page_id t -> next_id t' = next_id t ->
  pages t' !! P =
    Some (Internal (Internal.with_array (remove_at (Z.of_nat (S r)) (i_array nP)) nP)) ->
  pages t' !! left = Some (Internal (Internal.with_array (i_array nl ++ i_array nr) nl)) ->
  (forall c, c ∈ (i_array nl ++ i_array nr).*2 ->
     pages t' !! c = SetParentPageId left <$> pages t !! c) ->
  (forall q, q <> P -> q <> left -> q <> right -> q ∉ (i_array nl ++ i_array nr).*2 ->
     pages t' !! q = pages t !! q) ->
  core ({[right]} ∪ D) None (merge_shape left right g) t'
  /\ sizes ({[right]} ∪ D) (Some P) t'
  /\ forall k v, entry ({[right]} ∪ D) t' k v <-> entry D t k v.
Proof.
  intros Hc Hs HU HPd HP Hl Hr Hnl Hnr Hlen Hroot Hnext HP' Hl' Hmoved Hsame.
  destruct (adjacent_facts _ _ _ _ _ _ _ _ _ _ _ _ Hc HPd HP Hl Hr)
    as (Hin & Hlrne & HlP & HrP & Hld & Hrd & (pl & Hpl & Hplp) & (pr & Hpr & Hprp)
        & Hldep & Hrdep & Hlu & Hrl & Hlo & Hru & Hsa & Hbl).
  rewrite Hnl in Hpl. injection Hpl as <-. rewrite Hnr in Hpr. injection Hpr as <-.
  simpl in Hplp, Hprp.
  destruct (combined_internal _ _ _ _ _ _ _ _ _ _ _ _ _ Hc Hs HPd HP Hl Hr Hnl Hnr)
    as (Hslots & Hlenl & Hlenr & Hparl & Hparr & Hkids).
  set (A := i_array nl ++ i_array nr) in *.
  pose proof (core_page _ _ _ _ _ _ _ _ Hc Hnl Hld) as (Hllt & _ & Hlid & Hlmax & Hlh & _).
  pose proof Hc as ((Hrd0 & Hrp0 & Hr0 & Hrlo & Hrup) & _).
  pose proof (lookup_lt_Some _ _ _ Hr) as Hrlen.
  assert (Hother : forall (j : nat) kc, i_array nP !! j = Some kc -> kc.2 <> right ->
            exists j', remove_at (Z.of_nat (S r)) (i_array nP) !! j' = Some kc).
  { intros j kc Hj Hne. destruct (decide (j < S r)%nat).
    - exists j. rewrite lookup_remove_at by done. by rewrite decide_True.
    - destruct (decide (j = S r)) as [->|].
      + rewrite Hr in Hj. by injection Hj as <-.
      + exists (j - 1)%nat. rewrite lookup_remove_at by done.
        rewrite decide_False by lia. by replace (S (j - 1)) with j by lia. }
  assert (HchP : forall c, c <> right -> is_child t P c -> is_child t' P c).
  { intros c Hne (n0 & Hn0 & Hcin). rewrite HP in Hn0. injection Hn0 as <-.
    eexists. split; [exact HP'|]. simpl.
    apply list_elem_of_fmap in Hcin as (x & -> & Hx).
    apply list_elem_of_lookup in Hx as (j & Hj).
    destruct (Hother j x Hj Hne) as (j' & Hj').
    apply list_elem_of_fmap. exists x. split; [done|]. by eapply list_elem_of_lookup_2. }
  assert (Hshallow : forall q, (depth g q <= S (depth g P))%nat -> q ∉ A.*2).
  { intros q Hq Hqin. destruct (Hkids q Hqin) as (_ & _ & _ & _ & Hd & _). lia. }
  assert (HPpage : page_ok ({[right]} ∪ D) None (merge_shape left right g) t' P
            (Internal (Internal.with_array (remove_at (Z.of_nat (S r)) (i_array nP)) nP))).
  { eapply parent_merge_ok; try done.
    - intros q Hq HqP. apply Hsame; [done| | |].
      + intros e; rewrite e in Hq; lia.
      + intros e; rewrite e in Hq; lia.
      + apply Hshallow. lia.
    - intros c Hcin Hcr.
      destruct (decide (c = left)) as [->|Hcl].
      + unfold parent_of. rewrite Hl'. simpl. by rewrite Hplp.
      + apply list_elem_of_fmap in Hcin as (x & -> & Hx).
        apply list_elem_of_lookup in Hx as (j & Hj).
        destruct (child_page _ _ _ _ _ _ _ _ _ _ Hin Hj) as (_ & Hdep & pc & Hpc & Hpcp).
        unfold parent_of. rewrite Hsame; try done.
        * by rewrite Hpc, <- Hpcp.
        * intros e. rewrite e in Hdep. lia.
        * apply Hshallow. lia. }
  assert (Hgrand : forall c n (i : nat) kc, c ∈ A.*2 -> pages t !! c = Some (Internal n) ->
            i_array n !! i = Some kc ->
            kc.2 ∉ ({[P; left; right]} ∪ list_to_set A.*2 : gset Z)).
  { intros c n i kc Hcin Hn Hi.
    destruct (Hkids c Hcin) as (_ & _ & _ & Hcd & Hcdep & _).
    destruct (core_page _ _ _ _ _ _ _ _ Hc Hn Hcd) as (_ & _ & Hinc).
    destruct (child_page _ _ _ _ _ _ _ _ _ _ Hinc Hi) as (_ & Hd & _).
    apply not_elem_of_touched. split_and!.
    - intros e. rewrite e in Hd. lia.
    - intros e. rewrite e in Hd. lia.
    - intros e. rewrite e in Hd. lia.
    - intros Hk. destruct (Hkids _ Hk) as (_ & _ & _ & _ & Hd' & _). lia. }
  assert (Hleftchild : forall c, c ∈ A.*2 -> is_child t' left c).
  { intros c Hcin. eexists. split; [exact Hl'|done]. }
  split_and!.
  - apply (core_frame _ _ ({[P; left; right]} ∪ list_to_set A.*2) D _ g _ t t'); try done.
    + intros q [e%elem_of_singleton|?]%elem_of_union ?; [|done].
      apply elem_of_touched. auto.
    + intros q (? & ? & ? & ?)%not_elem_of_touched. by apply Hsame.
    + intros q (? & ? & ? & ?)%not_elem_of_touched. unfold merge_shape. simpl.
      by rewrite decide_False.
    + intros P0 q [->|[->|[->|HP0in]]]%elem_of_touched
        (? & ? & ? & Hqn)%not_elem_of_touched HP0 Hch.
      * split; [apply not_elem_of_dead; done|]. by apply HchP.
      * exfalso. apply Hqn. destruct Hch as (n0 & Hn0 & Hq).
        rewrite Hnl in Hn0. injection Hn0 as <-. unfold A. rewrite fmap_app.
        apply elem_of_app. by left.
      * exfalso. apply Hqn. destruct Hch as (n0 & Hn0 & Hq).
        rewrite Hnr in Hn0. injection Hn0 as <-. unfold A. rewrite fmap_app.
        apply elem_of_app. by right.
      * destruct (Hkids _ HP0in) as (_ & _ & ? & ? & _).
        split; [apply not_elem_of_dead; done|].
        destruct Hch as (n0 & Hn0 & Hq). unfold is_child.
        rewrite (Hmoved _ HP0in), Hn0. simpl. eexists. split; [done|done].
    + intros c q [->|[->|[->|Hcin]]]%elem_of_touched
        (HqP & Hql & Hqr & Hqn)%not_elem_of_touched Hcd Hcp.
      * split; [apply not_elem_of_dead; done|]. unfold merge_shape. simpl.
        rewrite decide_False by done. split_and!; try done.
        unfold parent_of in *. rewrite HP'. by rewrite HP in Hcp.
      * exfalso. unfold parent_of in Hcp. rewrite Hnl in Hcp. simpl in Hcp. congruence.
      * exfalso. unfold parent_of in Hcp. rewrite Hnr in Hcp. simpl in Hcp. congruence.
      * exfalso. unfold A in Hcin. rewrite fmap_app in Hcin.
        apply elem_of_app in Hcin as [Hcin|Hcin].
        -- rewrite (Hparl _ Hcin) in Hcp. congruence.
        -- rewrite (Hparr _ Hcin) in Hcp. congruence.
    + intros q p [->|[->|[->|Hqin]]]%elem_of_touched Hq Hqd.
      * rewrite HP' in Hq. by injection Hq as <-.
      * rewrite Hl' in Hq. injection Hq as <-.
        split; [lia|]. split.
        -- right; right. simpl. rewrite Hplp.
           split; [apply not_elem_of_dead; done|].
           apply HchP; [done|]. exists nP. split; [done|].
           apply list_elem_of_fmap. exists (kl, left). split; [done|].
           by eapply list_elem_of_lookup_2.
        -- apply internal_of_slots; try done.
           ++ unfold merge_shape. simpl. rewrite decide_True by done. rewrite Hldep.
              eapply slots_transfer; [exact Hslots|].
              intros c Hcin Hcd. destruct (Hkids c Hcin) as (_ & ? & ? & _).
              simpl. rewrite decide_False by done. split_and!; try done.
              apply not_elem_of_dead. done.
           ++ intros c Hcin. simpl in Hcin. unfold parent_of.
              rewrite (Hmoved _ Hcin).
              destruct (Hkids c Hcin) as (_ & _ & _ & _ & _ & pc & -> & _).
              simpl. by rewrite GetParentPageId_Set.
      * exfalso. apply Hqd. apply elem_of_union. left. by apply elem_of_singleton.
      * destruct (Hkids q Hqin) as (? & ? & ? & Hqd0 & Hqdep & pc & Hpc & Hok).
        rewrite (Hmoved _ Hqin), Hpc in Hq. simpl in Hq. injection Hq as <-.
        eapply page_ok_reparent; [exact Hok|lia| |done|done|..].
        -- right; right. rewrite GetParentPageId_Set.
           split; [apply not_elem_of_dead; done|]. by apply Hleftchild.
        -- unfold merge_shape. simpl. done.
        -- unfold merge_shape. simpl. by rewrite decide_False.
        -- intros n i kc -> Hi (Hkd & Hkp & Hkdep & _).
           pose proof (Hgrand q n i kc Hqin Hpc Hi) as Hkn.
           pose proof Hkn as (? & ? & ? & ?)%not_elem_of_touched.
           unfold merge_shape. simpl. rewrite decide_False by done.
           split_and!; try done.
           ++ apply not_elem_of_dead. done.
           ++ rewrite <- Hkp. apply parent_of_ext. by apply Hsame.
    + intros [e|[e|[e|Hin']]]%elem_of_touched.
      * unfold root_ok. rewrite Hroot, e. unfold merge_shape. simpl.
        rewrite decide_False by done. rewrite <- e.
        split_and!; try done.
        -- rewrite e. apply not_elem_of_dead. done.
        -- unfold parent_of in *. rewrite e, HP'. by rewrite e, HP in Hrp0.
      * rewrite e in Hr0. lia.
      * rewrite e in Hr0. lia.
      * destruct (Hkids _ Hin') as (_ & _ & _ & _ & Hd & _). lia.
    + intros q _ ?. apply elem_of_union. by right.
  - apply (sizes_frame _ ({[P; left; right]} ∪ list_to_set A.*2) D _ U _ t t' Hs); try done.
    + intros q _ ?. apply elem_of_union. by right.
    + intros q (? & ? & ? & ?)%not_elem_of_touched. by apply Hsame.
    + intros q Hq. apply elem_of_touched. destruct HU; right; [left|right; left]; congruence.
    + intros q p [->|[->|[->|Hqin]]]%elem_of_touched Hq Hqd.
      * rewrite HP' in Hq. injection Hq as <-. simpl.
        rewrite decide_True by done. rewrite length_remove_at by done. lia.
      * rewrite Hl' in Hq. injection Hq as <-. simpl.
        rewrite decide_False by congruence. fold A. unfold A. rewrite length_app. lia.
      * exfalso. apply Hqd. apply elem_of_union. left. by apply elem_of_singleton.
      * destruct (Hkids q Hqin) as (? & ? & ? & Hqd0 & Hqdep & pc & Hpc & Hok).
        rewrite (Hmoved _ Hqin), Hpc in Hq. simpl in Hq. injection Hq as <-.
        pose proof (Hs _ _ Hpc Hqd0) as Hsz.
        assert (HUq : U <> Some q) by (destruct HU; congruence).
        destruct pc as [l|n]; simpl in *.
        -- rewrite Hroot. destruct (decide (q = root_page_id t)) as [e|].
           ++ rewrite e in Hqdep. lia.
           ++ rewrite decide_False in Hsz by done. rewrite decide_False by congruence. lia.
        -- rewrite decide_False in Hsz by done. rewrite decide_False by congruence. lia.
  - apply entry_same.
    + intros q ?. apply elem_of_union. by right.
    + intros q (Hqr & Hqd)%not_elem_of_dead.
      destruct (decide (q ∈ A.*2)) as [Hqin|Hqn].
      { rewrite (Hmoved _ Hqin). apply leaf_entries_fmap_Set. }
      destruct (decide (q = P)) as [->|]; [by rewrite HP', HP|].
      destruct (decide (q = left)) as [->|]; [by rewrite Hl', Hnl|].
      by rewrite Hsame.
    + intros q Hqd [e%elem_of_singleton|?]%elem_of_union; [|done].
      by rewrite e, Hnr.
Qed.

Lemma internal_shift_core D U g t t' P nP (r : nat) kl left kr right nl nr
    al' ar' sep c0 rest :
  core D None g t -> sizes D U t -> U = Some left \/ U = Some right ->
  P ∉ D -> pages t !! P = Some (Internal nP) ->
  i_array nP !! r = Some (kl, left) -> i_array nP !! S r = Some (kr, right) ->
  pages t !! left = Some (Internal nl) -> pages t !! right = Some (Internal nr) ->
  i_array nl ++ i_array nr = al' ++ ar' -> ar' = (sep, c0) :: rest ->
  (2 <= length al')%nat -> (2 <= length ar')%nat ->
  Z.of_nat (length al') <= internal_max_size ->
  Z.of_nat (length ar') <= internal_max_size ->
  root_page_id t' = root_page_id t -> next_id t' = next_id t ->
  pages t' !! P =
    Some (Internal (Internal.with_array (<[S r := (sep, right)]> (i_array nP)) nP)) ->
  pages t' !! left = Some (Internal (Internal.with_array al' nl)) ->
  pages t' !! right = Some (Internal (Internal.with_array ar' nr)) ->
  (forall c, c ∈ al'.*2 -> pages t' !! c = SetParentPageId left <$> pages t !! c) ->
  (forall c, c ∈ ar'.*2 -> pages t' !! c = SetParentPageId right <$> pages t !! c) ->
  (forall q, q <> P -> q <> left -> q <> right -> q ∉ (al' ++ ar').*2 ->
     pages t' !! q = pages t !! q) ->
  core D None (shift_shape left right sep g) t'
  /\ sizes D None t'
  /\ forall k v, entry D t' k v <-> entry D t k v.
Proof.
  intros Hc Hs HU HPd HP Hl Hr Hnl Hnr Harr Hx Hlen1 Hlen2 Hmax1 Hmax2 Hroot Hnext
    HP' Hl' Hr' Hmovedl Hmovedr Hsame.
  destruct (adjacent_facts _ _ _ _ _ _ _ _ _ _ _ _ Hc HPd HP Hl Hr)
    as (Hin & Hlrne & HlP & HrP & Hld & Hrd & (pl & Hpl & Hplp) & (pr & Hpr & Hprp)
        & Hldep & Hrdep & Hlu & Hrl & Hlo & Hru & Hsa & Hbl).
  rewrite Hnl in Hpl. injection Hpl as <-. rewrite Hnr in Hpr. injection Hpr as <-.
  simpl in Hplp, Hprp.
  destruct (combined_internal _ _ _ _ _ _ _ _ _ _ _ _ _ Hc Hs HPd HP Hl Hr Hnl Hnr)
    as (Hslots & _ & _ & Hparl & Hparr & Hkids).
  assert (Hpar : forall c, c ∈ (al' ++ ar').*2 ->
            parent_of t c = Some left \/ parent_of t c = Some right).
  { intros c Hcin. rewrite <- Harr, fmap_app in Hcin.
    apply elem_of_app in Hcin as [?|?]; [left; by apply Hparl|right; by apply Hparr]. }
  assert (Horig : forall c, c ∈ (i_array nl).*2 \/ c ∈ (i_array nr).*2 ->
            c ∈ (al' ++ ar').*2).
  { intros c Hcin. rewrite <- Harr, fmap_app. by apply elem_of_app. }
  clear Hparl Hparr.
  rewrite Harr in Hslots, Hkids.
  set (A := al' ++ ar') in *.
  set (m := length al').
  assert (HAm : A !! m = Some (sep, c0)).
  { unfold A, m. rewrite lookup_app_r by lia. rewrite Nat.sub_diag, Hx. done. }
  assert (Htake : take m A = al') by (unfold A, m; by rewrite take_app_length).
  assert (Hdrop : drop m A = ar') by (unfold A, m; by rewrite drop_app_length).
  pose proof (slots_take _ _ _ _ _ _ m _ Hslots ltac:(unfold m; lia) HAm) as Hsl.
  pose proof (slots_drop _ _ _ _ _ _ m _ Hslots ltac:(unfold m; lia) HAm) as Hsr.
  rewrite Htake in Hsl. rewrite Hdrop in Hsr. simpl in Hsl, Hsr.
  destruct (slots_key_bounds _ _ _ _ _ _ m _ Hslots ltac:(unfold m; lia) HAm)
    as [Hsep1 Hsep2]. simpl in Hsep1, Hsep2.
  pose proof (core_page _ _ _ _ _ _ _ _ Hc Hnl Hld) as (Hllt & _ & Hlid & Hlmax & Hlh & _).
  pose proof (core_page _ _ _ _ _ _ _ _ Hc Hnr Hrd) as (Hrlt & _ & Hrid & Hrmax & Hrh & _).
  pose proof Hc as ((Hrd0 & Hrp0 & Hr0 & Hrlo & Hrup) & _).
  pose proof (lookup_lt_Some _ _ _ Hr) as Hrlen.
  assert (HAin : forall c, c ∈ A.*2 <-> c ∈ al'.*2 \/ c ∈ ar'.*2).
  { intros c. unfold A. rewrite fmap_app. apply elem_of_app. }
  assert (HchP : forall c, is_child t P c -> is_child t' P c).
  { intros c (n0 & Hn0 & Hcin). rewrite HP in Hn0. injection Hn0 as <-.
    eexists. split; [exact HP'|]. simpl.
    apply list_elem_of_fmap in Hcin as (y & -> & Hy).
    apply list_elem_of_lookup in Hy as (j & Hj).
    destruct (decide (j = S r)) as [->|Hjr].
    - rewrite Hr in Hj. injection Hj as <-. simpl.
      apply list_elem_of_fmap. exists (sep, right). split; [done|].
      eapply list_elem_of_lookup_2. by apply list_lookup_insert_eq.
    - apply list_elem_of_fmap. exists y. split; [done|].
      eapply list_elem_of_lookup_2. by rewrite list_lookup_insert_ne. }
  assert (HinP : forall c k (j : nat), i_array nP !! j = Some (k, c) -> is_child t P c).
  { intros c k j Hj. exists nP. split; [done|].
    apply list_elem_of_fmap. exists (k, c). split; [done|].
    by eapply list_elem_of_lookup_2. }
  assert (Hshallow : forall q, (depth g q <= S (depth g P))%nat -> q ∉ A.*2).
  { intros q Hq Hqin. destruct (Hkids q Hqin) as (_ & _ & _ & _ & Hd & _). lia. }
  assert (HPpage : page_ok D None (shift_shape left right sep g) t' P
            (Internal (Internal.with_array (<[S r := (sep, right)]> (i_array nP)) nP))).
  { eapply parent_shift_ok; try done.
    - intros q Hq HqP. apply Hsame; [done| | |].
      + intros e; rewrite e in Hq; lia.
      + intros e; rewrite e in Hq; lia.
      + apply Hshallow. lia.
    - intros c Hcin.
      destruct (decide (c = left)) as [->|Hcl].
      { unfold parent_of. rewrite Hl'. simpl. by rewrite Hplp. }
      destruct (decide (c = right)) as [->|Hcr].
      { unfold parent_of. rewrite Hr'. simpl. by rewrite Hprp. }
      apply list_elem_of_fmap in Hcin as (y & -> & Hy).
      apply list_elem_of_lookup in Hy as (j & Hj).
      destruct (child_page _ _ _ _ _ _ _ _ _ _ Hin Hj) as (_ & Hdep & pc & Hpc & Hpcp).
      unfold parent_of. rewrite Hsame; try done.
      + by rewrite Hpc, <- Hpcp.
      + intros e. rewrite e in Hdep. lia.
      + apply Hshallow. lia. }
  assert (Hgrand : forall c n (i : nat) kc, c ∈ A.*2 -> pages t !! c = Some (Internal n) ->
            i_array n !! i = Some kc ->
            kc.2 ∉ ({[P; left; right]} ∪ list_to_set A.*2 : gset Z)).
  { intros c n i kc Hcin Hn Hi.
    destruct (Hkids c Hcin) as (_ & _ & _ & Hcd & Hcdep & _).
    destruct (core_page _ _ _ _ _ _ _ _ Hc Hn Hcd) as (_ & _ & Hinc).
    destruct (child_page _ _ _ _ _ _ _ _ _ _ Hinc Hi) as (_ & Hd & _).
    apply not_elem_of_touched. split_and!.
    - intros e. rewrite e in Hd. lia.
    - intros e. rewrite e in Hd. lia.
    - intros e. rewrite e in Hd. lia.
    - intros Hk. destruct (Hkids _ Hk) as (_ & _ & _ & _ & Hd' & _). lia. }
  assert (Hnd : NoDup A.*2) by (by eapply slots_NoDup).
  assert (Hdisj : forall c, c ∈ al'.*2 -> c ∈ ar'.*2 -> False).
  { intros c H1 H2. unfold A in Hnd. rewrite fmap_app in Hnd.
    apply NoDup_app in Hnd as (_ & Hd & _). by eapply Hd. }
  assert (Howner : forall c, c ∈ A.*2 ->
            exists Q pc, (Q = left \/ Q = right) /\ pages t !! c = Some pc
              /\ pages t' !! c = Some (SetParentPageId Q pc) /\ is_child t' Q c).
  { intros c Hcin. destruct (Hkids c Hcin) as (_ & _ & _ & _ & _ & pc & Hpc & _).
    apply HAin in Hcin as [Hcl|Hcr].
    - exists left, pc. split_and!; [by left|done| |].
      + by rewrite (Hmovedl _ Hcl), Hpc.
      + eexists. split; [exact Hl'|done].
    - exists right, pc. split_and!; [by right|done| |].
      + by rewrite (Hmovedr _ Hcr), Hpc.
      + eexists. split; [exact Hr'|done]. }
  assert (Hghost : forall c, c <> left -> c <> right ->
            depth (shift_shape left right sep g) c = depth g c
            /\ lower (shift_shape left right sep g) c = lower g c
            /\ upper (shift_shape left right sep g) c = upper g c).
  { intros c ??. unfold shift_shape. simpl. by rewrite !decide_False. }
  split_and!.
  - apply (core_frame _ _ ({[P; left; right]} ∪ list_to_set A.*2) D _ g _ t t'); try done.
    + intros q (? & ? & ? & ?)%not_elem_of_touched. by apply Hsame.
    + intros q (? & ? & ? & ?)%not_elem_of_touched. by apply Hghost.
    + intros P0 q [->|[->|[->|HP0in]]]%elem_of_touched
        (? & ? & ? & Hqn)%not_elem_of_touched HP0 Hch.
      * split; [done|]. by apply HchP.
      * exfalso. apply Hqn. destruct Hch as (n0 & Hn0 & Hq).
        rewrite Hnl in Hn0. injection Hn0 as <-. apply Horig. by left.
      * exfalso. apply Hqn. destruct Hch as (n0 & Hn0 & Hq).
        rewrite Hnr in Hn0. injection Hn0 as <-. apply Horig. by right.
      * split; [done|].
        destruct (Howner _ HP0in) as (Q & pc & _ & Hpc & Hpc' & _).
        destruct Hch as (n0 & Hn0 & Hq). unfold is_child.
        rewrite Hpc', Hpc in *. injection Hn0 as ->. simpl. eexists. split; [done|done].
    + intros c q [->|[->|[->|Hcin]]]%elem_of_touched
        (HqP & Hql & Hqr & Hqn)%not_elem_of_touched Hcd Hcp.
      * split; [done|]. destruct (Hghost P) as (? & ? & ?); [done..|].
        split_and!; try done.
        unfold parent_of in *. rewrite HP'. by rewrite HP in Hcp.
      * exfalso. unfold parent_of in Hcp. rewrite Hnl in Hcp. simpl in Hcp. congruence.
      * exfalso. unfold parent_of in Hcp. rewrite Hnr in Hcp. simpl in Hcp. congruence.
      * exfalso. destruct (Hpar c Hcin) as [e|e]; rewrite e in Hcp; congruence.
    + intros q p [->|[->|[->|Hqin]]]%elem_of_touched Hq Hqd.
      * rewrite HP' in Hq. by injection Hq as <-.
      * rewrite Hl' in Hq. injection Hq as <-.
        split; [lia|]. split.
        -- right; right. simpl. rewrite Hplp.
           split; [done|]. apply HchP. by eapply HinP.
        -- apply internal_of_slots; try done.
           ++ unfold shift_shape. simpl. dsimp. rewrite Hldep.
              eapply slots_transfer; [exact Hsl|].
              intros c Hcin Hcd. destruct (Hkids c) as (_ & ? & ? & _).
              { apply HAin. by left. }
              split; [done|]. by apply (Hghost c).
           ++ intros c Hcin. simpl in Hcin. unfold parent_of.
              rewrite (Hmovedl _ Hcin).
              destruct (Hkids c) as (_ & _ & _ & _ & _ & pc & -> & _).
              { apply HAin. by left. }
              simpl. by rewrite GetParentPageId_Set.
      * rewrite Hr' in Hq. injection Hq as <-.
        split; [lia|]. split.
        -- right; right. simpl. rewrite Hprp.
           split; [done|]. apply HchP. by eapply HinP.
        -- apply internal_of_slots; try done.
           ++ unfold shift_shape. simpl. dsimp. rewrite Hrdep.
              eapply slots_transfer; [exact Hsr|].
              intros c Hcin Hcd. destruct (Hkids c) as (_ & ? & ? & _).
              { apply HAin. by right. }
              split; [done|]. by apply (Hghost c).
           ++ intros c Hcin. simpl in Hcin. unfold parent_of.
              rewrite (Hmovedr _ Hcin).
              destruct (Hkids c) as (_ & _ & _ & _ & _ & pc & -> & _).
              { apply HAin. by right. }
              simpl. by rewrite GetParentPageId_Set.
      * destruct (Hkids q Hqin) as (? & ? & ? & Hqd0 & Hqdep & pc & Hpc & Hok).
        destruct (Howner _ Hqin) as (Q & pc' & HQ & Hpc1 & Hpc' & Hchq).
        rewrite Hpc in Hpc1. injection Hpc1 as <-.
        rewrite Hpc' in Hq. injection Hq as <-.
        destruct (Hghost q) as (Hg1 & Hg2 & Hg3); [done..|].
        eapply page_ok_reparent; [exact Hok|lia| |by rewrite Hg1|by rewrite Hg1|done|done|].
        -- right; right. rewrite GetParentPageId_Set.
           split; [by destruct HQ as [-> | ->]|done].
        -- intros n i kc -> Hi (Hkd & Hkp & Hkdep & _).
           pose proof (Hgrand q n i kc Hqin Hpc Hi) as Hkn.
           pose proof Hkn as (? & ? & ? & ?)%not_elem_of_touched.
           destruct (Hghost kc.2) as (Hk1 & Hk2 & Hk3); [done..|].
           split_and!; try done.
           rewrite <- Hkp. apply parent_of_ext. by apply Hsame.
    + intros [e|[e|[e|Hin']]]%elem_of_touched.
      * unfold root_ok. rewrite Hroot, e.
        destruct (Hghost P) as (Hg1 & Hg2 & Hg3); [done..|].
        unfold upper_seen. rewrite Hg1, Hg2, Hg3. rewrite <- e.
        split_and!; try done.
        unfold parent_of in *. rewrite e, HP'. by rewrite e, HP in Hrp0.
      * rewrite e in Hr0. lia.
      * rewrite e in Hr0. lia.
      * destruct (Hkids _ Hin') as (_ & _ & _ & _ & Hd & _). lia.
  - apply (sizes_frame _ ({[P; left; right]} ∪ list_to_set A.*2) D _ U _ t t' Hs); try done.
    + intros q (? & ? & ? & ?)%not_elem_of_touched. by apply Hsame.
    + intros q Hq. apply elem_of_touched. destruct HU; right; [left|right; left]; congruence.
    + intros q p [->|[->|[->|Hqin]]]%elem_of_touched Hq Hqd.
      * rewrite HP' in Hq. injection Hq as <-. simpl. rewrite length_insert. lia.
      * rewrite Hl' in Hq. injection Hq as <-. simpl. lia.
      * rewrite Hr' in Hq. injection Hq as <-. simpl. lia.
      * destruct (Hkids q Hqin) as (? & ? & ? & Hqd0 & Hqdep & pc & Hpc & Hok).
        destruct (Howner _ Hqin) as (Q & pc' & HQ & Hpc1 & Hpc' & Hchq).
        rewrite Hpc in Hpc1. injection Hpc1 as <-.
        rewrite Hpc' in Hq. injection Hq as <-.
        pose proof (Hs _ _ Hpc Hqd0) as Hsz.
        assert (HUq : U <> Some q) by (destruct HU; congruence).
        destruct pc as [l|n]; simpl in *.
        -- rewrite Hroot. destruct (decide (q = root_page_id t)) as [e|].
           ++ rewrite e in Hqdep. lia.
           ++ rewrite decide_False in Hsz by done. lia.
        -- rewrite decide_False in Hsz by done. lia.
  - apply entry_same; [done| |done].
    intros q Hqd.
    destruct (decide (q ∈ A.*2)) as [Hqin|Hqn].
    { destruct (Howner _ Hqin) as (Q & pc' & HQ & Hpc1 & Hpc' & Hchq).
      rewrite Hpc', Hpc1. apply leaf_entries_Set. }
    destruct (decide (q = P)) as [->|]; [by rewrite HP', HP|].
    destruct (decide (q = left)) as [->|]; [by rewrite Hl', Hnl|].
    destruct (decide (q = right)) as [->|]; [by rewrite Hr', Hnr|].
    by rewrite Hsame.
Qed.

End InternalMoves.

(** ** [AdjustRoot] and the pages freed at the end of [Remove] *)

Import BPT.

Section RootMoves.
Variables leaf_max_size internal_max_size : Z.
Notation core := (core leaf_max_size internal_max_size).
Notation page_ok := (page_ok leaf_max_size internal_max_size).
Notation internal_ok := (internal_ok internal_max_size).
Notation internal_ok_upto := (internal_ok_upto internal_max_size).
Notation leaf_ok := (leaf_ok leaf_max_size).
Notation sizes := (sizes leaf_max_size).
Notation size_ok := (size_ok leaf_max_size).

Lemma live_depth_pos D g t q p :
  core D None g t -> pages t !! q = Some p -> q ∉ D -> q <> root_page_id t ->
  exists n, (GetParentPageId p ∉ D)
    /\ pages t !! GetParentPageId p = Some (Internal n)
    /\ q ∈ (i_array n).*2
    /\ depth g q = S (depth g (GetParentPageId p))
    /\ (depth g (GetParentPageId p) < height g)%nat.
Proof.
  intros Hc Hq Hd Hr.
  destruct (core_page _ _ _ _ _ _ _ _ Hc Hq Hd) as (_ & [?|[[o Ho]|[HPd (n & Hn & Hin)]]] & _);
    [done|done|].
  destruct (core_page _ _ _ _ _ _ _ _ Hc Hn HPd) as (_ & _ & Hok).
  exists n. split_and!; try done.
  - apply list_elem_of_fmap in Hin as (x & -> & Hx).
    apply list_elem_of_lookup in Hx as (j & Hj).
    by destruct (child_page _ _ _ _ _ _ _ _ _ _ Hok Hj) as (_ & ? & _).
  - by destruct Hok as (_ & _ & ? & _).
Qed.

Lemma live_root_leaf D g t l :
  core D None g t -> pages t !! root_page_id t = Some (Leaf l) ->
  forall q p, pages t !! q = Some p -> q ∉ D -> q = root_page_id t.
Proof.
  intros Hc Hl q p Hq Hd.
  destruct (decide (q = root_page_id t)) as [|Hne]; [done|exfalso].
  destruct (live_depth_pos _ _ _ _ _ Hc Hq Hd Hne) as (n & _ & _ & _ & _ & Hlt).
  pose proof Hc as ((Hrd & _ & Hr0 & _) & _).
  destruct (core_page _ _ _ _ _ _ _ _ Hc Hl Hrd) as (_ & _ & _ & _ & Hh & _).
  lia.
Qed.

(** The root has one child left, which becomes the root. *)
Lemma adjust_collapse_core D g t t' R n k c pc :
  core D None g t -> sizes D (Some R) t -> R = root_page_id t ->
  pages t !! R = Some (Internal n) -> i_array n = [(k, c)] ->
  pages t !! c = Some pc -> 2 <= leaf_max_size ->
  root_page_id t' = c -> next_id t' = next_id t ->
  (forall q, pages t' !! q =
     if decide (q = c) then Some (SetParentPageId INVALID_PAGE_ID pc)
     else if decide (q = R) then Some (Internal (Internal.with_array [] n))
     else pages t !! q) ->
  core ({[R]} ∪ D) None (collapse_shape g) t'
  /\ sizes ({[R]} ∪ D) None t'
  /\ forall k v, entry ({[R]} ∪ D) t' k v <-> entry D t k v.
Proof.
  intros Hc Hs HR Hn Harr Hpc Hlm Hroot Hnext Hp'.
  pose proof Hc as ((Hrd & Hrp & Hr0 & Hrl & Hru) & _ & Hpages).
  rewrite <- HR in Hrd, Hrp, Hr0, Hrl, Hru. simpl in Hru.
  destruct (core_page _ _ _ _ _ _ _ _ Hc Hn Hrd) as (_ & _ & Hin).
  pose proof Hin as (_ & _ & _ & _ & _ & _ & _ & Hch).
  destruct (Hch 0%nat (k, c)) as (Hcd & Hcp & Hcdep & Hcl & Hcu); [by rewrite Harr|].
  simpl in *. rewrite Harr in Hcu. unfold next_key in Hcu. simpl in Hcu.
  rewrite Hrl in Hcl. rewrite Hru in Hcu. rewrite Hr0 in Hcdep.
  assert (HcR : c <> R) by (intros e; rewrite e in Hcdep; lia).
  pose proof (core_page _ _ _ _ _ _ _ _ Hc Hpc Hcd) as Hokc.
  assert (Hpos : forall q p, pages t !! q = Some p -> q ∉ D -> q <> R ->
            (1 <= depth g q)%nat).
  { intros q p Hq Hd Hne. rewrite HR in Hne.
    destruct (live_depth_pos _ _ _ _ _ Hc Hq Hd Hne) as (? & _ & _ & _ & -> & _). lia. }
  assert (Hkid : forall q nq (i : nat) kc, pages t !! q = Some (Internal nq) -> q ∉ D ->
            i_array nq !! i = Some kc ->
            (kc.2 ∉ D) /\ kc.2 <> R /\ parent_of t kc.2 = Some q
            /\ depth g kc.2 = S (depth g q)).
  { intros q nq i kc Hq Hd Hi.
    destruct (core_page _ _ _ _ _ _ _ _ Hc Hq Hd) as (_ & _ & Hok).
    pose proof Hok as (_ & _ & _ & _ & _ & _ & _ & Hchq).
    destruct (Hchq _ _ Hi) as (? & ? & Hdq & _). split_and!; try done.
    intros e. rewrite e in Hdq. lia. }
  assert (Hsame : forall q, q <> c -> q <> R -> pages t' !! q = pages t !! q).
  { intros q ??. rewrite Hp'. by rewrite !decide_False. }
  assert (Hc' : pages t' !! c = Some (SetParentPageId INVALID_PAGE_ID pc)).
  { rewrite Hp'. by rewrite decide_True. }
  assert (Hdead : forall q, q ∉ {[R]} ∪ D <-> q <> R /\ q ∉ D).
  { intros q. apply not_elem_of_dead. }
  assert (Hchild' : forall P0 q, P0 <> R -> is_child t P0 q -> is_child t' P0 q).
  { intros P0 q HP0 (n0 & Hn0 & Hq). unfold is_child. rewrite Hp'.
    destruct (decide (P0 = c)) as [->|].
    - rewrite Hpc in Hn0. injection Hn0 as ->. simpl. eexists. split; [done|done].
    - rewrite decide_False by done. by exists n0. }
  assert (Hpar' : forall q P0, q <> c -> q <> R -> parent_of t q = Some P0 ->
            parent_of t' q = Some P0).
  { intros q P0 ?? <-. apply parent_of_ext. by apply Hsame. }
  split_and!.
  - split; [|split; [done|]].
    + unfold root_ok. rewrite Hroot. unfold collapse_shape. simpl.
      split_and!; try done.
      * by apply Hdead.
      * unfold parent_of. rewrite Hc'. simpl. by rewrite GetParentPageId_Set.
      * by rewrite Hcdep.
    + intros q p Hq (HqR & Hqd)%Hdead.
      destruct (decide (q = c)) as [->|Hqc].
      * rewrite Hc' in Hq. injection Hq as <-.
        eapply page_ok_reparent; [exact Hokc|lia|by left| | |done|done|].
        -- unfold collapse_shape. simpl. lia.
        -- unfold collapse_shape. simpl. lia.
        -- intros nq i kc -> Hi _.
           destruct (Hkid _ _ _ _ Hpc Hcd Hi) as (? & ? & ? & Hd).
           unfold collapse_shape. simpl. split_and!; try done.
           ++ by apply Hdead.
           ++ apply Hpar'; try done. intros e. rewrite e in Hd. lia.
           ++ rewrite Hd, Hcdep. done.
      * rewrite Hsame in Hq by done.
        pose proof (core_page _ _ _ _ _ _ _ _ Hc Hq Hqd) as Hok.
        pose proof (Hpos _ _ Hq Hqd HqR) as Hqpos.
        eapply page_ok_transfer; [exact Hok|lia| | | |done|done|].
        -- destruct Hok as (_ & [e|[[o Ho]|[HPd Hchq]]] & _); [congruence|done|].
           right; right.
           assert (GetParentPageId p <> R).
           { intros e. rewrite e in Hchq. destruct Hchq as (n0 & Hn0 & Hqin).
             rewrite Hn in Hn0. injection Hn0 as <-. rewrite Harr in Hqin.
             simpl in Hqin. apply list_elem_of_singleton in Hqin. done. }
           split; [by apply Hdead|]. by apply Hchild'.
        -- unfold collapse_shape. simpl. lia.
        -- unfold collapse_shape. simpl. lia.
        -- intros nq i kc -> Hi _.
           destruct (Hkid _ _ _ _ Hq Hqd Hi) as (? & ? & Hkp & Hd).
           unfold collapse_shape. simpl. split_and!; try done.
           ++ by apply Hdead.
           ++ apply Hpar'; try done. intros e. rewrite e, Hcp in Hkp. congruence.
           ++ rewrite Hd. lia.
  - intros q p Hq (HqR & Hqd)%Hdead.
    assert (Hq0 : exists p0, pages t !! q = Some p0 /\
              (p = p0 \/ p = SetParentPageId INVALID_PAGE_ID p0)).
    { destruct (decide (q = c)) as [->|Hqc].
      - rewrite Hc' in Hq. injection Hq as <-. exists pc. auto.
      - rewrite Hsame in Hq by done. exists p. auto. }
    destruct Hq0 as (p0 & Hp0 & Hpp).
    pose proof (Hs _ _ Hp0 Hqd) as Hsz.
    assert (Hsz' : size_ok None t' q p0).
    { destruct p0 as [l|n0]; simpl in *.
      - rewrite Hroot. rewrite <- HR in Hsz. rewrite decide_False in Hsz by done.
        rewrite decide_False in Hsz by congruence.
        assert (1 <= leaf_max_size ÷ 2) by (apply Z.quot_le_lower_bound; lia).
        destruct (decide (q = c)); [right|]; lia.
      - rewrite decide_False in Hsz by congruence. done. }
    destruct Hpp as [-> | ->]; [done|]. by destruct p0.
  - apply entry_same.
    + intros q ?. apply elem_of_union. by right.
    + intros q (HqR & Hqd)%Hdead.
      destruct (decide (q = c)) as [->|Hqc].
      * rewrite Hc', Hpc. apply leaf_entries_Set.
      * by rewrite Hsame.
    + intros q Hqd [e%elem_of_singleton|?]%elem_of_union; [|done].
      by rewrite e, Hn.
Qed.

(** The pages scheduled for deletion leave the store. *)
Lemma core_delete D g t t' :
  core D None g t ->
  root_page_id t' = root_page_id t -> next_id t' = next_id t ->
  (forall q, pages t' !! q = if decide (q ∈ D) then None else pages t !! q) ->
  core ∅ None g t'
  /\ (sizes D None t -> sizes ∅ None t')
  /\ forall k v, entry ∅ t' k v <-> entry D t k v.
Proof.
  intros Hc Hroot Hnext Hp'.
  assert (Hsame : forall q, q ∉ D -> pages t' !! q = pages t !! q).
  { intros q ?. rewrite Hp'. by rewrite decide_False. }
  assert (Hgone : forall q, q ∈ D -> pages t' !! q = None).
  { intros q ?. rewrite Hp'. by rewrite decide_True. }
  split_and!.
  - apply (core_frame _ _ D D ∅ g g t t'); try done.
    + intros q p Hq Hp. rewrite Hgone in Hp; done.
    + intros Hr. by destruct Hc as ((? & _) & _).
  - intros Hs. apply (sizes_frame _ D D ∅ None None t t' Hs); try done.
    intros q p Hq Hp. rewrite Hgone in Hp; done.
  - intros k v. rewrite !entry_leaf_entries.
    split; intros (L & a & Hd & HL & Hin).
    + destruct (decide (L ∈ D)) as [HLD|HLD].
      * rewrite Hgone in HL by done. done.
      * exists L, a. by rewrite <- Hsame.
    + exists L, a. rewrite Hsame by done. split_and!; try done.
Qed.

End RootMoves.

Lemma fold_free_page ps : forall t D,
  let r := fold_left free_page ps (t, D) in
  root_page_id r.1 = root_page_id t /\ next_id r.1 = next_id t
  /\ (forall q, pages r.1 !! q =
        if decide (q ∈ D /\ q ∈ ps) then None else pages t !! q)
  /\ (forall q, q ∈ r.2 <-> q ∈ D /\ q ∉ ps).
Proof.
  induction ps as [|a ps IH]; intros t D; simpl.
  - split_and!; try done.
    + intros q. rewrite decide_False; [done|]. intros [_ H]. by apply elem_of_nil in H.
    + intros q. split; [|tauto]. intros ?. split; [done|]. apply not_elem_of_nil.
  - destruct (decide (a ∈ D)) as [Ha|Ha].
    + destruct (IH (DeletePage a t) (D ∖ {[a]})) as (Hr & Hn & Hp & Hd).
      simpl in *. split_and!; try done.
      * intros q. rewrite Hp. simpl.
        destruct (decide (q = a)) as [->|Hqa].
        -- rewrite (decide_True (P := a ∈ D /\ a ∈ a :: ps)) by (split; [done|left]).
           destruct (decide _); [done|]. apply lookup_delete_eq.
        -- rewrite lookup_delete_ne by done.
           destruct (decide (q ∈ D ∖ {[a]} /\ q ∈ ps)) as [[H1 H2]|Hn1].
           ++ rewrite decide_True; [done|]. split; [set_solver|by right].
           ++ rewrite decide_False; [done|]. intros [H1 H2]. apply Hn1.
              apply elem_of_cons in H2 as [?|?]; [done|]. split; [set_solver|done].
      * intros q. rewrite Hd. rewrite not_elem_of_cons. set_solver.
    + destruct (IH t D) as (Hr & Hn & Hp & Hd).
      simpl in *. split_and!; try done.
      * intros q. rewrite Hp.
        destruct (decide (q ∈ D /\ q ∈ ps)) as [[H1 H2]|Hn1].
        -- rewrite decide_True; [done|]. split; [done|by right].
        -- rewrite decide_False; [done|]. intros [H1 H2]. apply Hn1.
           apply elem_of_cons in H2 as [->|?]; done.
      * intros q. rewrite Hd. rewrite not_elem_of_cons. split.
        -- intros [? ?]. split_and!; try done. intros ->. done.
        -- tauto.
Qed.

Lemma FreePages_deleted ex x prev t :
  (forall q, q ∈ deleted_page_set x -> q ∈ page_set x) ->
  exists t',
    FreePagesInTransaction ex (Some x) prev t = Val (t', Some (mkTxn [] ∅))
    /\ root_page_id t' = root_page_id t /\ next_id t' = next_id t
    /\ forall q, pages t' !! q =
         if decide (q ∈ deleted_page_set x) then None else pages t !! q.
Proof.
  intros Hsub. unfold FreePagesInTransaction.
  pose proof (fold_free_page (page_set x) t (deleted_page_set x)) as H.
  destruct (fold_left free_page (page_set x) (t, deleted_page_set x)) as [t1 d1].
  simpl in H. destruct H as (Hr & Hn & Hp & Hd).
  assert (d1 = ∅) as ->.
  { apply set_eq. intros q. rewrite Hd. split; [|set_solver].
    intros [H1 H2]. exfalso. by apply H2, Hsub. }
  rewrite bool_decide_eq_true_2 by done. simpl.
  exists t1. split_and!; try done.
  intros q. rewrite Hp. destruct (decide (q ∈ deleted_page_set x)) as [Hq|Hq].
  - rewrite decide_True; [done|]. split; [done|by apply Hsub].
  - rewrite decide_False; [done|]. tauto.
Qed.

(** ** [Coalesce] and [Redistribute] on a well-formed index *)

Import BPT.

Section Steps.
Variables leaf_max_size internal_max_size : Z.
Notation core := (core leaf_max_size internal_max_size).
Notation page_ok := (page_ok leaf_max_size internal_max_size).
Notation internal_ok := (internal_ok internal_max_size).
Notation internal_ok_upto := (internal_ok_upto internal_max_size).
Notation leaf_ok := (leaf_ok leaf_max_size).
Notation sizes := (sizes leaf_max_size).
Notation size_ok := (size_ok leaf_max_size).

Lemma merge_step D g t N P nP (r : nat) kl left kr right pl pr :
  core D None g t -> sizes D (Some N) t -> N = left \/ N = right ->
  P ∉ D -> pages t !! P = Some (Internal nP) ->
  i_array nP !! r = Some (kl, left) -> i_array nP !! S r = Some (kr, right) ->
  pages t !! left = Some pl -> pages t !! right = Some pr ->
  GetSize pl + GetSize pr <= GetMaxSize pl ->
  exists t2,
    MoveAllTo left (Z.of_nat (S r)) right t = Val t2
    /\ pages t2 !! P = Some (Internal nP)
    /\ forall t3,
         t3 = put P (Internal (Internal.with_array
                       (remove_at (Z.of_nat (S r)) (i_array nP)) nP)) t2 ->
         core ({[right]} ∪ D) None (merge_shape left right g) t3
         /\ sizes ({[right]} ∪ D) (Some P) t3
         /\ (forall k v, entry ({[right]} ∪ D) t3 k v <-> entry D t k v)
         /\ root_page_id t3 = root_page_id t /\ next_id t3 = next_id t
         /\ (forall q, (depth g q < depth g P)%nat -> pages t3 !! q = pages t !! q).
Proof.
  intros Hc Hs HN HPd HP Hl Hr Hpl Hpr Hsize.
  destruct (adjacent_facts _ _ _ _ _ _ _ _ _ _ _ _ Hc HPd HP Hl Hr)
    as (Hin & Hlrne & HlP & HrP & Hld & Hrd & (pl' & Hpl' & Hplp) & (pr' & Hpr' & Hprp)
        & Hldep & Hrdep & Hlu & Hrl & Hlo & Hru & Hsa & Hbl).
  rewrite Hpl in Hpl'. injection Hpl' as <-. rewrite Hpr in Hpr'. injection Hpr' as <-.
  pose proof (core_page _ _ _ _ _ _ _ _ Hc Hpl Hld) as Hokl.
  pose proof (core_page _ _ _ _ _ _ _ _ Hc Hpr Hrd) as Hokr.
  assert (Hleaf : IsLeafPage pl = IsLeafPage pr).
  { destruct (IsLeafPage pl) eqn:E1, (IsLeafPage pr) eqn:E2; try done.
    - apply (page_depth_leaf _ _ _ _ _ _ _ _ Hokl) in E1.
      assert (depth g right = height g) as E by lia.
      apply (page_depth_leaf _ _ _ _ _ _ _ _ Hokr) in E. congruence.
    - apply (page_depth_leaf _ _ _ _ _ _ _ _ Hokr) in E2.
      assert (depth g left = height g) as E by lia.
      apply (page_depth_leaf _ _ _ _ _ _ _ _ Hokl) in E. congruence. }
  assert (HU : Some N = Some left \/ Some N = Some right)
    by (destruct HN as [-> | ->]; auto).
  assert (Hdeep : forall q, (depth g q < depth g P)%nat ->
            q <> P /\ q <> left /\ q <> right).
  { intros q Hq. split_and!; intros e; rewrite e in Hq; lia. }
  destruct pl as [ll|nl]; destruct pr as [lr|nr]; try done; simpl in *.
  - (* two leaves *)
    rewrite (MoveAllTo_leaf_spec left _ right t ll lr Hpr Hpl).
    eexists. split; [done|]. split.
    { rewrite !pages_put. by rewrite !decide_False. }
    intros t3 ->.
    set (l' := mkLeaf (l_max_size ll) (l_parent_page_id ll) (l_page_id ll)
                 (next_page_id lr) (l_array ll ++ l_array lr)).
    destruct Hokl as (_ & _ & _ & Hmaxl & _).
    destruct (leaf_merge_core _ _ D (Some N) g t
                (put P (Internal (Internal.with_array
                   (remove_at (Z.of_nat (S r)) (i_array nP)) nP))
                   (put left (Leaf l') (put right (Leaf (Leaf.with_array [] lr)) t)))
                P nP r kl left kr right ll lr l' Hc Hs HU HPd HP Hl Hr Hpl Hpr)
      as (H1 & H2 & H3); try done.
    + simpl. rewrite length_app. lia.
    + rewrite !pages_put. by rewrite decide_True.
    + rewrite !pages_put. rewrite decide_False by done. by rewrite decide_True.
    + intros q ???. rewrite !pages_put. by rewrite !decide_False.
    + split_and!; try done.
      intros q (? & ? & ?)%Hdeep. rewrite !pages_put. by rewrite !decide_False.
  - (* two internal pages *)
    destruct (combined_internal _ _ _ _ _ _ _ _ _ _ _ _ _ _ _ Hc Hs HPd HP Hl Hr Hpl Hpr)
      as (Hslots & Hlenl & Hlenr & Hparl & Hparr & Hkids).
    destruct Hokl as (_ & _ & Hinl). destruct Hokr as (_ & _ & Hinr).
    pose proof Hinl as (Hlid & Hmaxl & _).
    pose proof Hinr as (_ & _ & _ & _ & _ & _ & Hheadr & _).
    specialize (Hheadr _ Hrl).
    assert (exists c0 rest, i_array nr = (kr, c0) :: rest) as (c0 & rest & Harr).
    { destruct (i_array nr) as [|[k0 c0] rest]; [done|].
      simpl in Hheadr. injection Hheadr as ->. by exists c0, rest. }
    clear Hheadr.
    assert (HinA : forall c, c ∈ (i_array nr).*2 -> c ∈ (i_array nl ++ i_array nr).*2).
    { intros c ?. rewrite fmap_app. apply elem_of_app. by right. }
    destruct (MoveAllTo_internal_spec left (S r) right t nl nr nP (kr, right) kr c0 rest)
      as (t2 & -> & Hroot2 & Hnext2 & Hp2); try done.
    { by rewrite Hprp. }
    { intros c Hcin. destruct (Hkids c) as (? & ? & ? & ? & ? & pc & Hpc & _).
      - by apply HinA.
      - split_and!; done. }
    assert (HP2 : pages t2 !! P = Some (Internal nP)).
    { rewrite Hp2. rewrite !decide_False by done.
      rewrite decide_False; [done|]. intros Hin'.
      destruct (Hkids P) as (? & _); [|done]. by apply HinA. }
    eexists. split; [done|]. split; [done|].
    intros t3 ->.
    assert (Hkidsl : forall c, c ∈ (i_array nl).*2 -> c ∉ (i_array nr).*2).
    { intros c H1 H2. specialize (Hparl _ H1). specialize (Hparr _ H2). congruence. }
    destruct (internal_merge_core _ _ D (Some N) g t
                (put P (Internal (Internal.with_array
                   (remove_at (Z.of_nat (S r)) (i_array nP)) nP)) t2)
                P nP r kl left kr right nl nr Hc Hs HU HPd HP Hl Hr Hpl Hpr)
      as (H1 & H2 & H3); try done.
    + rewrite length_app. lia.
    + rewrite !pages_put. by rewrite decide_True.
    + rewrite !pages_put. rewrite decide_False by done. rewrite Hp2.
      rewrite decide_False by done. rewrite decide_True by done. simpl. by rewrite Harr.
    + intros c Hcin. destruct (Hkids c Hcin) as (? & ? & ? & ? & ? & pc & Hpc & _).
      rewrite pages_put, decide_False by done. rewrite Hp2.
      rewrite !decide_False by done. simpl. rewrite Hlid.
      rewrite fmap_app in Hcin. apply elem_of_app in Hcin as [Hcin|Hcin].
      * rewrite decide_False by (by apply Hkidsl).
        rewrite Hpc. simpl. f_equal.
        specialize (Hparl _ Hcin). unfold parent_of in Hparl. rewrite Hpc in Hparl.
        simpl in Hparl. injection Hparl as <-. by rewrite SetParentPageId_id.
      * rewrite decide_True by done. done.
    + intros q ??? Hqn. rewrite pages_put, decide_False by done. rewrite Hp2.
      rewrite !decide_False; try done.
      intros Hq. apply Hqn. by apply HinA.
    + split_and!; try done.
      intros q Hq. pose proof (Hdeep q Hq) as (? & ? & ?).
      rewrite pages_put, decide_False by done. rewrite Hp2.
      rewrite !decide_False; try done.
      intros Hq'. destruct (Hkids q) as (_ & _ & _ & _ & Hd & _); [|lia].
      by apply HinA.
Qed.

Lemma half_bounds (m : Z) : 0 <= m -> 2 * (m ÷ 2) <= m < 2 * (m ÷ 2) + 2.
Proof.
  intros Hm. rewrite Z.quot_div_nonneg by lia.
  pose proof (Z.div_mod m 2 ltac:(lia)). pose proof (Z.mod_pos_bound m 2 ltac:(lia)). lia.
Qed.

Lemma redistribute_leaf_first D g t N S P nP kN kS ln ls :
  core D None g t -> sizes D (Some N) t ->
  P ∉ D -> pages t !! P = Some (Internal nP) ->
  i_array nP !! 0%nat = Some (kN, N) -> i_array nP !! 1%nat = Some (kS, S) ->
  pages t !! N = Some (Leaf ln) -> pages t !! S = Some (Leaf ls) ->
  Z.of_nat (length (l_array ln)) < leaf_max_size ÷ 2 ->
  Z.of_nat (length (l_array ln)) + Z.of_nat (length (l_array ls)) > leaf_max_size ->
  exists t2 g',
    Leaf_MoveFirstToEndOf N S t = Val t2
    /\ core D None g' t2 /\ sizes D None t2
    /\ (forall k v, entry D t2 k v <-> entry D t k v)
    /\ height g' = height g
    /\ root_page_id t2 = root_page_id t /\ next_id t2 = next_id t.
Proof.
  intros Hc Hs HPd HP HiN HiS HN HS Hlow Hsum.
  destruct (adjacent_facts _ _ _ _ _ _ _ _ _ _ _ _ Hc HPd HP HiN HiS)
    as (Hin & Hlrne & HlP & HrP & Hld & Hrd & (pl' & Hpl' & Hplp) & (pr' & Hpr' & Hprp)
        & _).
  rewrite HN in Hpl'. injection Hpl' as <-. rewrite HS in Hpr'. injection Hpr' as <-.
  simpl in Hplp, Hprp.
  pose proof (core_page _ _ _ _ _ _ _ _ Hc HN Hld) as (_ & _ & HNid & HNmax & _ & _ & _ & HNlen).
  pose proof (core_page _ _ _ _ _ _ _ _ Hc HS Hrd) as (_ & _ & HSid & HSmax & _ & _ & _ & HSlen).
  pose proof (Hs _ _ HN Hld) as HszN. pose proof (Hs _ _ HS Hrd) as HszS.
  pose proof Hc as ((_ & _ & Hr0 & _) & _).
  destruct (child_page _ _ _ _ _ _ _ _ _ _ Hin HiN) as (_ & HNdep & _).
  destruct (child_page _ _ _ _ _ _ _ _ _ _ Hin HiS) as (_ & HSdep & _).
  simpl in HszN, HszS, HNdep, HSdep.
  rewrite decide_False in HszN by (intros e; rewrite <- e in Hr0; lia).
  rewrite decide_False in HszS by (intros e; rewrite <- e in Hr0; lia).
  rewrite decide_True in HszN by done. rewrite decide_False in HszS by congruence.
  pose proof (half_bounds leaf_max_size ltac:(lia)) as Hh.
  destruct (l_array ls) as [|x0 [|x1 rest]] eqn:Hls; simpl in *; try lia.
  rewrite (Leaf_MoveFirstToEndOf_spec N S t ls ln nP x0 x1 rest 1 (kS, S)); try done.
  2: { unfold Leaf.GetSize. lia. }
  2: { by rewrite Hprp. }
  2: { rewrite HSid. by eapply ValueIndex_child. }
  rewrite Hprp. simpl.
  eexists. exists (shift_shape N S x1.1 g). split; [done|].
  set (l1 := Leaf.with_array (l_array ln ++ [x0]) ln).
  set (l2 := Leaf.with_array (x1 :: rest) ls).
  match goal with |- core _ _ _ ?t' /\ _ => set (t2 := t') end.
  destruct (leaf_shift_core _ _ D (Some N) g t t2 P nP 0 kN N kS S ln ls l1 l2 x1 rest
              Hc Hs) as (H1 & H2 & H3); try done.
  - by left.
  - simpl. rewrite Hls. by rewrite <- app_assoc.
  - simpl. by destruct (l_array ln).
  - simpl. rewrite length_app. simpl. lia.
  - simpl. lia.
  - unfold t2. rewrite !pages_put. by rewrite decide_True.
  - unfold t2. rewrite !pages_put. by dsimp.
  - unfold t2. rewrite !pages_put. by dsimp.
  - intros q ???. unfold t2. rewrite !pages_put. by dsimp.
Qed.

Lemma redistribute_leaf_last D g t N S P nP (r : nat) kN kS ln ls :
  core D None g t -> sizes D (Some N) t ->
  P ∉ D -> pages t !! P = Some (Internal nP) ->
  i_array nP !! r = Some (kS, S) -> i_array nP !! Datatypes.S r = Some (kN, N) ->
  pages t !! N = Some (Leaf ln) -> pages t !! S = Some (Leaf ls) ->
  Z.of_nat (length (l_array ln)) < leaf_max_size ÷ 2 ->
  Z.of_nat (length (l_array ln)) + Z.of_nat (length (l_array ls)) > leaf_max_size ->
  exists t2 g',
    Leaf_MoveLastToFrontOf N (Z.of_nat (Datatypes.S r)) S t = Val t2
    /\ core D None g' t2 /\ sizes D None t2
    /\ (forall k v, entry D t2 k v <-> entry D t k v)
    /\ height g' = height g
    /\ root_page_id t2 = root_page_id t /\ next_id t2 = next_id t.
Proof.
  intros Hc Hs HPd HP HiS HiN HN HS Hlow Hsum.
  destruct (adjacent_facts _ _ _ _ _ _ _ _ _ _ _ _ Hc HPd HP HiS HiN)
    as (Hin & Hlrne & HlP & HrP & Hld & Hrd & (pl' & Hpl' & Hplp) & (pr' & Hpr' & Hprp)
        & _).
  rewrite HS in Hpl'. injection Hpl' as <-. rewrite HN in Hpr'. injection Hpr' as <-.
  simpl in Hplp, Hprp.
  pose proof (core_page _ _ _ _ _ _ _ _ Hc HN Hrd) as (_ & _ & HNid & HNmax & _ & _ & _ & HNlen).
  pose proof (core_page _ _ _ _ _ _ _ _ Hc HS Hld) as (_ & _ & HSid & HSmax & _ & _ & _ & HSlen).
  pose proof (Hs _ _ HN Hrd) as HszN. pose proof (Hs _ _ HS Hld) as HszS.
  pose proof Hc as ((_ & _ & Hr0 & _) & _).
  destruct (child_page _ _ _ _ _ _ _ _ _ _ Hin HiN) as (_ & HNdep & _).
  destruct (child_page _ _ _ _ _ _ _ _ _ _ Hin HiS) as (_ & HSdep & _).
  simpl in HszN, HszS, HNdep, HSdep.
  rewrite decide_False in HszN by (intros e; rewrite <- e in Hr0; lia).
  rewrite decide_False in HszS by (intros e; rewrite <- e in Hr0; lia).
  rewrite decide_True in HszN by done. rewrite decide_False in HszS by congruence.
  pose proof (half_bounds leaf_max_size ltac:(lia)) as Hh.
  set (m := (length (l_array ls) - 1)%nat).
  destruct (lookup_lt_is_Some_2 (l_array ls) m) as [xm Hxm]; [unfold m; lia|].
  assert (Hsplit : l_array ls = take m (l_array ls) ++ [xm]).
  { rewrite <- (take_drop m (l_array ls)) at 1. f_equal.
    apply list_eq. intros j. rewrite lookup_drop.
    destruct j as [|j]; simpl.
    - by rewrite Nat.add_0_r.
    - rewrite lookup_ge_None_2; [done|]. unfold m. lia. }
  rewrite (Leaf_MoveLastToFrontOf_spec N (Datatypes.S r) S t ls ln nP xm (kN, N)); try done.
  2: { by rewrite Hprp. }
  rewrite Hprp. simpl. fold m.
  eexists. exists (shift_shape S N xm.1 g). split; [done|].
  set (l1 := Leaf.with_array (take m (l_array ls)) ls).
  set (l2 := Leaf.with_array (xm :: l_array ln) ln).
  match goal with |- core _ _ _ ?t' /\ _ => set (t2 := t') end.
  destruct (leaf_shift_core _ _ D (Some N) g t t2 P nP r kS S kN N ls ln l1 l2 xm
              (l_array ln) Hc Hs) as (H1 & H2 & H3); try done.
  - by right.
  - simpl. rewrite Hsplit at 1. by rewrite <- app_assoc.
  - simpl. intros e. apply (f_equal length) in e. rewrite length_take in e.
    simpl in e. unfold m in e. lia.
  - simpl. rewrite length_take. unfold m. lia.
  - simpl. lia.
  - unfold t2. rewrite !pages_put. by rewrite decide_True.
  - unfold t2. rewrite !pages_put. by dsimp.
  - unfold t2. rewrite !pages_put. by dsimp.
  - intros q ???. unfold t2. rewrite !pages_put. by dsimp.
Qed.

Lemma redistribute_internal_first D g t N S P nP kN kS nn ns :
  3 <= internal_max_size ->
  core D None g t -> sizes D (Some N) t ->
  P ∉ D -> pages t !! P = Some (Internal nP) ->
  i_array nP !! 0%nat = Some (kN, N) -> i_array nP !! 1%nat = Some (kS, S) ->
  pages t !! N = Some (Internal nn) -> pages t !! S = Some (Internal ns) ->
  Z.of_nat (length (i_array nn)) <= internal_max_size ÷ 2 ->
  Z.of_nat (length (i_array nn)) + Z.of_nat (length (i_array ns)) > internal_max_size ->
  exists t2 g',
    Internal_MoveFirstToEndOf N S t = Val t2
    /\ core D None g' t2 /\ sizes D None t2
    /\ (forall k v, entry D t2 k v <-> entry D t k v)
    /\ height g' = height g
    /\ root_page_id t2 = root_page_id t /\ next_id t2 = next_id t.
Proof.
  intros Him Hc Hs HPd HP HiN HiS HN HS Hlow Hsum.
  destruct (adjacent_facts _ _ _ _ _ _ _ _ _ _ _ _ Hc HPd HP HiN HiS)
    as (Hin & Hlrne & HlP & HrP & Hld & Hrd & (pl' & Hpl' & Hplp) & (pr' & Hpr' & Hprp)
        & _).
  rewrite HN in Hpl'. injection Hpl' as <-. rewrite HS in Hpr'. injection Hpr' as <-.
  simpl in Hplp, Hprp.
  destruct (combined_internal _ _ _ _ _ _ _ _ _ _ _ _ _ _ _ Hc Hs HPd HP HiN HiS HN HS)
    as (Hslots & Hlenl & Hlenr & Hparl & Hparr & Hkids).
  pose proof (core_page _ _ _ _ _ _ _ _ Hc HN Hld) as (_ & _ & HinN).
  pose proof (core_page _ _ _ _ _ _ _ _ Hc HS Hrd) as (_ & _ & HinS).
  pose proof HinN as (HNid & HNmax & _ & _ & _ & HNlen & _).
  pose proof HinS as (HSid & HSmax & _ & _ & _ & HSlen & _).
  pose proof (half_bounds internal_max_size ltac:(lia)) as Hh.
  pose proof (children_NoDup _ _ _ _ _ _ _ _ HinS) as HndS.
  destruct (i_array ns) as [|[k0 v0] [|[k1 c1] rest]] eqn:Hns; simpl in *; try lia.
  destruct (Hkids v0) as (Hv0P & Hv0N & Hv0S & Hv0d & _ & pc & Hpc & _).
  { rewrite fmap_app. apply elem_of_app. right. simpl. left. }
  rewrite (Internal_MoveFirstToEndOf_spec N S t ns nn nP k0 v0 (k1, c1) rest pc 1 (kS, S));
    try done.
  2: { unfold Internal.GetSize. lia. }
  2: { by rewrite Hprp. }
  2-4: rewrite Hprp; congruence.
  2: { rewrite HSid. by eapply ValueIndex_child. }
  rewrite Hprp, HNid. simpl.
  eexists. exists (shift_shape N S k1 g). split; [done|].
  match goal with |- core _ _ _ ?t' /\ _ => set (t2 := t') end.
  assert (Hv0rest : v0 ∉ (((k1, c1) :: rest).*2 : list Z)).
  { simpl in HndS. by apply NoDup_cons in HndS as [? _]. }
  assert (Hv0nn : v0 ∉ (i_array nn).*2).
  { intros Hv. specialize (Hparl _ Hv). specialize (Hparr v0 ltac:(left)). congruence. }
  destruct (internal_shift_core _ _ D (Some N) g t t2 P nP 0 kN N kS S nn ns
              (i_array nn ++ [(k0, v0)]) ((k1, c1) :: rest) k1 c1 rest Hc Hs)
    as (H1 & H2 & H3); try done.
  - by left.
  - rewrite Hns. by rewrite <- app_assoc.
  - rewrite length_app. simpl. lia.
  - simpl. lia.
  - rewrite length_app. simpl. lia.
  - simpl. lia.
  - unfold t2. rewrite !pages_put. by rewrite decide_True.
  - unfold t2. rewrite !pages_put. by dsimp.
  - unfold t2. rewrite !pages_put. by dsimp.
  - intros c Hcin. unfold t2. rewrite !pages_put.
    rewrite fmap_app in Hcin. apply elem_of_app in Hcin as [Hcin|Hcin].
    + destruct (Hkids c) as (? & ? & ? & _ & _ & pcc & Hpcc & _).
      { rewrite fmap_app. apply elem_of_app. by left. }
      assert (c <> v0) by (intros ->; done).
      dsimp. rewrite Hpcc. simpl. f_equal.
      specialize (Hparl _ Hcin). unfold parent_of in Hparl. rewrite Hpcc in Hparl.
      simpl in Hparl. injection Hparl as <-. by rewrite SetParentPageId_id.
    + simpl in Hcin. apply list_elem_of_singleton in Hcin as ->.
      rewrite decide_False by congruence. rewrite decide_True by done. by rewrite Hpc.
  - intros c Hcin. unfold t2. rewrite !pages_put.
    destruct (Hkids c) as (? & ? & ? & _ & _ & pcc & Hpcc & _).
    { rewrite fmap_app. apply elem_of_app. right. simpl. by right. }
    assert (c <> v0) by (intros ->; done).
    rewrite !decide_False by congruence. rewrite Hpcc. simpl. f_equal.
    assert (Hp : parent_of t c = Some S) by (apply Hparr; simpl; by right).
    unfold parent_of in Hp. rewrite Hpcc in Hp.
    simpl in Hp. injection Hp as <-. by rewrite SetParentPageId_id.
  - intros q ??? Hqn. unfold t2. rewrite !pages_put.
    assert (q <> v0).
    { intros ->. apply Hqn. rewrite fmap_app. apply elem_of_app. left.
      rewrite fmap_app. apply elem_of_app. right. simpl. left. }
    by rewrite !decide_False by congruence.
Qed.

Lemma redistribute_internal_last D g t N S P nP (r : nat) kN kS nn ns :
  3 <= internal_max_size ->
  core D None g t -> sizes D (Some N) t ->
  P ∉ D -> pages t !! P = Some (Internal nP) ->
  i_array nP !! r = Some (kS, S) -> i_array nP !! Datatypes.S r = Some (kN, N) ->
  pages t !! N = Some (Internal nn) -> pages t !! S = Some (Internal ns) ->
  Z.of_nat (length (i_array nn)) <= internal_max_size ÷ 2 ->
  Z.of_nat (length (i_array nn)) + Z.of_nat (length (i_array ns)) > internal_max_size ->
  exists t2 g',
    Internal_MoveLastToFrontOf N (Z.of_nat (Datatypes.S r)) S t = Val t2
    /\ core D None g' t2 /\ sizes D None t2
    /\ (forall k v, entry D t2 k v <-> entry D t k v)
    /\ height g' = height g
    /\ root_page_id t2 = root_page_id t /\ next_id t2 = next_id t.
Proof.
  intros Him Hc Hs HPd HP HiS HiN HN HS Hlow Hsum.
  destruct (adjacent_facts _ _ _ _ _ _ _ _ _ _ _ _ Hc HPd HP HiS HiN)
    as (Hin & Hlrne & HlP & HrP & Hld & Hrd & (pl' & Hpl' & Hplp) & (pr' & Hpr' & Hprp)
        & _).
  rewrite HS in Hpl'. injection Hpl' as <-. rewrite HN in Hpr'. injection Hpr' as <-.
  simpl in Hplp, Hprp.
  destruct (combined_internal _ _ _ _ _ _ _ _ _ _ _ _ _ _ _ Hc Hs HPd HP HiS HiN HS HN)
    as (Hslots & Hlenl & Hlenr & Hparl & Hparr & Hkids).
  pose proof (core_page _ _ _ _ _ _ _ _ Hc HN Hrd) as (_ & _ & HinN).
  pose proof (core_page _ _ _ _ _ _ _ _ Hc HS Hld) as (_ & _ & HinS).
  pose proof HinN as (HNid & HNmax & _ & _ & _ & HNlen & _).
  pose proof HinS as (HSid & HSmax & _ & _ & _ & HSlen & _).
  pose proof (half_bounds internal_max_size ltac:(lia)) as Hh.
  pose proof (children_NoDup _ _ _ _ _ _ _ _ HinS) as HndS.
  set (m := (length (i_array ns) - 1)%nat).
  destruct (lookup_lt_is_Some_2 (i_array ns) m) as [[k v] Hxm]; [unfold m; lia|].
  assert (Hsplit : i_array ns = take m (i_array ns) ++ [(k, v)]).
  { rewrite <- (take_drop m (i_array ns)) at 1. f_equal.
    apply list_eq. intros j. rewrite lookup_drop.
    destruct j as [|j]; simpl.
    - by rewrite Nat.add_0_r.
    - rewrite lookup_ge_None_2; [done|]. unfold m. lia. }
  assert (Hvin : v ∈ (i_array ns).*2).
  { apply list_elem_of_fmap. exists (k, v). split; [done|]. by eapply list_elem_of_lookup_2. }
  destruct (Hkids v) as (HvP & HvS & HvN & Hvd & _ & pc & Hpc & _).
  { rewrite fmap_app. apply elem_of_app. by left. }
  rewrite (Internal_MoveLastToFrontOf_spec N (Datatypes.S r) S t ns nn nP k v pc (kN, N));
    try done.
  2: { by rewrite Hprp. }
  2-4: rewrite Hprp; congruence.
  rewrite Hprp, HNid. simpl. fold m.
  eexists. exists (shift_shape S N k g). split; [done|].
  match goal with |- core _ _ _ ?t' /\ _ => set (t2 := t') end.
  assert (Hvtake : v ∉ (take m (i_array ns)).*2).
  { rewrite Hsplit in HndS. rewrite fmap_app in HndS.
    apply NoDup_app in HndS as (_ & Hd & _). intros Hv. apply (Hd v Hv). simpl. left. }
  assert (Hvnn : v ∉ (i_array nn).*2).
  { intros Hv. specialize (Hparr _ Hv). specialize (Hparl v Hvin). congruence. }
  destruct (internal_shift_core _ _ D (Some N) g t t2 P nP r kS S kN N ns nn
              (take m (i_array ns)) ((k, v) :: i_array nn) k v (i_array nn) Hc Hs)
    as (H1 & H2 & H3); try done.
  - by right.
  - rewrite Hsplit at 1. by rewrite <- app_assoc.
  - rewrite length_take. unfold m. lia.
  - simpl. lia.
  - rewrite length_take. unfold m. lia.
  - simpl. lia.
  - unfold t2. rewrite !pages_put. by rewrite decide_True.
  - unfold t2. rewrite !pages_put. by dsimp.
  - unfold t2. rewrite !pages_put. by dsimp.
  - intros c Hcin. unfold t2. rewrite !pages_put.
    assert (Hcin' : c ∈ (i_array ns).*2).
    { rewrite Hsplit, fmap_app. apply elem_of_app. by left. }
    destruct (Hkids c) as (? & ? & ? & _ & _ & pcc & Hpcc & _).
    { rewrite fmap_app. apply elem_of_app. by left. }
    assert (c <> v) by (intros ->; done).
    rewrite !decide_False by congruence. rewrite Hpcc. simpl. f_equal.
    specialize (Hparl _ Hcin'). unfold parent_of in Hparl. rewrite Hpcc in Hparl.
    simpl in Hparl. injection Hparl as <-. by rewrite SetParentPageId_id.
  - intros c Hcin. unfold t2. rewrite !pages_put.
    simpl in Hcin. apply elem_of_cons in Hcin as [->|Hcin].
    + rewrite decide_False by congruence. rewrite decide_True by done. by rewrite Hpc.
    + destruct (Hkids c) as (? & ? & ? & _ & _ & pcc & Hpcc & _).
      { rewrite fmap_app. apply elem_of_app. by right. }
      assert (c <> v) by (intros ->; done).
      rewrite !decide_False by congruence. rewrite Hpcc. simpl. f_equal.
      specialize (Hparr _ Hcin). unfold parent_of in Hparr. rewrite Hpcc in Hparr.
      simpl in Hparr. injection Hparr as <-. by rewrite SetParentPageId_id.
  - intros q ??? Hqn. unfold t2. rewrite !pages_put.
    assert (q <> v).
    { intros ->. apply Hqn. rewrite fmap_app. apply elem_of_app. right. simpl. left. }
    by rewrite !decide_False by congruence.
Qed.

End Steps.

(** ** [CoalesceOrRedistribute] and [Remove] *)

Import BPT.

Section RemoveSpec.
Variables leaf_max_size internal_max_size : Z.
Hypothesis Hlm : 1 <= leaf_max_size.
Hypothesis Him : 3 <= internal_max_size.
Notation core := (core leaf_max_size internal_max_size).
Notation page_ok := (page_ok leaf_max_size internal_max_size).
Notation internal_ok := (internal_ok internal_max_size).
Notation internal_ok_upto := (internal_ok_upto internal_max_size).
Notation leaf_ok := (leaf_ok leaf_max_size).
Notation sizes := (sizes leaf_max_size).
Notation size_ok := (size_ok leaf_max_size).
Notation wf := (wf leaf_max_size internal_max_size).

Lemma not_root_page D g t q p :
  core D None g t -> pages t !! q = Some p -> q ∉ D ->
  GetParentPageId p <> INVALID_PAGE_ID -> IsRootPage p = false.
Proof. intros _ _ _ H. unfold IsRootPage. by rewrite bool_decide_eq_false_2. Qed.

Lemma live_parent_valid D g t P n :
  core D None g t -> pages t !! P = Some (Internal n) -> P ∉ D ->
  P <> INVALID_PAGE_ID.
Proof.
  intros Hc HP Hd e. pose proof (core_page_lt _ _ _ _ _ _ _ _ Hc HP Hd) as Hlt.
  rewrite e in Hlt. unfold INVALID_PAGE_ID in Hlt. lia.
Qed.

Lemma shift_step D g t N p P nP (i : nat) kN kS S pS :
  core D None g t -> sizes D (Some N) t ->
  pages t !! N = Some p -> unsafe p 1 -> GetParentPageId p = P ->
  P ∉ D -> pages t !! P = Some (Internal nP) ->
  i_array nP !! i = Some (kN, N) ->
  i_array nP !! (if decide (i = 0%nat) then 1%nat else (i - 1)%nat) = Some (kS, S) ->
  pages t !! S = Some pS ->
  ~ GetSize p + GetSize pS <= GetMaxSize p ->
  exists t2 g',
    Redistribute S N (Z.of_nat i) t = Val t2
    /\ core D None g' t2 /\ sizes D None t2
    /\ (forall k v, entry D t2 k v <-> entry D t k v)
    /\ height g' = height g
    /\ root_page_id t2 = root_page_id t /\ next_id t2 = next_id t.
Proof.
  intros Hc Hs HN Hun Hpar HPd HP HiN HiS HS Hsum.
  pose proof (live_parent_valid _ _ _ _ _ Hc HP HPd) as HPv.
  assert (Hroot : IsRootPage p = false).
  { unfold IsRootPage. rewrite bool_decide_eq_false_2; [done|]. by rewrite Hpar. }
  destruct (core_page _ _ _ _ _ _ _ _ Hc HP HPd) as (_ & _ & Hin).
  destruct (child_page _ _ _ _ _ _ _ _ _ _ Hin HiN) as (HNd & HNdep & _).
  destruct (child_page _ _ _ _ _ _ _ _ _ _ Hin HiS) as (HSd & HSdep & _).
  simpl in HNd, HNdep, HSd, HSdep.
  pose proof (core_page _ _ _ _ _ _ _ _ Hc HN HNd) as HokN.
  pose proof (core_page _ _ _ _ _ _ _ _ Hc HS HSd) as HokS.
  assert (Hleaf : IsLeafPage pS = IsLeafPage p).
  { destruct (IsLeafPage pS) eqn:E1, (IsLeafPage p) eqn:E2; try done.
    - apply (page_depth_leaf _ _ _ _ _ _ _ _ HokS) in E1.
      assert (depth g N = height g) as E by lia.
      apply (page_depth_leaf _ _ _ _ _ _ _ _ HokN) in E. congruence.
    - apply (page_depth_leaf _ _ _ _ _ _ _ _ HokN) in E2.
      assert (depth g S = height g) as E by lia.
      apply (page_depth_leaf _ _ _ _ _ _ _ _ HokS) in E. congruence. }
  unfold Redistribute. rewrite (FetchPage_eq _ _ _ HS). cbn [mbind res_bind].
  unfold unsafe, GetMinSize in Hun. rewrite Hroot in Hun.
  destruct p as [ln|nn]; destruct pS as [ls|ns]; try done; simpl in Hun, Hsum.
  - destruct HokN as (_ & _ & _ & HNmax & _).
    rewrite HNmax in Hun, Hsum.
    destruct i as [|r]; simpl in HiS.
    + rewrite bool_decide_eq_true_2 by done.
      apply (redistribute_leaf_first _ _ D g t N S P nP kN kS ln ls Hc Hs HPd HP HiN HiS HN HS); lia.
    + rewrite bool_decide_eq_false_2 by lia.
      rewrite Nat.sub_0_r in HiS.
      apply (redistribute_leaf_last _ _ D g t N S P nP r kN kS ln ls Hc Hs HPd HP HiS HiN HN HS); lia.
  - destruct HokN as (_ & _ & _ & HNmax & _).
    rewrite HNmax in Hun, Hsum.
    destruct i as [|r]; simpl in HiS.
    + rewrite bool_decide_eq_true_2 by done.
      apply (redistribute_internal_first _ _ D g t N S P nP kN kS nn ns Him Hc Hs HPd HP HiN HiS HN HS); lia.
    + rewrite bool_decide_eq_false_2 by lia.
      rewrite Nat.sub_0_r in HiS.
      apply (redistribute_internal_last _ _ D g t N S P nP r kN kS nn ns Him Hc Hs HPd HP HiS HiN HN HS); lia.
Qed.

Lemma CoalesceOrRedistribute_unfold (fuel : nat) node txn t :
  CoalesceOrRedistribute fuel node txn t =
  (p ← FetchPage node t;
   if IsRootPage p
   then
     '(OldRootNeedDelete, t1) ← AdjustRoot node t;
     if OldRootNeedDelete : bool
     then txn1 ← AddIntoDeletedPageSet (GetPageId p) txn; Val (true, t1, txn1)
     else Val (false, t1, txn)
   else
     '(isRightNode, nearNode, t1, txn1) ← FindLeftSibling node txn t;
     parentPage ← FetchInternal (GetParentPageId p) t1;
     p1 ← FetchPage node t1;
     near ← FetchPage nearNode t1;
     if bool_decide (GetSize p1 + GetSize near <= GetMaxSize p1)
     then
       let '(node', nearNode') :=
         if isRightNode : bool then (nearNode, node) else (node, nearNode) in
       pn ← FetchPage node' t1;
       let removeIndex := Internal.ValueIndex (GetPageId pn) parentPage in
       _ ← assert (bool_decide (is_Some txn1));
       t2 ← MoveAllTo nearNode' removeIndex node' t1;
       txn2 ← AddIntoDeletedPageSet (GetPageId pn) txn1;
       parent0 ← FetchInternal (GetParentPageId p) t2;
       parent1 ← Internal.Remove removeIndex parent0;
       let t3 := put (GetParentPageId p) (Internal parent1) t2 in
       if bool_decide (Internal.GetSize parent1 <= GetMinSize (Internal parent1))
       then
         match fuel with
         | O => NoFuel
         | S fuel' =>
             '(_, t4, txn4) ←
               CoalesceOrRedistribute fuel' (GetParentPageId p) txn2 t3;
             Val (true, t4, txn4)
         end
       else Val (true, t3, txn2)
     else
       let nodeInParentIndex := Internal.ValueIndex (GetPageId p1) parentPage in
       t2 ← Redistribute nearNode node nodeInParentIndex t1;
       Val (false, t2, txn1)).
Proof. destruct fuel; reflexivity. Qed.

Lemma sizes_relax D t P pP :
  sizes D (Some P) t -> pages t !! P = Some pP -> size_ok None t P pP ->
  sizes D None t.
Proof.
  intros Hs HP Hok q p Hq Hd. destruct (decide (q = P)) as [->|Hne].
  - by assert (p = pP) as -> by congruence.
  - specialize (Hs q p Hq Hd). destruct p as [l|n]; simpl in *.
    + destruct (decide (q = root_page_id t)).
      * destruct Hs as [?|?]; [congruence|by right].
      * rewrite decide_False in Hs by congruence. done.
    + by rewrite decide_False in Hs by congruence.
Qed.

Lemma chain_step t ps N p :
  chain t ps N 1 -> pages t !! N = Some p ->
  GetParentPageId p <> INVALID_PAGE_ID -> unsafe p 1 ->
  N ∈ ps /\ chain t ps (GetParentPageId p) 0.
Proof.
  intros Hch HN Hpar Hun. inversion Hch as [q extra Hin Hnext Hq1 Hq2]. subst.
  split; [done|]. by apply Hnext.
Qed.

Lemma CoR_root (fuel : nat) g t N p x :
  core (deleted_page_set x) None g t ->
  sizes (deleted_page_set x) (Some N) t ->
  pages t !! N = Some p -> N = root_page_id t -> unsafe p 1 ->
  (IsLeafPage p = false -> 2 <= leaf_max_size) ->
  (forall q, q ∈ deleted_page_set x -> q ∈ page_set x) ->
  N ∈ page_set x ->
  exists b t' x',
    CoalesceOrRedistribute fuel N (Some x) t = Val (b, t', Some x')
    /\ rebalanced leaf_max_size internal_max_size g t x t' x'.
Proof.
  intros Hc Hs HN HR Hun Hlm2 Hsub HNps.
  pose proof Hc as ((Hrd & Hrp & Hr0 & _) & _). rewrite <- HR in Hrd, Hrp, Hr0.
  pose proof (core_page _ _ _ _ _ _ _ _ Hc HN Hrd) as Hok.
  pose proof (page_ok_id _ _ _ _ _ _ _ _ Hok) as Hid.
  rewrite CoalesceOrRedistribute_unfold. rewrite (FetchPage_eq _ _ _ HN).
  cbn [mbind res_bind].
  assert (Hroot : IsRootPage p = true).
  { rewrite (root_page_iff _ _ _ _ _ _ _ Hc HN Hrd). by rewrite bool_decide_eq_true_2. }
  rewrite Hroot.
  unfold unsafe, GetMinSize in Hun. rewrite Hroot in Hun.
  destruct p as [l|n]; simpl in Hun, Hid.
  - (* the last leaf is empty *)
    assert (Harr : l_array l = []) by (destruct (l_array l); [done|simpl in Hun; lia]).
    unfold IsRootPage in Hroot. apply bool_decide_eq_true_1 in Hroot. simpl in Hroot.
    rewrite (AdjustRoot_leaf N t l HN Hroot Harr). cbn [mbind res_bind].
    simpl. rewrite Hid.
    eexists true, _, _. split; [done|].
    assert (Hlive : forall q pq, pages t !! q = Some pq -> q ∉ deleted_page_set x -> q = N).
    { intros q pq Hq Hd. rewrite HR in HN. rewrite HR.
      by apply (live_root_leaf _ _ _ _ _ l Hc HN q pq). }
    split_and!; simpl.
    + intros q [->%elem_of_singleton|?]%elem_of_union; [done|by apply Hsub].
    + done.
    + intros k v. split.
      * intros (L & l' & HLd & HL & Hin). exfalso.
        apply not_elem_of_dead in HLd as [HLN HLd]. apply HLN. by eapply Hlive.
      * intros (L & l' & HLd & HL & Hin). exfalso.
        assert (L = N) as -> by (by eapply Hlive).
        rewrite HN in HL. injection HL as <-. rewrite Harr in Hin.
        by apply elem_of_nil in Hin.
    + left. split; [done|]. intros q [pq Hq].
      destruct (decide (q ∈ deleted_page_set x)) as [?|Hd].
      * apply elem_of_union. by right.
      * apply elem_of_union. left. apply elem_of_singleton. by eapply Hlive.
  - destruct (decide (length (i_array n) = 1%nat)) as [Hone|Hmore].
    + (* the root has one child left *)
      destruct (i_array n) as [|[k c] [|? ?]] eqn:Harr; try done.
      destruct Hok as (_ & _ & Hin).
      destruct (child_page _ _ _ _ _ _ _ _ 0%nat (k, c) Hin) as (Hcd & Hcdep & pc & Hpc & _).
      { by rewrite Harr. }
      simpl in Hcd, Hcdep, Hpc.
      assert (HcN : c <> N) by (intros e; rewrite e in Hcdep; lia).
      rewrite (AdjustRoot_collapse N t n k c pc HN Harr Hpc HcN). cbn [mbind res_bind].
      simpl. rewrite Hid.
      eexists true, _, _. split; [done|].
      match goal with |- rebalanced _ _ _ _ _ ?t' _ => set (t1 := t') end.
      destruct (adjust_collapse_core _ _ (deleted_page_set x) g t t1 N n k c pc
                  Hc Hs HR HN Harr Hpc) as (H1 & H2 & H3); try done.
      { by apply Hlm2. }
      { intros q. unfold t1. rewrite !pages_put. simpl.
        destruct (decide (c = q)) as [->|]; [by rewrite decide_True|].
        rewrite decide_False by done. rewrite lookup_insert.
        destruct (decide (N = q)) as [->|]; [by rewrite decide_True|].
        by rewrite decide_False. }
      split_and!; simpl.
      * intros q [->%elem_of_singleton|?]%elem_of_union; [done|by apply Hsub].
      * done.
      * done.
      * right. exists (collapse_shape g). split_and!; try done. simpl. lia.
    + (* the root keeps its children *)
      rewrite (AdjustRoot_keep N t n HN Hmore). cbn [mbind res_bind].
      eexists false, _, _. split; [done|].
      split_and!; try done.
      right. exists g. split_and!; try done.
      apply (sizes_relax _ _ _ _ Hs HN). simpl.
      pose proof (Hs _ _ HN Hrd) as Hsz. simpl in Hsz.
      rewrite decide_True in Hsz by done. lia.
Qed.

Lemma page_max D g t q p :
  page_ok D None g t q p ->
  GetMaxSize p = if IsLeafPage p then leaf_max_size else internal_max_size.
Proof. intros (_ & _ & H). destruct p; simpl; by destruct H as (_ & ? & _). Qed.

Lemma underflow_leaf_max D g t q p :
  page_ok D None g t q p -> IsRootPage p = false -> unsafe p 1 ->
  (IsLeafPage p = false -> 2 <= leaf_max_size) ->
  2 <= leaf_max_size.
Proof.
  intros Hok Hr Hun Hlm2.
  pose proof (page_max _ _ _ _ _ Hok) as Hmax.
  unfold unsafe, GetMinSize in Hun. rewrite Hr in Hun.
  destruct p as [l|n]; simpl in *; [|by apply Hlm2].
  rewrite Hmax in Hun. pose proof (half_bounds leaf_max_size ltac:(lia)). lia.
Qed.

Lemma CoR_spec (fuel : nat) : forall g t N p x,
  core (deleted_page_set x) None g t ->
  sizes (deleted_page_set x) (Some N) t ->
  pages t !! N = Some p -> N ∉ deleted_page_set x -> unsafe p 1 ->
  (IsLeafPage p = false -> 2 <= leaf_max_size) ->
  (forall q, q ∈ deleted_page_set x -> q ∈ page_set x) ->
  chain t (page_set x) N 1 -> (depth g N <= fuel)%nat ->
  exists b t' x',
    CoalesceOrRedistribute fuel N (Some x) t = Val (b, t', Some x')
    /\ rebalanced leaf_max_size internal_max_size g t x t' x'.
Proof.
  induction fuel as [fuel IH] using lt_wf_ind.
  intros g t N p x Hc Hs HN HNd Hun Hlm2 Hsub Hch Hfuel.
  destruct (decide (N = root_page_id t)) as [HR|HR].
  { apply (CoR_root fuel g t N p x); try done. by eapply chain_elem. }
  assert (Hpar : GetParentPageId p <> INVALID_PAGE_ID).
  { intros e. destruct (invalid_parent_root _ _ _ _ _ _ _ _ Hc HN HNd e) as [?|[o ?]]; done. }
  destruct (parent_page _ _ _ _ _ _ _ _ Hc HN HNd Hpar)
    as (nP & i & kN & HPd & HP & HiN & HVI & Hin & Hdep); [done|].
  destruct (chain_step _ _ _ _ Hch HN Hpar Hun) as [HNps HchP].
  pose proof (core_page _ _ _ _ _ _ _ _ Hc HN HNd) as HokN.
  pose proof (page_ok_id _ _ _ _ _ _ _ _ HokN) as Hid.
  assert (Hroot : IsRootPage p = false).
  { unfold IsRootPage. by rewrite bool_decide_eq_false_2. }
  pose proof (underflow_leaf_max _ _ _ _ _ HokN Hroot Hun Hlm2) as Hlm2'.
  set (P := GetParentPageId p) in *.
  assert (HNP : N <> P) by (intros e; rewrite <- e in Hdep; lia).
  pose proof (Hs _ _ HP HPd) as HszP. simpl in HszP.
  rewrite decide_False in HszP by congruence.
  pose proof (lookup_lt_Some _ _ _ HiN) as Hilen.
  destruct (lookup_lt_is_Some_2 (i_array nP)
              (if decide (i = 0%nat) then 1%nat else (i - 1)%nat)) as [[kS Sb] HiS].
  { destruct (decide (i = 0%nat)); lia. }
  destruct (child_page _ _ _ _ _ _ _ _ _ _ Hin HiS) as (HSd & HSdep & pS & HS & HSpar).
  simpl in HSd, HSdep, HS.
  pose proof (core_page _ _ _ _ _ _ _ _ Hc HS HSd) as HokS.
  pose proof (page_ok_id _ _ _ _ _ _ _ _ HokS) as HidS.
  assert (Hleaf : IsLeafPage pS = IsLeafPage p).
  { destruct (IsLeafPage pS) eqn:E1, (IsLeafPage p) eqn:E2; try done.
    - apply (page_depth_leaf _ _ _ _ _ _ _ _ HokS) in E1.
      assert (depth g N = height g) as E by lia.
      apply (page_depth_leaf _ _ _ _ _ _ _ _ HokN) in E. congruence.
    - apply (page_depth_leaf _ _ _ _ _ _ _ _ HokN) in E2.
      assert (depth g Sb = height g) as E by lia.
      apply (page_depth_leaf _ _ _ _ _ _ _ _ HokS) in E. congruence. }
  assert (HmaxS : GetMaxSize pS = GetMaxSize p).
  { rewrite (page_max _ _ _ _ _ HokS), (page_max _ _ _ _ _ HokN). by rewrite Hleaf. }
  rewrite CoalesceOrRedistribute_unfold, (FetchPage_eq _ _ _ HN).
  cbn [mbind res_bind]. rewrite Hroot.
  rewrite (FindLeftSibling_spec N (Some x) t p nP i kS Sb pS HN Hid HP HVI HiS HS Hleaf).
  cbn [mbind res_bind]. fold P.
  rewrite (FetchInternal_eq _ _ _ HP), (FetchPage_eq _ _ _ HN), (FetchPage_eq _ _ _ HS).
  cbn [mbind res_bind AddIntoPageSet option_bind].
  set (x1 := mkTxn (page_set x ++ [Sb]) (deleted_page_set x)).
  case_bool_decide as Hsz.
  - (* Coalesce *)
    assert (Hpack : exists left right (r : nat) kl kr pl pr,
      (if bool_decide (i = 0%nat) then (Sb, N) else (N, Sb)) = (right, left)
      /\ i_array nP !! r = Some (kl, left) /\ i_array nP !! S r = Some (kr, right)
      /\ pages t !! left = Some pl /\ pages t !! right = Some pr
      /\ (N = left \/ N = right) /\ (right = N \/ right = Sb)
      /\ GetPageId pr = right
      /\ GetSize pl + GetSize pr <= GetMaxSize pl).
    { destruct i as [|r]; simpl in HiS.
      - exists N, Sb, 0%nat, kN, kS, p, pS. split_and!; try done; auto.
      - rewrite Nat.sub_0_r in HiS.
        exists Sb, N, r, kS, kN, pS, p. split_and!; try done; auto. lia. }
    destruct Hpack as (left & right & r & kl & kr & pl & pr & Hpair & Hl & Hr & Hpl & Hpr
                       & HNlr & HrNS & Hidr & Hsize).
    rewrite Hpair. clear Hpair. rewrite (FetchPage_eq _ _ _ Hpr). cbn [mbind res_bind].
    rewrite Hidr. rewrite (ValueIndex_child _ _ _ _ _ _ _ _ _ _ _ Hin Hr).
    rewrite bool_decide_eq_true_2 by (by eexists). cbn [assert mbind res_bind].
    destruct (merge_step _ _ (deleted_page_set x) g t N P nP r kl left kr right pl pr
                Hc Hs HNlr HPd HP Hl Hr Hpl Hpr Hsize) as (t2 & -> & HP2 & Hstep).
    cbn [mbind res_bind AddIntoDeletedPageSet deref].
    rewrite (FetchInternal_eq _ _ _ HP2). cbn [mbind res_bind].
    pose proof (lookup_lt_Some _ _ _ Hr) as Hrlen.
    unfold Internal.Remove, Internal.GetSize.
    rewrite bool_decide_eq_true_2 by lia. cbn [assert mbind res_bind].
    set (n1 := Internal.with_array (remove_at (Z.of_nat (S r)) (i_array nP)) nP).
    set (t3 := put P (Internal n1) t2).
    set (x2 := mkTxn (page_set x1) ({[right]} ∪ deleted_page_set x1)).
    destruct (Hstep t3 eq_refl) as (Hc3 & Hs3 & He3 & Hr3 & Hn3 & Hdeep3).
    assert (Hsub2 : forall q, q ∈ deleted_page_set x2 -> q ∈ page_set x2).
    { unfold x2, x1. simpl. intros q [->%elem_of_singleton|?]%elem_of_union.
      - apply elem_of_app. destruct HrNS as [-> | ->]; [by left|right; left].
      - apply elem_of_app. left. by apply Hsub. }
    assert (HP3 : pages t3 !! P = Some (Internal n1)).
    { unfold t3. rewrite pages_put. by rewrite decide_True. }
    assert (Hlen1 : length (i_array n1) = (length (i_array nP) - 1)%nat).
    { unfold n1. simpl. by rewrite length_remove_at. }
    destruct (adjacent_facts _ _ _ _ _ _ _ _ _ _ _ _ Hc HPd HP Hl Hr)
      as (_ & _ & _ & HrP & _ & _ & _).
    assert (HPd3 : P ∉ deleted_page_set x2).
    { unfold x2, x1. simpl. apply not_elem_of_dead. split; [congruence|done]. }
    case_bool_decide as Hunder.
    + (* the parent is below its minimum size, too *)
      destruct fuel as [|fuel']; [lia|].
      assert (Hun3 : unsafe (Internal n1) 1).
      { unfold unsafe. cbn [IsLeafPage GetSize]. unfold Internal.GetSize in Hunder. lia. }
      assert (Hch3 : chain t3 (page_set x2) P 1).
      { apply (chain_parent _ _ (deleted_page_set x) g t t3 (page_set x) (page_set x2)
                 P (Internal nP) (Internal n1) Hc HP HPd Hdeep3); [|done|done| |done].
        - unfold x2, x1. simpl. intros q ?. apply elem_of_app. by left.
        - unfold unsafe, GetMinSize, IsRootPage. simpl. rewrite length_remove_at by done. lia. }
      assert (Hf3 : (depth (merge_shape left right g) P <= fuel')%nat).
      { simpl. lia. }
      destruct (IH fuel' ltac:(lia) (merge_shape left right g) t3 P (Internal n1) x2
                  Hc3 Hs3 HP3 HPd3 Hun3 (fun _ => Hlm2') Hsub2 Hch3 Hf3)
        as (b & t4 & x4 & -> & Hsub4 & Hn4 & He4 & Hres4).
      cbn [mbind res_bind]. eexists true, t4, x4. split; [done|].
      split_and!; try done.
      * congruence.
      * intros k v. rewrite He4. apply He3.
    + eexists true, t3, x2. split; [done|].
      split_and!; try done.
      right. exists (merge_shape left right g). split_and!; try done.
      apply (sizes_relax _ _ _ _ Hs3 HP3). simpl.
      unfold Internal.GetSize, GetMinSize in Hunder. simpl in Hunder.
      pose proof (half_bounds internal_max_size ltac:(lia)).
      pose proof Hin as (_ & HmaxP & _). rewrite HmaxP in Hunder.
      rewrite length_remove_at in Hunder |- * by done.
      destruct (IsRootPage (Internal n1)); lia.
  - (* Redistribute *)
    rewrite Hid, HVI.
    destruct (shift_step (deleted_page_set x) g t N p P nP i kN kS Sb pS
                Hc Hs HN Hun eq_refl HPd HP HiN HiS HS Hsz)
      as (t2 & g' & -> & Hc2 & Hs2 & He2 & Hh2 & Hr2 & Hn2).
    cbn [mbind res_bind]. eexists false, t2, x1. split; [done|].
    split_and!; try done.
    + unfold x1. simpl. intros q ?. apply elem_of_app. left. by apply Hsub.
    + right. exists g'. split_and!; try done. lia.
Qed.

End RemoveSpec.

(** ** [Remove] on a well-formed index *)

Import BPT.

Section RemoveTop.
Variables leaf_max_size internal_max_size : Z.
Hypothesis Hlm : 1 <= leaf_max_size.
Hypothesis Him : 3 <= internal_max_size.
Notation core := (core leaf_max_size internal_max_size).
Notation page_ok := (page_ok leaf_max_size internal_max_size).
Notation leaf_ok := (leaf_ok leaf_max_size).
Notation sizes := (sizes leaf_max_size).
Notation size_ok := (size_ok leaf_max_size).
Notation wf := (wf leaf_max_size internal_max_size).

Lemma sizes_weaken D U t : sizes D None t -> sizes D U t.
Proof.
  intros Hs q p Hq Hd. specialize (Hs q p Hq Hd). destruct p as [l|n]; simpl in *.
  - destruct (decide (q = root_page_id t)).
    + destruct Hs as [?|?]; [done|by right].
    + destruct (decide (U = Some q)); lia.
  - destruct (decide (U = Some q)); lia.
Qed.

Lemma core_not_empty D g t : core D None g t -> IsEmpty t = false.
Proof.
  intros Hc. destruct (core_root_page _ _ _ _ _ _ Hc) as (p & Hp & _ & Hlt & _).
  apply not_empty_pos. lia.
Qed.

Lemma wf_empty_no_entry h t :
  wf h t -> IsEmpty t = true -> forall k v, ~ entry ∅ t k v.
Proof.
  intros (_ & Hwf) He k v (L & l & _ & HL & _). rewrite He in Hwf.
  rewrite Hwf in HL. by rewrite lookup_empty in HL.
Qed.

(** The leaf after the key has been taken out of it. *)
Lemma remove_leaf_core g t L l l1 key t2 :
  core ∅ None g t -> sizes ∅ None t ->
  pages t !! L = Some (Leaf l) -> in_range g L key ->
  l_max_size l1 = l_max_size l -> l_parent_page_id l1 = l_parent_page_id l ->
  l_page_id l1 = l_page_id l -> sorted_keys (l_array l1) ->
  (forall x, x ∈ l_array l1 <-> x ∈ l_array l /\ x.1 <> key) ->
  (length (l_array l1) <= length (l_array l) <= S (length (l_array l1)))%nat ->
  t2 = put L (Leaf l1) t ->
  core ∅ None g t2 /\ sizes ∅ (Some L) t2
  /\ (forall k v, entry ∅ t2 k v <-> entry ∅ t k v /\ k <> key).
Proof.
  intros Hc Hs HL Hr Hmax Hpar Hid Hsorted Hin Hlen ->.
  pose proof (core_page _ _ _ _ _ _ _ _ Hc HL (not_elem_of_empty _)) as HokL.
  pose proof HokL as (_ & _ & HLid & HLmax & HLdep & _ & HLr & HLlen).
  assert (Hp2 : forall q, pages (put L (Leaf l1) t) !! q =
            if decide (q = L) then Some (Leaf l1) else pages t !! q).
  { intros q. rewrite pages_put. destruct (decide (L = q)) as [->|].
    - by rewrite decide_True.
    - by rewrite decide_False. }
  split_and!.
  - apply (put_leaf_core _ _ ∅ None g t _ L l l1 Hc HL); try done.
    intros _. split_and!; try done; try congruence.
    + intros x Hx. apply HLr. by apply Hin.
    + lia.
  - intros q p Hq _. rewrite Hp2 in Hq.
    destruct (decide (q = L)) as [->|Hne].
    + injection Hq as <-. simpl.
      change (root_page_id (put L (Leaf l1) t)) with (root_page_id t).
      pose proof (Hs _ _ HL (not_elem_of_empty _)) as Hsz. simpl in Hsz.
      destruct (decide (L = root_page_id t)); [by left|].
      rewrite decide_True by done. lia.
    + by apply (sizes_weaken _ (Some L) _ Hs q p Hq).
  - intros k v. split.
    + intros (L' & l' & _ & HL' & Hkv). rewrite Hp2 in HL'.
      destruct (decide (L' = L)) as [->|Hne].
      * injection HL' as <-. apply Hin in Hkv as [Hkv Hk]. split; [|done].
        exists L, l. split_and!; try done.
      * split; [exists L', l'; split_and!; done|].
        intros ->. apply Hne.
        pose proof (core_page _ _ _ _ _ _ _ _ Hc HL' (not_elem_of_empty _)) as HokL'.
        pose proof HokL' as (_ & _ & _ & _ & HLdep' & _).
        eapply (in_range_unique _ _ g t key (height g) Hc Hs); try done.
        by apply (leaf_entry_in_range _ _ _ _ _ _ _ _ (key, v) HokL').
    + intros [(L' & l' & _ & HL' & Hkv) Hk].
      destruct (decide (L' = L)) as [->|Hne].
      * rewrite HL in HL'. injection HL' as <-.
        exists L, l1. rewrite Hp2, decide_True by done. split_and!; try done.
        apply Hin. done.
      * exists L', l'. rewrite Hp2, decide_False by done. done.
Qed.

Lemma Remove_spec (h fuel : nat) t key txn :
  wf h t -> is_Some txn -> clean txn -> (h <= fuel)%nat ->
  exists t' h' txn',
    Remove fuel key txn t = Val (t', txn')
    /\ wf h' t' /\ (h' <= h)%nat /\ is_Some txn' /\ clean txn'
    /\ (forall k v, entry ∅ t' k v <-> entry ∅ t k v /\ k <> key)
    /\ ((forall v, ~ entry ∅ t key v) -> t' = t).
Proof.
  intros Hwf Htxn Hcl Hfuel. unfold Remove.
  destruct (IsEmpty t) eqn:Hne.
  { exists t, h, txn. split_and!; try done.
    intros k v. split; [|tauto]. intros H. by apply (wf_empty_no_entry h t Hwf Hne) in H. }
  pose proof Hwf as (Hnext & Hwf'). rewrite Hne in Hwf'.
  destruct Hwf' as (g & Hh & Hc & Hs).
  destruct (FindLeafPage_spec leaf_max_size internal_max_size g t key DELETE fuel txn
              Hc Hs Hne Hcl ltac:(lia))
    as (L & l & txn1 & -> & HL & Hr & Hcl1 & His1 & Hch1).
  cbn [mbind res_bind deref].
  rewrite (FetchLeaf_eq _ _ _ HL). cbn [mbind res_bind].
  assert (Htxn1 : is_Some txn1) by (by apply His1).
  destruct Htxn1 as [x1 ->]. simpl in Hcl1.
  specialize (Hch1 eq_refl x1 eq_refl).
  pose proof (core_page _ _ _ _ _ _ _ _ Hc HL (not_elem_of_empty _)) as HokL.
  pose proof HokL as (HLlt & _ & HLid & HLmax & HLdep & HLs & HLr & HLlen).
  destruct (Leaf_Remove_spec key l HLs)
    as (l1 & -> & Hmax1 & Hpar1 & Hid1 & _ & Hs1 & Hin1 & Habs & Hpres).
  cbn [mbind res_bind].
  assert (Hlen1 : (length (l_array l1) <= length (l_array l) <= S (length (l_array l1)))%nat).
  { destruct (decide (key ∈ (l_array l).*1)) as [Hk|Hk].
    - specialize (Hpres Hk). lia.
    - rewrite (Habs Hk). lia. }
  assert (Habs' : (forall v, ~ entry ∅ t key v) -> l1 = l).
  { intros Hno. apply Habs. apply (Leaf_Lookup_None key l HLs).
    destruct (Leaf.Lookup key l) as [v|] eqn:Hlk; [|done].
    exfalso. apply (Hno v).
    by apply (entry_lookup leaf_max_size internal_max_size g t key L l v Hc Hs HL Hr). }
  assert (Hmin : ~ Leaf.GetSize l < GetMinSize (Leaf l)).
  { unfold Leaf.GetSize, GetMinSize.
    rewrite (root_page_iff _ _ _ _ _ _ _ Hc HL (not_elem_of_empty _)).
    pose proof (Hs _ _ HL (not_elem_of_empty _)) as Hsz. simpl in Hsz. simpl.
    rewrite HLmax.
    destruct (decide (L = root_page_id t)).
    - rewrite bool_decide_eq_true_2 by done. destruct Hsz as [?|?]; [done|lia].
    - rewrite bool_decide_eq_false_2 by done. lia. }
  set (t2 := put L (Leaf l1) t).
  destruct (remove_leaf_core g t L l l1 key t2 Hc Hs HL Hr Hmax1 Hpar1 Hid1 Hs1 Hin1 Hlen1
              eq_refl) as (Hc2 & Hs2 & He2).
  assert (HL2 : pages t2 !! L = Some (Leaf l1)).
  { unfold t2. rewrite pages_put. by rewrite decide_True. }
  case_bool_decide as Hunder.
  - (* the leaf is below its minimum size *)
    assert (Hc2' : core (deleted_page_set x1) None g t2) by (by rewrite Hcl1).
    assert (Hs2' : sizes (deleted_page_set x1) (Some L) t2) by (by rewrite Hcl1).
    assert (HLd : L ∉ deleted_page_set x1) by (rewrite Hcl1; apply not_elem_of_empty).
    assert (Hun : unsafe (Leaf l1) 1).
    { unfold unsafe. cbn [IsLeafPage GetSize]. unfold Leaf.GetSize in Hunder. lia. }
    assert (Hsub : forall q, q ∈ deleted_page_set x1 -> q ∈ page_set x1).
    { rewrite Hcl1. intros q Hq. by apply elem_of_empty in Hq. }
    assert (Hch2 : chain t2 (page_set x1) L 1).
    { apply (chain_parent _ _ ∅ g t t2 (page_set x1) (page_set x1) L (Leaf l) (Leaf l1)
               Hc HL (not_elem_of_empty _)); try done.
      - intros q Hq. unfold t2. rewrite pages_put. rewrite decide_False; [done|].
        intros ->. lia.
      - unfold unsafe, GetMinSize, IsRootPage. simpl. rewrite Hpar1, Hmax1.
        destruct (bool_decide _); lia. }
    destruct (CoR_spec leaf_max_size internal_max_size Hlm Him fuel g t2 L (Leaf l1) x1
                Hc2' Hs2' HL2 HLd Hun ltac:(done) Hsub Hch2 ltac:(lia))
      as (b & t3 & x3 & -> & Hsub3 & Hn3 & He3 & Hres3).
    cbn [mbind res_bind].
    destruct (FreePages_deleted true x3 (-1) t3 Hsub3) as (t4 & -> & Hr4 & Hn4 & Hp4).
    assert (Hnext4 : 0 < next_id t4).
    { rewrite Hn4, Hn3. done. }
    assert (He32 : forall k v, entry (deleted_page_set x3) t3 k v <-> entry ∅ t2 k v).
    { intros k v. rewrite He3. by rewrite Hcl1. }
    destruct Hres3 as [[Hroot3 Hall3]|(g3 & Hc3 & Hs3 & Hh3)].
    + (* the index is empty *)
      assert (Hp4' : pages t4 = ∅).
      { apply map_eq. intros q. rewrite Hp4, lookup_empty.
        destruct (decide (q ∈ deleted_page_set x3)) as [|Hq]; [done|].
        destruct (pages t3 !! q) eqn:E; [|done].
        exfalso. apply Hq, Hall3. by eexists. }
      exists t4, 0%nat, (Some (mkTxn [] ∅)). split; [done|].
      assert (He4 : IsEmpty t4 = true).
      { unfold IsEmpty. rewrite Hr4, Hroot3. by apply bool_decide_eq_true_2. }
      split_and!; try done.
      * split; [done|]. by rewrite He4.
      * lia.
      * intros k v. rewrite <- He2, <- He32. split.
        -- intros (L' & l' & _ & HL' & _). rewrite Hp4' in HL'.
           by rewrite lookup_empty in HL'.
        -- intros (L' & l' & HLd' & HL' & _). exfalso. apply HLd', Hall3. by eexists.
      * intros Hno. exfalso. apply Hmin. by rewrite <- (Habs' Hno).
    + destruct (core_delete _ _ (deleted_page_set x3) g3 t3 t4 Hc3 Hr4 Hn4 Hp4)
        as (Hc4 & Hs4 & He4).
      exists t4, (height g3), (Some (mkTxn [] ∅)). split; [done|].
      split_and!; try done.
      * split; [done|]. rewrite (core_not_empty _ _ _ Hc4).
        exists g3. split_and!; try done. by apply Hs4.
      * lia.
      * intros k v. rewrite He4, He32. apply He2.
      * intros Hno. exfalso. apply Hmin. by rewrite <- (Habs' Hno).
  - cbn [mbind res_bind].
    destruct (FreePages_clean true (Some x1) (-1) t2 Hcl1)
      as (txn2 & -> & Hcl2 & His2 & _).
    exists t2, h, txn2. split; [done|].
    split_and!; try done.
    + split; [done|]. rewrite (core_not_empty _ _ _ Hc2).
      exists g. split_and!; try done.
      apply (sizes_relax _ _ _ _ _ Hs2 HL2). simpl.
      change (root_page_id t2) with (root_page_id t).
      unfold Leaf.GetSize, GetMinSize in Hunder.
      rewrite (root_page_iff _ _ _ _ _ _ _ Hc2 HL2 (not_elem_of_empty _)) in Hunder.
      change (root_page_id t2) with (root_page_id t) in Hunder.
      simpl in Hunder. rewrite Hmax1, HLmax in Hunder.
      destruct (decide (L = root_page_id t)).
      * rewrite bool_decide_eq_true_2 in Hunder by done. right. lia.
      * rewrite bool_decide_eq_false_2 in Hunder by done. lia.
    + apply His2. by eexists.
    + intros Hno. unfold t2. rewrite (Habs' Hno). by apply put_same.
Qed.

End RemoveTop.


(** * Properties of the code beyond the claims *)

(** ** Leaf and internal pages *)

Import BPT.

(** X1. In a leaf whose keys ascend, [KeyIndex] is the number of keys
    below [key], that is the first index whose key is at least [key]
    (the size of the leaf when there is none). *)
Theorem leaf_KeyIndex_first_not_below (key : Z) (l : LeafPage) :
  sorted_keys (l_array l) ->
  0 <= Leaf.KeyIndex key l <= Leaf.GetSize l
  /\ (forall (i : nat) x, l_array l !! i = Some x ->
        (Z.of_nat i < Leaf.KeyIndex key l <-> x.1 < key))
  /\ (forall (j : nat) v, l_array l !! j = Some (key, v) ->
        Leaf.KeyIndex key l = Z.of_nat j).
Proof.
  intros Hs. destruct (KeyIndex_spec key l Hs) as [Hr Hi].
  split; [exact Hr|]. split; [exact Hi|].
  intros j v Hj. by eapply KeyIndex_found.
Qed.

Lemma leaf_KeyIndex_first_not_below_witness :
  sorted_keys (l_array example_leaf_page)
  /\ Leaf.KeyIndex 2 example_leaf_page = 1.
Proof.
  assert (Hs : sorted_keys (l_array example_leaf_page)).
  { unfold sorted_keys. simpl. repeat (constructor; try lia). }
  split; [exact Hs|].
  destruct (leaf_KeyIndex_first_not_below 2 example_leaf_page Hs) as (_ & _ & Hf).
  exact (Hf 1%nat (rid_of 2) eq_refl).
Defined.

(** X2. In a leaf whose keys ascend, [Lookup] finds the value stored
    under [key] and fails exactly when no slot has that key. *)
Theorem leaf_Lookup_finds_stored_value (key : Z) (l : LeafPage) :
  sorted_keys (l_array l) ->
  (forall v, Leaf.Lookup key l = Some v <-> (key, v) ∈ l_array l)
  /\ (Leaf.Lookup key l = None <-> key ∉ (l_array l).*1).
Proof.
  intros Hs. split.
  - intros v. by apply Leaf_Lookup_Some.
  - by apply Leaf_Lookup_None.
Qed.

Lemma leaf_Lookup_finds_stored_value_witness :
  sorted_keys (l_array example_leaf_page)
  /\ Leaf.Lookup 3 example_leaf_page = Some (rid_of 3)
  /\ Leaf.Lookup 4 example_leaf_page = None.
Proof.
  assert (Hs : sorted_keys (l_array example_leaf_page)).
  { unfold sorted_keys. simpl. repeat (constructor; try lia). }
  split; [exact Hs|].
  destruct (leaf_Lookup_finds_stored_value 3 example_leaf_page Hs) as [Hf _].
  destruct (leaf_Lookup_finds_stored_value 4 example_leaf_page Hs) as [_ Hn].
  split.
  - apply Hf. simpl. set_solver.
  - apply Hn. simpl. set_solver.
Defined.

(** X3. [Insert] of a key that a sorted leaf does not hold never trips
    its assertion; it stores the pair at the place [KeyIndex] gives:
    the keys still ascend, the old slots are all kept and the size
    grows by one. *)
Theorem leaf_Insert_keeps_order (key : Z) (value : RID) (l : LeafPage) :
  sorted_keys (l_array l) -> key ∉ (l_array l).*1 ->
  exists l',
    Leaf.Insert key value l = Val l'
    /\ sorted_keys (l_array l')
    /\ (forall x, x ∈ l_array l' <-> x = (key, value) \/ x ∈ l_array l)
    /\ Leaf.GetSize l' = Leaf.GetSize l + 1
    /\ Leaf.Lookup key l' = Some value
    /\ l_max_size l' = l_max_size l
    /\ l_parent_page_id l' = l_parent_page_id l
    /\ l_page_id l' = l_page_id l
    /\ next_page_id l' = next_page_id l.
Proof.
  intros Hs Hk.
  destruct (Leaf_Insert_spec key value l Hs Hk) as (l' & HI & Hl' & Hs' & Hin & Hlen).
  exists l'. split_and!; try done.
  - unfold Leaf.GetSize. rewrite Hlen. lia.
  - apply Leaf_Lookup_Some; [done|]. apply Hin. by left.
  - by rewrite Hl'.
  - by rewrite Hl'.
  - by rewrite Hl'.
  - by rewrite Hl'.
Qed.

Lemma leaf_Insert_keeps_order_witness :
  exists l',
    Leaf.Insert 0 (rid_of 0) example_leaf_page = Val l'
    /\ l_array l' = (0, rid_of 0) :: l_array example_leaf_page.
Proof.
  assert (Hs : sorted_keys (l_array example_leaf_page)).
  { unfold sorted_keys. simpl. repeat (constructor; try lia). }
  assert (Hk : 0 ∉ (l_array example_leaf_page).*1).
  { simpl. set_solver. }
  destruct (leaf_Insert_keeps_order 0 (rid_of 0) example_leaf_page Hs Hk)
    as (l' & HI & _).
  exists l'. split; [exact HI|].
  vm_compute in HI. injection HI as <-. reflexivity.
Defined.

(** X4. [RemoveAndDeleteRecord] on a sorted leaf closes the gap of the
    one slot that holds [key]: the other slots keep their order, and a
    leaf without the key is returned as it was. *)
Theorem leaf_RemoveAndDeleteRecord_removes_key (key : Z) (l : LeafPage) :
  sorted_keys (l_array l) ->
  exists l',
    Leaf.RemoveAndDeleteRecord key l = Val l'
    /\ sorted_keys (l_array l')
    /\ (forall x, x ∈ l_array l' <-> x ∈ l_array l /\ x.1 <> key)
    /\ Leaf.Lookup key l' = None
    /\ (key ∉ (l_array l).*1 -> l' = l)
    /\ (key ∈ (l_array l).*1 -> Leaf.GetSize l' = Leaf.GetSize l - 1)
    /\ l_max_size l' = l_max_size l
    /\ l_parent_page_id l' = l_parent_page_id l
    /\ l_page_id l' = l_page_id l
    /\ next_page_id l' = next_page_id l.
Proof.
  intros Hs.
  destruct (Leaf_Remove_spec key l Hs)
    as (l' & HR & H1 & H2 & H3 & H4 & Hs' & Hin & Hsame & Hlen).
  exists l'. split_and!; try done.
  - apply Leaf_Lookup_None; [done|]. intros Hk.
    apply list_elem_of_fmap in Hk as (x & -> & Hx). apply Hin in Hx as [_ Hx]. done.
  - intros Hk. unfold Leaf.GetSize. rewrite (Hlen Hk). lia.
Qed.

Lemma leaf_RemoveAndDeleteRecord_removes_key_witness :
  exists l',
    Leaf.RemoveAndDeleteRecord 2 example_leaf_page = Val l'
    /\ l_array l' = [(1, rid_of 1); (3, rid_of 3)].
Proof.
  assert (Hs : sorted_keys (l_array example_leaf_page)).
  { unfold sorted_keys. simpl. repeat (constructor; try lia). }
  destruct (leaf_RemoveAndDeleteRecord_removes_key 2 example_leaf_page Hs)
    as (l' & HR & _).
  exists l'. split; [exact HR|].
  vm_compute in HR. injection HR as <-. reflexivity.
Defined.

(** X5. [Lookup] of an internal page with at least two slots whose
    keys ascend from slot 1 on returns the child of the last slot
    whose key is at most [key] (slot 0 when [key] is below the key of
    slot 1); with fewer than two slots its assertion fails. *)
Theorem internal_Lookup_picks_covering_child (key : Z) (n : InternalPage) :
  sorted_keys (drop 1 (i_array n)) ->
  if decide (2 <= length (i_array n))%nat
  then exists (j : nat) kj c,
         i_array n !! j = Some (kj, c)
         /\ Internal.Lookup key n = Val c
         /\ (j <> 0%nat -> kj <= key)
         /\ (forall x, i_array n !! S j = Some x -> key < x.1)
  else Internal.Lookup key n = Abort.
Proof.
  intros Hs. destruct (decide (2 <= length (i_array n))%nat) as [Hlen|Hlen].
  - by apply Internal_Lookup_spec.
  - unfold Internal.Lookup, Internal.GetSize.
    rewrite bool_decide_eq_false_2 by lia. done.
Qed.

Lemma internal_Lookup_picks_covering_child_witness :
  sorted_keys (drop 1 (i_array example_internal_page))
  /\ exists c, Internal.Lookup 5 example_internal_page = Val c /\ c = 8.
Proof.
  assert (Hs : sorted_keys (drop 1 (i_array example_internal_page))).
  { unfold sorted_keys. simpl. repeat (constructor; try lia). }
  split; [exact Hs|].
  pose proof (internal_Lookup_picks_covering_child 5 example_internal_page Hs) as H.
  rewrite decide_True in H by (simpl; lia).
  destruct H as (j & kj & c & _ & HL & _).
  exists c. split; [exact HL|]. vm_compute in HL. by injection HL.
Defined.

(** X6. [ValueIndex] is the index of the first slot that holds the
    child, and -1 when no slot holds it; it is always below the size. *)
Theorem internal_ValueIndex_first_slot (value : Z) (n : InternalPage) :
  -1 <= Internal.ValueIndex value n < Internal.GetSize n
  /\ (Internal.ValueIndex value n = -1 <-> value ∉ (i_array n).*2)
  /\ (forall (j : nat), Internal.ValueIndex value n = Z.of_nat j ->
        (exists k, i_array n !! j = Some (k, value))
        /\ forall (j' : nat) x, (j' < j)%nat -> i_array n !! j' = Some x ->
             x.2 <> value).
Proof.
  split; [apply ValueIndex_range|].
  pose proof (ValueIndex_from_spec 0 value (i_array n)) as H.
  fold (Internal.ValueIndex value n) in H. simpl in H.
  destruct H as [[Hr Hn]|(j & k & Hr & Hj & Hfirst)].
  - split.
    + split; [done|]. by intros _.
    + intros j Hj. lia.
  - split.
    + split; [lia|]. intros Hn. exfalso. apply Hn.
      apply list_elem_of_fmap. exists (k, value). split; [done|].
      by eapply list_elem_of_lookup_2.
    + intros j0 Hj0. assert (j0 = j) as -> by lia. split; [by exists k|].
      intros j' x Hlt Hx. by eapply Hfirst.
Qed.

(** ** Searching and inserting *)

Lemma wf_empty_tree lm im (h : nat) : wf lm im h empty_tree.
Proof. split; [simpl; lia|]. reflexivity. Qed.

Lemma entry_wf_empty lm im (h : nat) t k v :
  wf lm im h t -> IsEmpty t = true -> ~ entry ∅ t k v.
Proof.
  intros [_ Hwf] He. rewrite He in Hwf. intros (L & l & _ & HL & _).
  by rewrite Hwf in HL.
Qed.

Lemma GetValue_wf lm im (h fuel : nat) t key result v0 txn :
  wf lm im h t -> clean txn -> (h <= fuel)%nat ->
  exists b r txn',
    GetValue fuel key result v0 txn t = Val (b, r, t, txn')
    /\ (forall v, entry ∅ t key v <-> b = true /\ r = [v])
    /\ (b = false <-> forall v, ~ entry ∅ t key v)
    /\ clean txn' /\ (is_Some txn <-> is_Some txn').
Proof.
  intros Hwf Hcl Hfuel. destruct (IsEmpty t) eqn:He.
  - exists false, result, txn. unfold GetValue, FindLeafPage. rewrite He.
    split; [done|]. split; [|split; [|done]].
    + intros v. split; [|by intros [[=] _]].
      intros Hv. exfalso. by eapply entry_wf_empty.
    + split; [|done]. intros _ v. by eapply entry_wf_empty.
  - destruct Hwf as [_ Hwf]. rewrite He in Hwf. destruct Hwf as (g & Hh & Hc & Hs).
    destruct (GetValue_spec lm im g t key fuel result v0 txn Hc Hs He Hcl)
      as (b & r & txn' & HG & Hcl' & His & Hent & Hb); [lia|].
    exists b, r, txn'. split; [done|]. split; [done|]. split; [|done].
    split.
    + intros -> v Hv. by apply Hent in Hv as [[=] _].
    + intros Hno. destruct b; [|done]. destruct (Hb eq_refl) as [v ->].
      exfalso. apply (Hno v). by apply Hent.
Qed.





Lemma insert_all_wf lm im (fuel : nat) keys :
  1 <= lm -> 3 <= im ->
  forall t (h : nat),
    wf lm im h t -> (h + length keys <= fuel)%nat ->
    exists t' (h' : nat),
      insert_all lm im fuel keys t = Val t'
      /\ wf lm im h' t' /\ (h' <= h + length keys)%nat.
Proof.
  intros Hlm Him. induction keys as [|k keys IH]; intros t h Hwf Hfuel.
  - exists t, h. simpl. split; [done|]. split; [done|lia].
  - simpl in Hfuel. cbn [insert_all].
    destruct (Insert_spec lm im Hlm Him h fuel t k (rid_of k) fresh_txn Hwf)
      as (b & t1 & h1 & txn1 & -> & Hwf1 & Hh1 & _); [by eexists|done|lia|].
    cbn [mbind res_bind fst snd].
    destruct (IH t1 h1 Hwf1) as (t' & h' & -> & Hwf' & Hh'); [lia|].
    exists t', h'. split; [done|]. split; [done|simpl; lia].
Qed.

Lemma small_tree_wf : exists h : nat, wf 4 4 h small_tree /\ (h <= 5)%nat.
Proof.
  destruct (insert_all_wf 4 4 5 [1; 2; 3; 4; 5] ltac:(lia) ltac:(lia)
              empty_tree 0 (wf_empty_tree 4 4 0) ltac:(simpl; lia))
    as (t & h & Ht & Hwf & Hh).
  vm_compute in Ht. injection Ht as <-. exists h. split; [exact Hwf|].
  simpl in Hh. lia.
Qed.





(** *** [Remove] *)





(** *** Histories of insertions and removals *)

Lemma run_history lm im (fuel : nat) :
  1 <= lm -> 3 <= im ->
  forall ops t (h : nat) (m : gmap Z RID),
    wf lm im h t ->
    (forall k v, entry ∅ t k v <-> m !! k = Some v) ->
    (h + length ops <= fuel)%nat ->
    exists t' (h' : nat),
      run lm im fuel ops t = Val t'
      /\ wf lm im h' t' /\ (h' <= h + length ops)%nat
      /\ forall k v, entry ∅ t' k v <-> fold_left apply_op ops m !! k = Some v.
Proof.
  intros Hlm Him. induction ops as [|o ops IH]; intros t h m Hwf Hm Hfuel.
  - exists t, h. simpl. split; [done|]. split; [done|]. split; [lia|done].
  - simpl in Hfuel. destruct o as [key value|key]; cbn [run step].
    + destruct (Insert_spec lm im Hlm Him h fuel t key value fresh_txn Hwf)
        as (b & t1 & h1 & txn1 & -> & Hwf1 & Hh1 & _ & _ & _ & Hsame & Hb & Hent);
        [by eexists|done|lia|].
      cbn [mbind res_bind fst snd].
      destruct (IH t1 h1 (apply_op m (OpInsert key value)) Hwf1)
        as (t' & h' & -> & Hwf' & Hh' & Hm'); [|lia|].
      * intros k v. simpl. destruct b.
        -- assert (m !! key = None) as Hnone.
           { destruct (m !! key) as [v1|] eqn:Hk; [|done].
             apply Hm in Hk. assert (true = false); [|done].
             apply Hb. by exists v1. }
           rewrite Hnone, (Hent eq_refl), lookup_insert_Some, Hm. split.
           ++ intros [Hk|[-> ->]]; [|by left]. right. split; [|done].
              intros <-. congruence.
           ++ intros [[<- <-]|[_ Hk]]; [by right|by left].
        -- rewrite (Hsame eq_refl). destruct (proj1 Hb eq_refl) as [v1 Hv1].
           apply Hm in Hv1. rewrite Hv1. apply Hm.
      * exists t', h'. split; [done|]. split; [done|]. split; [simpl; lia|done].
    + destruct (Remove_spec lm im Hlm Him h fuel t key fresh_txn Hwf)
        as (t1 & h1 & txn1 & -> & Hwf1 & Hh1 & _ & _ & Hent & _);
        [by eexists|done|lia|].
      cbn [mbind res_bind fst snd].
      destruct (IH t1 h1 (apply_op m (OpRemove key)) Hwf1)
        as (t' & h' & -> & Hwf' & Hh' & Hm'); [|lia|].
      * intros k v. simpl. rewrite Hent, lookup_delete_Some, Hm. split.
        -- intros [? ?]. split; [congruence|done].
        -- intros [? ?]. split; [done|congruence].
      * exists t', h'. split; [done|]. split; [done|]. split; [simpl; lia|done].
Qed.




(** ** The buffer pool between calls *)

Section PoolInvariant.
Context {Data : Type} (zero_data : Data).
Implicit Types (s : BPM.BufferPoolManager Data) (p : BPM.Page Data).

Lemma frame_is_insert (P : BPM.Page Data -> Prop) s s' (F : nat) p' (f : nat) :
  BPM.pages s' = <[F := p']> (BPM.pages s) ->
  BPM.frame_is P s' f <->
  (if decide (f = F) then (F < length (BPM.pages s))%nat -> P p'
   else BPM.frame_is P s f).
Proof.
  intros Hp. unfold BPM.frame_is. rewrite Hp.
  destruct (decide (f = F)) as [->|Hne].
  - destruct (decide (F < length (BPM.pages s))%nat) as [Hlt|Hge].
    + rewrite list_lookup_insert_eq by done. naive_solver.
    + rewrite lookup_ge_None_2 by (rewrite length_insert; lia). naive_solver.
  - by rewrite list_lookup_insert_ne.
Qed.

Lemma pool_ok_disk s s' :
  BPM.pool_ok s ->
  BPM.pages s' = BPM.pages s -> BPM.page_table s' = BPM.page_table s ->
  BPM.replacer s' = BPM.replacer s -> BPM.free_list s' = BPM.free_list s ->
  BPM.pool_ok s'.
Proof.
  unfold BPM.pool_ok, BPM.well_formed, BPM.victims_unpinned, BPM.frame_is.
  intros H Hp Ht Hr Hf. by rewrite Hp, Ht, Hr, Hf.
Qed.

(** A call that rewrites the one frame [F]. *)
Lemma pool_ok_update s s' (F : nat) p' :
  BPM.pool_ok s ->
  BPM.pages s' = <[F := p']> (BPM.pages s) ->
  (F < length (BPM.pages s))%nat ->
  0 <= BPM.pin_count p' ->
  (forall pid f, BPM.page_table s' !! pid = Some f ->
     (f = F /\ BPM.page_id p' = pid)
     \/ (f <> F /\ BPM.page_table s !! pid = Some f)) ->
  NoDup (BPM.free_list s') ->
  (forall f, f ∈ BPM.free_list s' ->
     (f = F /\ BPM.page_id p' = BPM.INVALID_PAGE_ID /\ BPM.pin_count p' = 0)
     \/ (f <> F /\ f ∈ BPM.free_list s)) ->
  LRU.consistent (BPM.replacer s') ->
  (forall f, f ∈ LRU.nodes (BPM.replacer s') ->
     (f = F /\ BPM.pin_count p' = 0)
     \/ (f <> F /\ f ∈ LRU.nodes (BPM.replacer s))) ->
  (F ∈ BPM.free_list s' ->
     (F ∉ LRU.nodes (BPM.replacer s'))
     /\ forall pid, BPM.page_table s' !! pid <> Some F) ->
  BPM.pool_ok s'.
Proof.
  intros ((Hpt & Hfl & Hrp & Hc) & (Hfree & Hrepl) & Hres & Hpin & Hnd & Hdisj)
    Hp HF Hp' Htab Hnd' Hfree' Hc' Hrepl' HFfree.
  rewrite Forall_forall in Hfl, Hrp, Hfree, Hrepl, Hdisj.
  assert (Hlen : length (BPM.pages s') = length (BPM.pages s))
    by (by rewrite Hp, length_insert).
  unfold BPM.pool_ok, BPM.well_formed, BPM.victims_unpinned.
  rewrite Hlen. split_and!; try done.
  - intros pid f Hf. simpl. destruct (Htab pid f Hf) as [[-> _]|[_ Hold]]; [done|].
    by apply (Hpt pid f).
  - apply Forall_forall. intros f Hf.
    destruct (Hfree' f Hf) as [[-> _]|[_ Hold]]; [done|by apply Hfl].
  - apply Forall_forall. intros f Hf.
    destruct (Hrepl' f Hf) as [[-> _]|[_ Hold]]; [done|by apply Hrp].
  - apply Forall_forall. intros f Hf. rewrite (frame_is_insert _ s s' F p' f Hp).
    destruct (Hfree' f Hf) as [(-> & ? & ?)|[Hne Hold]].
    + by rewrite decide_True.
    + rewrite decide_False by done. by apply Hfree.
  - apply Forall_forall. intros f Hf. rewrite (frame_is_insert _ s s' F p' f Hp).
    destruct (Hrepl' f Hf) as [(-> & ?)|[Hne Hold]].
    + by rewrite decide_True.
    + rewrite decide_False by done. by apply Hrepl.
  - intros pid f Hf. simpl. rewrite (frame_is_insert _ s s' F p' f Hp).
    destruct (Htab pid f Hf) as [[-> Hid]|[Hne Hold]].
    + rewrite decide_True by done. split; [done|].
      intros Hin. by destruct (HFfree Hin) as [_ Hno]; apply (Hno pid).
    + rewrite decide_False by done. destruct (Hres pid f Hold) as [Hfr Hnf].
      split; [done|]. intros Hin.
      destruct (Hfree' f Hin) as [[-> _]|[_ Hin0]]; done.
  - rewrite Hp. apply Forall_forall. intros p Hin.
    apply list_elem_of_lookup in Hin as [i Hi].
    destruct (decide (i = F)) as [->|Hne].
    + rewrite list_lookup_insert_eq in Hi by done. by injection Hi as <-.
    + rewrite list_lookup_insert_ne in Hi by done.
      rewrite Forall_forall in Hpin. apply Hpin.
      by eapply list_elem_of_lookup_2.
  - apply Forall_forall. intros f Hf Hin.
    destruct (Hrepl' f Hf) as [[-> _]|[Hne Hold]].
    + by destruct (HFfree Hin) as [Hno _].
    + destruct (Hfree' f Hin) as [[-> _]|[_ Hin0]]; [done|].
      by apply (Hdisj f Hold).
Qed.

Lemma pool_strict_update s s' (F : nat) p' :
  BPM.pool_strict s -> BPM.pool_ok s' ->
  BPM.pages s' = <[F := p']> (BPM.pages s) ->
  0 <= BPM.next_page_id (BPM.disk s') ->
  (forall pid f, BPM.page_table s' !! pid = Some f ->
     0 <= pid < BPM.next_page_id (BPM.disk s')) ->
  (F ∈ LRU.nodes (BPM.replacer s') ->
     BPM.page_table s' !! BPM.page_id p' = Some F) ->
  (forall f pf, f ∈ LRU.nodes (BPM.replacer s') -> f <> F ->
     BPM.pages s !! f = Some pf ->
     f ∈ LRU.nodes (BPM.replacer s)
     /\ (BPM.page_table s !! BPM.page_id pf = Some f ->
         BPM.page_table s' !! BPM.page_id pf = Some f)) ->
  BPM.pool_strict s'.
Proof.
  intros (Hok & Hnext & Hids & Hback) Hok' Hp Hnext' Hids' HF Hothers.
  split; [done|]. split; [done|]. split.
  - intros pid f Hf. by apply (Hids' pid f).
  - rewrite Forall_forall in Hback. apply Forall_forall. intros f Hf.
    rewrite (frame_is_insert _ s s' F p' f Hp).
    destruct (decide (f = F)) as [->|Hne]; [by intros _; apply HF|].
    unfold BPM.frame_is. destruct (BPM.pages s !! f) as [pf|] eqn:Hpf; [|done].
    destruct (Hothers f pf Hf Hne Hpf) as [Hold Hkeep].
    apply Hkeep. specialize (Hback f Hold). unfold BPM.frame_is in Hback.
    by rewrite Hpf in Hback.
Qed.

(** What the invariant says of a resident page. *)
Lemma resident_frame s pid (f : nat) :
  BPM.pool_ok s -> BPM.page_table s !! pid = Some f ->
  exists p, BPM.pages s !! f = Some p /\ BPM.page_id p = pid
    /\ 0 <= BPM.pin_count p /\ (f < length (BPM.pages s))%nat
    /\ (f ∉ BPM.free_list s)
    /\ (f ∈ LRU.nodes (BPM.replacer s) -> BPM.pin_count p = 0).
Proof.
  intros ((Hpt & _ & _ & _) & (_ & Hrepl) & Hres & Hpin & _) Hf.
  pose proof (Hpt pid f Hf) as Hlt. simpl in Hlt.
  destruct (lookup_lt_is_Some_2 _ _ Hlt) as [p Hp].
  destruct (Hres pid f Hf) as [Hfr Hnf]. unfold BPM.frame_is in Hfr.
  rewrite Hp in Hfr. exists p. split_and!; try done.
  - rewrite Forall_forall in Hpin. apply Hpin. by eapply list_elem_of_lookup_2.
  - intros Hin. rewrite Forall_forall in Hrepl. specialize (Hrepl f Hin).
    unfold BPM.frame_is in Hrepl. by rewrite Hp in Hrepl.
Qed.

Lemma resident_inj s pid pid' (f : nat) :
  BPM.pool_ok s -> BPM.page_table s !! pid = Some f ->
  BPM.page_table s !! pid' = Some f -> pid = pid'.
Proof.
  intros Hok H1 H2.
  destruct (resident_frame s pid f Hok H1) as (p & Hp & Hid & _).
  destruct (resident_frame s pid' f Hok H2) as (p' & Hp' & Hid' & _).
  congruence.
Qed.

(** The frame [GetVictimPage] hands out, and what is left of the free
    list and of the replacer. *)
Lemma victim_facts s :
  BPM.pool_ok s ->
  match BPM.victim_of s with
  | None =>
      BPM.GetVictimPage s = Val (None, s)
      /\ BPM.free_list s = [] /\ LRU.nodes (BPM.replacer s) = []
  | Some F =>
      exists p s1,
        BPM.pages s !! F = Some p /\ BPM.pin_count p = 0
        /\ BPM.GetVictimPage s = Val (Some F, s1)
        /\ BPM.pages s1 = BPM.pages s /\ BPM.page_table s1 = BPM.page_table s
        /\ BPM.disk s1 = BPM.disk s
        /\ NoDup (BPM.free_list s1)
        /\ (forall f, f ∈ BPM.free_list s1 -> f <> F /\ f ∈ BPM.free_list s)
        /\ LRU.consistent (BPM.replacer s1)
        /\ (forall f, f ∈ LRU.nodes (BPM.replacer s1) ->
              f <> F /\ f ∈ LRU.nodes (BPM.replacer s))
        /\ ((F ∈ BPM.free_list s /\ BPM.page_id p = BPM.INVALID_PAGE_ID)
            \/ (BPM.free_list s = [] /\ F ∈ LRU.nodes (BPM.replacer s)))
  end.
Proof.
  intros (Hwf & Hvu & Hres & Hpin & Hnd & Hdisj).
  pose proof (GetVictimPage_spec s Hwf Hvu) as Hg.
  destruct Hwf as (Hpt & Hfl & Hrp & Hc). destruct Hvu as (Hfree & Hrepl).
  rewrite Forall_forall in Hfree, Hrepl, Hdisj.
  destruct (BPM.victim_of s) as [F|] eqn:Hv.
  - destruct Hg as (p & s1 & Hp & Hg & Hpg & Htab & Hd & Hfl1 & Hr1 & Hr2).
    exists p, s1. unfold BPM.victim_of in Hv.
    destruct (BPM.free_list s) as [|F0 rest] eqn:Hl.
    + destruct (Hr2 eq_refl) as [Hn Hh].
      assert (HF : F ∈ LRU.nodes (BPM.replacer s)) by (rewrite Hn; set_solver).
      pose proof (Hrepl F HF) as HpF. unfold BPM.frame_is in HpF. rewrite Hp in HpF.
      destruct Hc as [Hnd0 Hm]. rewrite Hn in Hnd0.
      apply NoDup_app in Hnd0 as (Hnd1 & Hdis & _).
      split_and!; try done.
      * rewrite Hfl1. constructor.
      * rewrite Hfl1. intros f Hf. by apply elem_of_nil in Hf.
      * split; [done|]. rewrite Hh, Hm, Hn. apply set_eq. intros y.
        rewrite elem_of_difference, !elem_of_list_to_set, elem_of_app.
        rewrite list_elem_of_singleton, elem_of_singleton. split.
        -- intros [[?|?] ?]; done.
        -- intros Hy. split; [by left|]. intros ->. apply (Hdis F Hy). left.
      * intros f Hf. split; [|rewrite Hn; set_solver].
        intros ->. apply (Hdis F Hf). left.
      * by right.
    + injection Hv as ->.
      assert (HF : F ∈ F :: rest) by left.
      pose proof (Hfree F HF) as HpF. unfold BPM.frame_is in HpF. rewrite Hp in HpF.
      destruct HpF as [Hid Hpc]. apply NoDup_cons in Hnd as [HFr Hnd1].
      rewrite (Hr1 ltac:(done)). simpl in Hfl1.
      split_and!; try done.
      * by rewrite Hfl1.
      * rewrite Hfl1. intros f Hf. split; [by intros ->|by right].
      * intros f Hf. split; [|done]. intros ->. by apply (Hdisj F Hf).
      * by left.
  - destruct Hg as (Hfl0 & Hsz & Hg). split; [done|]. split; [done|].
    by apply Size_zero_nodes.
Qed.

(** The frame [F], which held [p], takes the page [pid]. *)
Lemma install_ok s s1 (F : nat) p pid p' d :
  BPM.pool_ok s -> BPM.pages s !! F = Some p ->
  BPM.pages s1 = BPM.pages s -> BPM.page_table s1 = BPM.page_table s ->
  NoDup (BPM.free_list s1) ->
  (forall f, f ∈ BPM.free_list s1 -> f <> F /\ f ∈ BPM.free_list s) ->
  LRU.consistent (BPM.replacer s1) ->
  (forall f, f ∈ LRU.nodes (BPM.replacer s1) ->
     f <> F /\ f ∈ LRU.nodes (BPM.replacer s)) ->
  BPM.page_id p' = pid -> 0 <= BPM.pin_count p' ->
  BPM.pool_ok
    (BPM.mk (<[F := p']> (BPM.pages s1))
            (<[pid := F]> (delete (BPM.page_id p) (BPM.page_table s1)))
            (BPM.replacer s1) (BPM.free_list s1) d).
Proof.
  intros Hok Hp Hpg Htab Hnd1 Hfl1 Hc1 Hr1 Hid Hpin.
  apply (pool_ok_update s _ F p' Hok); simpl; try done.
  - by rewrite Hpg.
  - by eapply lookup_lt_Some.
  - intros pid' f. rewrite Htab. rewrite lookup_insert_Some.
    intros [[<- <-]|[Hne Hf]]; [by left|]. right.
    apply lookup_delete_Some in Hf as [Hq Hf]. split; [|done].
    intros ->. destruct (resident_frame s pid' F Hok Hf) as (p0 & Hp0 & Hid0 & _).
    congruence.
  - intros f Hf. right. by apply Hfl1.
  - intros f Hf. right. by apply Hr1.
  - intros HF. by destruct (Hfl1 F HF).
Qed.

Lemma pins_kept_same s s' :
  BPM.pool_ok s ->
  BPM.pages s' = BPM.pages s -> BPM.page_table s' = BPM.page_table s ->
  BPM.pins_kept s s'.
Proof.
  intros Hok Hp Ht pid f p Hf Hpf Hpin. rewrite Hp, Ht. split; [done|].
  destruct (resident_frame s pid f Hok Hf) as (p0 & Hp0 & Hid & _).
  exists p. split; [done|]. split; [congruence|]. split; [done|lia].
Qed.

(** A pinned page is kept when another frame is rewritten and its
    entry of the page table stays. *)
Lemma pins_kept_other s s' (F : nat) p p' :
  BPM.pool_ok s -> BPM.pages s !! F = Some p -> BPM.pin_count p = 0 ->
  BPM.pages s' = <[F := p']> (BPM.pages s) ->
  (forall pid f, f <> F -> BPM.page_table s !! pid = Some f ->
     BPM.page_table s' !! pid = Some f) ->
  BPM.pins_kept s s'.
Proof.
  intros Hok HpF Hzero Hp Ht pid f p0 Hf Hpf Hpin.
  assert (Hne : f <> F) by (intros ->; rewrite HpF in Hpf; injection Hpf as <-; lia).
  split; [by apply Ht|].
  destruct (resident_frame s pid f Hok Hf) as (p1 & Hp1 & Hid & _).
  exists p0. rewrite Hp, list_lookup_insert_ne by done.
  split; [done|]. split; [congruence|]. split; [done|lia].
Qed.

(** A pinned page is kept when its own frame is rewritten with the
    same page and buffer. *)
Lemma pins_kept_frame s s' (F : nat) p p' :
  BPM.pool_ok s -> BPM.pages s !! F = Some p ->
  BPM.pages s' = <[F := p']> (BPM.pages s) ->
  BPM.page_table s' = BPM.page_table s ->
  BPM.page_id p' = BPM.page_id p -> BPM.data p' = BPM.data p ->
  BPM.pin_count p - 1 <= BPM.pin_count p' ->
  BPM.pins_kept s s'.
Proof.
  intros Hok HpF Hp Ht Hid Hdata Hpc pid f p0 Hf Hpf Hpin.
  rewrite Ht. split; [done|].
  destruct (resident_frame s pid f Hok Hf) as (p1 & Hp1 & Hid1 & _ & Hlt & _).
  rewrite Hp. destruct (decide (f = F)) as [->|Hne].
  - rewrite list_lookup_insert_eq by done. exists p'.
    assert (p0 = p) as -> by congruence. assert (p1 = p) as -> by congruence.
    split; [done|]. split; [congruence|]. split; [done|lia].
  - rewrite list_lookup_insert_ne by done. exists p0.
    split; [done|]. split; [congruence|]. split; [done|lia].
Qed.

Lemma install_strict s s1 (F : nat) p pid p' d :
  BPM.pool_strict s -> BPM.pages s !! F = Some p -> BPM.pin_count p = 0 ->
  BPM.pages s1 = BPM.pages s -> BPM.page_table s1 = BPM.page_table s ->
  NoDup (BPM.free_list s1) ->
  (forall f, f ∈ BPM.free_list s1 -> f <> F /\ f ∈ BPM.free_list s) ->
  LRU.consistent (BPM.replacer s1) ->
  (forall f, f ∈ LRU.nodes (BPM.replacer s1) ->
     f <> F /\ f ∈ LRU.nodes (BPM.replacer s)) ->
  ((F ∈ BPM.free_list s /\ BPM.page_id p = BPM.INVALID_PAGE_ID)
   \/ (BPM.free_list s = [] /\ F ∈ LRU.nodes (BPM.replacer s))) ->
  BPM.page_id p' = pid -> 0 <= BPM.pin_count p' ->
  BPM.page_table s !! pid = None ->
  0 <= pid < BPM.next_page_id d ->
  BPM.next_page_id (BPM.disk s) <= BPM.next_page_id d ->
  let s' := BPM.mk (<[F := p']> (BPM.pages s1))
                   (<[pid := F]> (delete (BPM.page_id p) (BPM.page_table s1)))
                   (BPM.replacer s1) (BPM.free_list s1) d in
  BPM.pool_strict s' /\ BPM.pins_kept s s'.
Proof.
  intros Hst Hp Hzero Hpg Htab Hnd1 Hfl1 Hc1 Hr1 Hwhere Hid Hpin Hmiss Hpid Hnext s'.
  pose proof Hst as (Hok & Hnext0 & Hids & Hback).
  assert (Hok' : BPM.pool_ok s') by by apply (install_ok s s1 F p pid p' d).
  assert (Hq : forall pid0 f, f <> F -> BPM.page_table s !! pid0 = Some f ->
            pid0 <> BPM.page_id p).
  { intros pid0 f Hne Hf ->. destruct Hwhere as [[_ Hinv]|[_ HF]].
    - rewrite Hinv in Hf. specialize (Hids _ _ Hf). simpl in Hids.
      unfold BPM.INVALID_PAGE_ID in Hids. lia.
    - rewrite Forall_forall in Hback. specialize (Hback F HF).
      unfold BPM.frame_is in Hback. rewrite Hp in Hback. congruence. }
  assert (Hkeep : forall pid0 f, f <> F -> BPM.page_table s !! pid0 = Some f ->
            BPM.page_table s' !! pid0 = Some f).
  { intros pid0 f Hne Hf. simpl. rewrite Htab.
    rewrite lookup_insert_ne by congruence.
    rewrite lookup_delete_ne; [done|]. intros Heq. by apply (Hq pid0 f Hne Hf). }
  split.
  - apply (pool_strict_update s s' F p' Hst Hok'); simpl.
    + by rewrite Hpg.
    + lia.
    + intros pid0 f. rewrite Htab, lookup_insert_Some.
      intros [[<- <-]|[Hne Hf]]; [done|].
      apply lookup_delete_Some in Hf as [_ Hf].
      specialize (Hids _ _ Hf). simpl in Hids. lia.
    + intros HF. by destruct (Hr1 F HF).
    + intros f pf Hf Hne Hpf. destruct (Hr1 f Hf) as [_ Hold]. split; [done|].
      intros Hres. by apply (Hkeep _ f).
  - apply (pins_kept_other s s' F p p' Hok Hp Hzero); simpl; [by rewrite Hpg|done].
Qed.

Lemma FetchPage_step pid s :
  BPM.pool_ok s ->
  exists r s',
    BPM.FetchPage zero_data pid s = Val (r, s') /\ BPM.pool_ok s'
    /\ (BPM.pool_strict s -> 0 <= pid < BPM.next_page_id (BPM.disk s) ->
        BPM.pool_strict s' /\ BPM.pins_kept s s').
Proof.
  intros Hok. unfold BPM.FetchPage.
  destruct (BPM.page_table s !! pid) as [F|] eqn:HF.
  - destruct (resident_frame s pid F Hok HF) as (p & Hp & Hid & Hpin & Hlt & Hnf & _).
    rewrite Hp. simpl. eexists _, _. split; [reflexivity|].
    pose proof Hok as ((_ & _ & _ & Hc) & _ & _ & _ & Hnd & _).
    destruct (Erase_nodes F _ Hc) as [He1 He2].
    set (p' := BPM.mkPage _ _ _ _).
    set (s' := BPM.mk _ _ _ _ _).
    assert (Hok' : BPM.pool_ok s').
    { apply (pool_ok_update s s' F p' Hok); simpl; try done.
      - lia.
      - intros pid' f Hf. destruct (decide (f = F)) as [->|Hne]; [left|by right].
        split; [done|]. rewrite Hid. by apply (resident_inj s pid pid' F).
      - intros f Hf. right. split; [|done]. by intros ->.
      - by apply Erase_consistent.
      - intros f. rewrite He1, list_elem_of_filter. intros [? ?]. by right. }
    split; [done|]. intros Hst _. split.
    + pose proof Hst as (_ & Hnext & Hids & _).
      apply (pool_strict_update s s' F p'); simpl; try done.
      * rewrite He1, list_elem_of_filter. by intros [? _].
      * intros f pf. rewrite He1, list_elem_of_filter. by intros [_ ?] _ _.
    + apply (pins_kept_frame s s' F p p' Hok Hp); simpl; try done; lia.
  - pose proof (victim_facts s Hok) as Hv.
    destruct (BPM.victim_of s) as [F|].
    + destruct Hv as (p & s1 & Hp & Hzero & -> & Hpg & Htab & Hd & Hnd1 & Hfl1
                      & Hc1 & Hr1 & Hwhere).
      assert (Hp1 : BPM.pages s1 !! F = Some p) by (by rewrite Hpg).
      simpl. rewrite Hp1. simpl. eexists _, _. split; [reflexivity|].
      split.
      * by apply (install_ok s s1 F p pid).
      * intros Hst Hpid.
        apply (install_strict s s1 F p pid); simpl; try done.
        -- rewrite Hd. by destruct (BPM.is_dirty p).
        -- rewrite Hd. by destruct (BPM.is_dirty p).
    + destruct Hv as (-> & _). simpl. exists None, s.
      split; [done|]. split; [done|]. intros Hst _. split; [done|].
      by apply pins_kept_same.
Qed.

Lemma NewPage_step s :
  BPM.pool_ok s ->
  exists r s',
    BPM.NewPage zero_data s = Val (r, s') /\ BPM.pool_ok s'
    /\ (BPM.pool_strict s -> BPM.pool_strict s' /\ BPM.pins_kept s s').
Proof.
  intros Hok. unfold BPM.NewPage.
  pose proof (victim_facts s Hok) as Hv.
  destruct (BPM.victim_of s) as [F|].
  - destruct Hv as (p & s1 & Hp & Hzero & -> & Hpg & Htab & Hd & Hnd1 & Hfl1
                    & Hc1 & Hr1 & Hwhere).
    assert (Hp1 : BPM.pages s1 !! F = Some p) by (by rewrite Hpg).
    simpl. rewrite Hp1. simpl. eexists _, _. split; [reflexivity|].
    assert (Hn : BPM.next_page_id
                   (if BPM.is_dirty p
                    then BPM.disk_write (BPM.page_id p) (BPM.data p) (BPM.disk s1)
                    else BPM.disk s1) = BPM.next_page_id (BPM.disk s)).
    { rewrite Hd. by destruct (BPM.is_dirty p). }
    split.
    + by apply (install_ok s s1 F p).
    + intros Hst. pose proof Hst as (_ & Hnext & Hids & _).
      apply (install_strict s s1 F p); simpl; try done.
      * rewrite Hn. destruct (BPM.page_table s !! BPM.next_page_id (BPM.disk s))
          as [f|] eqn:Hf; [|done].
        specialize (Hids _ _ Hf). simpl in Hids. lia.
      * rewrite Hn. lia.
      * rewrite Hn. lia.
  - destruct Hv as (-> & _). simpl. exists None, s.
    split; [done|]. split; [done|]. intros Hst. split; [done|].
    by apply pins_kept_same.
Qed.

Lemma pool_strict_same s s' :
  BPM.pool_strict s ->
  BPM.pages s' = BPM.pages s -> BPM.page_table s' = BPM.page_table s ->
  BPM.replacer s' = BPM.replacer s -> BPM.free_list s' = BPM.free_list s ->
  BPM.next_page_id (BPM.disk s') = BPM.next_page_id (BPM.disk s) ->
  BPM.pool_strict s'.
Proof.
  intros (Hok & Hnext & Hids & Hback) Hp Ht Hr Hf Hn.
  split; [by apply (pool_ok_disk s s')|].
  unfold BPM.frame_is. rewrite Hn, Hp, Ht, Hr. done.
Qed.

Lemma elem_of_unlink (x v : nat) (l : list nat) :
  x ∈ LRU.unlink v l -> x ∈ l.
Proof.
  induction l as [|a l IH]; simpl; [done|].
  destruct (decide (a = v)); [by right|].
  rewrite !elem_of_cons. naive_solver.
Qed.

Lemma elem_of_Insert_nodes (x v : nat) (r : LRU.LRUReplacer nat) :
  x ∈ LRU.nodes (LRU.Insert v r) -> x = v \/ x ∈ LRU.nodes r.
Proof.
  unfold LRU.Insert. simpl. rewrite elem_of_cons. intros [?|Hin]; [by left|right].
  destruct (decide (v ∈ LRU.hashmap r)); [by eapply elem_of_unlink|done].
Qed.

Lemma UnpinPage_step pid (d : bool) s :
  BPM.pool_ok s ->
  (exists r s',
     BPM.UnpinPage pid d s = Val (r, s') /\ BPM.pool_ok s'
     /\ (BPM.pool_strict s -> BPM.pool_strict s' /\ BPM.pins_kept s s'))
  \/ (BPM.UnpinPage pid d s = Abort /\ BPM.misuse (BPM.OUnpin pid d) s).
Proof.
  intros Hok. unfold BPM.UnpinPage.
  destruct (BPM.page_table s !! pid) as [F|] eqn:HF.
  2:{ left. exists false, s. split; [done|]. split; [done|]. intros Hst.
      split; [done|]. by apply pins_kept_same. }
  destruct (resident_frame s pid F Hok HF) as (p & Hp & Hid & Hpin & Hlt & Hnf & Hrz).
  rewrite Hp. simpl.
  destruct (decide (BPM.pin_count p > 0)) as [Hpos|Hzero].
  2:{ right. rewrite (bool_decide_eq_false_2 (BPM.pin_count p > 0)) by done.
      split; [done|]. simpl. exists F, p. split; [done|]. split; [done|]. lia. }
  left. rewrite (bool_decide_eq_true_2 (BPM.pin_count p > 0)) by done. simpl.
  eexists _, _. split; [reflexivity|].
  pose proof Hok as ((_ & _ & _ & Hc) & _ & _ & _ & Hnd & _).
  set (p' := BPM.mkPage _ _ _ _).
  set (r' := if bool_decide (BPM.pin_count p - 1 = 0) then _ else _).
  set (s' := BPM.mk _ _ _ _ _).
  assert (Hnodes : forall f, f ∈ LRU.nodes r' ->
            (f = F /\ BPM.pin_count p' = 0)
            \/ (f <> F /\ f ∈ LRU.nodes (BPM.replacer s))).
  { intros f Hf. unfold r' in Hf. case_bool_decide as Hpc.
    - destruct (decide (f = F)) as [->|Hne]; [by left|right]. split; [done|].
      by destruct (elem_of_Insert_nodes _ _ _ Hf).
    - right. split; [|done]. intros ->. specialize (Hrz Hf). lia. }
  assert (Hok' : BPM.pool_ok s').
  { apply (pool_ok_update s s' F p' Hok); simpl; try done.
    - lia.
    - intros pid' f Hf. destruct (decide (f = F)) as [->|Hne]; [left|by right].
      split; [done|]. rewrite Hid. by apply (resident_inj s pid pid' F).
    - intros f Hf. right. split; [|done]. by intros ->.
    - unfold r'. case_bool_decide; [by apply Insert_consistent|done]. }
  split; [done|]. intros Hst. split.
  - pose proof Hst as (_ & Hnext & Hids & _).
    apply (pool_strict_update s s' F p'); simpl; try done.
    + intros _. by rewrite Hid.
    + intros f pf Hf Hne _. split; [|done].
      by destruct (Hnodes f Hf) as [[? _]|[_ ?]].
  - apply (pins_kept_frame s s' F p p' Hok Hp); simpl; try done; lia.
Qed.

Lemma DeletePage_step pid s :
  BPM.pool_ok s ->
  exists r s',
    BPM.DeletePage zero_data pid s = Val (r, s') /\ BPM.pool_ok s'
    /\ (BPM.pool_strict s -> BPM.pool_strict s' /\ BPM.pins_kept s s').
Proof.
  intros Hok. unfold BPM.DeletePage.
  destruct (BPM.page_table s !! pid) as [F|] eqn:HF.
  2:{ eexists _, _. split; [reflexivity|]. split; [by apply (pool_ok_disk s)|].
      intros Hst. split; [by apply (pool_strict_same s)|].
      by apply pins_kept_same. }
  destruct (resident_frame s pid F Hok HF) as (p & Hp & Hid & Hpin & Hlt & Hnf & Hrz).
  rewrite Hp. simpl. case_bool_decide as Hpos.
  { exists false, s. split; [done|]. split; [done|]. intros Hst.
    split; [done|]. by apply pins_kept_same. }
  eexists _, _. split; [reflexivity|].
  pose proof Hok as ((_ & _ & _ & Hc) & _ & _ & _ & Hnd & _).
  destruct (Erase_nodes F _ Hc) as [He1 He2].
  set (p' := BPM.mkPage _ _ _ _).
  set (s' := BPM.mk _ _ _ _ _).
  assert (Hother : forall pid' f, BPM.page_table s !! pid' = Some f ->
            pid' <> pid -> f <> F).
  { intros pid' f Hf Hne ->. apply Hne. by apply (resident_inj s pid' pid F). }
  assert (Hok' : BPM.pool_ok s').
  { apply (pool_ok_update s s' F p' Hok); simpl; try done.
    - intros pid' f Hf. apply lookup_delete_Some in Hf as [Hne Hf].
      right. split; [|done]. by apply (Hother pid').
    - apply NoDup_app. split; [done|]. split; [|apply NoDup_singleton].
      intros f Hf Hin. apply list_elem_of_singleton in Hin as ->. done.
    - intros f Hf. apply elem_of_app in Hf as [Hf|Hf].
      + right. split; [|done]. by intros ->.
      + apply list_elem_of_singleton in Hf as ->. left.
        split; [done|]. split; [done|]. lia.
    - by apply Erase_consistent.
    - intros f. rewrite He1, list_elem_of_filter. intros [? ?]. by right.
    - intros _. split.
      + rewrite He1, list_elem_of_filter. by intros [? _].
      + intros pid' Hf. apply lookup_delete_Some in Hf as [Hne Hf].
        by apply (Hother pid' F). }
  split; [done|]. intros Hst. split.
  - pose proof Hst as (_ & Hnext & Hids & _).
    apply (pool_strict_update s s' F p'); simpl; try done.
    + intros pid' f Hf. apply lookup_delete_Some in Hf as [_ Hf].
      by apply (Hids pid' f).
    + rewrite He1, list_elem_of_filter. by intros [? _].
    + intros f pf. rewrite He1, list_elem_of_filter. intros [_ Hf] Hne _.
      split; [done|]. intros Hres. rewrite lookup_delete_ne; [done|].
      intros Heq. rewrite <- Heq in Hres. congruence.
  - apply (pins_kept_other s s' F p p' Hok Hp); simpl; [lia|done|].
    intros pid0 f Hne Hf. rewrite lookup_delete_ne; [done|].
    intros <-. congruence.
Qed.

Lemma FlushPage_step pid s :
  BPM.pool_ok s ->
  (exists r s',
     BPM.FlushPage pid s = Val (r, s') /\ BPM.pool_ok s'
     /\ (BPM.pool_strict s -> BPM.pool_strict s' /\ BPM.pins_kept s s'))
  \/ (BPM.FlushPage pid s = Abort /\ BPM.misuse (BPM.OFlush pid) s).
Proof.
  intros Hok. unfold BPM.FlushPage.
  destruct (BPM.page_table s !! pid) as [F|] eqn:HF.
  2:{ left. exists false, s. split; [done|]. split; [done|]. intros Hst.
      split; [done|]. by apply pins_kept_same. }
  destruct (resident_frame s pid F Hok HF) as (p & Hp & Hid & Hpin & Hlt & Hnf & Hrz).
  rewrite Hp. simpl. rewrite Hid.
  destruct (decide (pid = BPM.INVALID_PAGE_ID)) as [Hinv|Hval].
  { right. rewrite bool_decide_eq_false_2 by (by intros ?). split; [done|].
    simpl. split; [done|]. by rewrite HF. }
  left. rewrite bool_decide_eq_true_2 by done. simpl.
  destruct (BPM.is_dirty p) eqn:Hdirty.
  2:{ exists true, s. split; [done|]. split; [done|]. intros Hst.
      split; [done|]. by apply pins_kept_same. }
  eexists _, _. split; [reflexivity|].
  set (p' := BPM.mkPage _ _ _ _).
  set (s' := BPM.mk _ _ _ _ _).
  pose proof Hok as ((_ & _ & _ & Hc) & _ & _ & _ & Hnd & _).
  assert (Hnodes : forall f, f ∈ LRU.nodes (BPM.replacer s) ->
            (f = F /\ BPM.pin_count p' = 0)
            \/ (f <> F /\ f ∈ LRU.nodes (BPM.replacer s))).
  { intros f Hf. destruct (decide (f = F)) as [->|Hne]; [left|by right].
    split; [done|]. by apply Hrz. }
  assert (Hok' : BPM.pool_ok s').
  { apply (pool_ok_update s s' F p' Hok); simpl; try done.
    - intros pid' f Hf. destruct (decide (f = F)) as [->|Hne]; [left|by right].
      split; [done|]. by apply (resident_inj s pid pid' F).
    - intros f Hf. right. split; [|done]. by intros ->. }
  split; [done|]. intros Hst. split.
  - pose proof Hst as (_ & Hnext & Hids & _).
    by apply (pool_strict_update s s' F p').
  - apply (pins_kept_frame s s' F p p' Hok Hp); simpl; try done; lia.
Qed.

Lemma step_ok o s :
  BPM.pool_ok s ->
  (exists s',
     BPM.step zero_data o s = Val s' /\ BPM.pool_ok s'
     /\ (BPM.pool_strict s -> BPM.legal o s ->
         BPM.pool_strict s' /\ BPM.pins_kept s s'))
  \/ (BPM.step zero_data o s = Abort /\ BPM.misuse o s).
Proof.
  intros Hok. destruct o as [pid|pid d|pid|pid|]; simpl.
  - destruct (FetchPage_step pid s Hok) as (r & s' & -> & Hok' & Hst).
    left. exists s'. split; [done|]. split; [done|]. intros ? ?. by apply Hst.
  - destruct (UnpinPage_step pid d s Hok) as [(r & s' & -> & Hok' & Hst)|[-> Hm]].
    + left. exists s'. split; [done|]. split; [done|]. intros ? _. by apply Hst.
    + by right.
  - destruct (FlushPage_step pid s Hok) as [(r & s' & -> & Hok' & Hst)|[-> Hm]].
    + left. exists s'. split; [done|]. split; [done|]. intros ? _. by apply Hst.
    + by right.
  - destruct (DeletePage_step pid s Hok) as (r & s' & -> & Hok' & Hst).
    left. exists s'. split; [done|]. split; [done|]. intros ? _. by apply Hst.
  - destruct (NewPage_step s Hok) as (r & s' & -> & Hok' & Hst).
    left. exists s'. split; [done|]. split; [done|]. intros ? _. by apply Hst.
Qed.

Lemma legal_not_misuse o s :
  BPM.pool_strict s -> BPM.legal o s -> ~ BPM.misuse o s.
Proof.
  intros (Hok & _ & Hids & _) Hl Hm. destruct o as [pid|pid d|pid|pid|]; simpl in *; try done.
  - destruct Hm as (f & p & Hf & Hp & Hz). rewrite Hf in Hl.
    unfold BPM.frame_is in Hl. rewrite Hp in Hl. lia.
  - destruct Hm as [-> [f Hf]]. specialize (Hids _ _ Hf). simpl in Hids.
    unfold BPM.INVALID_PAGE_ID in Hids. lia.
Qed.

Lemma step_strict o s :
  BPM.pool_strict s -> BPM.legal o s ->
  exists s', BPM.step zero_data o s = Val s'
    /\ BPM.pool_strict s' /\ BPM.pins_kept s s'.
Proof.
  intros Hst Hl. pose proof Hst as (Hok & _).
  destruct (step_ok o s Hok) as [(s' & Hs & _ & Hkeep)|[_ Hm]].
  - exists s'. split; [done|]. by apply Hkeep.
  - by destruct (legal_not_misuse o s).
Qed.

Lemma new_ok (n : nat) dm : BPM.pool_ok (BPM.new zero_data n dm).
Proof.
  unfold BPM.pool_ok, BPM.well_formed, BPM.victims_unpinned, BPM.new. simpl.
  rewrite length_replicate. split_and!.
  - apply map_Forall_empty.
  - apply Forall_forall. intros f Hf. apply elem_of_seq in Hf. lia.
  - constructor.
  - split; [constructor|done].
  - apply Forall_forall. intros f Hf. apply elem_of_seq in Hf.
    unfold BPM.frame_is. simpl. rewrite lookup_replicate_2 by lia. done.
  - constructor.
  - apply map_Forall_empty.
  - apply Forall_replicate. simpl. lia.
  - apply NoDup_seq.
  - constructor.
Qed.

Lemma new_strict (n : nat) dm :
  0 <= BPM.next_page_id dm -> BPM.pool_strict (BPM.new zero_data n dm).
Proof.
  intros Hn. split; [apply new_ok|]. split; [done|]. split.
  - apply map_Forall_empty.
  - constructor.
Qed.

Lemma run_ok ops : forall s,
  BPM.pool_ok s ->
  match BPM.run zero_data ops s with
  | Val s' => BPM.pool_ok s'
  | Abort =>
      exists before o after s1,
        ops = before ++ o :: after
        /\ BPM.run zero_data before s = Val s1
        /\ BPM.pool_ok s1 /\ BPM.misuse o s1
  | NoFuel => False
  end.
Proof.
  induction ops as [|o ops IH]; intros s Hok; simpl; [done|].
  destruct (step_ok o s Hok) as [(s' & Hs & Hok' & _)|[Hs Hm]]; rewrite Hs; simpl.
  - specialize (IH s' Hok'). destruct (BPM.run zero_data ops s'); [done| |done].
    destruct IH as (before & o1 & after & s1 & -> & Hrun & Hok1 & Hm).
    exists (o :: before), o1, after, s1. simpl. rewrite Hs. done.
  - exists [], o, ops, s. done.
Qed.

Lemma legal_run_ok ops : forall s,
  BPM.pool_strict s -> BPM.legal_run zero_data ops s ->
  exists s', BPM.run zero_data ops s = Val s' /\ BPM.pool_strict s'.
Proof.
  induction ops as [|o ops IH]; intros s Hst Hl; simpl in *; [by exists s|].
  destruct Hl as [Hl Hrest].
  destruct (step_strict o s Hst Hl) as (s1 & Hs & Hst1 & _).
  rewrite Hs in *. simpl. by apply IH.
Qed.

(** X14. Whatever calls are made on a new pool, the assertions of
    [GetVictimPage] never fail, and the pool stays in a state where the
    page table, the free list and the replacer agree with the frames.
    The only calls that fail are [UnpinPage] of a resident page whose
    pin count is 0 and [FlushPage] of a resident page whose id is
    [INVALID_PAGE_ID]. *)
Theorem pool_history (n : nat) (dm : BPM.DiskManager Data) ops :
  match BPM.run zero_data ops (BPM.new zero_data n dm) with
  | Val s => BPM.pool_ok s
  | Abort =>
      exists before o after s,
        ops = before ++ o :: after
        /\ BPM.run zero_data before (BPM.new zero_data n dm) = Val s
        /\ BPM.pool_ok s /\ BPM.misuse o s
  | NoFuel => False
  end.
Proof.
  pose proof (new_ok n dm) as Hnew.
  by apply (run_ok ops (BPM.new zero_data n dm)).
Qed.

(** X15. A caller that fetches only pages the disk manager has
    allocated and unpins only pinned pages never sees a call fail, and
    no call evicts a pinned page: after any such history from a new
    pool, every further call returns, and a page that was resident and
    pinned before the call is still resident in the same frame with the
    same buffer, its pin count lowered by one at most. *)
Theorem pinned_page_stays (n : nat) (dm : BPM.DiskManager Data) ops :
  0 <= BPM.next_page_id dm ->
  BPM.legal_run zero_data ops (BPM.new zero_data n dm) ->
  exists s,
    BPM.run zero_data ops (BPM.new zero_data n dm) = Val s
    /\ forall o, BPM.legal o s ->
         exists s',
           BPM.step zero_data o s = Val s'
           /\ forall pid (f : nat) p,
                BPM.page_table s !! pid = Some f ->
                BPM.pages s !! f = Some p -> BPM.pin_count p > 0 ->
                BPM.page_table s' !! pid = Some f
                /\ exists p', BPM.pages s' !! f = Some p'
                     /\ BPM.page_id p' = pid /\ BPM.data p' = BPM.data p
                     /\ BPM.pin_count p - 1 <= BPM.pin_count p'.
Proof.
  intros Hn Hl.
  destruct (legal_run_ok ops _ (new_strict n dm Hn) Hl) as (s & Hrun & Hst).
  exists s. split; [done|]. intros o Ho.
  destruct (step_strict o s Hst Ho) as (s' & Hs & _ & Hkeep).
  exists s'. split; [done|]. exact Hkeep.
Qed.

(** X16. [NewPage] in a pool between calls.  When there is neither a
    free frame nor a replaceable one it returns none and changes
    nothing, the disk manager included.  Otherwise it takes the head of
    the free list, or else the LRU tail; writes the old content back
    exactly when the victim is dirty; asks the disk manager for an id
    and returns it with the frame; the frame then holds the new page,
    zeroed, clean, with pin count 1, and the page table maps the id to
    it in place of the old page. *)
Theorem NewPage_allocates s :
  BPM.pool_ok s ->
  match BPM.victim_of s with
  | None => BPM.NewPage zero_data s = Val (None, s)
  | Some F =>
      exists p s',
        BPM.pages s !! F = Some p
        /\ BPM.NewPage zero_data s
           = Val (Some (F, BPM.next_page_id (BPM.disk s)), s')
        /\ BPM.calls (BPM.disk s') =
             BPM.calls (BPM.disk s)
             ++ (if BPM.is_dirty p
                 then [BPM.WritePage (BPM.page_id p) (BPM.data p)]
                 else [])
             ++ [BPM.AllocatePage (BPM.next_page_id (BPM.disk s))]
        /\ BPM.next_page_id (BPM.disk s') = BPM.next_page_id (BPM.disk s) + 1
        /\ BPM.page_table s' =
             <[BPM.next_page_id (BPM.disk s) := F]>
               (delete (BPM.page_id p) (BPM.page_table s))
        /\ BPM.pages s' =
             <[F := BPM.mkPage (BPM.next_page_id (BPM.disk s)) 1 false zero_data]>
               (BPM.pages s)
        /\ BPM.free_list s' = tail (BPM.free_list s)
        /\ BPM.pool_ok s'
  end.
Proof.
  intros Hok. pose proof Hok as (Hwf & Hvu & _).
  pose proof (GetVictimPage_spec s Hwf Hvu) as Hg.
  destruct (NewPage_step s Hok) as (r & s' & HN & Hok' & _).
  revert HN. unfold BPM.NewPage.
  destruct (BPM.victim_of s) as [F|].
  - destruct Hg as (p & s1 & Hp & -> & Hpg & Hpt & Hd & Hfl & _).
    assert (Hp1 : BPM.pages s1 !! F = Some p) by (by rewrite Hpg).
    simpl. rewrite Hp1. simpl. intros Heq. injection Heq as <- <-.
    exists p. rewrite Hd, Hpt, Hpg, Hfl in *.
    destruct (BPM.is_dirty p); simpl in *.
    + eexists. split; [done|]. split; [reflexivity|]. simpl.
      rewrite <- app_assoc. done.
    + eexists. split; [done|]. split; [reflexivity|]. done.
  - by destruct Hg as (_ & _ & ->).
Qed.

(** X17. [FlushPage] of a resident page (other than [INVALID_PAGE_ID])
    returns true.  A dirty page is written to the disk under its id,
    so that the disk then holds the buffer, and becomes clean; a clean
    page causes no call of the disk manager.  Nothing else changes, and
    a second [FlushPage] changes nothing at all. *)
Theorem FlushPage_writes_back pid s (F : nat) p :
  BPM.pool_ok s ->
  BPM.page_table s !! pid = Some F -> BPM.pages s !! F = Some p ->
  pid <> BPM.INVALID_PAGE_ID ->
  exists s',
    BPM.FlushPage pid s = Val (true, s')
    /\ BPM.pages s' =
         <[F := BPM.mkPage pid (BPM.pin_count p) false (BPM.data p)]> (BPM.pages s)
    /\ (if BPM.is_dirty p
        then BPM.calls (BPM.disk s') =
               BPM.calls (BPM.disk s) ++ [BPM.WritePage pid (BPM.data p)]
             /\ BPM.contents (BPM.disk s') !! pid = Some (BPM.data p)
        else BPM.disk s' = BPM.disk s)
    /\ BPM.page_table s' = BPM.page_table s
    /\ BPM.replacer s' = BPM.replacer s
    /\ BPM.free_list s' = BPM.free_list s
    /\ BPM.FlushPage pid s' = Val (true, s').
Proof.
  intros Hok HF Hp Hval.
  destruct (resident_frame s pid F Hok HF) as (p0 & Hp0 & Hid & _ & Hlt & _).
  assert (p0 = p) as -> by congruence.
  unfold BPM.FlushPage. rewrite HF, Hp. simpl.
  rewrite bool_decide_eq_true_2 by congruence. simpl.
  destruct (BPM.is_dirty p) eqn:Hdirty.
  - eexists. split; [reflexivity|]. simpl. rewrite Hid.
    split; [done|]. split.
    { split; [done|]. by rewrite lookup_insert_eq. }
    split; [done|]. split; [done|]. split; [done|].
    rewrite HF, list_lookup_insert_eq by done. simpl.
    by rewrite bool_decide_eq_true_2.
  - exists s. split; [done|]. split.
    { symmetry. apply list_insert_id. rewrite Hp. f_equal.
      destruct p; simpl in *. congruence. }
    split; [done|]. split; [done|]. split; [done|]. split; [done|].
    rewrite HF, Hp. simpl. rewrite bool_decide_eq_true_2 by congruence.
    simpl. by rewrite Hdirty.
Qed.

(** X18. [DeletePage] of a resident page that is not pinned returns
    true: the page leaves the page table, its frame is reset (no page,
    clean, zeroed), leaves the replacer and goes to the end of the free
    list; the disk manager receives [DeallocatePage] only, so a dirty
    buffer is dropped without being written.  The pool is then again in
    a state between calls, and no page is resident in that frame. *)
Theorem DeletePage_resident pid s (F : nat) p :
  BPM.pool_ok s ->
  BPM.page_table s !! pid = Some F -> BPM.pages s !! F = Some p ->
  BPM.pin_count p <= 0 ->
  exists s',
    BPM.DeletePage zero_data pid s = Val (true, s')
    /\ BPM.page_table s' = delete pid (BPM.page_table s)
    /\ BPM.pages s' =
         <[F := BPM.mkPage BPM.INVALID_PAGE_ID 0 false zero_data]> (BPM.pages s)
    /\ BPM.free_list s' = BPM.free_list s ++ [F]
    /\ LRU.nodes (BPM.replacer s') =
         filter (fun x => x <> F) (LRU.nodes (BPM.replacer s))
    /\ BPM.calls (BPM.disk s') = BPM.calls (BPM.disk s) ++ [BPM.DeallocatePage pid]
    /\ BPM.contents (BPM.disk s') = BPM.contents (BPM.disk s)
    /\ BPM.pool_ok s'
    /\ forall pid', BPM.page_table s' !! pid' <> Some F.
Proof.
  intros Hok HF Hp Hpin.
  destruct (resident_frame s pid F Hok HF) as (p0 & Hp0 & Hid & Hge & _).
  assert (p0 = p) as -> by congruence.
  assert (Hzero : BPM.pin_count p = 0) by lia.
  destruct (DeletePage_step pid s Hok) as (r & s' & HD & Hok' & _).
  revert HD. unfold BPM.DeletePage. rewrite HF, Hp. simpl.
  rewrite bool_decide_eq_false_2 by lia. intros Heq. injection Heq as <- <-.
  eexists. split; [reflexivity|]. simpl. rewrite Hzero in *.
  pose proof Hok as ((_ & _ & _ & Hc) & _).
  destruct (Erase_nodes F _ Hc) as [He1 _].
  split_and!; try done.
  intros pid' Hf. apply lookup_delete_Some in Hf as [Hne Hf].
  apply Hne. by apply (resident_inj s pid pid' F).
Qed.

(** X19. Round trip of a pin on a resident page: [FetchPage] followed
    by [UnpinPage] restores the pin count, leaves the buffer, the page
    table, the free list and the disk untouched, and can only set the
    dirty flag.  A page that was not pinned before is afterwards the
    most recently used frame of the replacer, the other frames keeping
    their order; the replacer of a pinned page is unchanged. *)
Theorem FetchPage_UnpinPage_round_trip pid (d : bool) s (F : nat) p :
  BPM.pool_ok s ->
  BPM.page_table s !! pid = Some F -> BPM.pages s !! F = Some p ->
  exists s1 s2,
    BPM.FetchPage zero_data pid s = Val (Some F, s1)
    /\ BPM.UnpinPage pid d s1 = Val (true, s2)
    /\ BPM.pages s2 =
         <[F := BPM.mkPage pid (BPM.pin_count p) (BPM.is_dirty p || d) (BPM.data p)]>
           (BPM.pages s)
    /\ LRU.nodes (BPM.replacer s2) =
         (if decide (BPM.pin_count p = 0)
          then F :: filter (fun x => x <> F) (LRU.nodes (BPM.replacer s))
          else LRU.nodes (BPM.replacer s))
    /\ BPM.page_table s2 = BPM.page_table s
    /\ BPM.free_list s2 = BPM.free_list s
    /\ BPM.disk s2 = BPM.disk s.
Proof.
  intros Hok HF Hp.
  destruct (resident_frame s pid F Hok HF) as (p0 & Hp0 & Hid & Hge & Hlt & _ & Hrz).
  assert (p0 = p) as -> by congruence.
  pose proof Hok as ((_ & _ & _ & Hc) & _).
  destruct (Erase_nodes F _ Hc) as [He1 He2].
  unfold BPM.FetchPage. rewrite HF, Hp. simpl.
  eexists _, _. split; [reflexivity|].
  unfold BPM.UnpinPage. simpl. rewrite HF, list_lookup_insert_eq by done. simpl.
  rewrite (bool_decide_eq_true_2 (BPM.pin_count p + 1 > 0)) by lia. simpl.
  split; [reflexivity|]. simpl.
  rewrite list_insert_insert_eq, Hid.
  replace (BPM.pin_count p + 1 - 1) with (BPM.pin_count p) by lia.
  split; [done|]. split; [|done].
  destruct (decide (BPM.pin_count p = 0)) as [Hz|Hnz].
  - rewrite bool_decide_eq_true_2 by done.
    unfold LRU.Insert. simpl. rewrite decide_False by done. by rewrite He1.
  - rewrite bool_decide_eq_false_2 by done. rewrite He1.
    apply filter_ne_notin. intros Hin. by apply Hnz, Hrz.
Qed.

End PoolInvariant.

Example pinned_pool_reachable :
  BPM.run 0 [BPM.ONew; BPM.ONew; BPM.OUnpin 1 true] (BPM.new 0 2 (BPM.mkDisk ∅ 0 []))
  = Val BPM.pinned_pool.
Proof. vm_compute. reflexivity. Qed.

(** On [pinned_pool], [NewPage] takes frame 1 from the replacer; page
    0, pinned in frame 0, stays. *)
Lemma pinned_page_stays_witness :
  exists s s',
    BPM.run 0 [BPM.ONew; BPM.ONew; BPM.OUnpin 1 true]
      (BPM.new 0 2 (BPM.mkDisk ∅ 0 [])) = Val s
    /\ BPM.step 0 BPM.ONew s = Val s'
    /\ BPM.page_table s' !! 0 = Some 0%nat
    /\ BPM.page_table s' !! 2 = Some 1%nat.
Proof.
  destruct (pinned_page_stays 0 2 (BPM.mkDisk ∅ 0 [])
              [BPM.ONew; BPM.ONew; BPM.OUnpin 1 true] ltac:(simpl; lia)
              ltac:(apply (bool_decide_unpack _); vm_compute; exact I))
    as (s & Hrun & Hstep).
  destruct (Hstep BPM.ONew I) as (s' & Hs & Hkeep).
  exists s, s'. split; [exact Hrun|]. split; [exact Hs|].
  vm_compute in Hrun. injection Hrun as <-.
  split.
  - apply (Hkeep 0 0%nat (BPM.mkPage 0 1 false 0)); [reflexivity|reflexivity|].
    simpl. lia.
  - vm_compute in Hs. injection Hs as <-. reflexivity.
Defined.

Lemma pinned_pool_ok : BPM.pool_ok BPM.pinned_pool.
Proof. apply (bool_decide_unpack _). vm_compute. exact I. Qed.

(** [NewPage] on [pinned_pool] evicts the dirty page 1 from frame 1 and
    hands out the id 2. *)
Lemma NewPage_allocates_witness :
  exists s',
    BPM.NewPage 0 BPM.pinned_pool = Val (Some (1%nat, 2), s')
    /\ BPM.calls (BPM.disk s') =
         [BPM.AllocatePage 0; BPM.AllocatePage 1; BPM.WritePage 1 0;
          BPM.AllocatePage 2].
Proof.
  pose proof (NewPage_allocates 0 BPM.pinned_pool pinned_pool_ok) as H.
  change (BPM.victim_of BPM.pinned_pool) with (Some 1%nat) in H.
  destruct H as (p & s' & Hp & HN & Hcalls & _).
  exists s'. split; [exact HN|].
  injection Hp as <-. exact Hcalls.
Defined.

Lemma FlushPage_writes_back_witness :
  exists s',
    BPM.FlushPage 1 BPM.pinned_pool = Val (true, s')
    /\ BPM.contents (BPM.disk s') !! 1 = Some 0
    /\ BPM.FlushPage 1 s' = Val (true, s').
Proof.
  destruct (FlushPage_writes_back 1 BPM.pinned_pool 1%nat (BPM.mkPage 1 0 true 0)
              pinned_pool_ok eq_refl eq_refl ltac:(done))
    as (s' & HF & _ & Hdisk & _ & _ & _ & Hagain).
  exists s'. split; [exact HF|]. split; [exact (proj2 Hdisk)|exact Hagain].
Defined.

Lemma DeletePage_resident_witness :
  exists s',
    BPM.DeletePage 0 1 BPM.pinned_pool = Val (true, s')
    /\ BPM.free_list s' = [1%nat]
    /\ BPM.page_table s' !! 1 = None.
Proof.
  destruct (DeletePage_resident 0 1 BPM.pinned_pool 1%nat (BPM.mkPage 1 0 true 0)
              pinned_pool_ok eq_refl eq_refl ltac:(simpl; lia))
    as (s' & HD & Ht & _ & Hfl & _).
  exists s'. split; [exact HD|]. split; [exact Hfl|].
  rewrite Ht. apply lookup_delete_eq.
Defined.

Lemma FetchPage_UnpinPage_round_trip_witness :
  exists s1 s2,
    BPM.FetchPage 0 0 BPM.pinned_pool = Val (Some 0%nat, s1)
    /\ BPM.UnpinPage 0 true s1 = Val (true, s2)
    /\ BPM.pages s2 = [BPM.mkPage 0 1 true 0; BPM.mkPage 1 0 true 0]
    /\ LRU.nodes (BPM.replacer s2) = [1%nat].
Proof.
  destruct (FetchPage_UnpinPage_round_trip 0 0 true BPM.pinned_pool 0%nat
              (BPM.mkPage 0 1 false 0) pinned_pool_ok eq_refl eq_refl)
    as (s1 & s2 & HF & HU & Hp & Hn & _).
  exists s1, s2. split; [exact HF|]. split; [exact HU|].
  split; [exact Hp|exact Hn].
Defined.


(** ** [Erase] and [Size] of the replacer *)

Section LRUErase.
Context {T : Type} `{Countable T}.
Implicit Types (l : list T) (r : LRU.LRUReplacer T) (v x y : T).

Lemma Size_length r :
  LRU.consistent r -> LRU.Size r = Z.of_nat (length (LRU.nodes r)).
Proof.
  intros [Hnd Hm]. unfold LRU.Size. rewrite Hm. f_equal.
  by apply size_list_to_set.
Qed.

Lemma elem_of_nodes r v :
  LRU.consistent r -> v ∈ LRU.hashmap r <-> v ∈ LRU.nodes r.
Proof. intros [_ Hm]. by rewrite Hm, elem_of_list_to_set. Qed.

(** X20. After any sequence of [Insert], [Erase] and [Victim] calls,
    [Size] is the number of values in the list.  [Erase v] returns
    true exactly when [v] is present; it then removes [v] and nothing
    else, the other values keeping their order, and [Size] drops by
    one.  [Erase] of an absent value returns false and changes
    nothing. *)
Theorem lru_erase_and_size (ops : list (LRU.op (T:=T))) :
  let r := LRU.run ops in
  LRU.Size r = Z.of_nat (length (LRU.nodes r))
  /\ forall v,
       (LRU.Erase v r).1 = bool_decide (v ∈ LRU.nodes r)
       /\ LRU.nodes (LRU.Erase v r).2 = filter (fun x => x <> v) (LRU.nodes r)
       /\ (v ∉ LRU.nodes (LRU.Erase v r).2)
       /\ LRU.Size (LRU.Erase v r).2 =
            LRU.Size r - (if bool_decide (v ∈ LRU.nodes r) then 1 else 0)
       /\ (v ∉ LRU.nodes r -> (LRU.Erase v r).2 = r).
Proof.
  intros r. pose proof (run_consistent ops) as Hc. fold r in Hc.
  split; [by apply Size_length|]. intros v.
  pose proof (elem_of_nodes r v Hc) as Hin.
  pose proof Hc as [Hnd Hm].
  unfold LRU.Erase. destruct (decide (v ∈ LRU.hashmap r)) as [Hv|Hv]; simpl.
  - rewrite bool_decide_eq_true_2 by by apply Hin.
    split; [done|]. split; [by apply unlink_filter|]. split.
    + rewrite unlink_filter by done. rewrite list_elem_of_filter. by intros [? _].
    + split; [|by intros Hno; destruct Hno; apply Hin].
      unfold LRU.Size. simpl.
      rewrite size_difference by (by apply singleton_subseteq_l).
      rewrite size_singleton.
      assert (size (LRU.hashmap r) <> 0)%nat; [|lia].
      intros Hz. apply size_empty_inv in Hz. set_solver.
  - rewrite bool_decide_eq_false_2 by (by rewrite <- Hin).
    split; [done|]. split.
    + symmetry. apply filter_ne_notin. by rewrite <- Hin.
    + split; [by rewrite <- Hin|]. split; [lia|done].
Qed.

End LRUErase.


(** ** The directory of the extendible hash table *)

Section Bits.

Lemma agree_refl n x : EHT.agree n x x.
Proof. done. Qed.

Lemma agree_sym n x y : EHT.agree n x y -> EHT.agree n y x.
Proof. unfold EHT.agree. congruence. Qed.

Lemma agree_trans n x y z : EHT.agree n x y -> EHT.agree n y z -> EHT.agree n x z.
Proof. unfold EHT.agree. congruence. Qed.

Lemma agree_bits n x y :
  0 <= n ->
  EHT.agree n x y <-> forall m, 0 <= m < n -> Z.testbit x m = Z.testbit y m.
Proof.
  intros Hn. unfold EHT.agree. split.
  - intros Heq m Hm.
    rewrite <- (Z.mod_pow2_bits_low x n m), <- (Z.mod_pow2_bits_low y n m) by lia.
    by rewrite Heq.
  - intros Hb. apply Z.bits_inj'. intros m Hm.
    destruct (decide (m < n)) as [Hlt|Hge].
    + rewrite !Z.mod_pow2_bits_low by lia. apply Hb. lia.
    + rewrite !Z.mod_pow2_bits_high by lia. done.
Qed.

Lemma agree_le n m x y : 0 <= n <= m -> EHT.agree m x y -> EHT.agree n x y.
Proof.
  intros Hnm. rewrite !agree_bits by lia. intros Hb k Hk. apply Hb. lia.
Qed.

Lemma agree_succ n x y :
  0 <= n ->
  EHT.agree (n + 1) x y <-> EHT.agree n x y /\ Z.testbit x n = Z.testbit y n.
Proof.
  intros Hn. rewrite !agree_bits by lia. split.
  - intros Hb. split; [intros m Hm; apply Hb; lia|apply Hb; lia].
  - intros [Hb Hn1] m Hm. destruct (decide (m = n)) as [->|Hne]; [done|].
    apply Hb. lia.
Qed.

Lemma land_mask_testbit x n :
  0 <= n -> Z.land x (Z.shiftl 1 n) <> 0 <-> Z.testbit x n = true.
Proof.
  intros Hn. rewrite Z.shiftl_1_l. split.
  - intros Hne. destruct (Z.testbit x n) eqn:Hb; [done|]. exfalso. apply Hne.
    apply Z.bits_inj'. intros m Hm. rewrite Z.land_spec, Z.bits_0.
    rewrite Z.pow2_bits_eqb by done.
    destruct (Z.eqb_spec n m) as [<-|Hnm]; [by rewrite Hb|].
    apply andb_false_r.
  - intros Hb Hz. assert (Ht : Z.testbit (Z.land x (2 ^ n)) n = false)
      by (by rewrite Hz, Z.bits_0).
    rewrite Z.land_spec, Hb, Z.pow2_bits_true in Ht by done. done.
Qed.

Lemma land_ones_mod x n :
  0 <= n -> Z.land x (Z.shiftl 1 n - 1) = x mod 2 ^ n.
Proof.
  intros Hn. rewrite <- Z.land_ones by done. f_equal; unfold Z.ones; lia.
Qed.

Lemma agree_mod n x : 0 <= n -> EHT.agree n (x mod 2 ^ n) x.
Proof.
  intros Hn. unfold EHT.agree. apply Z.mod_mod. lia.
Qed.

Lemma agree_lt n x y :
  0 <= n -> 0 <= x < 2 ^ n -> 0 <= y < 2 ^ n -> EHT.agree n x y -> x = y.
Proof.
  intros Hn Hx Hy. unfold EHT.agree. by rewrite !Z.mod_small.
Qed.

End Bits.

Section Directory.
Context {K : Type} `{Countable K} {V : Type}.
Variable HashKey : K -> Z.
Notation table_ok := (EHT.table_ok HashKey).
Notation getIdx := (EHT.getIdx HashKey).
Notation Find := (EHT.Find HashKey).
Implicit Types (t : EHT.ExtendibleHash K V) (b : EHT.Bucket K V) (k key : K).

Lemma getIdx_mod t k :
  0 <= EHT.globalDepth t ->
  getIdx k t = HashKey k mod 2 ^ EHT.globalDepth t.
Proof. intros Hg. unfold EHT.getIdx. by apply land_ones_mod. Qed.

(** The slot of a key, and the bucket behind it. *)
Lemma slot_of_key t k :
  table_ok t ->
  exists (i a : nat) b,
    getIdx k t = Z.of_nat i /\ (i < length (EHT.buckets t))%nat
    /\ EHT.agree (EHT.globalDepth t) (Z.of_nat i) (HashKey k)
    /\ EHT.buckets t !! i = Some a /\ EHT.heap t !! a = Some b
    /\ EHT.bucket_at (getIdx k t) t = Val (a, b)
    /\ Find k t = Val (EHT.keyMap b !! k).
Proof.
  intros (Hg & Hlen & Hslots).
  pose proof (getIdx_mod t k Hg) as Hidx.
  assert (Hpow : 0 < 2 ^ EHT.globalDepth t) by (apply Z.pow_pos_nonneg; lia).
  pose proof (Z.mod_pos_bound (HashKey k) _ Hpow) as Hb. rewrite <- Hidx in Hb.
  set (i := Z.to_nat (getIdx k t)).
  assert (Hi : getIdx k t = Z.of_nat i) by (unfold i; lia).
  assert (Hlt : (i < length (EHT.buckets t))%nat) by lia.
  destruct (lookup_lt_is_Some_2 _ _ Hlt) as [a Ha].
  destruct (Hslots i a Ha) as (b & Hb0 & _).
  exists i, a, b. split; [done|]. split; [done|]. split.
  { rewrite <- Hi, Hidx. by apply agree_mod. }
  split; [done|]. split; [done|].
  assert (Hat : EHT.bucket_at (getIdx k t) t = Val (a, b)).
  { unfold EHT.bucket_at. fold i. rewrite Ha. simpl. by rewrite Hb0. }
  split; [done|]. unfold EHT.Find. by rewrite Hat.
Qed.

(** A key is looked up in the bucket its low bits lead to. *)
Lemma Find_in_bucket t (i a : nat) b k :
  table_ok t -> EHT.buckets t !! i = Some a -> EHT.heap t !! a = Some b ->
  EHT.agree (EHT.localDepth b) (HashKey k) (Z.of_nat i) ->
  Find k t = Val (EHT.keyMap b !! k).
Proof.
  intros Hok Ha Hb Hag.
  destruct (slot_of_key t k Hok) as (j & a' & b' & _ & Hlt & Hj & Ha' & Hb' & _ & ->).
  destruct Hok as (Hg & Hlen & Hslots).
  destruct (Hslots i a Ha) as (b0 & Hb0 & Hld & Hal & _).
  assert (b0 = b) as -> by congruence.
  assert (EHT.buckets t !! j = Some a) as Hja.
  { apply Hal; [done|]. eapply agree_trans; [|exact Hag].
    by apply (agree_le _ (EHT.globalDepth t)). }
  assert (a' = a) as -> by congruence. congruence.
Qed.

(** The map of one bucket is replaced. *)
Lemma update_bucket_ok t (a : nat) b (m' : gmap K V) :
  table_ok t -> EHT.heap t !! a = Some b ->
  (forall k, is_Some (m' !! k) -> forall i : nat,
     EHT.buckets t !! i = Some a ->
     EHT.agree (EHT.localDepth b) (HashKey k) (Z.of_nat i)) ->
  let t1 := EHT.mk (EHT.globalDepth t) (EHT.bucketNum t) (EHT.bucketSize t)
              (EHT.buckets t) (<[a := EHT.mkBucket (EHT.localDepth b) m']> (EHT.heap t)) in
  table_ok t1
  /\ forall k (i a0 : nat),
       getIdx k t = Z.of_nat i -> EHT.buckets t !! i = Some a0 ->
       Find k t1 = if decide (a0 = a) then Val (m' !! k) else Find k t.
Proof.
  intros Hok Hb Hkeys t1.
  assert (Hlt : (a < length (EHT.heap t))%nat) by by eapply lookup_lt_Some.
  split.
  - destruct Hok as (Hg & Hlen & Hslots). split; [done|]. split; [done|].
    intros i a0 Ha0. simpl in Ha0. destruct (Hslots i a0 Ha0) as (b0 & Hb0 & Hld & Hal & Hk0).
    simpl. destruct (decide (a0 = a)) as [->|Hne].
    + rewrite list_lookup_insert_eq by done. eexists. split; [done|]. simpl.
      assert (b0 = b) as -> by congruence.
      split; [done|]. split; [done|]. intros k Hk. by apply Hkeys.
    + rewrite list_lookup_insert_ne by done. by exists b0.
  - intros k i a0 Hi Ha0.
    destruct (slot_of_key t k Hok) as (j & a' & b' & Hj & _ & _ & Ha' & Hb' & _ & HF).
    assert (j = i) as -> by lia. assert (a' = a0) as -> by congruence.
    rewrite HF. unfold EHT.Find, EHT.bucket_at.
    replace (getIdx k t1) with (getIdx k t) by done. rewrite Hi, Nat2Z.id. simpl.
    rewrite Ha0. simpl. destruct (decide (a0 = a)) as [->|Hne].
    + rewrite list_lookup_insert_eq by done. done.
    + rewrite list_lookup_insert_ne by done. by rewrite Hb'.
Qed.

Lemma lookup_double {A} (l : list A) (j : nat) :
  (j < 2 * length l)%nat ->
  exists j' : nat,
    (j' < length l)%nat /\ (l ++ l) !! j = l !! j'
    /\ (Z.of_nat j = Z.of_nat j'
        \/ Z.of_nat j = Z.of_nat j' + Z.of_nat (length l)).
Proof.
  intros Hj. destruct (decide (j < length l)%nat).
  - exists j. rewrite lookup_app_l by done. split; [done|]. split; [done|by left].
  - exists (j - length l)%nat. rewrite lookup_app_r by lia.
    split; [lia|]. split; [done|right; lia].
Qed.

Lemma agree_shift n x : 0 <= n -> EHT.agree n (x + 2 ^ n) x.
Proof.
  intros Hn. unfold EHT.agree. rewrite <- (Z_mod_plus_full x 1 (2 ^ n)).
  f_equal. lia.
Qed.

(** The directory is doubled. *)
Lemma double_ok t bn :
  table_ok t ->
  let t' := EHT.mk (EHT.globalDepth t + 1) bn (EHT.bucketSize t)
              (EHT.buckets t ++ EHT.buckets t) (EHT.heap t) in
  table_ok t' /\ forall k, Find k t' = Find k t.
Proof.
  intros Hok t'. pose proof Hok as (Hg & Hlen & Hslots).
  assert (Hlook : forall j : nat, (j < 2 * length (EHT.buckets t))%nat ->
            exists j' : nat, (j' < length (EHT.buckets t))%nat
              /\ (EHT.buckets t ++ EHT.buckets t) !! j = EHT.buckets t !! j'
              /\ EHT.agree (EHT.globalDepth t) (Z.of_nat j') (Z.of_nat j)).
  { intros j Hj. destruct (lookup_double _ j Hj) as (j' & Hj' & Heq & Hor).
    exists j'. split; [done|]. split; [done|].
    destruct Hor as [-> | ->]; [done|]. rewrite Hlen.
    apply agree_sym. by apply agree_shift. }
  assert (Hok' : table_ok t').
  { split; [simpl; lia|]. split.
    { simpl. rewrite length_app, Nat2Z.inj_add, Hlen.
      replace (EHT.globalDepth t + 1) with (Z.succ (EHT.globalDepth t)) by lia.
      rewrite Z.pow_succ_r by done. lia. }
    intros i a Ha. simpl in Ha.
    assert (Hi : (i < 2 * length (EHT.buckets t))%nat).
    { apply lookup_lt_Some in Ha. rewrite length_app in Ha. lia. }
    destruct (Hlook i Hi) as (i' & Hi' & Heq & Hag). rewrite Heq in Ha.
    destruct (Hslots i' a Ha) as (b & Hb & Hld & Hal & Hk).
    exists b. simpl. split; [done|]. split; [lia|].
    assert (Hag' : EHT.agree (EHT.localDepth b) (Z.of_nat i') (Z.of_nat i))
      by by apply (agree_le _ (EHT.globalDepth t)).
    split.
    - intros j Hj. rewrite length_app in Hj.
      destruct (Hlook j ltac:(lia)) as (j' & Hj' & Heqj & Hagj). rewrite Heqj.
      assert (Hagj' : EHT.agree (EHT.localDepth b) (Z.of_nat j') (Z.of_nat j))
        by by apply (agree_le _ (EHT.globalDepth t)).
      rewrite (Hal j' Hj'). split; intros Hx.
      + eapply agree_trans; [|exact Hag']. eapply agree_trans; [|exact Hx].
        by apply agree_sym.
      + eapply agree_trans; [exact Hagj'|]. eapply agree_trans; [exact Hx|].
        by apply agree_sym.
    - intros k Hkin. eapply agree_trans; [|exact Hag']. by apply Hk. }
  split; [done|]. intros k.
  destruct (slot_of_key t k Hok) as (i & a & b & _ & Hlt & Hag & Ha & Hb & _ & ->).
  destruct (Hslots i a Ha) as (b0 & Hb0 & Hld & _).
  assert (b0 = b) as -> by congruence.
  apply (Find_in_bucket t' i a b k Hok'); simpl.
  - by rewrite lookup_app_l.
  - done.
  - apply agree_sym. by apply (agree_le _ (EHT.globalDepth t)).
Qed.

Lemma lookup_filter_key_true (P : K -> Prop)
    `{Hdec : forall kv : K * V, Decision (P kv.1)} (m : gmap K V) k :
  P k -> filter (fun kv => P kv.1) m !! k = m !! k.
Proof.
  intros HP. apply option_eq. intros v. rewrite map_lookup_filter_Some.
  simpl. naive_solver.
Qed.

Lemma lookup_filter_key_false (P : K -> Prop)
    `{Hdec : forall kv : K * V, Decision (P kv.1)} (m : gmap K V) k :
  ~ P k -> filter (fun kv => P kv.1) m !! k = None.
Proof.
  intros HP. apply map_lookup_filter_None. right. intros v _. done.
Qed.

(** The bucket at [cur], whose local depth is below the global depth,
    is split on the next bit. *)
Lemma split_ok t (cur : nat) b bn :
  table_ok t -> EHT.heap t !! cur = Some b ->
  EHT.localDepth b < EHT.globalDepth t ->
  let mask := Z.shiftl 1 (EHT.localDepth b) in
  let ld := EHT.localDepth b + 1 in
  let moved := filter (fun kv => Z.land (HashKey kv.1) mask <> 0) (EHT.keyMap b) in
  let kept := filter (fun kv => ~ Z.land (HashKey kv.1) mask <> 0) (EHT.keyMap b) in
  let t' := EHT.mk (EHT.globalDepth t) bn (EHT.bucketSize t)
              (EHT.repoint cur (length (EHT.heap t)) mask (EHT.buckets t))
              (<[cur := EHT.mkBucket ld kept]> (EHT.heap t)
               ++ [EHT.mkBucket ld moved]) in
  (0 <= EHT.localDepth b -> table_ok t')
  /\ (0 <= EHT.localDepth b -> forall k, Find k t' = Find k t).
Proof.
  intros Hok Hb Hlt mask ld moved kept t'.
  pose proof Hok as (Hg & Hlen & Hslots).
  assert (Hcur : (cur < length (EHT.heap t))%nat) by by eapply lookup_lt_Some.
  assert (Hrep : forall j : nat,
            EHT.buckets t' !! j =
            (fun a => if decide (a = cur /\ Z.land (Z.of_nat j) mask <> 0)
                      then length (EHT.heap t) else a) <$> EHT.buckets t !! j).
  { intros j. simpl. unfold EHT.repoint. by rewrite list_lookup_imap. }
  assert (Haddr : forall (j a : nat), EHT.buckets t !! j = Some a ->
            (a < length (EHT.heap t))%nat).
  { intros j a Ha. destruct (Hslots j a Ha) as (b0 & Hb0 & _).
    by eapply lookup_lt_Some. }
  assert (Hnew : EHT.heap t' !! length (EHT.heap t) = Some (EHT.mkBucket ld moved)).
  { simpl. rewrite lookup_app_r by (rewrite length_insert; lia).
    rewrite length_insert, Nat.sub_diag. done. }
  assert (Hcur' : EHT.heap t' !! cur = Some (EHT.mkBucket ld kept)).
  { simpl. rewrite lookup_app_l by (rewrite length_insert; lia).
    by rewrite list_lookup_insert_eq. }
  assert (Hold : forall a : nat, (a < length (EHT.heap t))%nat -> a <> cur ->
            EHT.heap t' !! a = EHT.heap t !! a).
  { intros a Ha Hne. simpl. rewrite lookup_app_l by (rewrite length_insert; lia).
    by rewrite list_lookup_insert_ne. }
  assert (Hparts : 0 <= EHT.localDepth b -> table_ok t').
  { intros Hld0.
    assert (Hbit : forall x, Z.land x mask <> 0 <-> Z.testbit x (EHT.localDepth b) = true)
      by (intros x; by apply land_mask_testbit).
    split; [done|]. split.
    { simpl. unfold EHT.repoint. by rewrite length_imap. }
    intros i a' Ha'. rewrite Hrep in Ha'.
    destruct (EHT.buckets t !! i) as [a|] eqn:Ha; [|done]. simpl in Ha'.
    injection Ha' as <-.
    destruct (Hslots i a Ha) as (b0 & Hb0 & Hld & Hal & Hk).
    assert (Hlen' : length (EHT.buckets t') = length (EHT.buckets t)).
    { simpl. unfold EHT.repoint. by rewrite length_imap. }
    rewrite Hlen'.
    destruct (decide (a = cur)) as [->|Hne].
    - assert (b0 = b) as -> by congruence.
      destruct (decide (cur = cur /\ Z.land (Z.of_nat i) mask <> 0)) as [[_ Hi]|Hi].
      + exists (EHT.mkBucket ld moved). split; [done|]. simpl. split; [lia|].
        apply Hbit in Hi. split.
        * intros j Hj. rewrite Hrep. unfold ld. rewrite agree_succ by done.
          rewrite Hi, <- (Hal j Hj).
          destruct (EHT.buckets t !! j) as [aj|] eqn:Haj; simpl; [|naive_solver].
          pose proof (Haddr j aj Haj) as Hlt_aj.
          destruct (decide (aj = cur /\ Z.land (Z.of_nat j) mask <> 0)) as [[-> Hjb]|Hjb].
          -- apply Hbit in Hjb. naive_solver.
          -- split.
             ++ intros [= ->]. lia.
             ++ intros [[= ->] Hjt]. exfalso. apply Hjb. split; [done|].
                by apply Hbit.
        * intros k Hkin. unfold ld. rewrite agree_succ by done.
          destruct Hkin as [v Hv]. unfold moved in Hv.
          apply map_lookup_filter_Some in Hv as [Hv HP]. simpl in HP.
          apply Hbit in HP. split; [by apply Hk; eexists|]. by rewrite HP, Hi.
      + assert (Hi0 : Z.testbit (Z.of_nat i) (EHT.localDepth b) = false).
        { destruct (Z.testbit (Z.of_nat i) (EHT.localDepth b)) eqn:Ht; [|done].
          exfalso. apply Hi. split; [done|]. by apply Hbit. }
        exists (EHT.mkBucket ld kept). split; [done|]. simpl. split; [lia|]. split.
        * intros j Hj. rewrite Hrep. unfold ld. rewrite agree_succ by done.
          rewrite Hi0, <- (Hal j Hj).
          destruct (EHT.buckets t !! j) as [aj|] eqn:Haj; simpl; [|naive_solver].
          pose proof (Haddr j aj Haj) as Hlt_aj.
          destruct (decide (aj = cur /\ Z.land (Z.of_nat j) mask <> 0)) as [[-> Hjb]|Hjb].
          -- apply Hbit in Hjb. split.
             ++ intros [= Heq]. lia.
             ++ intros [_ Hjt]. congruence.
          -- split.
             ++ intros [= ->]. split; [done|].
                destruct (Z.testbit (Z.of_nat j) (EHT.localDepth b)) eqn:Ht; [|done].
                exfalso. apply Hjb. split; [done|]. by apply Hbit.
             ++ by intros [[= ->] _].
        * intros k Hkin. unfold ld. rewrite agree_succ by done.
          destruct Hkin as [v Hv]. unfold kept in Hv.
          apply map_lookup_filter_Some in Hv as [Hv HP]. simpl in HP.
          split; [by apply Hk; eexists|]. rewrite Hi0.
          destruct (Z.testbit (HashKey k) (EHT.localDepth b)) eqn:Ht; [|done].
          exfalso. apply HP. by apply Hbit.
    - rewrite decide_False by naive_solver.
      exists b0. rewrite (Hold a (Haddr i a Ha) Hne).
      split; [done|]. split; [done|]. split; [|done].
      intros j Hj. rewrite Hrep, <- (Hal j Hj).
      destruct (EHT.buckets t !! j) as [aj|] eqn:Haj; simpl; [|naive_solver].
      pose proof (Haddr j aj Haj) as Hlt_aj. pose proof (Haddr i a Ha) as Hlt_a.
      destruct (decide (aj = cur /\ Z.land (Z.of_nat j) mask <> 0)) as [[-> Hjb]|Hjb].
      + split; [intros [= Heq]; lia|intros [= Heq]; congruence].
      + done. }
  split; [done|]. intros Hld0 k. pose proof (Hparts Hld0) as Hok'.
  assert (Hbit : forall x, Z.land x mask <> 0 <-> Z.testbit x (EHT.localDepth b) = true)
    by (intros x; by apply land_mask_testbit).
  destruct (slot_of_key t k Hok) as (i & a & bk & _ & Hi & Hag & Ha & Hbk & _ & ->).
  destruct (Hslots i a Ha) as (b0 & Hb0 & Hld & _).
  assert (b0 = bk) as -> by congruence.
  destruct (decide (a = cur)) as [->|Hne].
  - assert (bk = b) as -> by congruence.
    assert (Hag1 : EHT.agree (EHT.localDepth b + 1) (HashKey k) (Z.of_nat i)).
    { apply agree_sym. apply (agree_le _ (EHT.globalDepth t)); [lia|done]. }
    pose proof Hag1 as Hag2. apply agree_succ in Hag2 as [_ Htb]; [|done].
    destruct (decide (Z.land (HashKey k) mask <> 0)) as [HP|HP].
    + rewrite (Find_in_bucket t' i (length (EHT.heap t)) (EHT.mkBucket ld moved) k Hok').
      * simpl. unfold moved.
        by rewrite (lookup_filter_key_true (fun k => Z.land (HashKey k) mask <> 0)).
      * rewrite Hrep, Ha. simpl. rewrite decide_True; [done|]. split; [done|].
        apply Hbit. rewrite <- Htb. by apply Hbit.
      * done.
      * done.
    + rewrite (Find_in_bucket t' i cur (EHT.mkBucket ld kept) k Hok').
      * simpl. unfold kept.
        by rewrite (lookup_filter_key_true (fun k => ~ Z.land (HashKey k) mask <> 0)).
      * rewrite Hrep, Ha. simpl. rewrite decide_False; [done|]. intros [_ Hib].
        apply HP. apply Hbit. rewrite Htb. by apply Hbit.
      * done.
      * done.
  - rewrite (Find_in_bucket t' i a bk k Hok').
    + done.
    + rewrite Hrep, Ha. simpl. by rewrite decide_False by naive_solver.
    + rewrite (Hold a (Haddr i a Ha) Hne). done.
    + apply agree_sym. by apply (agree_le _ (EHT.globalDepth t)).
Qed.

Lemma double_slot t bn k :
  table_ok t ->
  let t' := EHT.mk (EHT.globalDepth t + 1) bn (EHT.bucketSize t)
              (EHT.buckets t ++ EHT.buckets t) (EHT.heap t) in
  EHT.buckets t' !! Z.to_nat (getIdx k t')
  = EHT.buckets t !! Z.to_nat (getIdx k t).
Proof.
  intros Hok t'. pose proof Hok as (Hg & Hlen & _).
  assert (Hg' : 0 <= EHT.globalDepth t') by (simpl; lia).
  rewrite (getIdx_mod t' k Hg'), (getIdx_mod t k Hg). simpl.
  assert (Hpow : 0 < 2 ^ EHT.globalDepth t) by (apply Z.pow_pos_nonneg; lia).
  assert (Hpow' : 2 ^ (EHT.globalDepth t + 1) = 2 * 2 ^ EHT.globalDepth t).
  { replace (EHT.globalDepth t + 1) with (Z.succ (EHT.globalDepth t)) by lia.
    by rewrite Z.pow_succ_r. }
  pose proof (Z.mod_pos_bound (HashKey k) (2 ^ (EHT.globalDepth t + 1)) ltac:(lia)) as Hb1.
  pose proof (Z.mod_pos_bound (HashKey k) (2 ^ EHT.globalDepth t) Hpow) as Hb0.
  set (j := Z.to_nat (HashKey k mod 2 ^ (EHT.globalDepth t + 1))).
  destruct (lookup_double (EHT.buckets t) j ltac:(unfold j; lia)) as (j' & Hj' & -> & Hor).
  f_equal.
  assert (Hag : EHT.agree (EHT.globalDepth t) (Z.of_nat j') (HashKey k mod 2 ^ EHT.globalDepth t)).
  { apply (agree_trans _ _ (Z.of_nat j)).
    - destruct Hor as [-> | ->]; [done|]. rewrite Hlen. apply agree_sym.
      by apply agree_shift.
    - apply (agree_trans _ _ (HashKey k)); [|apply agree_sym; by apply agree_mod].
      apply (agree_le _ (EHT.globalDepth t + 1)); [lia|].
      unfold j. rewrite Z2Nat.id by lia. apply agree_mod. lia. }
  apply agree_lt in Hag; [lia|done|lia|lia].
Qed.

Lemma split_slot t (cur : nat) b bn k :
  table_ok t -> EHT.heap t !! cur = Some b ->
  EHT.buckets t !! Z.to_nat (getIdx k t) = Some cur ->
  let mask := Z.shiftl 1 (EHT.localDepth b) in
  let ld := EHT.localDepth b + 1 in
  let moved := filter (fun kv => Z.land (HashKey kv.1) mask <> 0) (EHT.keyMap b) in
  let kept := filter (fun kv => ~ Z.land (HashKey kv.1) mask <> 0) (EHT.keyMap b) in
  let t' := EHT.mk (EHT.globalDepth t) bn (EHT.bucketSize t)
              (EHT.repoint cur (length (EHT.heap t)) mask (EHT.buckets t))
              (<[cur := EHT.mkBucket ld kept]> (EHT.heap t)
               ++ [EHT.mkBucket ld moved]) in
  exists (a' : nat) b',
    EHT.buckets t' !! Z.to_nat (getIdx k t') = Some a'
    /\ EHT.heap t' !! a' = Some b' /\ EHT.localDepth b' = ld.
Proof.
  intros Hok Hb Hslot mask ld moved kept t'.
  assert (Hcur : (cur < length (EHT.heap t))%nat) by by eapply lookup_lt_Some.
  replace (getIdx k t') with (getIdx k t) by done.
  simpl. unfold EHT.repoint. rewrite list_lookup_imap, Hslot. simpl.
  destruct (decide (cur = cur /\ _)).
  - eexists _, _. split; [done|].
    rewrite lookup_app_r by (rewrite length_insert; lia).
    rewrite length_insert, Nat.sub_diag. done.
  - eexists _, _. split; [done|].
    rewrite lookup_app_l by (rewrite length_insert; lia).
    by rewrite list_lookup_insert_eq.
Qed.

Lemma full_bucket_key b key (size : Z) :
  ~ (is_Some (EHT.keyMap b !! key) \/ Z.of_nat (base.size (EHT.keyMap b)) < size) ->
  1 <= size ->
  exists k v, EHT.keyMap b !! k = Some v /\ k <> key.
Proof.
  intros Hfull Hsz.
  assert (Hne : EHT.keyMap b <> ∅).
  { intros He. apply Hfull. right. rewrite He, map_size_empty. lia. }
  apply map_choose in Hne as (k & v & Hk). exists k, v. split; [done|].
  intros ->. apply Hfull. left. by eexists.
Qed.

Lemma split_step key (cur : nat) t b bn :
  table_ok t ->
  EHT.buckets t !! Z.to_nat (getIdx key t) = Some cur ->
  EHT.heap t !! cur = Some b ->
  0 <= EHT.localDepth b < EHT.globalDepth t ->
  let mask := Z.shiftl 1 (EHT.localDepth b) in
  let ld := EHT.localDepth b + 1 in
  let moved := filter (fun kv => Z.land (HashKey kv.1) mask <> 0) (EHT.keyMap b) in
  let kept := filter (fun kv => ~ Z.land (HashKey kv.1) mask <> 0) (EHT.keyMap b) in
  let t' := EHT.mk (EHT.globalDepth t) bn (EHT.bucketSize t)
              (EHT.repoint cur (length (EHT.heap t)) mask (EHT.buckets t))
              (<[cur := EHT.mkBucket ld kept]> (EHT.heap t)
               ++ [EHT.mkBucket ld moved]) in
  exists (cur' : nat) b',
    EHT.buckets t' !! Z.to_nat (getIdx key t') = Some cur'
    /\ table_ok t' /\ (forall k, Find k t' = Find k t)
    /\ EHT.heap t' !! cur' = Some b'
    /\ EHT.localDepth b' = EHT.localDepth b + 1
    /\ (forall B key0, EHT.distinct_from HashKey B key0 t ->
          EHT.distinct_from HashKey B key0 t').
Proof.
  intros Hok Hslot Hb Hld mask ld moved kept t'.
  destruct (split_ok t cur b bn Hok Hb ltac:(lia)) as [Hok' HF].
  destruct (split_slot t cur b bn key Hok Hb Hslot) as (a' & b' & Ha' & Hb' & Hld').
  exists a', b'. split; [done|]. split; [apply Hok'; lia|].
  split; [apply HF; lia|]. split; [done|]. split; [done|].
  intros B key0 Hd. unfold EHT.distinct_from in *. simpl.
  pose proof (Forall_lookup_1 _ _ _ _ Hd Hb) as Hdb. simpl in Hdb.
  apply Forall_app. split.
  - apply Forall_insert; [done|]. simpl. intros k v Hkv.
    apply map_lookup_filter_Some in Hkv as [Hkv _]. by apply (Hdb k v).
  - apply Forall_singleton. simpl. intros k v Hkv.
    apply map_lookup_filter_Some in Hkv as [Hkv _]. by apply (Hdb k v).
Qed.

(** One pass of the loop of [Insert] on the bucket of the key. *)
Lemma Insert_body_spec key (value : V) (cur : nat) t b :
  table_ok t ->
  EHT.buckets t !! Z.to_nat (getIdx key t) = Some cur ->
  EHT.heap t !! cur = Some b ->
  if decide (is_Some (EHT.keyMap b !! key)
             \/ Z.of_nat (size (EHT.keyMap b)) < EHT.bucketSize t)
  then
    exists t',
      EHT.Insert_body HashKey key value cur t = Val (inl t')
      /\ table_ok t' /\ Find key t' = Val (Some value)
      /\ (forall k', k' <> key -> Find k' t' = Find k' t)
      /\ EHT.buckets t' = EHT.buckets t
      /\ EHT.globalDepth t' = EHT.globalDepth t
      /\ EHT.bucketNum t' = EHT.bucketNum t
      /\ EHT.bucketSize t' = EHT.bucketSize t
  else
    exists (cur' : nat) t' b',
      EHT.Insert_body HashKey key value cur t = Val (inr (cur', t'))
      /\ table_ok t' /\ (forall k, Find k t' = Find k t)
      /\ EHT.buckets t' !! Z.to_nat (getIdx key t') = Some cur'
      /\ EHT.heap t' !! cur' = Some b'
      /\ EHT.localDepth b' = EHT.localDepth b + 1
      /\ EHT.globalDepth t' = Z.max (EHT.globalDepth t) (EHT.localDepth b + 1)
      /\ EHT.bucketSize t' = EHT.bucketSize t
      /\ (forall B key0, EHT.distinct_from HashKey B key0 t ->
            EHT.distinct_from HashKey B key0 t').
Proof.
  intros Hok Hslot Hb. pose proof Hok as (Hg & Hlen & Hslots).
  destruct (slot_of_key t key Hok) as (i & a & b0 & Hi & Hlt & Hag & Ha & Hb0 & _ & HF).
  rewrite Hi, Nat2Z.id in Hslot. assert (a = cur) as -> by congruence.
  assert (b0 = b) as -> by congruence.
  destruct (Hslots i cur Ha) as (b1 & Hb1 & Hld & Hal & Hk).
  assert (b1 = b) as -> by congruence.
  unfold EHT.Insert_body. rewrite Hb. simpl.
  destruct (decide (is_Some (EHT.keyMap b !! key)
                    \/ Z.of_nat (size (EHT.keyMap b)) < EHT.bucketSize t)) as [Hroom|Hfull].
  - destruct (update_bucket_ok t cur b (<[key := value]> (EHT.keyMap b)) Hok Hb)
      as [Hok' HFind].
    { intros k Hkin i' Hi'. destruct (decide (k = key)) as [->|Hne].
      - apply (agree_trans _ _ (Z.of_nat i)).
        + apply agree_sym. by apply (agree_le _ (EHT.globalDepth t)).
        + destruct (Hslots i' cur Hi') as (b2 & Hb2 & _ & Hal2 & _).
          assert (b2 = b) as -> by congruence. by apply Hal2.
      - rewrite lookup_insert_ne in Hkin by done.
        destruct (Hslots i' cur Hi') as (b2 & Hb2 & _ & _ & Hk2).
        assert (b2 = b) as -> by congruence. by apply Hk2. }
    eexists. split; [reflexivity|]. split; [done|]. split.
    { rewrite (HFind key i cur Hi Ha), decide_True by done.
      by rewrite lookup_insert_eq. }
    split; [|done].
    intros k' Hne.
    destruct (slot_of_key t k' Hok) as (i' & a' & b' & Hi' & _ & _ & Ha' & Hb' & _ & HF').
    rewrite (HFind k' i' a' Hi' Ha'). destruct (decide (a' = cur)) as [->|Hne'].
    + rewrite lookup_insert_ne by done. rewrite HF'. congruence.
    + done.
  - destruct (decide (EHT.localDepth b + 1 > EHT.globalDepth t)) as [Hgt|Hle].
    + set (t0 := EHT.mk (EHT.globalDepth t + 1) (EHT.bucketNum t) (EHT.bucketSize t)
                   (EHT.buckets t ++ EHT.buckets t) (EHT.heap t)).
      destruct (double_ok t (EHT.bucketNum t) Hok) as [Hok0 HF0]. fold t0 in Hok0, HF0.
      assert (Hslot0 : EHT.buckets t0 !! Z.to_nat (getIdx key t0) = Some cur).
      { unfold t0. rewrite double_slot by done. by rewrite Hi, Nat2Z.id. }
      destruct (split_step key cur t0 b (EHT.bucketNum t + 1) Hok0 Hslot0 Hb
                  ltac:(simpl; lia))
        as (cur' & b' & Hc' & Hok' & HF' & Hb' & Hld' & Hdist).
      simpl in Hc'. simpl. rewrite Hc'. simpl.
      eexists _, _, b'. split; [reflexivity|]. split; [exact Hok'|].
      split; [by intros k; rewrite HF'|]. split; [exact Hc'|].
      split; [exact Hb'|]. split; [done|]. split; [simpl; lia|].
      split; [done|]. intros B key0 Hd. by apply Hdist.
    + destruct (split_step key cur t b (EHT.bucketNum t + 1) Hok
                  ltac:(by rewrite Hi, Nat2Z.id) Hb ltac:(lia))
        as (cur' & b' & Hc' & Hok' & HF' & Hb' & Hld' & Hdist).
      simpl in Hc'. simpl. rewrite Hc'. simpl.
      eexists _, _, b'. split; [reflexivity|]. split; [exact Hok'|].
      split; [done|]. split; [exact Hc'|].
      split; [exact Hb'|]. split; [done|]. split; [simpl; lia|].
      split; [done|]. done.
Qed.

Lemma Insert_loop_spec key (value : V) : forall (fuel : nat) t (cur : nat),
  table_ok t ->
  EHT.buckets t !! Z.to_nat (getIdx key t) = Some cur ->
  match EHT.Insert_loop HashKey fuel key value cur t with
  | Val t' =>
      table_ok t' /\ Find key t' = Val (Some value)
      /\ (forall k', k' <> key -> Find k' t' = Find k' t)
      /\ EHT.bucketSize t' = EHT.bucketSize t
  | Abort => False
  | NoFuel => fuel = 0%nat \/ Find key t = Val None
  end.
Proof.
  induction fuel as [|fuel IH]; intros t cur Hok Hslot; simpl; [by left|].
  destruct (slot_of_key t key Hok) as (i & a & b & Hi & _ & _ & Ha & Hb & _ & HF).
  rewrite Hi, Nat2Z.id in Hslot. assert (a = cur) as -> by congruence.
  pose proof (Insert_body_spec key value cur t b Hok
                ltac:(by rewrite Hi, Nat2Z.id) Hb) as Hbody.
  destruct (decide (is_Some (EHT.keyMap b !! key)
                    \/ Z.of_nat (size (EHT.keyMap b)) < EHT.bucketSize t)) as [Hroom|Hfull].
  - destruct Hbody as (t' & -> & Hok' & HF' & Hother & _ & _ & _ & Hbs). simpl. done.
  - destruct Hbody as (cur' & t' & b' & -> & Hok' & HF' & Hslot' & _ & _ & _ & Hbs & _).
    simpl. specialize (IH t' cur' Hok' Hslot').
    destruct (EHT.Insert_loop HashKey fuel key value cur' t') as [t2| |]; [|done|].
    + destruct IH as (Hok2 & HF2 & Hother2 & Hbs2). split; [done|]. split; [done|].
      split; [|congruence]. intros k' Hne. by rewrite Hother2, HF'.
    + right. rewrite HF. destruct (EHT.keyMap b !! key) eqn:Hkey; [|done].
      exfalso. apply Hfull. left. by eexists.
Qed.

Lemma Insert_loop_returns key (value : V) (B : Z) :
  forall (fuel : nat) t (cur : nat) b,
    table_ok t ->
    EHT.buckets t !! Z.to_nat (getIdx key t) = Some cur ->
    EHT.heap t !! cur = Some b ->
    1 <= EHT.bucketSize t -> 0 <= B ->
    EHT.distinct_from HashKey B key t ->
    (Z.to_nat (B - EHT.localDepth b) < fuel)%nat ->
    exists t',
      EHT.Insert_loop HashKey fuel key value cur t = Val t'
      /\ EHT.globalDepth t' <= Z.max (EHT.globalDepth t) B.
Proof.
  induction fuel as [|fuel IH]; intros t cur b Hok Hslot Hb Hsz HB Hd Hfuel; [lia|].
  simpl.
  pose proof (Insert_body_spec key value cur t b Hok Hslot Hb) as Hbody.
  destruct (decide (is_Some (EHT.keyMap b !! key)
                    \/ Z.of_nat (size (EHT.keyMap b)) < EHT.bucketSize t)) as [Hroom|Hfull].
  - destruct Hbody as (t' & -> & _ & _ & _ & _ & Hgd & _). simpl.
    exists t'. split; [done|]. lia.
  - destruct Hbody as (cur' & t' & b' & -> & Hok' & HF' & Hslot' & Hb' & Hld' & Hgd
                       & Hbs & Hdist).
    simpl.
    assert (Hlt : EHT.localDepth b < B).
    { destruct (full_bucket_key b key _ Hfull Hsz) as (k & v & Hk & Hne).
      pose proof (Forall_lookup_1 _ _ _ _ Hd Hb k v Hk) as Hkd. simpl in Hkd.
      destruct Hkd as [?|Hnag]; [done|].
      destruct (decide (EHT.localDepth b < B)) as [?|Hge]; [done|]. exfalso.
      apply Hnag.
      destruct (slot_of_key t key Hok) as (i & a & b0 & Hi & _ & Hag & Ha & Hb0 & _).
      rewrite Hi, Nat2Z.id in Hslot. assert (a = cur) as -> by congruence.
      destruct Hok as (_ & _ & Hslots).
      destruct (Hslots i cur Ha) as (b1 & Hb1 & Hld & _ & Hkeys).
      assert (b1 = b) as -> by congruence.
      apply (agree_le _ (EHT.localDepth b)); [lia|].
      apply (agree_trans _ _ (Z.of_nat i)); [by apply Hkeys; eexists|].
      by apply (agree_le _ (EHT.globalDepth t)). }
    destruct (IH t' cur' b' Hok' Hslot' Hb' ltac:(lia) HB (Hdist B key Hd)
                ltac:(lia)) as (t2 & -> & Hgd2).
    exists t2. split; [done|]. lia.
Qed.

Lemma new_table_ok (size : Z) : table_ok (EHT.new (V:=V) size).
Proof.
  split; [done|]. split; [done|].
  intros i a Ha. destruct i as [|i]; [|done]. injection Ha as <-.
  eexists. split; [done|]. simpl. split; [lia|]. split.
  - intros j Hj. assert (j = 0%nat) as -> by lia. done.
  - intros k [v Hv]. done.
Qed.



(** X23. [Remove] on a table whose directory is in order returns
    true exactly when the key was stored; afterwards [Find] of the key
    fails and [Find] of every other key gives what it gave before.
    The directory is never shrunk, and a table that does not hold the
    key is left as it was. *)
Theorem Remove_then_Find key t :
  table_ok t ->
  exists (r : bool) t',
    EHT.Remove HashKey key t = Val (r, t')
    /\ table_ok t'
    /\ (r = true <-> exists v, Find key t = Val (Some v))
    /\ Find key t' = Val None
    /\ (forall k', k' <> key -> Find k' t' = Find k' t)
    /\ (r = false -> t' = t)
    /\ EHT.buckets t' = EHT.buckets t
    /\ EHT.globalDepth t' = EHT.globalDepth t
    /\ EHT.bucketNum t' = EHT.bucketNum t.
Proof.
  intros Hok.
  destruct (slot_of_key t key Hok) as (i & a & b & Hi & _ & _ & Ha & Hb & Hat & HF).
  unfold EHT.Remove. rewrite Hat. simpl. rewrite HF.
  destruct (EHT.keyMap b !! key) as [v|] eqn:Hkey.
  - destruct (update_bucket_ok t a b (delete key (EHT.keyMap b)) Hok Hb)
      as [Hok' HFind].
    { intros k Hkin i' Hi'. destruct (decide (k = key)) as [->|Hne].
      - rewrite lookup_delete_eq in Hkin. by destruct Hkin.
      - rewrite lookup_delete_ne in Hkin by done.
        destruct Hok as (_ & _ & Hslots).
        destruct (Hslots i' a Hi') as (b2 & Hb2 & _ & _ & Hk2).
        assert (b2 = b) as -> by congruence. by apply Hk2. }
    eexists true, _. split; [reflexivity|]. split; [done|].
    split; [split; [by eexists|done]|]. split.
    { rewrite (HFind key i a Hi Ha), decide_True by done.
      by rewrite lookup_delete_eq. }
    split; [|done]. intros k' Hne.
    destruct (slot_of_key t k' Hok) as (i' & a' & b' & Hi' & _ & _ & Ha' & Hb' & _ & HF').
    rewrite (HFind k' i' a' Hi' Ha'). destruct (decide (a' = a)) as [->|Hne'].
    + rewrite lookup_delete_ne by done. rewrite HF'. congruence.
    + done.
  - exists false, t. split; [done|]. split; [done|].
    split; [split; [done|by intros [v [=]]]|]. done.
Qed.

End Directory.

Lemma inserted_table_ok :
  exists t : EHT.ExtendibleHash Z Z,
    EHT.Insert (fun x => x) 1 5 7 (EHT.new 2) = Val t
    /\ EHT.table_ok (fun x => x) t.
Proof.
  pose proof (Insert_loop_spec (fun x => x) 5 7 1 (EHT.new 2) 0%nat
                (new_table_ok _ 2) eq_refl) as Hloop.
  destruct (EHT.Insert_loop (fun x => x) 1 5 7 0 (EHT.new 2)) as [t| |] eqn:E;
    [|done|by destruct Hloop].
  exists t. split; [exact E|]. by destruct Hloop.
Qed.



Lemma Remove_then_Find_witness :
  exists (t t' : EHT.ExtendibleHash Z Z),
    EHT.Insert (fun x => x) 1 5 7 (EHT.new 2) = Val t
    /\ EHT.Remove (fun x => x) 5 t = Val (true, t')
    /\ EHT.Find (fun x => x) 5 t' = Val None.
Proof.
  destruct inserted_table_ok as (t & Hi & Hok).
  destruct (Remove_then_Find (fun x => x) 5 t Hok) as (r & t' & HR & _ & Hr & HF & _).
  exists t, t'. split; [exact Hi|].
  assert (r = true) as ->.
  { apply Hr. exists 7. vm_compute in Hi. injection Hi as <-.
    vm_compute. reflexivity. }
  split; [exact HR|exact HF].
Defined.
